(* ===== verification/_CoqProject ===== *)
-Q . S2P
Prelude.v
Domain.v
Externals.v
SampleExternals.v
Protocol.v
StrictJson.v
StrictJsonProofs.v
Framing.v
Handshake.v
InstallRecord.v
Process.v
Scheduler.v
Improvement.v
Schema.v
StoreMonad.v
Tables.v
TaskStore.v
Lifecycle.v
InteractionStore.v
Recovery.v
Review.v
Retention.v
Blobs.v
EngineStore.v
Startup.v
EngineOperations.v
SampleSerde.v
Ledger.v
Carry.v
TaskProofs.v
Finalize.v
InteractionProofs.v
RecoveryProofs.v
ReviewProofs.v
EngineProofs.v
Samples.v
Slots.v
Integrity.v
RetentionProofs.v
BlobProofs.v
Staging.v
StartupProofs.v
Compaction.v
Config.v
Reachable.v
Guarantees.v
Outcomes.v
Responses.v
Reviews.v
EngineGuarantees.v
Reopening.v
Writer.v
Collecting.v
Publishing.v
Drift.v
