(* ===== verification/Prelude.v ===== *)
(** * Codex Agent Mesh: verification development (root file)

    Codex Agent Mesh is a daemon that accepts tasks from an authenticated client on the same
    machine, runs each of them in one of several provider programs, and keeps everything it
    has promised in one SQLite database and one directory of content-addressed files.  This
    library models the deterministic core of the daemon, as shallow embeddings of the Rust
    code under [src/crates], and proves what that core guarantees.

    ** How the program is put together

    A request arrives as a length-prefixed frame on a named pipe ([mesh-win32/src/frame.rs],
    [protocol_frame.rs]) of a session authenticated by a mutual handshake
    ([mesh-win32/src/handshake.rs]); its payload is strict JSON ([protocol_strict_json.rs])
    checked against a schema ([lib.rs]).  One writer thread executes the mutations
    ([storage.rs]) one after the other, each a transaction on the database.  The dispatcher
    asks the scheduler ([scheduler.rs]) which queued task may start, records every step of an
    attempt, and finalizes the task; the client answers interactions, reviews results and
    acknowledges them.  Reviews feed the improvement engine ([improvement.rs]), whose state
    is stored in the same database.  A start checks the evidence in the store, replays the
    projections and reconciles the tasks a crash interrupted ([domain.rs] has the decisions'
    vocabulary).  Retention collects tasks and files that nobody can need any more.

    ** The files

    Foundations.
    - [Prelude]: record updates, machine integers, byte strings, stable sorting, tactics.
    - [Externals]: the functions of crates ([sha2], [serde_json], [jsonschema], [uuid],
      [rand]) as the class [Externals] with the class [ExternalsOk] of what the code relies
      on, and the daemon's helpers around them.  [serde_json] is only assumed to read back
      what it writes of a value it can read: numbers of 64 bits, nested below its limit.  [SampleExternals] and [SampleSerde] give
      concrete instances, which only witnesses use.
    - [Domain]: [domain.rs], the enumerations, their spellings and transition rules.

    The wire.
    - [Protocol]: [lib.rs], error codes, canonical JSON, digests, wire records.
    - [StrictJson], [StrictJsonProofs]: [protocol_strict_json.rs]; the reference is a grammar
      of trees with blanks and atoms, and the scanner accepts exactly its members.
    - [Framing]: [frame.rs], [native_error.rs] and [protocol_frame.rs].
    - [Handshake]: [handshake.rs] of [mesh-win32], with HMAC as the class [Authenticator].

    State machines in memory.
    - [InstallRecord]: [install_record.rs], the lifecycle of an installation.
    - [Process]: [process.rs], the environment of a provider, and the quota its drain threads
      share as interleaved atomic accesses.
    - [Scheduler]: [scheduler.rs], adapter identities and the dispatch planner.
    - [Improvement]: [improvement.rs], the engine as a record with its operations and
      their steps [engine_step], each method with any arguments.

    The store, [storage.rs].
    - [Schema]: one record per table, the row constraints as Boolean checks, the database [Db].
    - [StoreMonad]: the state [Storage] of the writer (database, policy, latch, counters of
      identifiers) and the monad of its operations; [transaction] restores the database when
      its body fails.  [Tables]: the SQL statements, with their key and foreign-key errors.
    - [TaskStore], [Lifecycle], [InteractionStore], [Recovery], [Review], [Retention],
      [Blobs], [Startup], [Config], [EngineStore], [EngineOperations]: the operations, one definition
      per function, statement by statement.  [Blobs] adds the filesystem ([World]) with an
      oracle [BlobIo] for the calls that fail.

    Proofs about the store.
    - [Ledger]: the invariant [db_ok] and the order [ledger] between databases, which every
      operation is shown to respect; [Carry]: how they pass through the
      monad.
    - [TaskProofs], [Finalize], [InteractionProofs], [RecoveryProofs], [ReviewProofs],
      [EngineProofs], [RetentionProofs], [Compaction], [BlobProofs], [StartupProofs],
      [Integrity], [Slots]: the lemmas per operation.  [RetentionProofs] has the file of a
      task, [CaseFile], and how it evolves.
    - [Staging]: what a run of publications leaves staged, as an invariant, and what the
      recovery makes of all of it.
    - [Reachable]: the storage calls as one inductive type [Call], their runs, and what a
      run keeps of each task.
    - [Writer]: [writer.rs], the actor that owns the store, as a state machine whose events
      are the atomic steps of its threads, over any operations and then over [Call].
    - [Samples]: the concrete store of the witnesses.

    The guarantees.
    - [Reopening], [Guarantees], [Outcomes], [Responses], [Reviews], [EngineGuarantees],
      [Collecting], [Publishing]: the theorems on whole calls and runs.
    - [Drift]: concrete runs on which the code leaves its own contract.

    ** What the theorems show

    Runs.  Every database that any sequence of calls, failures included, can produce from a
    fresh store satisfies [db_ok]; along every run decided data is never rewritten and logs only
    grow, up to a collection that removes an expired task as a whole and leaves a tombstone; a
    call that is one transaction and fails changes nothing; and
    the integrity check succeeds on all of them and fails on a database whose terminal
    tuples are incomplete.

    Tasks.  A dispatched claim takes one slot and respects the limits, a refused one is
    justified; finalization commits its tuple as one; a committed cancellation wins;
    submissions are idempotent; a safe retry needs an attempt without a process; the recovery
    decision is characterised exactly.

    Decisions of the client.  An interaction is answered only by a response that carries its
    nonce and digests; the first review is final and needs the delivery's token; it reaches
    the improvement engine, whose stored form refines the engine in memory.

    Storage hygiene.  Collection forgets only expired, acknowledged, unread tasks, in
    bounded batches; a deletion plan has no reader; the emergency latch stops new work;
    published blobs are content-addressed and read back; whatever interrupted publications
    and recoveries leave, short of a torn write, the next recovery settles; a start that
    succeeds has established the evidence: every response and review is the one its recorded
    command, put together again from the rows, was accepted for.

    Concurrency.  However the calls of concurrent clients interleave with a shutdown, the
    actor runs the admitted operations once, in admission order, and answers each with its
    result; its store is one of the runs above.  A shutdown drains, ends in bounded time and
    is never stuck.  The spool quota is exact under every interleaving of its atomics.

    Installation.  The store admits exactly the changes the record's operations make; history
    is linear and append-only; a setup can be finished from wherever a crash left it.

    The wire and the engines.  The digest of a JSON value identifies it up to the order of its
    entries; frames round-trip, the strict scanner is exact and ends; a handshake proof binds role and session; the replay guard is an exact
    window; the planner respects its limits, is first-in first-out and work conserving; the
    improvement engine keeps its invariant, only adds to its records - a case that was closed
    may be opened again - and promotes only on evidence.

    ** Conventions and bounds

    A Rust string or byte vector is a [string] of bytes; an integer is a [Z], with the
    saturating and checked operations of [Prelude] where the code uses them, and SQL integers
    limited to 64 bits where a conversion can fail.  Identifiers and tokens are drawn from
    counters ([uuid_v4], [fill_bytes]).  The only fuel of the models of code is [scan_fuel],
    twice the length of the source plus two, which [StrictJsonProofs] proves to be enough for
    every source.  Loops of the code are recursions on the lists they go through.

    A theorem that depends on a hash or a tag says what it costs to break it: its conclusion
    offers as the alternative a collision, of the two texts the code hashed; only the settling
    of interrupted publications supposes instead that the contents published in the run have
    different digests.  Nothing is assumed about the strength of either function.

    ** Not modelled

    - Windows: pipes, processes, jobs, the task scheduler, installation and control
      ([mesh-win32] apart from frames and handshake; [windows_*.rs], [install_store.rs],
      [install_control.rs], [install_purge.rs], [daemon_runtime.rs]); they are calls of the
      operating system.
    - The JSON envelopes of the sessions around frames and handshake ([protocol_handshake.rs],
      [protocol_client.rs]), and the spool files of [process.rs].
    - SQLite itself: transactions are atomic, statements have the meaning of [Tables]; backup,
      restore, checkpoints and the migrations' SQL are outside.
    - The other threads around the store: reader, router, dispatcher, supervisor, approvals.
      The runs of [Reachable] are all sequences of calls, whoever makes them.
    - Providers' output, worktrees' git commands, the dashboard, [follow.rs] and settings.
    - The helpers of [storage.rs] compiled for tests only.
    - Mutex poisoning, memory exhaustion and the zeroing of secrets. *)

From Stdlib Require Export Ascii.
From stdpp Require Export base list strings gmap pretty sorting.
From Stdlib Require Export ZArith Lia.

#[global] Open Scope Z_scope.
#[global] Set Default Goal Selector "!".

(** ** Record update

    [r <| f := v |>] is the record [r] with field [f] replaced, the reading of a
    Rust assignment [r.f = v] or of one column of an SQL [UPDATE].  A record type
    opts in with an [Eta] instance listing its projections; the setter of each
    field is then synthesised. *)

Class Eta (R : Type) := eta : R → R.
Class Setter {R E : Type} (get : R → E) := set : (E → E) → R → R.
Arguments set {R E} get {_} _ _.

Ltac solve_setter :=
  match goal with
  | |- @Setter ?R ?E ?get =>
      let body := eval hnf in (@eta R _) in
      lazymatch body with
      | fun r => @?b r =>
        exact (fun (f : E -> E) (r : R) =>
          ltac:(let b' := eval cbv beta in (b r) in
                let p := eval pattern (get r) in b' in
                match p with
                | ?h _ => let t := eval cbv beta in (h (f (get r))) in exact t
                end))
      end
  end.
#[export] Hint Extern 1 (Setter _) => solve_setter : typeclass_instances.

Declare Custom Entry field_update.
Declare Scope record_scope.
#[global] Open Scope record_scope.
Notation "f := v" := (set f (fun _ => v))
  (in custom field_update at level 1, f constr at level 1, v constr at level 99).
Notation "f ::= v" := (set f v)
  (in custom field_update at level 1, f constr at level 1, v constr at level 99).
Notation "r <| u |>" := (u r)
  (at level 1, u custom field_update, left associativity) : record_scope.
Notation "r <| u ; .. ; v |>" := (v .. (u r) ..)
  (at level 1, u custom field_update, v custom field_update, left associativity)
  : record_scope.

(** ** Machine integers

    Rust integers are [Z]; the operations that can overflow are written with
    their width. *)

Definition i64_min : Z := - 2 ^ 63.
Definition i64_max : Z := 2 ^ 63 - 1.
Definition u32_max : Z := 2 ^ 32 - 1.
Definition u64_max : Z := 2 ^ 64 - 1.

Definition i64_checked (z : Z) : option Z :=
  if bool_decide (i64_min ≤ z ≤ i64_max) then Some z else None.
Definition i64_saturate (z : Z) : Z := Z.max i64_min (Z.min i64_max z).
Definition i64_saturating_add (a b : Z) : Z := i64_saturate (a + b).
Definition i64_saturating_sub (a b : Z) : Z := i64_saturate (a - b).
Definition u64_saturate (z : Z) : Z := Z.max 0 (Z.min u64_max z).
Definition u64_saturating_add (a b : Z) : Z := u64_saturate (a + b).
Definition u64_saturating_sub (a b : Z) : Z := u64_saturate (a - b).
Definition u64_saturating_mul (a b : Z) : Z := u64_saturate (a * b).
Definition u64_checked (z : Z) : option Z :=
  if bool_decide (0 ≤ z ≤ u64_max) then Some z else None.
Definition u32_saturating_add (a b : Z) : Z := Z.max 0 (Z.min u32_max (a + b)).
Definition u32_saturating_sub (a b : Z) : Z := Z.max 0 (Z.min u32_max (a - b)).
Definition u32_checked (z : Z) : option Z :=
  if bool_decide (0 ≤ z ≤ u32_max) then Some z else None.

Lemma i64_checked_Some z w : i64_checked z = Some w → w = z ∧ i64_min ≤ z ≤ i64_max.
Proof. unfold i64_checked. case_bool_decide; naive_solver. Qed.

Lemma u32_checked_Some z w : u32_checked z = Some w → w = z ∧ 0 ≤ z ≤ u32_max.
Proof. unfold u32_checked. case_bool_decide; naive_solver. Qed.

(** ** Byte strings

    A Rust [String] is its UTF-8 bytes and a [Vec<u8>] is its bytes: both are
    [string], a list of 8-bit characters. *)

Definition byte_code (a : Ascii.ascii) : Z := Z.of_N (Ascii.N_of_ascii a).
Definition byte_of (z : Z) : Ascii.ascii := Ascii.ascii_of_N (Z.to_N z).

Fixpoint all_bytes (p : Ascii.ascii → bool) (s : string) : bool :=
  match s with
  | EmptyString => true
  | String a s => p a && all_bytes p s
  end.

Definition str_len (s : string) : Z := Z.of_nat (String.length s).

Definition in_range (lo hi : Ascii.ascii) (a : Ascii.ascii) : bool :=
  (byte_code lo <=? byte_code a) && (byte_code a <=? byte_code hi).

Definition is_ascii_digit : Ascii.ascii → bool := in_range "0"%char "9"%char.
Definition is_ascii_lowercase : Ascii.ascii → bool := in_range "a"%char "z"%char.
Definition is_ascii_uppercase : Ascii.ascii → bool := in_range "A"%char "Z"%char.
Definition is_ascii_alphanumeric (a : Ascii.ascii) : bool :=
  is_ascii_digit a || is_ascii_lowercase a || is_ascii_uppercase a.
Definition is_ascii_hexdigit (a : Ascii.ascii) : bool :=
  is_ascii_digit a || in_range "a"%char "f"%char a || in_range "A"%char "F"%char a.

(** [str::chars().count()]: a UTF-8 scalar starts at every byte that is not a
    continuation byte [10xxxxxx]. *)
Fixpoint char_count (s : string) : Z :=
  match s with
  | EmptyString => 0
  | String a s =>
      (if (128 <=? byte_code a) && (byte_code a <? 192) then 0 else 1) + char_count s
  end.

Fixpoint concat_strings (l : list string) : string :=
  match l with
  | [] => ""
  | s :: l => s +:+ concat_strings l
  end.

(** [<[&str]>::join(sep)] *)
Fixpoint join (sep : string) (l : list string) : string :=
  match l with
  | [] => ""
  | [s] => s
  | s :: l => s +:+ sep +:+ join sep l
  end.

(** [str::split(c)]: always at least one component. *)
Fixpoint split_on (c : Ascii.ascii) (s : string) : list string :=
  match s with
  | EmptyString => [""]
  | String a s' =>
      if Ascii.eqb a c then "" :: split_on c s'
      else match split_on c s' with
           | w :: ws => String a w :: ws
           | [] => [String a ""]
           end
  end.

Fixpoint has_byte (c : Ascii.ascii) (s : string) : bool :=
  match s with
  | EmptyString => false
  | String a s => Ascii.eqb a c || has_byte c s
  end.

Lemma app_length_string s t : String.length (s +:+ t) = (String.length s + String.length t)%nat.
Proof. induction s as [|a s IH]; [done|]. change (S (String.length (s +:+ t)) = S (String.length s) + String.length t)%nat. lia. Qed.

Lemma app_assoc_string (s t u : string) : (s +:+ t) +:+ u = s +:+ t +:+ u.
Proof.
  induction s as [|a s IH]; [done|].
  change (String a ((s +:+ t) +:+ u) = String a (s +:+ t +:+ u)). by rewrite IH.
Qed.

Lemma app_nil_r_string (s : string) : s +:+ "" = s.
Proof. induction s as [|a s IH]; [done|]. change (String a (s +:+ "") = String a s). by rewrite IH. Qed.

Lemma app_inj_length (s s' t t' : string) :
  String.length s = String.length s' → s +:+ t = s' +:+ t' → s = s' ∧ t = t'.
Proof.
  revert s'. induction s as [|a s IH]; intros [|a' s'] Hlen Heq; try discriminate Hlen; [done|].
  injection Hlen as Hlen. injection Heq as -> Heq.
  destruct (IH s' Hlen Heq) as [-> ->]. done.
Qed.

Lemma all_bytes_app p s t : all_bytes p (s +:+ t) = all_bytes p s && all_bytes p t.
Proof.
  induction s as [|a s IH]; [done|].
  change (p a && all_bytes p (s +:+ t) = p a && all_bytes p s && all_bytes p t).
  by rewrite IH, andb_assoc.
Qed.

Lemma all_bytes_impl (p q : Ascii.ascii → bool) s :
  (∀ a, p a = true → q a = true) → all_bytes p s = true → all_bytes q s = true.
Proof. intros Hpq. induction s as [|a s IH]; simpl; rewrite ?andb_true_iff; naive_solver. Qed.

Lemma all_bytes_has_byte p c s : p c = false → all_bytes p s = true → has_byte c s = false.
Proof.
  intros Hc. induction s as [|a s IH]; simpl; [done|].
  rewrite andb_true_iff. intros [Ha Hs]. rewrite (IH Hs), orb_false_r.
  destruct (Ascii.eqb_spec a c) as [->|]; congruence.
Qed.

(** Splitting undoes joining with a separator the components do not contain. *)
Lemma split_on_last c w : has_byte c w = false → split_on c w = [w].
Proof.
  induction w as [|a w IH]; simpl; [done|]. rewrite orb_false_iff. intros [-> Hw].
  by rewrite (IH Hw).
Qed.

Lemma split_on_cons c w s :
  has_byte c w = false → split_on c (w +:+ String c "" +:+ s) = w :: split_on c s.
Proof.
  induction w as [|a w IH].
  - intros _. change (split_on c (String c s) = "" :: split_on c s). simpl.
    by rewrite Ascii.eqb_refl.
  - simpl. rewrite orb_false_iff. intros [Ha Hw].
    change (split_on c (String a (w +:+ String c "" +:+ s)) = String a w :: split_on c s).
    simpl. by rewrite Ha, (IH Hw).
Qed.

Lemma split_on_join c ws :
  ws ≠ [] → Forall (λ w, has_byte c w = false) ws →
  split_on c (join (String c "") ws) = ws.
Proof.
  induction ws as [|w [|w' ws] IH]; intros Hne Hws; [done| |].
  - inversion Hws; subst. by apply split_on_last.
  - inversion Hws as [|? ? Hw Hrest]; subst.
    change (split_on c (w +:+ String c "" +:+ join (String c "") (w' :: ws)) = w :: w' :: ws).
    rewrite (split_on_cons _ _ _ Hw), IH; done.
Qed.

Lemma join_split_on c s : join (String c "") (split_on c s) = s.
Proof.
  induction s as [|a s IH]; [done|]. simpl.
  destruct (Ascii.eqb_spec a c) as [->|Hne].
  - destruct (split_on c s) as [|w ws] eqn:E.
    + destruct s; simpl in E; [done|]. destruct (Ascii.eqb _ _); [done|].
      by destruct (split_on c s).
    + change (join (String c "") ("" :: w :: ws)) with ("" +:+ String c "" +:+ join (String c "") (w :: ws)).
      by rewrite IH.
  - destruct (split_on c s) as [|w [|w' ws]] eqn:E; simpl in *; subst; done.
Qed.

(** ** Stable sorting

    [slice::sort_by], [BTreeMap] iteration and SQL [ORDER BY] are all the stable
    insertion of each element before the first one it does not follow. *)

Section sort_by.
Context {A : Type} (leb : A → A → bool).

Fixpoint insert_by (x : A) (l : list A) : list A :=
  match l with
  | [] => [x]
  | y :: l' => if leb x y then x :: l else y :: insert_by x l'
  end.

Fixpoint sort_by (l : list A) : list A :=
  match l with
  | [] => []
  | x :: l => insert_by x (sort_by l)
  end.

Lemma insert_by_perm x l : insert_by x l ≡ₚ x :: l.
Proof.
  induction l as [|y l IH]; simpl; [done|]. destruct (leb x y); [done|].
  rewrite IH. apply Permutation_swap.
Qed.

Lemma sort_by_perm l : sort_by l ≡ₚ l.
Proof. induction l as [|x l IH]; simpl; [done|]. by rewrite insert_by_perm, IH. Qed.

Hypothesis leb_total : ∀ x y, leb x y = false → leb y x = true.
Hypothesis leb_trans : ∀ x y z, leb x y = true → leb y z = true → leb x z = true.

Lemma sort_by_sorted l : StronglySorted (λ x y, leb x y = true) (sort_by l).
Proof.
  induction l as [|x l IH]; simpl; [constructor|].
  induction IH as [|y l' Hl IHl Hy]; simpl; [repeat constructor|].
  destruct (leb x y) eqn:E.
  - repeat constructor; [done..|]. eapply Forall_impl; [exact Hy|]. intros z. by apply leb_trans.
  - constructor; [done|]. rewrite insert_by_perm. constructor; [by apply leb_total|done].
Qed.
End sort_by.

(** ** Options *)

Definition is_none_or {A} (p : A → bool) (o : option A) : bool :=
  match o with None => true | Some a => p a end.
Definition is_some_and {A} (p : A → bool) (o : option A) : bool :=
  match o with None => false | Some a => p a end.
Definition opt_str_eqb (a b : option string) : bool := bool_decide (a = b).

(** ** Tactics *)

Ltac invert H := inversion H; subst; clear H.

(** Splits a Boolean conjunction or disjunction in the hypotheses. *)
Ltac split_bools :=
  repeat match goal with
  | H : _ && _ = true |- _ => apply andb_true_iff in H; destruct H
  | H : _ || _ = false |- _ => apply orb_false_iff in H; destruct H
  | H : negb _ = true |- _ => apply negb_true_iff in H
  | H : negb _ = false |- _ => apply negb_false_iff in H
  | H : bool_decide _ = true |- _ => apply bool_decide_eq_true in H
  | H : bool_decide _ = false |- _ => apply bool_decide_eq_false in H
  | H : (_ =? _)%string = true |- _ => apply String.eqb_eq in H
  | H : (_ =? _)%string = false |- _ => apply String.eqb_neq in H
  | H : (_ =? _)%Z = true |- _ => apply Z.eqb_eq in H
  | H : (_ =? _)%Z = false |- _ => apply Z.eqb_neq in H
  | H : (_ <? _)%Z = true |- _ => apply Z.ltb_lt in H
  | H : (_ <? _)%Z = false |- _ => apply Z.ltb_ge in H
  | H : (_ <=? _)%Z = true |- _ => apply Z.leb_le in H
  | H : (_ <=? _)%Z = false |- _ => apply Z.leb_gt in H
  end.

(** Reads a field of an updated record one update at a time, never normalising the
    record itself: [simpl] on a record with many fields and several updates would. *)
Ltac rec_read p g S f r :=
  first [ constr_eq p g; change (p (@set _ _ g S f r)) with (f (p r))
        | change (p (@set _ _ g S f r)) with (p r) ].
Ltac rec_simpl :=
  repeat match goal with
  | |- context [?p (@set _ _ ?g ?S ?f ?r)] => rec_read p g S f r; cbv beta
  end.
Ltac rec_read_in H p g S f r :=
  first [ constr_eq p g; change (p (@set _ _ g S f r)) with (f (p r)) in H
        | change (p (@set _ _ g S f r)) with (p r) in H ].
Ltac rec_simpl_in H :=
  repeat match type of H with
  | context [?p (@set _ _ ?g ?S ?f ?r)] => rec_read_in H p g S f r; cbv beta in H
  end.
