(* ===== verification/Domain.v ===== *)
(** * Durable-domain states and transition rules ([domain.rs])

    The enumerations persisted by the daemon, their spellings ([as_str]), the
    parsers ([FromStr]), the task transition table and the dispatch-phase order.
    Every persisted enumeration is an instance of [Spelled], the interface the
    storage model uses to represent a constrained [TEXT] column by the
    enumeration itself. *)

From S2P Require Import Prelude.

(** [DomainParseError(String)] *)
Inductive DomainParseError := mkDomainParseError (value : string).

(** [Self::ALL.into_iter().find(|x| x.as_str() == value)
      .ok_or_else(|| DomainParseError(value.to_owned()))] *)
Definition parse_spelling {A} (as_str : A → string) (all : list A) (value : string)
  : DomainParseError + A :=
  match List.find (λ x, String.eqb (as_str x) value) all with
  | Some x => inr x
  | None => inl (mkDomainParseError value)
  end.

(** A persisted enumeration: the list of its values, its spelling, and the facts
    that the list is complete and the spelling is injective. *)
Class Spelled (A : Type) := {
  spell : A → string;
  spell_all : list A;
  spell_all_complete : ∀ x, x ∈ spell_all;
  spell_inj : Inj (=) (=) spell;
}.
#[export] Existing Instance spell_inj.

Definition unspell {A} `{Spelled A} : string → DomainParseError + A :=
  parse_spelling spell spell_all.

Section spelled.
Context {A : Type} `{Spelled A}.

Lemma find_spelling_inj (l : list A) (x : A) :
  x ∈ l → List.find (λ y, String.eqb (spell y) (spell x)) l = Some x.
Proof.
  induction l as [|y l IH]; intros Hx; [by apply elem_of_nil in Hx|]. simpl.
  destruct (String.eqb_spec (spell y) (spell x)) as [Heq|Hne].
  - by apply (inj spell) in Heq as ->.
  - apply IH. apply elem_of_cons in Hx as [->|]; done.
Qed.

Lemma unspell_spell (x : A) : unspell (spell x) = inr x.
Proof.
  unfold unspell, parse_spelling. by rewrite find_spelling_inj by apply spell_all_complete.
Qed.

Lemma unspell_Some (s : string) (x : A) : unspell s = inr x ↔ s = spell x.
Proof.
  split; [|intros ->; apply unspell_spell].
  unfold unspell, parse_spelling. destruct (List.find _ _) as [y|] eqn:E; [|done].
  intros [= <-]. apply List.find_some in E as [_ E]. by apply String.eqb_eq in E.
Qed.

Lemma unspell_None (s : string) : (∃ e, unspell s = inl e) ↔ ∀ x : A, s ≠ spell x.
Proof.
  split.
  - intros [e He] x ->. by rewrite unspell_spell in He.
  - intros Hs. destruct (unspell s) as [e|x] eqn:E; [by exists e|].
    apply unspell_Some in E. by destruct (Hs x).
Qed.
End spelled.

(** ** Task state *)

Inductive TaskState :=
  | Queued | Preparing | Running | WaitingApproval | RetryWait | CancelRequested
  | Finalizing | Succeeded | Failed | Cancelled | NeedsAttention.

#[export] Instance TaskState_eq_dec : EqDecision TaskState.
Proof. solve_decision. Defined.

Module TaskState.

Definition ALL : list TaskState :=
  [Queued; Preparing; Running; WaitingApproval; RetryWait; CancelRequested;
   Finalizing; Succeeded; Failed; Cancelled; NeedsAttention].

Definition as_str (self : TaskState) : string :=
  match self with
  | Queued => "QUEUED"
  | Preparing => "PREPARING"
  | Running => "RUNNING"
  | WaitingApproval => "WAITING_APPROVAL"
  | RetryWait => "RETRY_WAIT"
  | CancelRequested => "CANCEL_REQUESTED"
  | Finalizing => "FINALIZING"
  | Succeeded => "SUCCEEDED"
  | Failed => "FAILED"
  | Cancelled => "CANCELLED"
  | NeedsAttention => "NEEDS_ATTENTION"
  end.

Definition is_terminal (self : TaskState) : bool :=
  match self with
  | Succeeded | Failed | Cancelled | NeedsAttention => true
  | _ => false
  end.

Definition allows (self next : TaskState) : bool :=
  match self, next with
  | (Queued | RetryWait), (Preparing | CancelRequested) => true
  | Preparing, (Running | WaitingApproval | RetryWait | CancelRequested | Finalizing) => true
  | Running, (WaitingApproval | RetryWait | CancelRequested | Finalizing) => true
  | WaitingApproval, (Running | CancelRequested | Finalizing) => true
  | CancelRequested, Finalizing => true
  | Finalizing, (Succeeded | Failed | Cancelled | NeedsAttention) => true
  | _, _ => false
  end.

Definition from_str (value : string) : DomainParseError + TaskState :=
  parse_spelling as_str ALL value.

End TaskState.

(** ** Attempt state *)

Inductive AttemptState :=
  | APreparing | ARunning | AWaitingApproval | ARetryWait | ACancelRequested
  | AFinalizing | ASucceeded | AFailed | ACancelled | ANeedsAttention.

#[export] Instance AttemptState_eq_dec : EqDecision AttemptState.
Proof. solve_decision. Defined.

Module AttemptState.

(** The spellings the [CHECK] of the [attempts.state] column admits. *)
Definition ALL : list AttemptState :=
  [APreparing; ARunning; AWaitingApproval; ARetryWait; ACancelRequested; AFinalizing;
   ASucceeded; AFailed; ACancelled; ANeedsAttention].

Definition as_str (self : AttemptState) : string :=
  match self with
  | APreparing => "PREPARING"
  | ARunning => "RUNNING"
  | AWaitingApproval => "WAITING_APPROVAL"
  | ARetryWait => "RETRY_WAIT"
  | ACancelRequested => "CANCEL_REQUESTED"
  | AFinalizing => "FINALIZING"
  | ASucceeded => "SUCCEEDED"
  | AFailed => "FAILED"
  | ACancelled => "CANCELLED"
  | ANeedsAttention => "NEEDS_ATTENTION"
  end.

(** The SQL test [state IN ('SUCCEEDED','FAILED','CANCELLED','NEEDS_ATTENTION')]. *)
Definition is_terminal (self : AttemptState) : bool :=
  match self with
  | ASucceeded | AFailed | ACancelled | ANeedsAttention => true
  | _ => false
  end.

End AttemptState.

(** ** Dispatch phase *)

Inductive DispatchPhase :=
  | PreDispatch | SpawnPrepared | ProcessStarted | ProviderObserved.

#[export] Instance DispatchPhase_eq_dec : EqDecision DispatchPhase.
Proof. solve_decision. Defined.

Module DispatchPhase.

Definition ALL : list DispatchPhase :=
  [PreDispatch; SpawnPrepared; ProcessStarted; ProviderObserved].

Definition as_str (self : DispatchPhase) : string :=
  match self with
  | PreDispatch => "PRE_DISPATCH"
  | SpawnPrepared => "SPAWN_PREPARED"
  | ProcessStarted => "PROCESS_STARTED"
  | ProviderObserved => "PROVIDER_OBSERVED"
  end.

Definition effect_is_proven_absent (self : DispatchPhase) : bool :=
  match self with PreDispatch | SpawnPrepared => true | _ => false end.

Definition can_advance_to (self next : DispatchPhase) : bool :=
  match self, next with
  | PreDispatch, (SpawnPrepared | ProcessStarted | ProviderObserved) => true
  | SpawnPrepared, (ProcessStarted | ProviderObserved) => true
  | ProcessStarted, ProviderObserved => true
  | _, _ => false
  end.

Definition from_str (value : string) : DomainParseError + DispatchPhase :=
  parse_spelling as_str ALL value.

(** The position of a phase on the dispatch time line. *)
Definition rank (self : DispatchPhase) : Z :=
  match self with
  | PreDispatch => 0 | SpawnPrepared => 1 | ProcessStarted => 2 | ProviderObserved => 3
  end.

End DispatchPhase.

(** ** Interactions *)

Inductive InteractionState := IPending | IAnswered | IExpired | ICancelled.

#[export] Instance InteractionState_eq_dec : EqDecision InteractionState.
Proof. solve_decision. Defined.

Module InteractionState.
Definition as_str (self : InteractionState) : string :=
  match self with
  | IPending => "PENDING"
  | IAnswered => "ANSWERED"
  | IExpired => "EXPIRED"
  | ICancelled => "CANCELLED"
  end.
End InteractionState.

Inductive InteractionCapabilityClass := Approval | Input.

#[export] Instance InteractionCapabilityClass_eq_dec : EqDecision InteractionCapabilityClass.
Proof. solve_decision. Defined.

Module InteractionCapabilityClass.
Definition ALL : list InteractionCapabilityClass := [Approval; Input].
Definition as_str (self : InteractionCapabilityClass) : string :=
  match self with Approval => "approval" | Input => "input" end.
Definition from_str (value : string) : DomainParseError + InteractionCapabilityClass :=
  parse_spelling as_str ALL value.
End InteractionCapabilityClass.

Inductive InteractionResponseKind := Approve | Deny | Text.

#[export] Instance InteractionResponseKind_eq_dec : EqDecision InteractionResponseKind.
Proof. solve_decision. Defined.

Module InteractionResponseKind.
Definition ALL : list InteractionResponseKind := [Approve; Deny; Text].
Definition as_str (self : InteractionResponseKind) : string :=
  match self with Approve => "approve" | Deny => "deny" | Text => "text" end.
Definition event_status (self : InteractionResponseKind) : string :=
  match self with Approve => "APPROVED" | Deny => "DENIED" | Text => "PROVIDED" end.
Definition from_str (value : string) : DomainParseError + InteractionResponseKind :=
  parse_spelling as_str ALL value.
End InteractionResponseKind.

(** ** Effect profile, isolation level, workspace mode, review verdict *)

Inductive EffectProfile := ReadOnly | IsolatedWorktree | CurrentDirectory | ExternalSideEffects.

#[export] Instance EffectProfile_eq_dec : EqDecision EffectProfile.
Proof. solve_decision. Defined.

Module EffectProfile.
Definition ALL : list EffectProfile :=
  [ReadOnly; IsolatedWorktree; CurrentDirectory; ExternalSideEffects].
Definition as_str (self : EffectProfile) : string :=
  match self with
  | ReadOnly => "READ_ONLY"
  | IsolatedWorktree => "ISOLATED_WORKTREE"
  | CurrentDirectory => "CURRENT_DIRECTORY"
  | ExternalSideEffects => "EXTERNAL_SIDE_EFFECTS"
  end.
Definition from_str (value : string) : DomainParseError + EffectProfile :=
  parse_spelling as_str ALL value.
End EffectProfile.

Inductive IsolationLevel := Enforced | ProtocolMediated | BestEffort | NoIsolation.

#[export] Instance IsolationLevel_eq_dec : EqDecision IsolationLevel.
Proof. solve_decision. Defined.

Module IsolationLevel.
Definition ALL : list IsolationLevel := [Enforced; ProtocolMediated; BestEffort; NoIsolation].
Definition as_str (self : IsolationLevel) : string :=
  match self with
  | Enforced => "ENFORCED"
  | ProtocolMediated => "PROTOCOL_MEDIATED"
  | BestEffort => "BEST_EFFORT"
  | NoIsolation => "NONE"
  end.
Definition from_str (value : string) : DomainParseError + IsolationLevel :=
  parse_spelling as_str ALL value.
End IsolationLevel.

Inductive WorkspaceMode := WReadOnly | WIsolatedWorktree | WCurrentDirectory.

#[export] Instance WorkspaceMode_eq_dec : EqDecision WorkspaceMode.
Proof. solve_decision. Defined.

Module WorkspaceMode.
Definition ALL : list WorkspaceMode := [WReadOnly; WIsolatedWorktree; WCurrentDirectory].
Definition as_str (self : WorkspaceMode) : string :=
  match self with
  | WReadOnly => "read_only"
  | WIsolatedWorktree => "isolated_worktree"
  | WCurrentDirectory => "current_directory"
  end.
Definition from_str (value : string) : DomainParseError + WorkspaceMode :=
  parse_spelling as_str ALL value.
End WorkspaceMode.

Inductive ReviewVerdict := Accepted | Rejected.

#[export] Instance ReviewVerdict_eq_dec : EqDecision ReviewVerdict.
Proof. solve_decision. Defined.

Module ReviewVerdict.
Definition ALL : list ReviewVerdict := [Accepted; Rejected].
Definition as_str (self : ReviewVerdict) : string :=
  match self with Accepted => "ACCEPTED" | Rejected => "REJECTED" end.
Definition from_str (value : string) : DomainParseError + ReviewVerdict :=
  parse_spelling as_str ALL value.
End ReviewVerdict.

Inductive RecoveryDecision := RetrySafe | ResumeSession | RNeedsAttention | FinalizeCancellation.

#[export] Instance RecoveryDecision_eq_dec : EqDecision RecoveryDecision.
Proof. solve_decision. Defined.

(** ** The persisted enumerations are [Spelled] *)

Ltac solve_spelled as_str all :=
  refine {| spell := as_str; spell_all := all |};
  [ intros []; apply list_elem_of_In; simpl; tauto
  | intros [] []; simpl; intros H; (reflexivity || discriminate H) ].

#[export] Instance TaskState_spelled : Spelled TaskState.
Proof. solve_spelled TaskState.as_str TaskState.ALL. Defined.
#[export] Instance AttemptState_spelled : Spelled AttemptState.
Proof. solve_spelled AttemptState.as_str AttemptState.ALL. Defined.
#[export] Instance DispatchPhase_spelled : Spelled DispatchPhase.
Proof. solve_spelled DispatchPhase.as_str DispatchPhase.ALL. Defined.
#[export] Instance InteractionState_spelled : Spelled InteractionState.
Proof. solve_spelled InteractionState.as_str [IPending; IAnswered; IExpired; ICancelled]. Defined.
#[export] Instance InteractionCapabilityClass_spelled : Spelled InteractionCapabilityClass.
Proof. solve_spelled InteractionCapabilityClass.as_str InteractionCapabilityClass.ALL. Defined.
#[export] Instance InteractionResponseKind_spelled : Spelled InteractionResponseKind.
Proof. solve_spelled InteractionResponseKind.as_str InteractionResponseKind.ALL. Defined.
#[export] Instance EffectProfile_spelled : Spelled EffectProfile.
Proof. solve_spelled EffectProfile.as_str EffectProfile.ALL. Defined.
#[export] Instance IsolationLevel_spelled : Spelled IsolationLevel.
Proof. solve_spelled IsolationLevel.as_str IsolationLevel.ALL. Defined.
#[export] Instance WorkspaceMode_spelled : Spelled WorkspaceMode.
Proof. solve_spelled WorkspaceMode.as_str WorkspaceMode.ALL. Defined.
#[export] Instance ReviewVerdict_spelled : Spelled ReviewVerdict.
Proof. solve_spelled ReviewVerdict.as_str ReviewVerdict.ALL. Defined.

(** ** Theorems *)

(** The runs of the transition table: [steps s l s'] when the states [l] lead from
    [s] to [s'], each allowed after the previous one. *)
Fixpoint run_of (s : TaskState) (l : list TaskState) : option TaskState :=
  match l with
  | [] => Some s
  | n :: l => if TaskState.allows s n then run_of n l else None
  end.

Lemma run_of_closed (P : TaskState → Prop) s l s' :
  (∀ a b, P a → TaskState.allows a b = true → P b) →
  P s → run_of s l = Some s' → P s'.
Proof.
  intros Hstep. revert s. induction l as [|n l IH]; simpl; intros s Hs Hrun; [naive_solver|].
  destruct (TaskState.allows s n) eqn:E; [|done]. eauto.
Qed.

(** The task state machine is closed.  A run that leaves a state reaches a
    terminal state only through [FINALIZING]; a terminal state has no run out of
    it; once cancellation is requested the task is never preparing, running,
    waiting or retried again; and every non-terminal state has a run to every
    terminal state. *)
Theorem task_state_machine_closed :
  (∀ s n, TaskState.is_terminal n = true → TaskState.allows s n = true → s = Finalizing) ∧
  (∀ s l s', TaskState.is_terminal s = true → run_of s l = Some s' → l = [] ∧ s' = s) ∧
  (∀ l s', run_of CancelRequested l = Some s' →
     s' = CancelRequested ∨ s' = Finalizing ∨ TaskState.is_terminal s' = true) ∧
  (∀ s t, TaskState.is_terminal s = false → TaskState.is_terminal t = true →
     ∃ l, run_of s l = Some t).
Proof.
  split_and!.
  - intros [] []; simpl; congruence.
  - intros [] [|[] l] s'; simpl; naive_solver.
  - intros l s'. apply (run_of_closed (λ s, s = CancelRequested ∨ s = Finalizing ∨ TaskState.is_terminal s = true));
      [|by left]. intros [] []; simpl; naive_solver.
  - intros [] [] Hs Ht; try discriminate Hs; try discriminate Ht;
      first [ by exists [Cancelled] | by exists [Failed] | by exists [Succeeded]
            | by exists [NeedsAttention]
            | by exists [Finalizing; Cancelled] | by exists [Finalizing; Failed]
            | by exists [Finalizing; Succeeded] | by exists [Finalizing; NeedsAttention]
            | by exists [CancelRequested; Finalizing; Cancelled]
            | by exists [CancelRequested; Finalizing; Failed]
            | by exists [CancelRequested; Finalizing; Succeeded]
            | by exists [CancelRequested; Finalizing; NeedsAttention] ].
Qed.

(** Every persisted enumeration is parsed back from exactly its own spelling:
    [from_str] answers [Ok x] on a string iff that string is [x.as_str()], so the
    text column of a constrained enumeration carries neither more nor less
    information than the enumeration. *)
Theorem spelling_roundtrip (v : string) :
  (∀ x, TaskState.from_str v = inr x ↔ v = TaskState.as_str x) ∧
  (∀ x, DispatchPhase.from_str v = inr x ↔ v = DispatchPhase.as_str x) ∧
  (∀ x, InteractionCapabilityClass.from_str v = inr x ↔ v = InteractionCapabilityClass.as_str x) ∧
  (∀ x, InteractionResponseKind.from_str v = inr x ↔ v = InteractionResponseKind.as_str x) ∧
  (∀ x, EffectProfile.from_str v = inr x ↔ v = EffectProfile.as_str x) ∧
  (∀ x, IsolationLevel.from_str v = inr x ↔ v = IsolationLevel.as_str x) ∧
  (∀ x, WorkspaceMode.from_str v = inr x ↔ v = WorkspaceMode.as_str x) ∧
  (∀ x, ReviewVerdict.from_str v = inr x ↔ v = ReviewVerdict.as_str x).
Proof.
  split_and!; intros x;
    match goal with x : ?A |- _ => exact (@unspell_Some A _ v x) end.
Qed.

(** The advance relation is the strict order of the time line. *)
Lemma can_advance_rank p q :
  DispatchPhase.can_advance_to p q = true ↔ DispatchPhase.rank p < DispatchPhase.rank q.
Proof. destruct p, q; simpl; split; (done || lia). Qed.

(** Dispatch evidence is monotone.  Along any sequence of admitted advances
    the phase strictly rises, so no phase is visited twice and evidence that an
    effect may exist ([PROCESS_STARTED] or later) never turns back into a phase
    whose effect is proven absent. *)
Theorem dispatch_phase_monotone (p q r : DispatchPhase) :
  DispatchPhase.can_advance_to p q = true → DispatchPhase.can_advance_to q r = true →
  DispatchPhase.can_advance_to p r = true ∧
  DispatchPhase.can_advance_to q p = false ∧
  p ≠ r ∧
  (DispatchPhase.effect_is_proven_absent p = false →
   DispatchPhase.effect_is_proven_absent r = false).
Proof.
  rewrite !can_advance_rank. intros Hpq Hqr. split_and!.
  - lia.
  - apply not_true_iff_false. rewrite can_advance_rank. lia.
  - intros ->. lia.
  - destruct p, q, r; simpl in *; (done || lia).
Qed.

Lemma dispatch_phase_monotone_witness :
  DispatchPhase.can_advance_to PreDispatch ProviderObserved = true ∧
  DispatchPhase.can_advance_to SpawnPrepared PreDispatch = false ∧
  PreDispatch ≠ ProviderObserved ∧
  (DispatchPhase.effect_is_proven_absent PreDispatch = false →
   DispatchPhase.effect_is_proven_absent ProviderObserved = false).
Proof. exact (dispatch_phase_monotone PreDispatch SpawnPrepared ProviderObserved eq_refl eq_refl). Defined.
