(* ===== verification/Externals.v ===== *)
(** * Code the daemon calls but does not contain

    [sha2], [serde_json], [jsonschema], [uuid] and [rand] are crates.  Their
    functions are the operations of the class [Externals], an argument of every
    definition that uses one of them; what the daemon relies on is the class
    [ExternalsOk].  The file also holds the daemon's own helpers directly around
    them: hexadecimal rendering, field digests ([digest_fields]), tokens, the
    constant-time comparison and integer parsing. *)

From S2P Require Import Prelude.

(** ** [serde_json::Value] *)

(** A JSON number is an integer in the [i64]/[u64] range or a float, kept as its text. *)
Inductive Number := NInt (z : Z) | NFloat (text : string).

Inductive Value :=
  | VNull
  | VBool (b : bool)
  | VNumber (n : Number)
  | VString (s : string)
  | VArray (values : list Value)
  | VObject (entries : list (string * Value)).

Definition key_le (x y : string * Value) : Prop := String.le x.1 y.1.
#[export] Instance key_le_dec : RelDecision key_le.
Proof. intros x y. unfold key_le. apply _. Defined.

(** The [json!({..})] macro: [serde_json::Map] keeps its entries in key order. *)
Definition json_object (entries : list (string * Value)) : Value :=
  VObject (merge_sort key_le entries).

Definition assoc {A} (k : string) (m : list (string * A)) : option A :=
  snd <$> List.find (λ kv, String.eqb kv.1 k) m.

Definition as_object (v : Value) : option (list (string * Value)) :=
  match v with VObject m => Some m | _ => None end.
Definition as_str (v : Value) : option string :=
  match v with VString s => Some s | _ => None end.
Definition as_i64 (v : Value) : option Z :=
  match v with VNumber (NInt z) => i64_checked z | _ => None end.
Definition as_u64 (v : Value) : option Z :=
  match v with VNumber (NInt z) => u64_checked z | _ => None end.
(** [value[key]]: [Null] when the value is no object or has no such key. *)
Definition json_index (v : Value) (k : string) : Value :=
  match as_object v with
  | Some m => default VNull (assoc k m)
  | None => VNull
  end.

(** Values [serde_json] can build: the entries of an object are in strictly
    increasing key order. *)
Fixpoint keys_increasing (ks : list string) : bool :=
  match ks with
  | k :: ((k' :: _) as ks') => String.ltb k k' && keys_increasing ks'
  | _ => true
  end.

Fixpoint wf_value (v : Value) : bool :=
  match v with
  | VArray vs => forallb wf_value vs
  | VObject m => keys_increasing (map fst m) && forallb (λ kv, wf_value kv.2) m
  | _ => true
  end.

(** What [serde_json] reads back as it was: its parser stops at 128 nested arrays and objects, its
    integers are those of [i64] and [u64], and nothing is said of floats.  (The strings of a
    [serde_json::Value] are UTF-8; the model does not look at the encoding.) *)
Definition number_readable (n : Number) : bool :=
  match n with NInt z => (i64_min <=? z) && (z <=? u64_max) | NFloat _ => false end.

Fixpoint numbers_readable (v : Value) : bool :=
  match v with
  | VNumber n => number_readable n
  | VArray vs => forallb numbers_readable vs
  | VObject m => forallb (λ kv, numbers_readable kv.2) m
  | _ => true
  end.

Definition json_nesting_limit : nat := 127.

Fixpoint json_depth (v : Value) : nat :=
  match v with
  | VArray vs => S (list_max (map json_depth vs))
  | VObject m => S (list_max (map (λ kv, json_depth kv.2) m))
  | _ => 0
  end.

Definition json_readable (v : Value) : bool :=
  wf_value v && numbers_readable v && (json_depth v <=? json_nesting_limit)%nat.

(** ** The external operations *)

Class Externals := {
  (** [Sha256::digest]: the 32 raw bytes of the digest *)
  sha256 : string → string;
  (** [Value::to_string] / [serde_json::to_string] *)
  json_to_string : Value → string;
  (** [serde_json::from_str] / [from_slice] *)
  json_from_str : string → option Value;
  (** [PROTOCOL_VALIDATOR.is_valid], the compiled JSON schema *)
  schema_is_valid : Value → bool;
  (** the [n]-th [Uuid::new_v4] of the process, as text *)
  uuid_v4 : nat → string;
  (** the bytes the [n]-th [rand::rng().fill_bytes] writes *)
  fill_bytes : nat → string;
}.

Class ExternalsOk (E : Externals) := {
  sha256_length : ∀ s, String.length (sha256 s) = 32%nat;
  json_from_to : ∀ v, json_readable v = true → json_from_str (json_to_string v) = Some v;
  fill_bytes_length : ∀ n, String.length (fill_bytes n) = 32%nat;
}.

(** ** Hexadecimal rendering *)

Definition hex_digit (z : Z) : ascii :=
  byte_of (if z <? 10 then 48 + z else 87 + z).

(** [{byte:02x}] for each byte, and [{:x}] of a digest *)
Fixpoint to_hex (s : string) : string :=
  match s with
  | EmptyString => ""
  | String a s =>
      String (hex_digit (byte_code a / 16)) (String (hex_digit (byte_code a mod 16)) (to_hex s))
  end.

Definition is_lower_hex (a : ascii) : bool := is_ascii_digit a || in_range "a"%char "f"%char a.

(** [is_lower_sha256] of [storage.rs], [improvement.rs] and [reader.rs] *)
Definition is_lower_sha256 (value : string) : bool :=
  (str_len value =? 64) && all_bytes is_lower_hex value.

Section with_externals.
Context `{E : Externals}.

Definition sha256_hex (s : string) : string := to_hex (sha256 s).

Definition hash_bytes (bytes : string) : string := sha256_hex bytes.

(** [u64::to_be_bytes]: the most significant byte first *)
Fixpoint be_bytes (n : nat) (z : Z) : string :=
  match n with
  | O => ""
  | S n => String (byte_of (z / 256 ^ Z.of_nat n mod 256)) (be_bytes n z)
  end.

(** The bytes [digest_fields] feeds to the hash. *)
Fixpoint digest_preimage (fields : list string) : string :=
  match fields with
  | [] => ""
  | field :: fields => be_bytes 8 (str_len field) +:+ field +:+ digest_preimage fields
  end.

Definition digest_fields (fields : list string) : string := sha256_hex (digest_preimage fields).

(** [random_token]: 32 random bytes in lower-case hex *)
Definition random_token (n : nat) : string := to_hex (fill_bytes n).
End with_externals.

(** [constant_time_eq]: no early exit; the accumulated difference decides. *)
Definition byte_at (s : string) (i : nat) : Z :=
  match String.get i s with Some a => byte_code a | None => 0 end.
Definition constant_time_difference (left right : string) : Z :=
  let width := Nat.max (String.length left) (String.length right) in
  List.fold_left
    (λ difference index, Z.lor difference (Z.lxor (byte_at left index) (byte_at right index)))
    (seq 0 width)
    (Z.lxor (str_len left) (str_len right)).
Definition constant_time_eq (left right : string) : bool :=
  constant_time_difference left right =? 0.

(** ** Integers as decimal text: [i64::to_string] is [pretty]; [str::parse::<i64>] *)

Definition digit_value (a : ascii) : option Z :=
  if is_ascii_digit a then Some (byte_code a - 48) else None.

Fixpoint parse_digits (acc : Z) (s : string) : option Z :=
  match s with
  | EmptyString => Some acc
  | String a s => d ← digit_value a; parse_digits (10 * acc + d) s
  end.

Definition parse_i64 (s : string) : option Z :=
  match s with
  | EmptyString => None
  | String "-" s => match s with
                    | EmptyString => None
                    | _ => z ← parse_digits 0 s; i64_checked (- z)
                    end
  | String "+" s => match s with
                    | EmptyString => None
                    | _ => z ← parse_digits 0 s; i64_checked z
                    end
  | _ => z ← parse_digits 0 s; i64_checked z
  end.

(** ** Lemmas *)

Lemma String_get_ge n s : (String.length s ≤ n)%nat → String.get n s = None.
Proof.
  revert n. induction s as [|a s IH]; simpl; intros n Hn; [done|].
  destruct n; [lia|]. apply IH. lia.
Qed.

Lemma String_get_None n s : String.get n s = None → (String.length s ≤ n)%nat.
Proof.
  revert n. induction s as [|a s IH]; simpl; intros n Hn; [lia|].
  destruct n; [done|]. apply IH in Hn. lia.
Qed.

Lemma byte_code_range a : 0 ≤ byte_code a < 256.
Proof.
  unfold byte_code. pose proof (N_ascii_bounded a). lia.
Qed.

Lemma byte_of_code z : 0 ≤ z < 256 → byte_code (byte_of z) = z.
Proof. intros Hz. unfold byte_code, byte_of. rewrite N_ascii_embedding by lia. lia. Qed.

Lemma byte_code_inj a b : byte_code a = byte_code b → a = b.
Proof.
  unfold byte_code. intros H. apply N2Z.inj in H.
  by rewrite <-(ascii_N_embedding a), <-(ascii_N_embedding b), H.
Qed.

Lemma hex_digit_lower z : 0 ≤ z < 16 → is_lower_hex (hex_digit z) = true.
Proof.
  intros Hz. unfold is_lower_hex, is_ascii_digit, in_range, hex_digit.
  destruct (Z.ltb_spec z 10); rewrite byte_of_code by lia;
    change (byte_code "0"%char) with 48; change (byte_code "9"%char) with 57;
    change (byte_code "a"%char) with 97; change (byte_code "f"%char) with 102;
    rewrite orb_true_iff, !andb_true_iff, !Z.leb_le; lia.
Qed.

Lemma hex_digit_inj x y : 0 ≤ x < 16 → 0 ≤ y < 16 → hex_digit x = hex_digit y → x = y.
Proof.
  intros Hx Hy H. apply (f_equal byte_code) in H. unfold hex_digit in H.
  destruct (Z.ltb_spec x 10), (Z.ltb_spec y 10); rewrite !byte_of_code in H by lia; lia.
Qed.

Lemma to_hex_length s : String.length (to_hex s) = (2 * String.length s)%nat.
Proof. induction s as [|a s IH]; simpl; [done|]. lia. Qed.

Lemma to_hex_lower s : all_bytes is_lower_hex (to_hex s) = true.
Proof.
  induction s as [|a s IH]; [done|]. pose proof (byte_code_range a).
  change (is_lower_hex (hex_digit (byte_code a / 16)) &&
          (is_lower_hex (hex_digit (byte_code a mod 16)) && all_bytes is_lower_hex (to_hex s)) = true).
  rewrite IH, !hex_digit_lower; [done| |].
  - apply Z.mod_pos_bound. lia.
  - split; [apply Z.div_pos; lia|apply Z.div_lt_upper_bound; lia].
Qed.

Lemma to_hex_inj s t : to_hex s = to_hex t → s = t.
Proof.
  revert t. induction s as [|a s IH]; intros [|b t] H; [done|discriminate H|discriminate H|].
  injection H as Hhi Hlo H. pose proof (byte_code_range a). pose proof (byte_code_range b).
  assert (0 ≤ byte_code a / 16 < 16 ∧ 0 ≤ byte_code b / 16 < 16) as [? ?].
  { split; (split; [apply Z.div_pos; lia|apply Z.div_lt_upper_bound; lia]). }
  apply hex_digit_inj in Hhi; [|done..].
  apply hex_digit_inj in Hlo; [|apply Z.mod_pos_bound; lia..].
  f_equal; [|by apply IH]. apply byte_code_inj.
  rewrite (Z.div_mod (byte_code a) 16), (Z.div_mod (byte_code b) 16) by lia. by rewrite Hhi, Hlo.
Qed.

Section external_lemmas.
Context `{E : Externals} {EOk : ExternalsOk E}.

(** Every digest the daemon renders passes its own digest check. *)
Lemma sha256_hex_is_lower (s : string) : is_lower_sha256 (sha256_hex s) = true.
Proof.
  unfold is_lower_sha256, sha256_hex, str_len.
  by rewrite to_hex_length, sha256_length, to_hex_lower.
Qed.

Lemma random_token_length n : String.length (random_token n) = 64%nat.
Proof. unfold random_token. by rewrite to_hex_length, fill_bytes_length. Qed.
End external_lemmas.

Lemma be_bytes_length n z : String.length (be_bytes n z) = n.
Proof. revert z. induction n as [|n IH]; simpl; intros z; [done|]. by rewrite IH. Qed.

Lemma be_bytes_inj n x y :
  0 ≤ x < 256 ^ Z.of_nat n → 0 ≤ y < 256 ^ Z.of_nat n → be_bytes n x = be_bytes n y → x = y.
Proof.
  intros Hx Hy H.
  assert (∀ k, (k ≤ n)%nat → be_bytes k x = be_bytes k y →
            x mod 256 ^ Z.of_nat k = y mod 256 ^ Z.of_nat k) as Hmod.
  { clear H. induction k as [|k IH]; intros Hk H; [by rewrite !Z.mod_1_r|].
    injection H as Hd H. specialize (IH ltac:(lia) H).
    apply (f_equal byte_code) in Hd.
    rewrite !byte_of_code in Hd by (apply Z.mod_pos_bound; lia).
    replace (Z.of_nat (S k)) with (Z.of_nat k + 1) by lia.
    rewrite Z.pow_add_r, Z.pow_1_r by lia.
    assert (0 < 256 ^ Z.of_nat k) by (apply Z.pow_pos_nonneg; lia).
    rewrite !Z.rem_mul_r by lia. by rewrite IH, Hd. }
  specialize (Hmod n (le_n n) H). by rewrite !Z.mod_small in Hmod.
Qed.

Lemma digest_preimage_inj fs gs :
  Forall (λ f, str_len f < 2 ^ 64) fs → Forall (λ f, str_len f < 2 ^ 64) gs →
  digest_preimage fs = digest_preimage gs → fs = gs.
Proof.
  intros Hfs. revert gs. induction Hfs as [|f fs Hf Hfs IH]; intros [|g gs] Hgs H.
  - done.
  - apply (f_equal String.length) in H. cbn [digest_preimage] in H.
    rewrite app_length_string, be_bytes_length in H. discriminate H.
  - apply (f_equal String.length) in H. cbn [digest_preimage] in H.
    rewrite app_length_string, be_bytes_length in H. discriminate H.
  - inversion Hgs as [|? ? Hg Hgs']; subst. cbn [digest_preimage] in H.
    apply app_inj_length in H as [Hlen H]; [|by rewrite !be_bytes_length].
    apply be_bytes_inj in Hlen; [|split; [apply Nat2Z.is_nonneg|]; change (256 ^ Z.of_nat 8) with (2 ^ 64); done..].
    apply app_inj_length in H as [-> H]; [|unfold str_len in Hlen; lia].
    f_equal. by apply IH.
Qed.

(** [digest_fields] is an unambiguous commitment to its field list.  Two field
    lists (of any lengths, fields below 2^64 bytes) with one digest are the same
    list, unless they exhibit a collision of SHA-256 itself: the eight-byte length
    prefixes leave no way to move bytes between neighbouring fields. *)
Theorem digest_fields_binding `{E : Externals} (fs gs : list string) :
  Forall (λ f, str_len f < 2 ^ 64) fs → Forall (λ f, str_len f < 2 ^ 64) gs →
  digest_fields fs = digest_fields gs →
  fs = gs ∨ ∃ x y, x ≠ y ∧ sha256 x = sha256 y.
Proof.
  intros Hfs Hgs H%to_hex_inj.
  destruct (decide (digest_preimage fs = digest_preimage gs)) as [Heq|Hne].
  - left. by apply digest_preimage_inj.
  - right. by exists (digest_preimage fs), (digest_preimage gs).
Qed.

(** The constant-time comparison decides equality: it accumulates the
    differences of the lengths and of every (zero-padded) byte position, and the
    accumulated difference is zero exactly on equal byte strings. *)
Lemma constant_time_eq_true (left right : string) :
  constant_time_eq left right = true ↔ left = right.
Proof.
  unfold constant_time_eq, constant_time_difference. rewrite Z.eqb_eq.
  assert (∀ (f : nat → Z) l d, List.fold_left (λ d i, Z.lor d (f i)) l d = 0 ↔
            d = 0 ∧ Forall (λ i, f i = 0) l) as Hfold.
  { intros f l. induction l as [|i l IH]; intros d; simpl; [naive_solver|].
    rewrite IH, Z.lor_eq_0_iff, Forall_cons. tauto. }
  rewrite Hfold. split; [|intros ->; split; [apply Z.lxor_nilpotent|]].
  - intros [Hlen%Z.lxor_eq Hbytes]. unfold str_len in Hlen. apply String.get_correct. intros n.
    destruct (decide (n < String.length left)%nat) as [Hn|Hn].
    + rewrite Forall_forall in Hbytes.
      assert (n ∈ seq 0 (Nat.max (String.length left) (String.length right))) as Hin
        by (apply elem_of_seq; lia).
      apply Hbytes in Hin. apply Z.lxor_eq in Hin. unfold byte_at in Hin.
      destruct (String.get n left) as [a|] eqn:Ea, (String.get n right) as [b|] eqn:Eb;
        [by apply byte_code_inj in Hin as ->|exfalso..|done].
      * apply String_get_None in Eb. lia.
      * apply String_get_None in Ea. lia.
    + rewrite !String_get_ge by lia. done.
  - apply Forall_forall. intros i _. apply Z.lxor_nilpotent.
Qed.

(** ** Decimal round trip *)

Lemma digit_value_pretty x : (x < 10)%N → digit_value (pretty_N_char x) = Some (Z.of_N x).
Proof.
  intros Hx. assert (x = 0 ∨ x = 1 ∨ x = 2 ∨ x = 3 ∨ x = 4 ∨ x = 5 ∨ x = 6 ∨ x = 7 ∨ x = 8 ∨ x = 9)%N
    as Hcases by lia.
  naive_solver.
Qed.

Lemma parse_digits_pretty_go x s :
  ∃ k : Z, ∀ acc, parse_digits acc (pretty_N_go x s) = parse_digits (acc * k + Z.of_N x) s.
Proof.
  revert s. induction (N.lt_wf_0 x) as [x _ IH]; intros s.
  destruct (decide (0 < x)%N) as [Hpos|Hz].
  - destruct (IH (x `div` 10)%N ltac:(apply N.div_lt; lia) (String (pretty_N_char (x `mod` 10)) s))
      as [k Hk].
    exists (10 * k). intros acc. rewrite pretty_N_go_step, Hk by done. simpl.
    rewrite digit_value_pretty by (apply N.mod_lt; done). simpl. f_equal.
    rewrite (N.div_mod x 10) at 3 by done. lia.
  - exists 1. intros acc. replace x with 0%N by lia. rewrite pretty_N_go_0. f_equal. lia.
Qed.

Lemma parse_digits_pretty (x : N) : parse_digits 0 (pretty x) = Some (Z.of_N x).
Proof.
  unfold pretty, pretty_N. case_decide as H; [by subst|].
  destruct (parse_digits_pretty_go x "") as [k Hk]. rewrite Hk. simpl. f_equal.
Qed.

Lemma pretty_N_head (x : N) : ∃ a s, pretty x = String a s ∧ is_ascii_digit a = true.
Proof.
  pose proof (parse_digits_pretty x) as H. destruct (pretty x) as [|a s] eqn:E.
  - unfold pretty, pretty_N in E. case_decide; [done|].
    exfalso. revert E. rewrite pretty_N_go_step by lia.
    generalize (x `div` 10)%N, (pretty_N_char (x `mod` 10)). intros y c.
    assert (∀ y c t, pretty_N_go y (String c t) ≠ "") as Hne; [|apply Hne].
    clear. intros y. induction (N.lt_wf_0 y) as [y _ IH]. intros c t.
    destruct (decide (0 < y)%N); [|replace y with 0%N by lia; by rewrite pretty_N_go_0].
    rewrite pretty_N_go_step by done. apply IH, N.div_lt; lia.
  - exists a, s. split; [done|]. simpl in H. unfold digit_value in H.
    destruct (is_ascii_digit a); done.
Qed.

(** [value.to_string().parse::<i64>()] is the value. *)
Lemma parse_i64_pretty (z : Z) : i64_min ≤ z ≤ i64_max → parse_i64 (pretty z) = Some z.
Proof.
  intros Hz.
  assert (∀ x, i64_checked x = Some x ↔ i64_min ≤ x ≤ i64_max) as Hc.
  { intros x. unfold i64_checked. case_bool_decide; naive_solver. }
  destruct z as [|p|p]; [done| |].
  - change (pretty (Zpos p)) with (pretty (Npos p)).
    pose proof (parse_digits_pretty (Npos p)) as Hp.
    destruct (pretty_N_head (Npos p)) as (a & s & Ha & Hd). rewrite Ha in *.
    assert (parse_i64 (String a s) = (z ← parse_digits 0 (String a s); i64_checked z)) as ->.
    { unfold is_ascii_digit, in_range in Hd.
      destruct a as [[] [] [] [] [] [] [] []]; vm_compute in Hd; try discriminate Hd; done. }
    rewrite Hp. simpl. by apply Hc.
  - change (pretty (Zneg p)) with ("-" +:+ pretty (Npos p)).
    pose proof (parse_digits_pretty (Npos p)) as Hp.
    destruct (pretty_N_head (Npos p)) as (a & s & Ha & Hd). rewrite Ha in *.
    change (parse_i64 ("-" +:+ String a s)) with
      (z ← parse_digits 0 (String a s); i64_checked (- z)).
    rewrite Hp. simpl. by apply Hc.
Qed.

(** ** Induction on JSON values *)

Section value_ind.
Variable P : Value → Prop.
Hypothesis Hnull : P VNull.
Hypothesis Hbool : ∀ b, P (VBool b).
Hypothesis Hnumber : ∀ n, P (VNumber n).
Hypothesis Hstring : ∀ s, P (VString s).
Hypothesis Harray : ∀ vs, Forall P vs → P (VArray vs).
Hypothesis Hobject : ∀ m, Forall (λ kv, P kv.2) m → P (VObject m).

Fixpoint Value_nested_ind (v : Value) : P v :=
  match v with
  | VNull => Hnull
  | VBool b => Hbool b
  | VNumber n => Hnumber n
  | VString s => Hstring s
  | VArray vs => Harray vs
      ((fix go (l : list Value) : Forall P l :=
          match l with
          | [] => Forall_nil_2 P
          | v :: l => Forall_cons_2 P v l (Value_nested_ind v) (go l)
          end) vs)
  | VObject m => Hobject m
      ((fix go (l : list (string * Value)) : Forall (λ kv, P kv.2) l :=
          match l with
          | [] => Forall_nil_2 _
          | kv :: l => Forall_cons_2 (λ kv, P kv.2) kv l (Value_nested_ind kv.2) (go l)
          end) m)
  end.
End value_ind.
