(* ===== verification/SampleExternals.v ===== *)
(** * A concrete instance of the external operations

    The witnesses of the development evaluate the model on concrete inputs; this
    file gives them concrete functions that satisfy [ExternalsOk]: a
    polynomial checksum in the place of SHA-256, a tagged prefix code in
    the place of the JSON text, numbered identifiers and counters in the place of
    the random sources.  Nothing outside the witnesses uses it. *)

From S2P Require Import Prelude Externals.

(** ** A 32-byte checksum *)

Fixpoint checksum (acc : Z) (s : string) : Z :=
  match s with
  | EmptyString => acc
  | String a s => checksum ((acc * 257 + byte_code a + 1) mod 18446744073709551557) s
  end.

Definition sample_sha256 (s : string) : string := be_bytes 32 (checksum 7 s).

(** ** A text encoding of JSON values

    A prefix code: every value starts with its tag; the characters of a string are
    marked by a dot and closed by an exclamation mark, as are the bits of a number. *)

Fixpoint text_code (s : string) : string :=
  match s with
  | EmptyString => "!"
  | String a s => String "."%char (String a (text_code s))
  end.

Fixpoint read_text (s : string) : option (string * string) :=
  match s with
  | String "!" s => Some ("", s)
  | String "." (String a s) => '(t, rest) ← read_text s; Some (String a t, rest)
  | _ => None
  end.

Lemma read_text_code t rest : read_text (text_code t +:+ rest) = Some (t, rest).
Proof.
  induction t as [|a t IH]; [done|].
  change (read_text (text_code (String a t) +:+ rest)) with
    ('(t', r) ← read_text (text_code t +:+ rest); Some (String a t', r)). by rewrite IH.
Qed.

Fixpoint bits_of (p : positive) : string :=
  match p with
  | xH => ""
  | xO p => String "0"%char (bits_of p)
  | xI p => String "1"%char (bits_of p)
  end.

Fixpoint of_bits (s : string) : positive :=
  match s with
  | EmptyString => xH
  | String a s => if Ascii.eqb a "0"%char then xO (of_bits s) else xI (of_bits s)
  end.

Lemma of_bits_of p : of_bits (bits_of p) = p.
Proof. induction p as [p IH|p IH|]; simpl; by rewrite ?IH. Qed.

Definition number_text (z : Z) : string :=
  match z with Z0 => "" | Zpos p => String "+"%char (bits_of p) | Zneg p => String "-"%char (bits_of p) end.

Definition text_number (s : string) : Z :=
  match s with
  | String "+" s => Zpos (of_bits s)
  | String "-" s => Zneg (of_bits s)
  | _ => 0
  end.

Lemma text_number_text z : text_number (number_text z) = z.
Proof. destruct z; simpl; by rewrite ?of_bits_of. Qed.

Fixpoint value_code (v : Value) : string :=
  match v with
  | VNull => "n"
  | VBool true => "t"
  | VBool false => "f"
  | VNumber (NInt z) => String "i"%char (text_code (number_text z))
  | VNumber (NFloat t) => String "d"%char (text_code t)
  | VString s => String "s"%char (text_code s)
  | VArray vs => String "a"%char (concat_strings (map value_code vs) +:+ "z")
  | VObject m => String "o"%char (concat_strings (map (λ kv, String "k"%char (text_code kv.1 +:+ value_code kv.2)) m) +:+ "z")
  end.

(** Reads a value, the elements of an array, or the entries of an object; the fuel
    bounds the number of nested reads. *)
Fixpoint read_value (fuel : nat) (s : string) : option (Value * string) :=
  match fuel with
  | O => None
  | S fuel =>
      match s with
      | String "n" s => Some (VNull, s)
      | String "t" s => Some (VBool true, s)
      | String "f" s => Some (VBool false, s)
      | String "i" s => '(t, s) ← read_text s; Some (VNumber (NInt (text_number t)), s)
      | String "d" s => '(t, s) ← read_text s; Some (VNumber (NFloat t), s)
      | String "s" s => '(t, s) ← read_text s; Some (VString t, s)
      | String "a" s => '(vs, s) ← read_values fuel s; Some (VArray vs, s)
      | String "o" s => '(m, s) ← read_entries fuel s; Some (VObject m, s)
      | _ => None
      end
  end
with read_values (fuel : nat) (s : string) : option (list Value * string) :=
  match fuel with
  | O => None
  | S fuel =>
      match s with
      | String "z" s => Some ([], s)
      | s => '(v, s) ← read_value fuel s; '(vs, s) ← read_values fuel s; Some (v :: vs, s)
      end
  end
with read_entries (fuel : nat) (s : string) : option (list (string * Value) * string) :=
  match fuel with
  | O => None
  | S fuel =>
      match s with
      | String "z" s => Some ([], s)
      | String "k" s => '(k, s) ← read_text s; '(v, s) ← read_value fuel s;
                        '(m, s) ← read_entries fuel s; Some ((k, v) :: m, s)
      | _ => None
      end
  end.

Lemma app_cons_string a (s t : string) : String a s +:+ t = String a (s +:+ t).
Proof. done. Qed.

(** No value starts with the closing tag. *)
Lemma read_values_cons fuel v s :
  read_values (S fuel) (value_code v +:+ s) =
  ('(v, s) ← read_value fuel (value_code v +:+ s); '(vs, s) ← read_values fuel s; Some (v :: vs, s)).
Proof. by destruct v as [|[]|[]| | |]. Qed.

Lemma read_value_code v rest fuel :
  (String.length (value_code v) ≤ fuel)%nat → read_value fuel (value_code v +:+ rest) = Some (v, rest).
Proof.
  revert rest fuel. induction v as [| |[]| |vs IH|m IH] using Value_nested_ind; intros rest fuel Hf.
  - destruct fuel; [simpl in Hf; lia|done].
  - destruct fuel; [destruct b; simpl in Hf; lia|by destruct b].
  - destruct fuel; [simpl in Hf; lia|]. cbn. rewrite app_cons_string, read_text_code. cbn.
    by rewrite text_number_text.
  - destruct fuel; [simpl in Hf; lia|]. cbn. by rewrite app_cons_string, read_text_code.
  - destruct fuel; [simpl in Hf; lia|]. cbn. by rewrite app_cons_string, read_text_code.
  - destruct fuel as [|fuel]; [simpl in Hf; lia|]. cbn in Hf |- *. rewrite app_cons_string.
    assert (∀ fuel, (String.length (concat_strings (map value_code vs) +:+ "z") ≤ fuel)%nat →
      read_values fuel ((concat_strings (map value_code vs) +:+ "z") +:+ rest) = Some (vs, rest)) as Hvs.
    { clear fuel Hf. induction IH as [|v vs Hv _ IHvs]; intros fuel Hf; [by destruct fuel; [simpl in Hf; lia|]|].
      cbn [map concat_strings] in *. rewrite !app_assoc_string in *. rewrite !app_length_string in Hf. cbn in Hf.
      destruct fuel as [|fuel]; [destruct v as [|[]|[]| | |]; simpl in Hf; lia|].
      assert (1 ≤ String.length (value_code v))%nat by (destruct v as [|[]|[]| | |]; simpl; lia).
      rewrite read_values_cons, Hv by lia. cbn. rewrite IHvs by (rewrite app_length_string; cbn; lia). done. }
    rewrite Hvs by lia. done.
  - destruct fuel as [|fuel]; [simpl in Hf; lia|]. cbn in Hf |- *. rewrite app_cons_string.
    set (entry := λ kv : string * Value, String "k"%char (text_code kv.1 +:+ value_code kv.2)) in *.
    assert (∀ fuel, (String.length (concat_strings (map entry m) +:+ "z") ≤ fuel)%nat →
      read_entries fuel ((concat_strings (map entry m) +:+ "z") +:+ rest) = Some (m, rest)) as Hm.
    { clear fuel Hf. induction IH as [|[k v] m Hv _ IHm]; intros fuel Hf; [by destruct fuel; [simpl in Hf; lia|]|].
      cbn [map concat_strings] in *. change (entry (k, v)) with (String "k"%char (text_code k +:+ value_code v)) in *.
      rewrite !app_cons_string in *. destruct fuel as [|fuel]; [simpl in Hf; lia|]. cbn in Hf.
      rewrite !app_assoc_string in *. rewrite !app_length_string in Hf. cbn in Hf. cbn. rewrite read_text_code. cbn.
      cbn in Hv. rewrite Hv by lia. cbn. rewrite IHm by (rewrite app_length_string; cbn; lia). done. }
    rewrite Hm by lia. done.
Qed.

Definition sample_to_string (v : Value) : string := value_code v.
Definition sample_from_str (s : string) : option Value := fst <$> read_value (String.length s) s.

(** ** The instance *)

#[export] Instance sample_externals : Externals := {
  sha256 := sample_sha256;
  json_to_string := sample_to_string;
  json_from_str := sample_from_str;
  schema_is_valid := λ _, true;
  uuid_v4 n := "uuid-" +:+ pretty n;
  fill_bytes n := be_bytes 32 (Z.of_nat n);
}.

#[export] Instance sample_externals_ok : ExternalsOk sample_externals.
Proof.
  split.
  - intros s. apply be_bytes_length.
  - intros v _. change (sample_from_str (sample_to_string v) = Some v).
    unfold sample_from_str, sample_to_string.
    pose proof (read_value_code v "" (String.length (value_code v)) (le_n _)) as H.
    rewrite app_nil_r_string in H. by rewrite H.
  - intros n. apply be_bytes_length.
Qed.

Lemma digest_fields_binding_witness :
  digest_fields ["task"; "1"] = digest_fields ["task"; "1"] ∧
  (["task"; "1"] = ["task"; "1"] ∨ ∃ x y, x ≠ y ∧ sha256 x = sha256 y).
Proof.
  split; [reflexivity|]. apply digest_fields_binding; [..|reflexivity];
    (apply Forall_cons; split; [vm_compute; reflexivity|]; apply Forall_cons; split;
     [vm_compute; reflexivity|apply Forall_nil_2]).
Defined.
