(* ===== verification/Protocol.v ===== *)
(** * Protocol records, canonical JSON and retry classification ([lib.rs])

    The stable error codes, the retry classification, the v1 record and wire
    decoders, the canonical JSON serialisation whose digest identifies a request,
    and the deterministic fake-adapter sequence. *)

From S2P Require Import Prelude Domain Externals SampleExternals.

(** ** Error codes and retry classification *)

Inductive RetryClass :=
  | SafePreDispatch | SafeProvenNoEffect | DeterministicFailure | RetryAmbiguousAfterDispatch.

Inductive EffectClass := NoEffect | PossibleEffect | UnknownEffect.

Inductive LifecycleEvidence :=
  | BeforeProcessCreation | ProcessDeadNoEffectProof | AfterProcessCreation | UnknownEvidence.

Inductive ErrorCode :=
  | VersionUnsupported | ValidationFailed | IdempotencyConflict | AdapterUnavailable
  | ProtocolMalformed | OutputLimitExceeded | ECancelled | ApprovalExpired
  | StorageUnavailable | AmbiguousAfterDispatch | IpcAuthenticationFailed | IpcFrameInvalid
  | IpcFrameTooLarge | IpcIoTimeout | DaemonStartTimeout | SingletonConflict | SetupAbsent
  | SetupDisabled | SetupRemoving | SetupDrifted | SetupAccessDenied | CursorExpired
  | ResponseUnknown.

#[export] Instance ErrorCode_eq_dec : EqDecision ErrorCode.
Proof. solve_decision. Defined.

Definition ERROR_CODES : list ErrorCode :=
  [VersionUnsupported; ValidationFailed; IdempotencyConflict; AdapterUnavailable;
   ProtocolMalformed; OutputLimitExceeded; ECancelled; ApprovalExpired;
   StorageUnavailable; AmbiguousAfterDispatch; IpcAuthenticationFailed; IpcFrameInvalid;
   IpcFrameTooLarge; IpcIoTimeout; DaemonStartTimeout; SingletonConflict; SetupAbsent;
   SetupDisabled; SetupRemoving; SetupDrifted; SetupAccessDenied; CursorExpired;
   ResponseUnknown].

Module ErrorCode.

Definition as_str (self : ErrorCode) : string :=
  match self with
  | VersionUnsupported => "VERSION_UNSUPPORTED"
  | ValidationFailed => "VALIDATION_FAILED"
  | IdempotencyConflict => "IDEMPOTENCY_CONFLICT"
  | AdapterUnavailable => "ADAPTER_UNAVAILABLE"
  | ProtocolMalformed => "PROTOCOL_MALFORMED"
  | OutputLimitExceeded => "OUTPUT_LIMIT_EXCEEDED"
  | ECancelled => "CANCELLED"
  | ApprovalExpired => "APPROVAL_EXPIRED"
  | StorageUnavailable => "STORAGE_UNAVAILABLE"
  | AmbiguousAfterDispatch => "AMBIGUOUS_AFTER_DISPATCH"
  | IpcAuthenticationFailed => "IPC_AUTHENTICATION_FAILED"
  | IpcFrameInvalid => "IPC_FRAME_INVALID"
  | IpcFrameTooLarge => "IPC_FRAME_TOO_LARGE"
  | IpcIoTimeout => "IPC_IO_TIMEOUT"
  | DaemonStartTimeout => "DAEMON_START_TIMEOUT"
  | SingletonConflict => "SINGLETON_CONFLICT"
  | SetupAbsent => "SETUP_ABSENT"
  | SetupDisabled => "SETUP_DISABLED"
  | SetupRemoving => "SETUP_REMOVING"
  | SetupDrifted => "SETUP_DRIFTED"
  | SetupAccessDenied => "SETUP_ACCESS_DENIED"
  | CursorExpired => "CURSOR_EXPIRED"
  | ResponseUnknown => "RESPONSE_UNKNOWN"
  end.

Definition is_deterministic (self : ErrorCode) : bool :=
  match self with
  | VersionUnsupported | ValidationFailed | IdempotencyConflict | ECancelled
  | ApprovalExpired | IpcAuthenticationFailed | IpcFrameInvalid | IpcFrameTooLarge
  | SingletonConflict | SetupAbsent | SetupDisabled | SetupDrifted | SetupAccessDenied
  | CursorExpired => true
  | _ => false
  end.

End ErrorCode.

Definition classify_retry (code : ErrorCode) (effect : EffectClass)
    (evidence : LifecycleEvidence) : RetryClass :=
  if ErrorCode.is_deterministic code then DeterministicFailure
  else match effect, evidence with
       | _, BeforeProcessCreation => SafePreDispatch
       | NoEffect, ProcessDeadNoEffectProof => SafeProvenNoEffect
       | _, _ => RetryAmbiguousAfterDispatch
       end.

Definition classify_retry_for_attempt (code : ErrorCode) (effect : EffectClass)
    (evidence : LifecycleEvidence) (effect_profile : EffectProfile) : RetryClass :=
  match effect_profile, evidence with
  | CurrentDirectory, BeforeProcessCreation => classify_retry code effect evidence
  | CurrentDirectory, _ => RetryAmbiguousAfterDispatch
  | _, _ => classify_retry code effect evidence
  end.

(** ** Settings opt-in *)

Definition is_string (s : string) (v : Value) : bool :=
  match v with VString t => String.eqb t s | _ => false end.
Definition is_true (v : Value) : bool :=
  match v with VBool true => true | _ => false end.

Definition allow_current_directory (value : Value) : bool :=
  let opted_in (settings : Value) :=
    match settings with
    | VObject m => is_some_and is_true (assoc "allow_current_directory" m)
    | _ => false
    end in
  match value with
  | VObject object =>
      if is_some_and (is_string "config") (assoc "kind" object) then
        match assoc "settings" object with
        | Some (VObject settings) => opted_in (VObject settings)
        | _ => false
        end
      else opted_in value
  | other => opted_in other
  end.

(** ** Record decoding *)

Record ProtocolError := mkProtocolError { code : ErrorCode; message : string }.

Definition is_protocol_version (v : Value) : bool :=
  match v with VNumber (NInt 1) => true | _ => false end.

Definition decode_v1 `{Externals} (value : Value)
  : ProtocolError + list (string * Value) :=
  match as_object value with
  | None => inl (mkProtocolError ValidationFailed "protocol record must be an object")
  | Some object =>
      if is_some_and (λ version, negb (is_protocol_version version)) (assoc "version" object)
      then inl (mkProtocolError VersionUnsupported "protocol version must be exactly 1")
      else if negb (match assoc "kind" object with
                    | Some (VString kind) => negb (String.eqb kind "")
                    | _ => false
                    end)
      then inl (mkProtocolError ValidationFailed "protocol record kind is required")
      else if negb (schema_is_valid value)
      then inl (mkProtocolError ValidationFailed "protocol record does not match schema v1")
      else inr object
  end.

Definition decode_wire_v1 `{Externals} (value : Value)
  : ProtocolError + list (string * Value) :=
  match as_object value with
  | None => inl (mkProtocolError ValidationFailed "wire message must be an object")
  | Some object =>
      if negb (is_some_and (is_string "2.0") (assoc "jsonrpc" object))
         || negb (schema_is_valid value)
      then inl (mkProtocolError ValidationFailed "wire message does not match schema v1")
      else inr object
  end.

(** ** Canonical JSON *)

(** [BTreeMap::insert]: the entries stay in key order, a present key is replaced. *)
Fixpoint btree_insert {A} (k : string) (a : A) (m : list (string * A)) : list (string * A) :=
  match m with
  | [] => [(k, a)]
  | (k', a') :: m' =>
      if String.ltb k k' then (k, a) :: m
      else if String.eqb k k' then (k, a) :: m'
      else (k', a') :: btree_insert k a m'
  end.

(** [iter.collect::<BTreeMap<_, _>>()] followed by [into_iter()] *)
Definition btree_collect {A} (entries : list (string * A)) : list (string * A) :=
  List.fold_left (λ m kv, btree_insert kv.1 kv.2 m) entries [].

Fixpoint canonical_value (value : Value) : Value :=
  match value with
  | VArray values => VArray (map canonical_value values)
  | VObject values => VObject (btree_collect (map (λ kv, (kv.1, canonical_value kv.2)) values))
  | primitive => primitive
  end.

Definition max_safe_integer : Z := 9007199254740991.

Definition safe_number (v : Value) : bool :=
  is_some_and (λ i, (- max_safe_integer <=? i) && (i <=? max_safe_integer)) (as_i64 v)
  || is_some_and (λ i, i <=? max_safe_integer) (as_u64 v).

Inductive CanonicalError := UnsafeInteger.

Fixpoint validate_numbers (value : Value) : bool :=
  match value with
  | VNumber _ => safe_number value
  | VArray values => forallb validate_numbers values
  | VObject values => forallb (λ kv, validate_numbers kv.2) values
  | _ => true
  end.

Definition canonicalize `{Externals} (value : Value) : CanonicalError + string :=
  if validate_numbers value then inr (json_to_string (canonical_value value))
  else inl UnsafeInteger.

Definition digest `{Externals} (value : Value) : CanonicalError + string :=
  match canonicalize value with
  | inl e => inl e
  | inr canonical => inr (sha256_hex canonical)
  end.

(** ** The fake adapter *)

Inductive FakeAdapterEvent :=
  | FLifecycle (state : string)
  | FText (text : option string) (bytes : option Z)
  | FTerminal (state : string)
  | FApproval (operation : string)
  | FCancelled
  | FDelay (milliseconds : Z)
  | FRaw (line : string)
  | FCrash (code : Z).

Fixpoint run_fake_events (events emitted : list FakeAdapterEvent) : Z + list FakeAdapterEvent :=
  match events with
  | [] => inr emitted
  | event :: events =>
      match event with
      | FDelay _ => run_fake_events events emitted
      | FCrash code => inl code
      | event => run_fake_events events (emitted ++ [event])
      end
  end.

Definition run_fake_sequence (events : list FakeAdapterEvent) : Z + list FakeAdapterEvent :=
  run_fake_events events [].

(** ** Lemmas: key order *)

Lemma string_ltb_spec s t : String.ltb s t = true ↔ String.le s t ∧ s ≠ t.
Proof.
  unfold String.ltb, String.le, String.leb.
  destruct (String.compare s t) eqn:E.
  - apply String.compare_eq_iff in E. naive_solver.
  - split; [|done]. intros _. split; [done|]. intros ->.
    pose proof (String.compare_antisym t t) as Ht. rewrite E in Ht. discriminate Ht.
  - naive_solver.
Qed.

Lemma string_ltb_trans s t u :
  String.ltb s t = true → String.ltb t u = true → String.ltb s u = true.
Proof.
  rewrite !string_ltb_spec. intros [Hst Hne] [Htu Hne']. split; [by trans t|].
  intros ->. apply Hne. by apply (anti_symm String.le).
Qed.

Lemma string_ltb_irrefl s : String.ltb s s = false.
Proof. destruct (String.ltb s s) eqn:E; [|done]. apply string_ltb_spec in E. naive_solver. Qed.

Lemma string_ltb_total s t : String.ltb s t = false → s ≠ t → String.ltb t s = true.
Proof.
  intros Hlt Hne. apply string_ltb_spec. split; [|done].
  destruct (total String.le s t) as [Hle|]; [|done].
  exfalso. apply not_true_iff_false in Hlt. apply Hlt, string_ltb_spec. done.
Qed.

(** ** Lemmas: ordered maps *)

Definition key_lt {A} (x y : string * A) : Prop := String.ltb x.1 y.1 = true.

Lemma keys_increasing_sorted {A} (m : list (string * A)) :
  keys_increasing (map fst m) = true ↔ StronglySorted key_lt m.
Proof.
  assert (∀ x (m : list (string * A)),
    keys_increasing (map fst (x :: m)) = true → Forall (key_lt x) m) as Hall.
  { intros x l. revert x. induction l as [|y l IH]; intros x Hx; [constructor|].
    simpl in Hx. apply andb_true_iff in Hx as [Hxy Hl]. constructor; [done|].
    apply (Forall_impl (key_lt y)); [by apply IH|]. intros z Hz. by eapply string_ltb_trans. }
  induction m as [|x m IH]; [split; [constructor|done]|]. split.
  - intros Hx. constructor; [|by apply Hall]. apply IH. destruct m; [done|].
    simpl in Hx. by apply andb_true_iff in Hx as [_ ?].
  - intros Hx. apply StronglySorted_inv in Hx as [Hm Hx]. apply IH in Hm.
    destruct m as [|y m]; [done|]. apply andb_true_iff. split; [|done]. by invert Hx.
Qed.

Lemma btree_insert_keys {A} k (a : A) m x :
  x ∈ (btree_insert k a m).*1 ↔ x = k ∨ x ∈ m.*1.
Proof.
  induction m as [|[k' a'] m IH]; simpl; [set_solver|].
  destruct (String.ltb k k'); [set_solver|].
  destruct (String.eqb_spec k k') as [->|]; [set_solver|]. simpl. rewrite !elem_of_cons, IH. tauto.
Qed.

Lemma btree_insert_perm {A} k (a : A) m : k ∉ m.*1 → btree_insert k a m ≡ₚ (k, a) :: m.
Proof.
  induction m as [|[k' a'] m IH]; intros Hk; simpl in *; [done|].
  destruct (String.ltb k k'); [done|]. destruct (String.eqb_spec k k'); [set_solver|].
  rewrite IH by set_solver. apply Permutation_swap.
Qed.

Lemma btree_insert_sorted {A} k (a : A) m :
  StronglySorted key_lt m → StronglySorted key_lt (btree_insert k a m).
Proof.
  induction 1 as [|[k' a'] m Hm IH Hk']; simpl; [repeat constructor|].
  destruct (String.ltb k k') eqn:Hlt.
  - repeat constructor; [done..|]. eapply Forall_impl; [exact Hk'|].
    intros y. apply string_ltb_trans, Hlt.
  - destruct (String.eqb_spec k k') as [->|Hne]; [by constructor|].
    constructor; [done|]. rewrite Forall_forall in Hk' |- *. intros y Hy.
    assert (y.1 ∈ (btree_insert k a m).*1) as Hy1 by (apply list_elem_of_fmap; eauto).
    apply btree_insert_keys in Hy1 as [Hy1|Hy1].
    + unfold key_lt. simpl. rewrite Hy1. by apply string_ltb_total.
    + apply list_elem_of_fmap in Hy1 as (z & Hz & Hz'). unfold key_lt. simpl. rewrite Hz.
      by apply (Hk' z).
Qed.

Lemma btree_collect_sorted {A} (l : list (string * A)) : StronglySorted key_lt (btree_collect l).
Proof.
  unfold btree_collect. assert (StronglySorted key_lt ([] : list (string * A))) as H by constructor.
  revert H. generalize ([] : list (string * A)). induction l as [|x l IH]; intros m Hm; simpl; [done|].
  by apply IH, btree_insert_sorted.
Qed.

Lemma btree_collect_perm {A} (l : list (string * A)) : NoDup l.*1 → btree_collect l ≡ₚ l.
Proof.
  intros Hl. unfold btree_collect.
  assert (∀ m, NoDup (l.*1 ++ m.*1) →
    List.fold_left (λ m kv, btree_insert kv.1 kv.2 m) l m ≡ₚ l ++ m) as Hgo.
  { clear Hl. induction l as [|[k a] l IH]; intros m Hm; simpl in *; [done|].
    apply NoDup_cons in Hm as [Hk Hm]. apply not_elem_of_app in Hk as [Hkl Hkm].
    rewrite IH; rewrite (btree_insert_perm k a m Hkm).
    - by rewrite Permutation_middle.
    - rewrite fmap_cons, <-Permutation_middle. apply NoDup_cons.
      split; [set_solver|done]. }
  rewrite (Hgo []); simpl; by rewrite app_nil_r.
Qed.

Lemma key_lt_antisym {A} (x y : string * A) : key_lt x y → key_lt y x → x = y.
Proof.
  unfold key_lt. intros H1 H2. pose proof (string_ltb_trans _ _ _ H1 H2) as H.
  by rewrite string_ltb_irrefl in H.
Qed.

Lemma sorted_perm_eq {A} (l m : list (string * A)) :
  StronglySorted key_lt l → StronglySorted key_lt m → l ≡ₚ m → l = m.
Proof.
  intros Hl Hm Hp. eapply (StronglySorted_unique_strong key_lt); [|exact Hl|exact Hm|exact Hp].
  intros x y _ _. apply key_lt_antisym.
Qed.

Lemma btree_collect_eq {A} (l m : list (string * A)) :
  NoDup l.*1 → NoDup m.*1 → btree_collect l = btree_collect m ↔ l ≡ₚ m.
Proof.
  intros Hl Hm. split; intros H.
  - by rewrite <-(btree_collect_perm l Hl), H, btree_collect_perm.
  - apply sorted_perm_eq; [apply btree_collect_sorted..|]. by rewrite !btree_collect_perm.
Qed.

Lemma sorted_keys_NoDup {A} (m : list (string * A)) : StronglySorted key_lt m → NoDup m.*1.
Proof.
  induction 1 as [|x m Hm IH Hx]; simpl; constructor; [|done].
  intros (y & Hy & Hin)%list_elem_of_fmap. rewrite Forall_forall in Hx. apply Hx in Hin.
  unfold key_lt in Hin. by rewrite Hy, string_ltb_irrefl in Hin.
Qed.

Lemma btree_collect_id {A} (l : list (string * A)) : StronglySorted key_lt l → btree_collect l = l.
Proof.
  intros Hl. apply sorted_perm_eq; [apply btree_collect_sorted|done|].
  by apply btree_collect_perm, sorted_keys_NoDup.
Qed.

(** ** Values up to the order of object entries *)

Fixpoint unique_keys (v : Value) : bool :=
  match v with
  | VArray vs => forallb unique_keys vs
  | VObject m => bool_decide (NoDup m.*1) && forallb (λ kv, unique_keys kv.2) m
  | _ => true
  end.

Inductive json_equiv : Value → Value → Prop :=
  | equiv_refl v : json_equiv v v
  | equiv_array vs ws : Forall2 json_equiv vs ws → json_equiv (VArray vs) (VArray ws)
  | equiv_object m m' m'' :
      Forall2 (λ x y, x.1 = y.1 ∧ json_equiv x.2 y.2) m m' → m' ≡ₚ m'' →
      json_equiv (VObject m) (VObject m'').

Definition canonical_entry (kv : string * Value) : string * Value :=
  (kv.1, canonical_value kv.2).

Lemma canonical_entry_keys (m : list (string * Value)) : (map canonical_entry m).*1 = m.*1.
Proof. induction m as [|x m IH]; [done|]. simpl. by f_equal. Qed.

Lemma forallb_Forall {A} (p : A → bool) l : forallb p l = true ↔ Forall (λ x, p x = true) l.
Proof.
  induction l as [|x l IH]; simpl; [split; [constructor|done]|].
  by rewrite andb_true_iff, IH, Forall_cons.
Qed.

Lemma canonical_value_equiv v w :
  unique_keys v = true → unique_keys w = true →
  canonical_value v = canonical_value w ↔ json_equiv v w.
Proof.
  revert w. induction v as [|b|n|s|vs IH|m IH] using Value_nested_ind; intros w Hv Hw.
  1-4: split; [destruct w; intros [=]; subst; constructor|by inversion 1].
  - simpl in Hv. apply forallb_Forall in Hv. split.
    + destruct w as [| | | |ws|]; intros [=Heq]. simpl in Hw. apply forallb_Forall in Hw.
      constructor. revert ws Hw Heq. induction vs as [|v vs IHvs]; intros [|w ws] Hw [=]; [done|].
      invert IH. invert Hv. invert Hw. constructor; naive_solver.
    + inversion 1 as [|? ws Hall|]; subst; [done|]. simpl in *. f_equal.
      apply forallb_Forall in Hw. clear H. induction Hall as [|v w vs ws Hvw Hall IHall]; [done|].
      invert IH. invert Hv. invert Hw. simpl. f_equal; naive_solver.
  - simpl in Hv. apply andb_true_iff in Hv as [Hnd Hv].
    apply bool_decide_eq_true in Hnd. apply forallb_Forall in Hv.
    assert (∀ m', Forall (λ kv, unique_keys kv.2 = true) m' →
      map canonical_entry m = map canonical_entry m' ↔
      Forall2 (λ x y, x.1 = y.1 ∧ json_equiv x.2 y.2) m m') as Hpoint.
    { clear Hw Hnd w. induction m as [|[k v] m IHm]; intros [|[k' w] m'] Hm';
        [split; done..|split; [done|inversion 1]|split; [done|inversion 1]|].
      apply Forall_cons in IH as [IHv IH], Hv as [Hv Hvs], Hm' as [Hw Hm']. simpl in *.
      rewrite Forall2_cons, <-(IHm IH Hvs m' Hm'), <-(IHv w Hv Hw). simpl.
      change (canonical_entry (k, v)) with (k, canonical_value v).
      change (canonical_entry (k', w)) with (k', canonical_value w).
      split; [by intros [= -> -> ->]|by intros [[-> ->] ->]]. }
    split.
    + destruct w as [| | | | |m'']; intros [=Heq]. simpl in Hw.
      apply andb_true_iff in Hw as [Hnd' Hw]. apply bool_decide_eq_true in Hnd'.
      apply forallb_Forall in Hw. fold canonical_entry in Heq.
      apply btree_collect_eq in Heq; [|by rewrite canonical_entry_keys..].
      apply Permutation_map_inv in Heq as (m' & Heq & Hp).
      apply (equiv_object _ m'); [|done]. apply Hpoint; [by rewrite <-Hp|done].
    + inversion 1 as [| |? m' m'' Hall Hp]; subst; [done|]. simpl in *. f_equal.
      apply andb_true_iff in Hw as [Hnd' Hw]. apply bool_decide_eq_true in Hnd'.
      apply forallb_Forall in Hw. fold canonical_entry.
      apply btree_collect_eq; [by rewrite canonical_entry_keys..|].
      apply Hpoint in Hall; [|by rewrite Hp]. rewrite Hall. by apply Permutation_map.
Qed.

Lemma canonical_value_wf v : unique_keys v = true → wf_value (canonical_value v) = true.
Proof.
  induction v as [|b|n|s|vs IH|m IH] using Value_nested_ind; intros Hv; [done..| |].
  - simpl in *. rewrite forallb_Forall in *. rewrite Forall_map.
    induction IH; invert Hv; constructor; auto.
  - simpl in *. apply andb_true_iff in Hv as [Hnd Hv]. apply andb_true_iff. fold canonical_entry.
    split; [apply keys_increasing_sorted, btree_collect_sorted|].
    apply bool_decide_eq_true in Hnd. rewrite forallb_Forall in *.
    rewrite btree_collect_perm by (by rewrite canonical_entry_keys).
    rewrite Forall_map. clear Hnd. induction IH; invert Hv; constructor; simpl; auto.
Qed.

Lemma wf_value_canonical v : wf_value v = true → canonical_value v = v.
Proof.
  induction v as [|b|n|s|vs IH|m IH] using Value_nested_ind; intros Hv; [done..| |]; simpl in *.
  - f_equal. rewrite forallb_Forall in Hv. induction IH; invert Hv; simpl; f_equal; auto.
  - apply andb_true_iff in Hv as [Hs Hv]. rewrite forallb_Forall in Hv. fold canonical_entry.
    assert (map canonical_entry m = m) as ->.
    { clear Hs. induction IH as [|[k v] m]; invert Hv; simpl; f_equal; auto.
      unfold canonical_entry. simpl in *. f_equal. auto. }
    f_equal. by apply btree_collect_id, keys_increasing_sorted.
Qed.

Lemma wf_value_unique_keys v : wf_value v = true → unique_keys v = true.
Proof.
  induction v as [|b|n|s|vs IH|m IH] using Value_nested_ind; intros Hv; [done..| |]; simpl in *;
    rewrite ?andb_true_iff, !forallb_Forall in *.
  - induction IH; invert Hv; constructor; auto.
  - destruct Hv as [Hs Hv]. split.
    + by apply bool_decide_eq_true, sorted_keys_NoDup, keys_increasing_sorted.
    + clear Hs. induction IH; invert Hv; constructor; auto.
Qed.

Lemma validate_numbers_canonical v :
  unique_keys v = true → validate_numbers (canonical_value v) = validate_numbers v.
Proof.
  intros Hv. apply eq_iff_eq_true. revert Hv.
  induction v as [|b|n|s|vs IH|m IH] using Value_nested_ind; intros Hv; [done..| |]; simpl in *.
  - rewrite !forallb_Forall, Forall_map in *. induction IH; invert Hv; [done|].
    rewrite !Forall_cons. naive_solver.
  - apply andb_true_iff in Hv as [Hnd Hv]. apply bool_decide_eq_true in Hnd.
    rewrite !forallb_Forall in *. fold canonical_entry.
    rewrite btree_collect_perm by (by rewrite canonical_entry_keys).
    rewrite Forall_map. clear Hnd. induction IH; invert Hv; [done|].
    rewrite !Forall_cons. simpl. naive_solver.
Qed.

Lemma json_equiv_validate v w :
  unique_keys v = true → unique_keys w = true → json_equiv v w →
  validate_numbers v = validate_numbers w.
Proof.
  intros Hv Hw Heq%canonical_value_equiv; [|done..].
  by rewrite <-(validate_numbers_canonical v), <-(validate_numbers_canonical w), Heq.
Qed.

(** Safe integers read back, and reordering the entries nests nothing deeper. *)
Lemma validate_numbers_readable v : validate_numbers v = true → numbers_readable v = true.
Proof.
  induction v as [|b|n|s|vs IH|m IH] using Value_nested_ind; intros Hv; [done|done| |done| |]; simpl in *.
  - unfold safe_number, as_i64, as_u64 in Hv. destruct n as [z|t]; [|done]. simpl.
    apply andb_true_iff. rewrite !Z.leb_le.
    apply orb_true_iff in Hv as [Hv|Hv]; unfold is_some_and in Hv;
      [destruct (i64_checked z) eqn:Hz; [|done]; apply i64_checked_Some in Hz as [-> ?]
      |destruct (u64_checked z) eqn:Hz; [|done]; unfold u64_checked in Hz; case_bool_decide; [|done]];
      unfold i64_min, i64_max, u64_max in *; lia.
  - rewrite forallb_Forall in *. induction IH; invert Hv; constructor; auto.
  - rewrite forallb_Forall in *. induction IH; invert Hv; constructor; auto.
Qed.

Lemma json_depth_canonical v : unique_keys v = true → json_depth (canonical_value v) = json_depth v.
Proof.
  induction v as [|b|n|s|vs IH|m IH] using Value_nested_ind; intros Hv; [done..| |]; simpl in *; f_equal.
  - rewrite forallb_Forall in Hv. rewrite map_map. f_equal. induction IH; invert Hv; simpl; f_equal; auto.
  - apply andb_true_iff in Hv as [Hnd Hv]. apply bool_decide_eq_true in Hnd. fold canonical_entry.
    assert (btree_collect (map canonical_entry m) ≡ₚ map canonical_entry m) as Hp
      by (apply btree_collect_perm; by rewrite canonical_entry_keys).
    transitivity (list_max (map (λ kv : string * Value, json_depth kv.2) (map canonical_entry m))).
    { apply Nat.le_antisymm; apply list_max_le, List.Forall_forall; intros x Hx;
        eapply (proj1 (List.Forall_forall _ _) (proj1 (list_max_le _ _) (le_n _)));
        revert Hx; apply Permutation_in, Permutation_map; by rewrite Hp. }
    f_equal. rewrite map_map. clear Hnd Hp. rewrite forallb_Forall in Hv.
    induction IH; invert Hv; simpl; f_equal; auto.
Qed.

Lemma canonical_value_readable v :
  unique_keys v = true → validate_numbers v = true → (json_depth v ≤ json_nesting_limit)%nat →
  json_readable (canonical_value v) = true.
Proof.
  intros Hv Hnum Hd. unfold json_readable. rewrite !andb_true_iff. split_and!.
  - by apply canonical_value_wf.
  - apply validate_numbers_readable. by rewrite validate_numbers_canonical.
  - apply Nat.leb_le. by rewrite json_depth_canonical.
Qed.

Lemma canonicalize_Some `{Externals} v s :
  canonicalize v = inr s ↔ validate_numbers v = true ∧ s = json_to_string (canonical_value v).
Proof. unfold canonicalize. destruct (validate_numbers v); naive_solver. Qed.

(** The fake adapter reports the first scripted crash, or every event but the delays. *)
Definition is_delay (e : FakeAdapterEvent) : bool := match e with FDelay _ => true | _ => false end.
Definition crash_code (e : FakeAdapterEvent) : option Z :=
  match e with FCrash c => Some c | _ => None end.

Lemma run_fake_sequence_spec events :
  run_fake_sequence events =
    match head (omap crash_code events) with
    | Some c => inl c
    | None => inr (filter (λ e, is_delay e = false) events)
    end.
Proof.
  assert (∀ emitted, run_fake_events events emitted =
    match head (omap crash_code events) with
    | Some c => inl c
    | None => inr (emitted ++ filter (λ e, is_delay e = false) events)
    end) as Hgo; [|by apply Hgo].
  induction events as [|e events IH]; intros emitted; [simpl; by rewrite app_nil_r|].
  destruct e; try done; csimpl; rewrite IH; destruct (head _); try done;
    by rewrite <-?app_assoc.
Qed.

(** ** Properties *)

(** The retry classification is conservative.  An attempt is retried as "before
    dispatch" exactly when the error is not deterministic and no process was
    created, and as "proven without effect" exactly when in addition the process is
    dead with a proof of no effect and the attempt did not run in the current
    directory; a deterministic error is final unless a current-directory attempt
    had already started its process, which is always ambiguous. *)
Theorem retry_classification (c : ErrorCode) (e : EffectClass) (l : LifecycleEvidence)
    (p : EffectProfile) :
  let class := classify_retry_for_attempt c e l p in
  let deterministic := ErrorCode.is_deterministic c = true in
  (class = SafePreDispatch ↔ ¬ deterministic ∧ l = BeforeProcessCreation) ∧
  (class = SafeProvenNoEffect ↔
     ¬ deterministic ∧ e = NoEffect ∧ l = ProcessDeadNoEffectProof ∧ p ≠ CurrentDirectory) ∧
  (class = DeterministicFailure ↔
     deterministic ∧ (p = CurrentDirectory → l = BeforeProcessCreation)).
Proof.
  unfold classify_retry_for_attempt, classify_retry. simpl.
  destruct (ErrorCode.is_deterministic c), e, l, p; naive_solver.
Qed.

(** Two values have the same canonical text exactly when they differ in key order only. *)
Lemma canonicalize_identifies `{E : Externals} {EOk : ExternalsOk E} (v w : Value) :
  unique_keys v = true → unique_keys w = true →
  (json_depth v ≤ json_nesting_limit)%nat → (json_depth w ≤ json_nesting_limit)%nat →
  (json_equiv v w → canonicalize w = canonicalize v) ∧
  (∀ s, canonicalize v = inr s → canonicalize w = inr s → json_equiv v w).
Proof.
  intros Hv Hw Hdv Hdw. split.
  - intros Heq. unfold canonicalize. rewrite (json_equiv_validate v w) by done.
    apply canonical_value_equiv in Heq; [|done..]. by rewrite Heq.
  - intros s (Hnv & ->)%canonicalize_Some (Hnw & Hs)%canonicalize_Some.
    apply canonical_value_equiv; [done..|]. apply (f_equal json_from_str) in Hs.
    rewrite !json_from_to in Hs by (by apply canonical_value_readable). by injection Hs.
Qed.

(** C34: the digest of a value identifies it up to the order of object entries.  Two values with
    unique keys, nested no deeper than the JSON parser reads, that differ in key order only are
    both refused (for an unsafe number) or have the same digest; and two that have a digest
    have the same one only if they differ in key order only, or if their canonical texts are a
    collision of SHA-256. *)
Theorem digest_identifies `{E : Externals} {EOk : ExternalsOk E} (v w : Value) :
  unique_keys v = true → unique_keys w = true →
  (json_depth v ≤ json_nesting_limit)%nat → (json_depth w ≤ json_nesting_limit)%nat →
  (json_equiv v w → digest w = digest v) ∧
  (∀ d, digest v = inr d → digest w = inr d → json_equiv v w ∨
     ∃ s t, canonicalize v = inr s ∧ canonicalize w = inr t ∧ s ≠ t ∧ sha256 s = sha256 t).
Proof.
  intros Hv Hw Hdv Hdw. destruct (canonicalize_identifies v w Hv Hw Hdv Hdw) as [Hsame Hback]. split.
  - intros Heq. unfold digest. by rewrite (Hsame Heq).
  - intros d. unfold digest.
    destruct (canonicalize v) as [|s] eqn:Hs, (canonicalize w) as [|t]; [done..|]. intros [= <-] [= Heq%to_hex_inj].
    destruct (decide (t = s)) as [->|]; [left; by eapply Hback|right].
    exists s, t. by split_and!.
Qed.

Definition sample_request : Value :=
  VObject [("kind", VString "task"); ("args", VArray [VNumber (NInt 7); VNull])].
Definition sample_request_reordered : Value :=
  VObject [("args", VArray [VNumber (NInt 7); VNull]); ("kind", VString "task")].

Lemma digest_identifies_witness :
  @digest sample_externals sample_request_reordered = @digest sample_externals sample_request ∧
  (∀ d, @digest sample_externals sample_request = inr d → @digest sample_externals sample_request_reordered = inr d →
     json_equiv sample_request sample_request_reordered ∨
     ∃ s t, @canonicalize sample_externals sample_request = inr s ∧
       @canonicalize sample_externals sample_request_reordered = inr t ∧ s ≠ t ∧
       @sha256 sample_externals s = @sha256 sample_externals t).
Proof.
  destruct (@digest_identifies sample_externals sample_externals_ok sample_request sample_request_reordered)
    as [Hsame Hback]; [vm_compute; reflexivity..|vm_compute; lia|vm_compute; lia|].
  split; [|exact Hback]. apply Hsame. apply canonical_value_equiv; vm_compute; reflexivity.
Defined.
