(* ===== verification/StrictJson.v ===== *)
(** * The strict JSON scanner ([protocol_strict_json.rs])

    The scanner runs over a source before the JSON parser: it rejects duplicate keys at every
    depth and nesting beyond a ceiling.  Its [offset] is represented by the part of the source
    that remains.  The recursion is by fuel; [parse_strict_json] starts with enough for every
    source, which [StrictJsonProofs] proves. *)

From S2P Require Import Prelude Domain Externals SampleExternals.

Definition MAX_JSON_DEPTH : nat := 128.

(** The double quote. *)
Definition quote : ascii := byte_of 34.

(** What a scan answers: the rest of the source, a rejection, or no more fuel. *)
Inductive Scan (A : Type) := Scanned (a : A) | Rejected | OutOfFuel.
Arguments Scanned {A} _.
Arguments Rejected {A}.
Arguments OutOfFuel {A}.

(** [u8::is_ascii_whitespace] *)
Definition is_ascii_whitespace (a : ascii) : bool :=
  existsb (Z.eqb (byte_code a)) [32; 9; 10; 12; 13].

Fixpoint whitespace (s : string) : string :=
  match s with
  | String a s1 => if is_ascii_whitespace a then whitespace s1 else s
  | EmptyString => ""
  end.

(** The loop of [string] after the opening quote: the literal up to and with its closing quote. *)
Fixpoint literal_end (s : string) : option (string * string) :=
  match s with
  | EmptyString => None
  | String a s1 =>
      if Ascii.eqb a "\"%char then
        match s1 with
        | EmptyString => None
        | String b s2 => '(text, rest) ← literal_end s2; Some (String a (String b text), rest)
        end
      else if Ascii.eqb a quote then Some (String a "", s1)
      else '(text, rest) ← literal_end s1; Some (String a text, rest)
  end.

(** The characters of an atom: up to whitespace or a delimiter. *)
Definition ends_atom (a : ascii) : bool :=
  is_ascii_whitespace a || existsb (Ascii.eqb a) [","%char; "]"%char; "}"%char].

Fixpoint atom_end (s : string) : string :=
  match s with
  | String a s1 => if ends_atom a then s else atom_end s1
  | EmptyString => ""
  end.

Section scanner.
Context `{E : Externals}.

(** [string]: the literal is decoded by [serde_json::from_str::<String>]. *)
Definition scan_string (s : string) : Scan (string * string) :=
  match s with
  | String a s1 =>
      if Ascii.eqb a quote then
        match literal_end s1 with
        | Some (text, rest) =>
            match json_from_str (String a text) with
            | Some (VString key) => Scanned (key, rest)
            | _ => Rejected
            end
        | None => Rejected
        end
      else Rejected
  | EmptyString => Rejected
  end.

(** [value], and the loops of an object's members and of an array's elements. *)
Fixpoint scan_value (fuel depth : nat) (s : string) : Scan string :=
  match fuel with
  | O => OutOfFuel
  | S fuel =>
      match whitespace s with
      | EmptyString => Rejected
      | String a s1 =>
          if Ascii.eqb a "{"%char then
            if (MAX_JSON_DEPTH <=? depth)%nat then Rejected
            else match whitespace s1 with
                 | String b s2 => if Ascii.eqb b "}"%char then Scanned s2
                                  else scan_members fuel depth [] (String b s2)
                 | EmptyString => scan_members fuel depth [] ""
                 end
          else if Ascii.eqb a "["%char then
            if (MAX_JSON_DEPTH <=? depth)%nat then Rejected
            else match whitespace s1 with
                 | String b s2 => if Ascii.eqb b "]"%char then Scanned s2
                                  else scan_elements fuel depth (String b s2)
                 | EmptyString => scan_elements fuel depth ""
                 end
          else if Ascii.eqb a quote then
            match scan_string (String a s1) with
            | Scanned (_, rest) => Scanned rest
            | Rejected => Rejected
            | OutOfFuel => OutOfFuel
            end
          else if ends_atom a then Rejected else Scanned (atom_end s1)
      end
  end
with scan_members (fuel depth : nat) (keys : list string) (s : string) : Scan string :=
  match fuel with
  | O => OutOfFuel
  | S fuel =>
      match scan_string (whitespace s) with
      | Rejected => Rejected
      | OutOfFuel => OutOfFuel
      | Scanned (key, s1) =>
          if bool_decide (key ∈ keys) then Rejected
          else
            match whitespace s1 with
            | String a s2 =>
                if Ascii.eqb a ":"%char then
                  match scan_value fuel (S depth) s2 with
                  | Scanned s3 =>
                      match whitespace s3 with
                      | String b s4 =>
                          if Ascii.eqb b "}"%char then Scanned s4
                          else if Ascii.eqb b ","%char then scan_members fuel depth (key :: keys) s4
                          else Rejected
                      | EmptyString => Rejected
                      end
                  | r => r
                  end
                else Rejected
            | EmptyString => Rejected
            end
      end
  end
with scan_elements (fuel depth : nat) (s : string) : Scan string :=
  match fuel with
  | O => OutOfFuel
  | S fuel =>
      match scan_value fuel (S depth) s with
      | Scanned s1 =>
          match whitespace s1 with
          | String b s2 =>
              if Ascii.eqb b "]"%char then Scanned s2
              else if Ascii.eqb b ","%char then scan_elements fuel depth s2
              else Rejected
          | EmptyString => Rejected
          end
      | r => r
      end
  end.

Definition scan_fuel (source : string) : nat := 2 * String.length source + 2.

Definition parse_strict_json (source : string) : option Value :=
  match scan_value (scan_fuel source) 0 source with
  | Scanned rest => if String.eqb (whitespace rest) "" then json_from_str source else None
  | _ => None
  end.
End scanner.
