(* ===== verification/StrictJsonProofs.v ===== *)
(** * What the strict scanner accepts

    A declarative reading of a source as a tree, independent of the limits, and the proof that
    the scanner accepts exactly the sources whose tree has no duplicate key and is nested at
    most [MAX_JSON_DEPTH] deep, and that it always ends. *)

From S2P Require Import Prelude Domain Externals SampleExternals StrictJson.

Inductive Tree :=
  | TObject (members : list (string * Tree))
  | TArray (elements : list Tree)
  | TString (key : string)
  | TAtom.

(** How deeply arrays and objects are nested. *)
Fixpoint nesting (t : Tree) : nat :=
  match t with
  | TObject members => S (List.fold_right (λ m n, Nat.max (nesting m.2) n) 0%nat members)
  | TArray elements => S (List.fold_right (λ e n, Nat.max (nesting e) n) 0%nat elements)
  | TString _ | TAtom => 0
  end.

(** No object of the tree has two members of the same name. *)
Fixpoint distinct (t : Tree) : Prop :=
  match t with
  | TObject members => NoDup members.*1 ∧ List.fold_right (λ m P, distinct m.2 ∧ P) True members
  | TArray elements => List.fold_right (λ e P, distinct e ∧ P) True elements
  | TString _ | TAtom => True
  end.

Section grammar.
Context `{E : Externals}.

(** The source reads as the tree and leaves the rest. *)
Inductive renders : Tree → string → string → Prop :=
  | R_atom s a s1 :
      whitespace s = String a s1 → a ≠ "{"%char → a ≠ "["%char → a ≠ quote → ends_atom a = false →
      renders TAtom s (atom_end s1)
  | R_string s s1 key rest :
      whitespace s = String quote s1 → scan_string (String quote s1) = Scanned (key, rest) →
      renders (TString key) s rest
  | R_no_members s s1 rest :
      whitespace s = String "{"%char s1 → whitespace s1 = String "}"%char rest → renders (TObject []) s rest
  | R_object s s1 members rest :
      whitespace s = String "{"%char s1 → (∀ s2, whitespace s1 ≠ String "}"%char s2) →
      renders_members members (whitespace s1) rest → renders (TObject members) s rest
  | R_no_elements s s1 rest :
      whitespace s = String "["%char s1 → whitespace s1 = String "]"%char rest → renders (TArray []) s rest
  | R_array s s1 elements rest :
      whitespace s = String "["%char s1 → (∀ s2, whitespace s1 ≠ String "]"%char s2) →
      renders_elements elements (whitespace s1) rest → renders (TArray elements) s rest
with renders_members : list (string * Tree) → string → string → Prop :=
  | R_last_member s key s1 s2 t s3 rest :
      scan_string (whitespace s) = Scanned (key, s1) → whitespace s1 = String ":"%char s2 →
      renders t s2 s3 → whitespace s3 = String "}"%char rest → renders_members [(key, t)] s rest
  | R_member s key s1 s2 t s3 s4 members rest :
      scan_string (whitespace s) = Scanned (key, s1) → whitespace s1 = String ":"%char s2 →
      renders t s2 s3 → whitespace s3 = String ","%char s4 → renders_members members s4 rest →
      renders_members ((key, t) :: members) s rest
with renders_elements : list Tree → string → string → Prop :=
  | R_last_element s t s1 rest :
      renders t s s1 → whitespace s1 = String "]"%char rest → renders_elements [t] s rest
  | R_element s t s1 s2 elements rest :
      renders t s s1 → whitespace s1 = String ","%char s2 → renders_elements elements s2 rest →
      renders_elements (t :: elements) s rest.

Scheme renders_ind' := Minimality for renders Sort Prop
  with renders_members_ind' := Minimality for renders_members Sort Prop
  with renders_elements_ind' := Minimality for renders_elements Sort Prop.
Combined Scheme renders_mutind from renders_ind', renders_members_ind', renders_elements_ind'.

(** ** Termination *)

Lemma whitespace_length s : (String.length (whitespace s) ≤ String.length s)%nat.
Proof.
  induction s as [|a s IH]; [done|]. cbn [whitespace]. destruct (is_ascii_whitespace a); cbn [String.length]; lia.
Qed.

Lemma atom_end_length s : (String.length (atom_end s) ≤ String.length s)%nat.
Proof. induction s as [|a s IH]; [done|]. cbn [atom_end]. destruct (ends_atom a); cbn [String.length]; lia. Qed.

Lemma whitespace_cons s a s1 : whitespace s = String a s1 → (String.length s1 < String.length s)%nat.
Proof. intros H. pose proof (whitespace_length s). rewrite H in *. cbn in *. lia. Qed.

Lemma literal_end_length s text rest :
  literal_end s = Some (text, rest) → (String.length rest < String.length s)%nat.
Proof.
  remember (String.length s) as n eqn:Hn. revert s Hn text rest.
  induction n as [n IH] using lt_wf_ind. intros [|a s] -> text rest H; [done|]. cbn [literal_end] in H.
  destruct (Ascii.eqb a "\"%char).
  - destruct s as [|b s]; [done|]. destruct (literal_end s) as [[t r]|] eqn:Hl; [|done]. injection H as <- <-.
    specialize (IH (String.length s) ltac:(cbn; lia) s eq_refl _ _ Hl). cbn. lia.
  - destruct (Ascii.eqb a quote); [injection H as <- <-; cbn; lia|].
    destruct (literal_end s) as [[t r]|] eqn:Hl; [|done]. injection H as <- <-.
    specialize (IH (String.length s) ltac:(cbn; lia) s eq_refl _ _ Hl). cbn. lia.
Qed.

Lemma scan_string_length s key rest :
  scan_string s = Scanned (key, rest) → (String.length rest < String.length s)%nat.
Proof.
  unfold scan_string. destruct s as [|a s]; [done|]. destruct (Ascii.eqb a quote); [|done].
  destruct (literal_end s) as [[t r]|] eqn:Hl; [|done]. destruct (json_from_str _) as [[]|]; try done.
  intros [= _ <-]. apply literal_end_length in Hl. cbn. lia.
Qed.

Lemma scan_string_fuel s : scan_string s ≠ OutOfFuel.
Proof.
  unfold scan_string. destruct s as [|a s]; [done|]. destruct (Ascii.eqb a quote); [|done].
  destruct (literal_end s) as [[t r]|]; [|done]. by destruct (json_from_str _) as [[]|].
Qed.

(** The folds of [nesting] and [distinct] over the children. *)
Notation members_nesting members := (List.fold_right (λ m n, Nat.max (nesting (snd m)) n) 0%nat members).
Notation elements_nesting elements := (List.fold_right (λ e n, Nat.max (nesting e) n) 0%nat elements).
Notation members_distinct members := (List.fold_right (λ m P, distinct (snd m) ∧ P) True members).
Notation elements_distinct elements := (List.fold_right (λ e P, distinct e ∧ P) True elements).

(** ** Soundness *)

Definition value_sound (fuel : nat) : Prop := ∀ d s r, (d ≤ MAX_JSON_DEPTH)%nat → scan_value fuel d s = Scanned r →
  (String.length r < String.length s)%nat ∧
  ∃ t, renders t s r ∧ distinct t ∧ (d + nesting t ≤ MAX_JSON_DEPTH)%nat.

Definition members_sound (fuel : nat) : Prop := ∀ d keys s r, (d < MAX_JSON_DEPTH)%nat →
  scan_members fuel d keys s = Scanned r →
  (String.length r < String.length s)%nat ∧
  ∃ ms, renders_members ms s r ∧ NoDup ms.*1 ∧ (∀ k, k ∈ ms.*1 → k ∉ keys) ∧ members_distinct ms ∧
    (S d + members_nesting ms ≤ MAX_JSON_DEPTH)%nat.

Definition elements_sound (fuel : nat) : Prop := ∀ d s r, (d < MAX_JSON_DEPTH)%nat →
  scan_elements fuel d s = Scanned r →
  (String.length r < String.length s)%nat ∧
  ∃ es, renders_elements es s r ∧ elements_distinct es ∧ (S d + elements_nesting es ≤ MAX_JSON_DEPTH)%nat.

Lemma members_sound_step fuel : value_sound fuel → members_sound fuel → members_sound (S fuel).
Proof.
  intros Hv Hm d keys s r Hd H. cbn [scan_members] in H.
  destruct (scan_string (whitespace s)) as [[key s1]| |] eqn:Hkey; try done.
  case_bool_decide as Hfresh; [done|]. destruct (whitespace s1) as [|a s2] eqn:Hcolon; [done|].
  destruct (Ascii.eqb_spec a ":"%char) as [->|]; [|done].
  destruct (scan_value fuel (S d) s2) as [s3| |] eqn:Hval; try done.
  destruct (Hv (S d) s2 s3 ltac:(lia) Hval) as (Hlen & t & Hren & Hdis & Hnest).
  pose proof (scan_string_length _ _ _ Hkey) as Hl1. pose proof (whitespace_length s) as Hl0.
  pose proof (whitespace_cons _ _ _ Hcolon) as Hl2.
  destruct (whitespace s3) as [|b s4] eqn:Hend; [done|]. pose proof (whitespace_cons _ _ _ Hend) as Hl4.
  destruct (Ascii.eqb_spec b "}"%char) as [->|_].
  { injection H as <-. split; [lia|]. exists [(key, t)]. split; [by eapply R_last_member|].
    split; [apply NoDup_singleton|]. split; [by intros k ->%list_elem_of_singleton|]. split; [done|]. cbn. lia. }
  destruct (Ascii.eqb_spec b ","%char) as [->|]; [|done].
  destruct (Hm d (key :: keys) s4 r Hd H) as (Hlen' & ms & Hrs & Hnd & Hk & Hds & Hns). split; [lia|].
  exists ((key, t) :: ms). split; [by eapply R_member|]. cbn. split; [|split; [|split; [done|lia]]].
  - apply NoDup_cons. split; [|done]. intros Hin. by apply Hk in Hin; apply not_elem_of_cons in Hin as [].
  - intros k [->|Hin]%elem_of_cons; [done|]. by apply Hk, not_elem_of_cons in Hin as [_ Hin].
Qed.

Lemma elements_sound_step fuel : value_sound fuel → elements_sound fuel → elements_sound (S fuel).
Proof.
  intros Hv Hm d s r Hd H. cbn [scan_elements] in H.
  destruct (scan_value fuel (S d) s) as [s1| |] eqn:Hval; try done.
  destruct (Hv (S d) s s1 ltac:(lia) Hval) as (Hlen & t & Hren & Hdis & Hnest).
  destruct (whitespace s1) as [|b s2] eqn:Hend; [done|]. pose proof (whitespace_cons _ _ _ Hend) as Hl.
  destruct (Ascii.eqb_spec b "]"%char) as [->|_].
  { injection H as <-. split; [lia|]. exists [t]. split; [by eapply R_last_element|]. split; [done|]. cbn. lia. }
  destruct (Ascii.eqb_spec b ","%char) as [->|]; [|done].
  destruct (Hm d s2 r Hd H) as (Hlen' & es & Hrs & Hds & Hns). split; [lia|].
  exists (t :: es). split; [by eapply R_element|]. cbn. split; [done|lia].
Qed.

Lemma value_sound_step fuel : members_sound fuel → elements_sound fuel → value_sound (S fuel).
Proof.
  intros Hm He d s r Hd H. cbn [scan_value] in H. destruct (whitespace s) as [|a s1] eqn:Hws; [done|].
  pose proof (whitespace_cons _ _ _ Hws) as Hl. pose proof (whitespace_length s1) as Hl1.
  destruct (Ascii.eqb_spec a "{"%char) as [->|Hobj]; [|destruct (Ascii.eqb_spec a "["%char) as [->|Harr]].
  - destruct (_ <=? _)%nat eqn:Hdepth; [done|]. apply Nat.leb_gt in Hdepth.
    assert ((∃ s2, whitespace s1 = String "}"%char s2 ∧ r = s2) ∨
            (∀ s2, whitespace s1 ≠ String "}"%char s2) ∧ scan_members fuel d [] (whitespace s1) = Scanned r)
      as [(s2 & Hw & ->)|[Hnot Hscan]].
    { destruct (whitespace s1) as [|b s2]; [by right|].
      destruct (Ascii.eqb_spec b "}"%char) as [->|Hb]; [left; injection H as <-; eauto|].
      right. split; [congruence|done]. }
    + apply whitespace_cons in Hw as Hl2. split; [lia|]. exists (TObject []). split; [by eapply R_no_members|].
      split; [split; [apply NoDup_nil_2|done]|]. cbn. lia.
    + destruct (Hm _ _ _ _ Hdepth Hscan) as (Hlen & ms & Hrs & Hnd & _ & Hds & Hns). split; [lia|].
      exists (TObject ms). split; [by eapply R_object|]. split; [done|]. cbn [nesting]. lia.
  - destruct (_ <=? _)%nat eqn:Hdepth; [done|]. apply Nat.leb_gt in Hdepth.
    assert ((∃ s2, whitespace s1 = String "]"%char s2 ∧ r = s2) ∨
            (∀ s2, whitespace s1 ≠ String "]"%char s2) ∧ scan_elements fuel d (whitespace s1) = Scanned r)
      as [(s2 & Hw & ->)|[Hnot Hscan]].
    { destruct (whitespace s1) as [|b s2]; [by right|].
      destruct (Ascii.eqb_spec b "]"%char) as [->|Hb]; [left; injection H as <-; eauto|].
      right. split; [congruence|done]. }
    + apply whitespace_cons in Hw as Hl2. split; [lia|]. exists (TArray []). split; [by eapply R_no_elements|].
      split; [done|]. cbn. lia.
    + destruct (He _ _ _ Hdepth Hscan) as (Hlen & es & Hrs & Hds & Hns). split; [lia|].
      exists (TArray es). split; [by eapply R_array|]. split; [done|]. cbn [nesting]. lia.
  - destruct (Ascii.eqb_spec a quote) as [->|Hq].
    + destruct (scan_string (String quote s1)) as [[key rest]| |] eqn:Hs; try done. injection H as <-.
      apply scan_string_length in Hs as Hl2. cbn in Hl2. split; [lia|]. exists (TString key).
      split; [by eapply R_string|]. split; [done|]. cbn. lia.
    + destruct (ends_atom a) eqn:Hat; [done|]. injection H as <-. pose proof (atom_end_length s1).
      split; [lia|]. exists TAtom. split; [by eapply R_atom|]. split; [done|]. cbn. lia.
Qed.

Lemma scan_sound fuel : value_sound fuel ∧ members_sound fuel ∧ elements_sound fuel.
Proof.
  induction fuel as [|fuel (Hv & Hm & He)]; [by split_and!|].
  split_and!; [by apply value_sound_step|by apply members_sound_step|by apply elements_sound_step].
Qed.

(** ** Fuel *)

Definition enough (fuel : nat) : Prop :=
  (∀ d s, (d ≤ MAX_JSON_DEPTH)%nat → (2 * String.length s + 1 ≤ fuel)%nat → scan_value fuel d s ≠ OutOfFuel) ∧
  (∀ d keys s, (d < MAX_JSON_DEPTH)%nat → (2 * String.length s + 2 ≤ fuel)%nat →
     scan_members fuel d keys s ≠ OutOfFuel) ∧
  (∀ d s, (d < MAX_JSON_DEPTH)%nat → (2 * String.length s + 2 ≤ fuel)%nat →
     scan_elements fuel d s ≠ OutOfFuel).

Lemma fuel_is_enough fuel : enough fuel.
Proof.
  induction fuel as [|fuel (Hv & Hm & He)]; [split_and!; lia|].
  destruct (scan_sound fuel) as (Sv & _ & _). split_and!.
  - intros d s Hd Hfuel. cbn [scan_value]. destruct (whitespace s) as [|a s1] eqn:Hws; [done|].
    apply whitespace_cons in Hws. pose proof (whitespace_length s1) as Hl1.
    destruct (Ascii.eqb a "{"%char); [|destruct (Ascii.eqb a "["%char)].
    + destruct (_ <=? _)%nat eqn:Hdepth; [done|]. apply Nat.leb_gt in Hdepth.
      destruct (whitespace s1) as [|b s2]; cbn in Hl1; [apply Hm; cbn; lia|].
      destruct (Ascii.eqb b "}"%char); [done|]. apply Hm; cbn; lia.
    + destruct (_ <=? _)%nat eqn:Hdepth; [done|]. apply Nat.leb_gt in Hdepth.
      destruct (whitespace s1) as [|b s2]; cbn in Hl1; [apply He; cbn; lia|].
      destruct (Ascii.eqb b "]"%char); [done|]. apply He; cbn; lia.
    + destruct (Ascii.eqb a quote); [|by destruct (ends_atom a)].
      pose proof (scan_string_fuel (String a s1)). by destruct (scan_string (String a s1)) as [[]| |].
  - intros d keys s Hd Hfuel. cbn [scan_members]. pose proof (scan_string_fuel (whitespace s)).
    destruct (scan_string (whitespace s)) as [[key s1]| |] eqn:Hkey; try done.
    apply scan_string_length in Hkey. pose proof (whitespace_length s).
    case_bool_decide; [done|]. destruct (whitespace s1) as [|a s2] eqn:Hcolon; [done|].
    apply whitespace_cons in Hcolon. destruct (Ascii.eqb a ":"%char); [|done].
    pose proof (Hv (S d) s2 ltac:(lia) ltac:(lia)).
    destruct (scan_value fuel (S d) s2) as [s3| |] eqn:Hval; try done.
    apply Sv in Hval as [Hlen _]; [|lia]. destruct (whitespace s3) as [|b s4] eqn:Hend; [done|].
    apply whitespace_cons in Hend. destruct (Ascii.eqb b "}"%char); [done|].
    destruct (Ascii.eqb b ","%char); [|done]. apply Hm; lia.
  - intros d s Hd Hfuel. cbn [scan_elements]. pose proof (Hv (S d) s ltac:(lia) ltac:(lia)).
    destruct (scan_value fuel (S d) s) as [s1| |] eqn:Hval; try done.
    apply Sv in Hval as [Hlen _]; [|lia]. destruct (whitespace s1) as [|b s2] eqn:Hend; [done|].
    apply whitespace_cons in Hend. destruct (Ascii.eqb b "]"%char); [done|].
    destruct (Ascii.eqb b ","%char); [|done]. apply He; lia.
Qed.

(** ** Completeness *)

(** A scan that has fuel for it answers the rest. *)
Definition yields (scan : Scan string) (rest : string) : Prop := scan = Scanned rest ∨ scan = OutOfFuel.

Lemma scan_complete :
  (∀ t s r, renders t s r → distinct t → ∀ d, (d + nesting t ≤ MAX_JSON_DEPTH)%nat → ∀ fuel,
     yields (scan_value fuel d s) r) ∧
  (∀ ms s r, renders_members ms s r → NoDup ms.*1 → members_distinct ms → ∀ d keys,
     (S d + members_nesting ms ≤ MAX_JSON_DEPTH)%nat → (∀ k, k ∈ ms.*1 → k ∉ keys) → ∀ fuel,
     yields (scan_members fuel d keys s) r) ∧
  (∀ es s r, renders_elements es s r → elements_distinct es → ∀ d,
     (S d + elements_nesting es ≤ MAX_JSON_DEPTH)%nat → ∀ fuel, yields (scan_elements fuel d s) r).
Proof.
  apply renders_mutind.
  - intros s a s1 Hw Ho Ha Hq Hat _ d Hn [|fuel]; [by right|]. left. cbn [scan_value]. rewrite Hw.
    rewrite (proj2 (Ascii.eqb_neq _ _) Ho), (proj2 (Ascii.eqb_neq _ _) Ha), (proj2 (Ascii.eqb_neq _ _) Hq).
    by rewrite Hat.
  - intros s s1 key rest Hw Hs _ d Hn [|fuel]; [by right|]. left. cbn [scan_value]. rewrite Hw.
    change (Ascii.eqb quote "{"%char) with false. change (Ascii.eqb quote "["%char) with false.
    change (Ascii.eqb quote quote) with true. cbv iota. by rewrite Hs.
  - intros s s1 rest Hw He _ d Hn [|fuel]; [by right|]. left. cbn [scan_value]. rewrite Hw. cbn [Ascii.eqb Bool.eqb].
    cbn [nesting] in Hn. rewrite (proj2 (Nat.leb_gt _ _)) by lia. rewrite He. done.
  - intros s s1 ms rest Hw Hnot _ IH [Hnd Hds] d Hn [|fuel]; [by right|]. cbn [nesting] in Hn.
    cbn [scan_value]. rewrite Hw. cbn [Ascii.eqb Bool.eqb]. rewrite (proj2 (Nat.leb_gt _ _)) by lia.
    specialize (IH Hnd Hds d [] ltac:(lia) ltac:(set_solver) fuel).
    destruct (whitespace s1) as [|b s2]; [done|]. destruct (Ascii.eqb_spec b "}"%char) as [->|]; [|done].
    by destruct (Hnot s2).
  - intros s s1 rest Hw He _ d Hn [|fuel]; [by right|]. left. cbn [scan_value]. rewrite Hw. cbn [Ascii.eqb Bool.eqb].
    cbn [nesting] in Hn. rewrite (proj2 (Nat.leb_gt _ _)) by lia. rewrite He. done.
  - intros s s1 es rest Hw Hnot _ IH Hds d Hn [|fuel]; [by right|]. cbn [nesting] in Hn.
    cbn [scan_value]. rewrite Hw. cbn [Ascii.eqb Bool.eqb]. rewrite (proj2 (Nat.leb_gt _ _)) by lia.
    specialize (IH Hds d ltac:(lia) fuel).
    destruct (whitespace s1) as [|b s2]; [done|]. destruct (Ascii.eqb_spec b "]"%char) as [->|]; [|done].
    by destruct (Hnot s2).
  - intros s key s1 s2 t s3 rest Hk Hc _ IH He _ [Hds _] d keys Hn Hfresh [|fuel]; [by right|].
    cbn in Hn. cbn [scan_members]. rewrite Hk, bool_decide_false by (apply Hfresh; by left). rewrite Hc.
    cbn [Ascii.eqb Bool.eqb]. destruct (IH Hds (S d) ltac:(cbn; lia) fuel) as [-> | ->]; [|by right]. left. by rewrite He.
  - intros s key s1 s2 t s3 s4 ms rest Hk Hc _ IH He _ IHm Hnd [Hds Hms] d keys Hn Hfresh [|fuel]; [by right|].
    cbn in Hn, Hnd. apply NoDup_cons in Hnd as [Hnew Hnd]. cbn [scan_members].
    rewrite Hk, bool_decide_false by (apply Hfresh; by left). rewrite Hc. cbn [Ascii.eqb Bool.eqb].
    destruct (IH Hds (S d) ltac:(cbn; lia) fuel) as [-> | ->]; [|by right]. rewrite He. cbn [Ascii.eqb Bool.eqb].
    apply IHm; [done|done|lia|]. intros k Hin. apply not_elem_of_cons. split; [congruence|].
    apply Hfresh. by right.
  - intros s t s1 rest _ IH He [Hds _] d Hn [|fuel]; [by right|]. cbn in Hn. cbn [scan_elements].
    destruct (IH Hds (S d) ltac:(cbn; lia) fuel) as [-> | ->]; [|by right]. left. by rewrite He.
  - intros s t s1 s2 es rest _ IH He _ IHe [Hds Hes] d Hn [|fuel]; [by right|]. cbn in Hn. cbn [scan_elements].
    destruct (IH Hds (S d) ltac:(cbn; lia) fuel) as [-> | ->]; [|by right]. rewrite He. cbn [Ascii.eqb Bool.eqb].
    apply IHe; [done|lia].
Qed.

(** C30: the scanner always ends: whatever the source, the fuel [parse_strict_json] starts with
    is never used up, so its answer is the one the unbounded recursion gives. *)
Theorem strict_scan_terminates source : scan_value (scan_fuel source) 0 source ≠ OutOfFuel.
Proof. apply fuel_is_enough; unfold scan_fuel; lia. Qed.

(** C29: strict parsing accepts exactly what it should: the sources that read as a tree, with
    nothing but blanks after it, in which no object at any depth names a member twice and
    arrays and objects are nested at most 128 deep, and which the JSON parser accepts; and the
    value is the parser's. *)
Theorem strict_json_exact source v :
  parse_strict_json source = Some v ↔
  json_from_str source = Some v ∧
  ∃ t rest, renders t source rest ∧ whitespace rest = "" ∧ distinct t ∧ (nesting t ≤ MAX_JSON_DEPTH)%nat.
Proof.
  unfold parse_strict_json. split.
  - destruct (scan_value _ _ _) as [rest| |] eqn:Hscan; try done.
    destruct (String.eqb_spec (whitespace rest) "") as [Hblank|]; [|done]. intros Hv. split; [done|].
    destruct (scan_sound (scan_fuel source)) as (Hs & _).
    apply Hs in Hscan as (_ & t & Hren & Hdis & Hn); [|lia]. by exists t, rest.
  - intros (Hv & t & rest & Hren & Hblank & Hdis & Hn).
    destruct (proj1 scan_complete t source rest Hren Hdis 0%nat Hn (scan_fuel source)) as [-> | Hfuel].
    + by rewrite Hblank.
    + exfalso. revert Hfuel. apply fuel_is_enough; unfold scan_fuel; lia.
Qed.
End grammar.
