(* ===== verification/Framing.v ===== *)
(** * Frames on the pipe ([mesh-win32/src/frame.rs], [protocol_frame.rs])

    Length-prefixed frames over a blocking stream, and the checks on a payload before it is
    parsed.  A stream is the list of chunks its successive reads deliver; [Read::read_exact]
    is the standard library's loop over them. *)

From S2P Require Import Prelude Domain Externals SampleExternals Protocol StrictJson.

Inductive NativeErrorCode :=
  | UnsupportedPlatform | InvalidArgument | AccessDenied | AuthenticationFailed | FrameInvalid
  | FrameTooLarge | IoTimeout | ConnectionClosed | NSingletonConflict | NSetupAbsent | NSetupDisabled
  | NSetupRemoving | NSetupDrifted | NSetupAccessDenied | TaskNotDisabled | TaskStillRunning
  | SecretInvalid | SecretProtectionFailed | OsFailure.

Inductive NativeOperation :=
  | DeriveEndpoint | CreatePipe | ConnectPipe | InspectPipeSecurity | InspectPeer | VerifyAuthenticode
  | ReadFrame | WriteFrame | AuthenticateHandshake | AcquireLock | CreateJob | AssignJob | InspectJob
  | TerminateJob | CreateProcess | ResumeThread | TerminateProcess | InspectProcess | CreateStdioPipe
  | ConnectTaskScheduler | SetupTask | InspectTask | StartTask | DisableTask | StopTask | DeleteTask
  | RemoveTask | ProtectEndpointKey | UnprotectEndpointKey.

Record NativeError := mkNativeError {
  ne_code : NativeErrorCode;
  ne_operation : NativeOperation;
  ne_os_code : option Z;
}.

Definition native_error (code : NativeErrorCode) (operation : NativeOperation) : NativeError :=
  mkNativeError code operation None.

Definition REQUEST_FRAME_LIMIT : Z := 1024 * 1024.
Definition RESPONSE_FRAME_LIMIT : Z := 8 * 1024 * 1024.
Definition FRAME_HEADER_LENGTH : nat := 4.

(** [u32::to_le_bytes] and [u32::from_le_bytes] *)
Fixpoint le_bytes (n : nat) (z : Z) : string :=
  match n with
  | O => ""
  | S n => String (byte_of (z mod 256)) (le_bytes n (z / 256))
  end.

Fixpoint from_le_bytes (s : string) : Z :=
  match s with
  | EmptyString => 0
  | String a s => byte_code a + 256 * from_le_bytes s
  end.

(** ** Streams *)

(** What one read delivers: bytes (none at the end of the stream) or a failure with its OS code. *)
Inductive Delivery := Bytes (bytes : string) | Failure (os_code : option Z).

Definition Stream := list Delivery.

Fixpoint split_string (n : nat) (s : string) : string * string :=
  match n, s with
  | S n, String a s => let '(l, r) := split_string n s in (String a l, r)
  | _, _ => ("", s)
  end.

(** [read_exact] into a buffer of [n] bytes, with the errors of [io_native_error]. *)
Fixpoint read_exact (operation : NativeOperation) (n : nat) (stream : Stream)
  : NativeError + (string * Stream) :=
  match n with
  | O => inr ("", stream)
  | S _ =>
      match stream with
      | [] | Bytes "" :: _ => inl (native_error ConnectionClosed operation)
      | Failure code :: _ => inl (mkNativeError OsFailure operation code)
      | Bytes chunk :: rest =>
          if (n <? String.length chunk)%nat then
            let '(bytes, remaining) := split_string n chunk in inr (bytes, Bytes remaining :: rest)
          else
            match read_exact operation (n - String.length chunk) rest with
            | inl e => inl e
            | inr (bytes, remaining) => inr (chunk +:+ bytes, remaining)
            end
      end
  end.

(** ** Native frames *)

Definition decode_frame_length (header : string) (limit : Z) : NativeError + Z :=
  let length := from_le_bytes header in
  if length =? 0 then inl (native_error FrameInvalid ReadFrame)
  else if limit <? length then inl (native_error FrameTooLarge ReadFrame)
  else inr length.

Definition encode_frame (payload : string) (limit : Z) : NativeError + string :=
  if String.eqb payload "" then inl (native_error FrameInvalid WriteFrame)
  else if (limit <? str_len payload) || (u32_max <? str_len payload)
  then inl (native_error FrameTooLarge WriteFrame)
  else inr (le_bytes FRAME_HEADER_LENGTH (str_len payload) +:+ payload).

Definition read_frame (stream : Stream) (limit : Z) : NativeError + (string * Stream) :=
  match read_exact ReadFrame FRAME_HEADER_LENGTH stream with
  | inl e => inl e
  | inr (header, stream) =>
      match decode_frame_length header limit with
      | inl e => inl e
      | inr length => read_exact ReadFrame (Z.to_nat length) stream
      end
  end.

(** ** Payloads *)

Definition validate_frame_length (length maximum_payload_bytes : Z) : ErrorCode + unit :=
  if length =? 0 then inl IpcFrameInvalid
  else if maximum_payload_bytes <? length then inl IpcFrameTooLarge
  else inr tt.

(** [std::str::from_utf8]: the well-formed byte sequences of the Unicode standard. *)
Definition continues (lo hi : Z) (a : ascii) : bool := (lo <=? byte_code a) && (byte_code a <=? hi).

Fixpoint is_utf8 (s : string) : bool :=
  match s with
  | EmptyString => true
  | String a s1 =>
      let b := byte_code a in
      if b <? 128 then is_utf8 s1
      else
        match s1 with
        | EmptyString => false
        | String c s2 =>
            if (194 <=? b) && (b <=? 223) then continues 128 191 c && is_utf8 s2
            else
              match s2 with
              | EmptyString => false
              | String d s3 =>
                  if (224 <=? b) && (b <=? 239) then
                    continues (if b =? 224 then 160 else 128) (if b =? 237 then 159 else 191) c
                    && continues 128 191 d && is_utf8 s3
                  else
                    match s3 with
                    | EmptyString => false
                    | String e s4 =>
                        (240 <=? b) && (b <=? 244)
                        && continues (if b =? 240 then 144 else 128) (if b =? 244 then 143 else 191) c
                        && continues 128 191 d && continues 128 191 e && is_utf8 s4
                    end
              end
        end
  end.

(** [decode_utf8] of [frame.rs] *)
Definition decode_utf8 (payload : string) (operation : NativeOperation) : NativeError + string :=
  if is_utf8 payload then inr payload else inl (native_error FrameInvalid operation).

Section payloads.
Context `{E : Externals}.

Definition decode_strict_payload (payload : string) (maximum_payload_bytes : Z) : ProtocolError + Value :=
  if u32_max <? str_len payload then inl (mkProtocolError IpcFrameTooLarge "payload length overflows")
  else
    match validate_frame_length (str_len payload) maximum_payload_bytes with
    | inl code => inl (mkProtocolError code "payload length is invalid")
    | inr _ =>
        if is_utf8 payload then
          match parse_strict_json payload with
          | Some value => inr value
          | None => inl (mkProtocolError IpcFrameInvalid "payload is not strict JSON")
          end
        else inl (mkProtocolError IpcFrameInvalid "payload is not strict UTF-8")
    end.

Definition decode_wire_payload (payload : string) (maximum_payload_bytes : Z)
  : ProtocolError + list (string * Value) :=
  match decode_strict_payload payload maximum_payload_bytes with
  | inl e => inl e
  | inr value =>
      decode_wire_v1 value
  end.

Definition decode_complete_wire_frame (frame : string) (maximum_payload_bytes : Z)
  : ProtocolError + list (string * Value) :=
  if (String.length frame <? 4)%nat then inl (mkProtocolError IpcFrameInvalid "frame header is truncated")
  else
    let '(prefix, payload) := split_string 4 frame in
    let length := from_le_bytes prefix in
    match validate_frame_length length maximum_payload_bytes with
    | inl code => inl (mkProtocolError code "frame length is invalid")
    | inr _ =>
        if negb (str_len frame =? length + 4)
        then inl (mkProtocolError IpcFrameInvalid "frame length mismatch")
        else decode_wire_payload payload maximum_payload_bytes
    end.

Definition encode_wire_payload (value : Value) (maximum_payload_bytes : Z) : ProtocolError + string :=
  match decode_wire_v1 value with
  | inl e => inl e
  | inr _ =>
      let payload := json_to_string value in
      if u32_max <? str_len payload then inl (mkProtocolError IpcFrameTooLarge "payload length overflows")
      else
        match validate_frame_length (str_len payload) maximum_payload_bytes with
        | inl code => inl (mkProtocolError code "payload length is invalid")
        | inr _ => inr payload
        end
  end.
End payloads.

(** ** Integers *)

Lemma from_le_le_bytes n z : 0 ≤ z < 256 ^ Z.of_nat n → from_le_bytes (le_bytes n z) = z.
Proof.
  revert z. induction n as [|n IH]; intros z Hz; [simpl in *; lia|].
  rewrite Nat2Z.inj_succ, Z.pow_succ_r in Hz by lia. cbn [le_bytes from_le_bytes].
  rewrite byte_of_code by (apply Z.mod_pos_bound; lia).
  rewrite IH by (split; [apply Z.div_pos; lia|apply Z.div_lt_upper_bound; lia]).
  rewrite (Z.div_mod z 256) at 3 by lia. lia.
Qed.

Lemma le_bytes_length n z : String.length (le_bytes n z) = n.
Proof. revert z. induction n as [|n IH]; intros z; cbn; [done|by rewrite IH]. Qed.

(** ** Streams *)

Fixpoint delivered (stream : Stream) : string :=
  match stream with
  | Bytes chunk :: stream => chunk +:+ delivered stream
  | _ => ""
  end.

(** Every read delivers something. *)
Definition healthy (stream : Stream) : Prop :=
  Forall (λ d, match d with Bytes chunk => chunk ≠ "" | Failure _ => False end) stream.

Lemma split_string_app n s l r : split_string n s = (l, r) → s = l +:+ r.
Proof.
  revert s l r. induction n as [|n IH]; intros s l r; [by destruct s; intros [= <- <-]|].
  destruct s as [|a s]; [by intros [= <- <-]|]. cbn. destruct (split_string n s) as [l' r'] eqn:Hs.
  intros [= <- <-]. apply IH in Hs as ->. done.
Qed.

Lemma split_string_length n s l r :
  (n ≤ String.length s)%nat → split_string n s = (l, r) → String.length l = n.
Proof.
  revert s l r. induction n as [|n IH]; intros s l r Hn; [by destruct s; intros [= <- <-]|].
  destruct s as [|a s]; [simpl in Hn; lia|]. cbn. destruct (split_string n s) as [l' r'] eqn:Hs.
  intros [= <- <-]. cbn. f_equal. eapply IH; [|done]. simpl in Hn. lia.
Qed.

Lemma app_prefix (c d w b : string) :
  c +:+ d = w +:+ b → (String.length c ≤ String.length w)%nat → ∃ v, w = c +:+ v ∧ d = v +:+ b.
Proof.
  revert w. induction c as [|x c IH]; intros w Heq Hlen; [by exists w|].
  destruct w as [|y w]; [simpl in Hlen; lia|]. injection Heq as -> Heq.
  destruct (IH w Heq) as (v & -> & ->); [simpl in Hlen; lia|]. by exists v.
Qed.

(** Reading exactly what the stream delivers next, however it is cut into reads. *)
Lemma read_exact_ok op stream a b :
  healthy stream → delivered stream = a +:+ b →
  ∃ rest, read_exact op (String.length a) stream = inr (a, rest) ∧ healthy rest ∧ delivered rest = b.
Proof.
  revert a. induction stream as [|[chunk|code] stream IH]; intros a Hs Hd.
  - destruct a; [|discriminate]. exists []. done.
  - apply Forall_cons in Hs as [Hne Hs]. destruct a as [|x a].
    { exists (Bytes chunk :: stream). split; [done|]. split; [by apply Forall_cons|done]. }
    remember (String x a) as whole eqn:Hw. cbn [read_exact].
    destruct (String.length whole) as [|n] eqn:Hn; [by subst|]. destruct chunk as [|c chunk]; [done|].
    rewrite <-Hn in *. clear Hw.
    destruct (_ <? _)%nat eqn:Hlt.
    + apply Nat.ltb_lt in Hlt. destruct (split_string _ _) as [l r] eqn:Hsplit.
      pose proof (split_string_length _ _ _ _ (Nat.lt_le_incl _ _ Hlt) Hsplit) as Hl.
      apply split_string_app in Hsplit. cbn [delivered] in Hd. rewrite Hsplit, app_assoc_string in Hd.
      apply app_inj_length in Hd as [-> Hd]; [|done]. exists (Bytes r :: stream). split; [done|].
      split; [|done]. apply Forall_cons. split; [|done]. intros ->.
      rewrite app_nil_r_string in Hsplit. rewrite Hsplit in Hlt. lia.
    + apply Nat.ltb_ge in Hlt. cbn [delivered] in Hd.
      destruct (app_prefix _ _ _ _ Hd Hlt) as (v & -> & Hrest).
      replace (String.length (String c chunk +:+ v) - String.length (String c chunk))%nat
        with (String.length v) by (rewrite app_length_string; lia).
      destruct (IH v Hs Hrest) as (rest & -> & Hrs & Hdr). by exists rest.
  - by apply Forall_cons in Hs as [[] _].
Qed.

Lemma encode_frame_ok payload limit frame :
  encode_frame payload limit = inr frame →
  frame = le_bytes 4 (str_len payload) +:+ payload ∧ 0 < str_len payload ≤ limit ∧ str_len payload ≤ u32_max.
Proof.
  unfold encode_frame. destruct (String.eqb_spec payload "") as [|Hne]; [done|].
  destruct (_ || _) eqn:Hb; [done|]. intros [= <-]. split_bools. split; [done|].
  assert (0 < str_len payload) by (destruct payload; [done|unfold str_len; simpl; lia]). lia.
Qed.

(** One frame off the front of the stream. *)
Lemma read_frame_ok payload limit frame stream later :
  encode_frame payload limit = inr frame → healthy stream → delivered stream = frame +:+ later →
  ∃ rest, read_frame stream limit = inr (payload, rest) ∧ healthy rest ∧ delivered rest = later.
Proof.
  intros (-> & Hlen & Hmax)%encode_frame_ok Hs Hd. rewrite app_assoc_string in Hd. unfold read_frame.
  destruct (read_exact_ok ReadFrame _ _ _ Hs Hd) as (rest & Hread & Hrs & Hdr).
  rewrite le_bytes_length in Hread. unfold FRAME_HEADER_LENGTH. rewrite Hread.
  unfold decode_frame_length. rewrite from_le_le_bytes by (unfold u32_max in Hmax; simpl; lia).
  rewrite (proj2 (Z.eqb_neq _ 0)), (proj2 (Z.ltb_ge _ _)) by lia.
  unfold str_len. rewrite Nat2Z.id. by apply read_exact_ok.
Qed.

(** [n] frames, one after the other. *)
Fixpoint read_frames (n : nat) (stream : Stream) (limit : Z) : NativeError + (list string * Stream) :=
  match n with
  | O => inr ([], stream)
  | S n =>
      match read_frame stream limit with
      | inl e => inl e
      | inr (payload, stream) =>
          match read_frames n stream limit with
          | inl e => inl e
          | inr (payloads, stream) => inr (payload :: payloads, stream)
          end
      end
  end.

(** C31: framing loses nothing and invents nothing.  Whatever payloads are encoded, and however
    the stream cuts their frames into reads (split or coalesced), reading that many frames
    returns exactly the payloads, in order, and leaves the stream at the byte after them. *)
Theorem frames_roundtrip payloads frames limit stream later :
  Forall2 (λ payload frame, encode_frame payload limit = inr frame) payloads frames →
  healthy stream → delivered stream = concat_strings frames +:+ later →
  ∃ rest, read_frames (length payloads) stream limit = inr (payloads, rest) ∧ healthy rest ∧
    delivered rest = later.
Proof.
  intros Henc. revert stream. induction Henc as [|payload frame payloads frames He _ IH]; intros stream Hs Hd.
  - exists stream. done.
  - cbn [concat_strings] in Hd. rewrite app_assoc_string in Hd.
    destruct (read_frame_ok _ _ _ _ _ He Hs Hd) as (rest & Hread & Hrs & Hdr).
    destruct (IH rest Hrs Hdr) as (rest' & Hreads & Hrs' & Hdr'). exists rest'. cbn [length read_frames].
    by rewrite Hread, Hreads.
Qed.

(** A stream that ends before a frame is complete closes the connection. *)
Lemma truncated_read op stream n :
  healthy stream → (String.length (delivered stream) < n)%nat →
  read_exact op n stream = inl (native_error ConnectionClosed op).
Proof.
  revert n. induction stream as [|[chunk|code] stream IH]; intros n Hs Hn.
  - by destruct n; [lia|].
  - apply Forall_cons in Hs as [Hne Hs]. cbn [delivered] in Hn. rewrite app_length_string in Hn.
    destruct n as [|n]; [lia|]. destruct chunk as [|c chunk]; [done|]. cbn [read_exact].
    rewrite (proj2 (Nat.ltb_ge _ _)) by lia. by rewrite IH by (done || lia).
  - by apply Forall_cons in Hs as [[] _].
Qed.

(** Two frames, delivered byte by byte up to the middle of the second. *)
Lemma frames_roundtrip_witness :
  ∃ rest, read_frames 2 [Bytes (le_bytes 3 3); Bytes (String (byte_of 0) "one"); Bytes (le_bytes 4 3 +:+ "tw"); Bytes "o!"]
            REQUEST_FRAME_LIMIT = inr (["one"; "two"], rest) ∧ healthy rest ∧ delivered rest = "!".
Proof.
  apply (frames_roundtrip ["one"; "two"] [le_bytes 4 3 +:+ "one"; le_bytes 4 3 +:+ "two"]).
  - repeat constructor.
  - repeat (apply Forall_cons; split; [vm_compute; discriminate|]). apply Forall_nil; exact I.
  - vm_compute. reflexivity.
Defined.
