(* ===== verification/Handshake.v ===== *)
(** * The mutual handshake on the pipe ([mesh-win32/src/handshake.rs])

    Hello, challenge, client proof and server proof, bound together by one transcript, and the
    guard against replayed nonces.  HMAC-SHA256 is a crate ([hmac]): the class [Authenticator]
    is its interface.  A nonce, a key and a proof are their 32 bytes. *)

From S2P Require Import Prelude Domain Externals SampleExternals Framing.

Definition WIRE_MAJOR_V1 : Z := 1.
Definition WIRE_MINOR_V1 : Z := 0.
Definition PROTOCOL_VERSION_V1 : Z := 1.

Definition zero_byte : string := String (byte_of 0) "".
Definition CLIENT_PROOF_DOMAIN : string :=
  "codex-agent-mesh" +:+ zero_byte +:+ "client-proof-v1" +:+ zero_byte.
Definition SERVER_PROOF_DOMAIN : string :=
  "codex-agent-mesh" +:+ zero_byte +:+ "server-proof-v1" +:+ zero_byte.

Definition CLIENT_KIND_V1 : string := "mcp-bridge-native".
Definition MIN_RESPONSE_FRAME : Z := 4096.
Definition MAX_RESPONSE_FRAME : Z := 8388608.
Definition MAX_VERSION_LENGTH : Z := 128.
Definition MAX_SAFE_INTEGER : Z := 9007199254740991.

Definition Nonce := string.
Definition EndpointKey := string.


Definition invalid_handshake : NativeError := native_error InvalidArgument AuthenticateHandshake.
Definition authentication_failed : NativeError := native_error AuthenticationFailed AuthenticateHandshake.

(** [?] *)
Definition try {A B} (r : NativeError + A) (k : A → NativeError + B) : NativeError + B :=
  match r with inl e => inl e | inr a => k a end.
Notation "x ⟵ r ; k" := (try r (λ x, k)) (at level 100, r at next level, k at level 200, right associativity).

(** ** Messages *)

Record WireLimitsV1 := mkWireLimitsV1 {
  request_frame_bytes : Z;
  response_frame_bytes : Z;
  max_in_flight : Z;
  max_events_per_page : Z;
  handshake_timeout_ms : Z;
  health_timeout_ms : Z;
  startup_timeout_ms : Z;
  query_timeout_ms : Z;
  mutation_timeout_ms : Z;
  max_wait_ms : Z;
  write_timeout_ms : Z;
  stderr_budget_bytes : Z;
  stderr_line_bytes : Z;
}.
#[export] Instance WireLimitsV1_eta : Eta WireLimitsV1 := λ l,
  mkWireLimitsV1 (request_frame_bytes l) (response_frame_bytes l) (max_in_flight l)
    (max_events_per_page l) (handshake_timeout_ms l) (health_timeout_ms l) (startup_timeout_ms l)
    (query_timeout_ms l) (mutation_timeout_ms l) (max_wait_ms l) (write_timeout_ms l)
    (stderr_budget_bytes l) (stderr_line_bytes l).
#[export] Instance WireLimitsV1_eq_dec : EqDecision WireLimitsV1.
Proof. solve_decision. Defined.

Definition protocol_v1_0 : WireLimitsV1 := {|
  request_frame_bytes := 1048576;
  response_frame_bytes := 8388608;
  max_in_flight := 16;
  max_events_per_page := 200;
  handshake_timeout_ms := 2000;
  health_timeout_ms := 2000;
  startup_timeout_ms := 15000;
  query_timeout_ms := 5000;
  mutation_timeout_ms := 10000;
  max_wait_ms := 30000;
  write_timeout_ms := 5000;
  stderr_budget_bytes := 65536;
  stderr_line_bytes := 4096;
|}.

Definition limit_values (l : WireLimitsV1) : list Z :=
  [request_frame_bytes l; response_frame_bytes l; max_in_flight l; max_events_per_page l;
   handshake_timeout_ms l; health_timeout_ms l; startup_timeout_ms l; query_timeout_ms l;
   mutation_timeout_ms l; max_wait_ms l; write_timeout_ms l; stderr_budget_bytes l;
   stderr_line_bytes l].

Definition response_frame_in_bounds (n : Z) : bool := (MIN_RESPONSE_FRAME <=? n) && (n <=? MAX_RESPONSE_FRAME).

Definition validate_wire_limits (l : WireLimitsV1) (max_response_frame : Z) : NativeError + unit :=
  let expected := protocol_v1_0 <| response_frame_bytes := response_frame_bytes l |> in
  if negb (bool_decide (l = expected)) || negb (response_frame_in_bounds (response_frame_bytes l))
     || (max_response_frame <? response_frame_bytes l)
  then inl invalid_handshake
  else inr tt.

Definition valid_id (value : string) : bool :=
  match value with
  | EmptyString => false
  | String first rest =>
      is_ascii_alphanumeric first
      && all_bytes (λ byte, is_ascii_alphanumeric byte
                            || existsb (Ascii.eqb byte) ["."%char; "_"%char; ":"%char; "-"%char]) rest
      && (str_len value <=? 128)
  end.

Definition valid_version (value : string) : bool :=
  negb (String.eqb value "") && (char_count value <=? MAX_VERSION_LENGTH).

Record ClientHello := mkClientHello {
  wire_major : Z;
  min_minor : Z;
  max_minor : Z;
  hello_protocol_version : Z;
  hello_install_id : string;
  client_kind : string;
  client_version : string;
  client_nonce : Nonce;
  max_response_frame : Z;
}.

Definition validate_hello (hello : ClientHello) : NativeError + unit :=
  if negb (wire_major hello =? WIRE_MAJOR_V1) || negb (min_minor hello =? WIRE_MINOR_V1)
     || negb (max_minor hello =? WIRE_MINOR_V1)
     || negb (hello_protocol_version hello =? PROTOCOL_VERSION_V1)
     || negb (String.eqb (client_kind hello) CLIENT_KIND_V1)
     || negb (response_frame_in_bounds (max_response_frame hello))
     || negb (valid_id (hello_install_id hello)) || negb (valid_version (client_version hello))
  then inl invalid_handshake
  else inr tt.

(** [ClientHello::new] *)
Definition new_hello (hello : ClientHello) : NativeError + ClientHello :=
  _ ⟵ validate_hello hello; inr hello.

Record ServerChallenge := mkServerChallenge {
  selected_major : Z;
  selected_minor : Z;
  challenge_protocol_version : Z;
  challenge_install_id : string;
  daemon_version : string;
  daemon_generation : Z;
  server_nonce : Nonce;
  limits : WireLimitsV1;
}.

Definition validate_challenge (challenge : ServerChallenge) (client : ClientHello) : NativeError + unit :=
  _ ⟵ validate_hello client;
  if negb (selected_major challenge =? wire_major client)
     || (selected_minor challenge <? min_minor client) || (max_minor client <? selected_minor challenge)
     || negb (challenge_protocol_version challenge =? hello_protocol_version client)
     || negb (String.eqb (challenge_install_id challenge) (hello_install_id client))
     || negb (valid_version (daemon_version challenge))
     || (MAX_SAFE_INTEGER <? daemon_generation challenge)
  then inl authentication_failed
  else validate_wire_limits (limits challenge) (max_response_frame client).

(** [ServerChallenge::new] *)
Definition new_challenge (client : ClientHello) (challenge : ServerChallenge) : NativeError + ServerChallenge :=
  _ ⟵ validate_challenge challenge client; inr challenge.

(** ** The transcript *)

Definition field_str (output value : string) : NativeError + string :=
  if u32_max <? str_len value then inl invalid_handshake
  else inr (output +:+ le_bytes 4 (str_len value) +:+ value).

Definition field_u32 (output : string) (value : Z) : NativeError + string := field_str output (pretty value).
Definition field_u64 (output : string) (value : Z) : NativeError + string := field_str output (pretty value).

(** The [for] loop over the limits. *)
Fixpoint fields_u32 (output : string) (values : list Z) : NativeError + string :=
  match values with
  | [] => inr output
  | value :: values => output ⟵ field_u32 output value; fields_u32 output values
  end.

Definition HandshakeTranscript := string.

(** [HandshakeTranscript::new] *)
Definition new_transcript (client : ClientHello) (challenge : ServerChallenge)
  : NativeError + HandshakeTranscript :=
  _ ⟵ validate_challenge challenge client;
  output ⟵ field_u32 "" (wire_major client);
  output ⟵ field_u32 output (min_minor client);
  output ⟵ field_u32 output (max_minor client);
  output ⟵ field_u32 output (selected_minor challenge);
  output ⟵ field_u32 output (hello_protocol_version client);
  output ⟵ field_str output (hello_install_id client);
  output ⟵ field_str output (client_kind client);
  output ⟵ field_str output (client_version client);
  output ⟵ field_str output (to_hex (client_nonce client));
  output ⟵ field_u32 output (max_response_frame client);
  output ⟵ field_str output (daemon_version challenge);
  output ⟵ field_u64 output (daemon_generation challenge);
  output ⟵ field_str output (to_hex (server_nonce challenge));
  fields_u32 output (limit_values (limits challenge)).

(** ** Proofs *)

(** [Hmac<Sha256>]: the tag of a message under a key; every key length is accepted. *)
Class Authenticator := hmac_sha256 : string → string → string.

(** What the handshake relies on: a tag has 32 bytes. *)
Class AuthenticatorOk (A : Authenticator) := hmac_sha256_length key message : String.length (hmac_sha256 key message) = 32%nat.

Record ClientAuth := mkClientAuth {
  auth_client_nonce : Nonce;
  auth_server_nonce : Nonce;
  client_proof : string;
}.

Record ServerReady := mkServerReady { server_proof : string }.

Section proofs.
Context `{A : Authenticator}.

Definition sign (key : EndpointKey) (domain transcript : string) : NativeError + string :=
  inr (hmac_sha256 key (domain +:+ transcript)).

(** [verify_slice]: a comparison of the whole tag, in constant time. *)
Definition verify_tag (key : EndpointKey) (domain transcript tag : string) : NativeError + unit :=
  if String.eqb (hmac_sha256 key (domain +:+ transcript)) tag then inr tt else inl authentication_failed.

(** [ClientAuth::signed] *)
Definition sign_auth (key : EndpointKey) (client : ClientHello) (challenge : ServerChallenge)
  : NativeError + ClientAuth :=
  _ ⟵ validate_challenge challenge client;
  transcript ⟵ new_transcript client challenge;
  proof ⟵ sign key CLIENT_PROOF_DOMAIN transcript;
  inr (mkClientAuth (client_nonce client) (server_nonce challenge) proof).

(** [ClientAuth::verify] *)
Definition verify_auth (auth : ClientAuth) (key : EndpointKey) (client : ClientHello)
    (challenge : ServerChallenge) : NativeError + unit :=
  _ ⟵ validate_challenge challenge client;
  if negb (String.eqb (auth_client_nonce auth) (client_nonce client))
     || negb (String.eqb (auth_server_nonce auth) (server_nonce challenge))
  then inl authentication_failed
  else
    transcript ⟵ new_transcript client challenge;
    verify_tag key CLIENT_PROOF_DOMAIN transcript (client_proof auth).

Definition server_tag (key : EndpointKey) (transcript : HandshakeTranscript) (auth : ClientAuth)
  : NativeError + string :=
  input ⟵ field_str transcript (to_hex (client_proof auth));
  sign key SERVER_PROOF_DOMAIN input.

(** [ServerReady::signed] *)
Definition sign_ready (key : EndpointKey) (client : ClientHello) (challenge : ServerChallenge)
    (auth : ClientAuth) : NativeError + ServerReady :=
  _ ⟵ verify_auth auth key client challenge;
  transcript ⟵ new_transcript client challenge;
  proof ⟵ server_tag key transcript auth;
  inr (mkServerReady proof).

(** [ServerReady::verify] *)
Definition verify_ready (ready : ServerReady) (key : EndpointKey) (client : ClientHello)
    (challenge : ServerChallenge) (auth : ClientAuth) : NativeError + unit :=
  _ ⟵ verify_auth auth key client challenge;
  transcript ⟵ new_transcript client challenge;
  input ⟵ field_str transcript (to_hex (client_proof auth));
  verify_tag key SERVER_PROOF_DOMAIN input (server_proof ready).
End proofs.

(** ** Replayed nonces *)

Record ReplayState := mkReplayState { order : list Nonce; seen : gset Nonce }.

Record NonceReplayGuard := mkNonceReplayGuard { capacity : nat; state : ReplayState }.

Definition new_guard (capacity : nat) : NonceReplayGuard :=
  mkNonceReplayGuard capacity (mkReplayState [] ∅).

Definition check_and_record (guard : NonceReplayGuard) (nonce : Nonce)
  : (NativeError + unit) * NonceReplayGuard :=
  if (capacity guard =? 0)%nat then (inl invalid_handshake, guard)
  else
    let state := state guard in
    if bool_decide (nonce ∈ seen state) then (inl authentication_failed, guard)
    else
      let state :=
        if (length (order state) =? capacity guard)%nat then
          match order state with
          | expired :: rest => mkReplayState rest (seen state ∖ {[expired]})
          | [] => state
          end
        else state in
      (inr tt, mkNonceReplayGuard (capacity guard)
                 (mkReplayState (order state ++ [nonce]) ({[nonce]} ∪ seen state))).

(** A run of checks: the answers and the guard they leave. *)
Fixpoint check_all (guard : NonceReplayGuard) (nonces : list Nonce)
  : list (NativeError + unit) * NonceReplayGuard :=
  match nonces with
  | [] => ([], guard)
  | nonce :: nonces =>
      let '(answer, guard) := check_and_record guard nonce in
      let '(answers, guard) := check_all guard nonces in
      (answer :: answers, guard)
  end.

(** ** The transcript is unambiguous *)

Lemma try_ok {A B} (r : NativeError + A) (k : A → NativeError + B) b :
  try r k = inr b → ∃ a, r = inr a ∧ k a = inr b.
Proof. destruct r as [e|a]; [done|]. intros H. by exists a. Qed.

Ltac solve_try :=
  repeat match goal with
  | H : try _ _ = inr _ |- _ => apply try_ok in H as (? & ? & H)
  | H : ∃ _, _ |- _ => destruct H
  | H : _ ∧ _ |- _ => destruct H
  end.

(** The fields of a transcript, in order. *)
Definition transcript_fields (client : ClientHello) (challenge : ServerChallenge) : list string :=
  [pretty (wire_major client); pretty (min_minor client); pretty (max_minor client);
   pretty (selected_minor challenge); pretty (hello_protocol_version client);
   hello_install_id client; client_kind client; client_version client; to_hex (client_nonce client);
   pretty (max_response_frame client); daemon_version challenge; pretty (daemon_generation challenge);
   to_hex (server_nonce challenge)] ++ map pretty (limit_values (limits challenge)).

Definition framed (fields : list string) : string :=
  concat_strings (map (λ f, le_bytes 4 (str_len f) +:+ f) fields).

Definition short (f : string) : Prop := str_len f ≤ u32_max.

Lemma framed_app fs gs : framed (fs ++ gs) = framed fs +:+ framed gs.
Proof.
  induction fs as [|f fs IH]; [done|].
  change (framed ((f :: fs) ++ gs)) with ((le_bytes 4 (str_len f) +:+ f) +:+ framed (fs ++ gs)).
  by rewrite IH, <-app_assoc_string.
Qed.

Lemma framed_inj fs gs : Forall short fs → Forall short gs → framed fs = framed gs → fs = gs.
Proof.
  intros Hfs. revert gs. induction Hfs as [|f fs Hf _ IH]; intros [|g gs] Hgs H; [done|discriminate H..|].
  apply Forall_cons in Hgs as [Hg Hgs].
  change ((le_bytes 4 (str_len f) +:+ f) +:+ framed fs = (le_bytes 4 (str_len g) +:+ g) +:+ framed gs) in H.
  rewrite !app_assoc_string in H. apply app_inj_length in H as [Hlen H]; [|by rewrite !le_bytes_length].
  unfold short, u32_max, str_len in *.
  apply (f_equal from_le_bytes) in Hlen. rewrite !from_le_le_bytes in Hlen by (simpl; lia).
  apply app_inj_length in H as [-> H]; [|lia]. f_equal. by apply IH.
Qed.

Lemma field_str_ok output value result :
  field_str output value = inr result ↔ short value ∧ result = output +:+ framed [value].
Proof.
  unfold field_str, short, framed. cbn [map concat_strings]. rewrite app_nil_r_string.
  destruct (Z.ltb_spec u32_max (str_len value)); split; [done|intros [? ?]; lia| |].
  - intros [= <-]. done.
  - by intros [_ ->].
Qed.

Lemma field_str_short output value : short value → field_str output value = inr (output +:+ framed [value]).
Proof. intros H. by apply field_str_ok. Qed.

Lemma fields_u32_ok output values result :
  fields_u32 output values = inr result ↔
  Forall short (map pretty values) ∧ result = output +:+ framed (map pretty values).
Proof.
  revert output. induction values as [|value values IH]; intros output; cbn [fields_u32 map].
  - rewrite app_nil_r_string. split; [intros [= <-]; done|by intros [_ ->]].
  - change (framed (pretty value :: map pretty values)) with (framed ([pretty value] ++ map pretty values)).
    rewrite framed_app, Forall_cons, <-app_assoc_string. split.
    + intros (out & Hout & H)%try_ok. apply field_str_ok in Hout as [? ->]. apply IH in H as [? ->]. done.
    + intros [[Hs Hss] ->]. unfold field_u32. rewrite field_str_short by done. by apply IH.
Qed.

Lemma new_transcript_ok client challenge t :
  new_transcript client challenge = inr t ↔
  validate_challenge challenge client = inr tt ∧ Forall short (transcript_fields client challenge) ∧
  t = framed (transcript_fields client challenge).
Proof.
  unfold new_transcript, transcript_fields. split.
  - intros H. apply try_ok in H as ([] & -> & H). unfold field_u32, field_u64 in H. solve_try.
    repeat match goal with
    | H : field_str _ _ = inr _ |- _ => apply field_str_ok in H as [? ->]
    | H : fields_u32 _ _ = inr _ |- _ => apply fields_u32_ok in H as [? ->]
    end.
    split; [done|]. split; [by repeat (apply Forall_cons; split; [done|])|].
    change ("" +:+ framed ?l) with (framed l). by rewrite <-!framed_app.
  - intros (-> & Hshort & ->). cbn [try]. unfold field_u32, field_u64.
    apply Forall_app in Hshort as [Hshort Hlimits].
    repeat (apply Forall_cons in Hshort as [? Hshort]).
    repeat (rewrite field_str_short by done; cbn [try]).
    apply fields_u32_ok. split; [done|]. change ("" +:+ framed ?l) with (framed l). by rewrite <-!framed_app.
Qed.

(** ** What validation establishes *)

Lemma validate_hello_ok client :
  validate_hello client = inr tt →
  wire_major client = 1 ∧ min_minor client = 0 ∧ max_minor client = 0 ∧
  hello_protocol_version client = 1 ∧ client_kind client = CLIENT_KIND_V1 ∧
  4096 ≤ max_response_frame client ≤ 8388608 ∧
  valid_id (hello_install_id client) = true ∧ valid_version (client_version client) = true.
Proof.
  unfold validate_hello. destruct (_ || _) eqn:Hh; [done|]. intros _. split_bools.
  unfold response_frame_in_bounds, MIN_RESPONSE_FRAME, MAX_RESPONSE_FRAME in *. split_bools. done.
Qed.

Lemma validate_wire_limits_ok l bound :
  validate_wire_limits l bound = inr tt →
  l = protocol_v1_0 <| response_frame_bytes := response_frame_bytes l |> ∧
  4096 ≤ response_frame_bytes l ≤ 8388608 ∧ response_frame_bytes l ≤ bound.
Proof.
  unfold validate_wire_limits. destruct (_ || _) eqn:Hl; [done|]. intros _. split_bools.
  unfold response_frame_in_bounds, MIN_RESPONSE_FRAME, MAX_RESPONSE_FRAME in *. split_bools. done.
Qed.

Lemma validate_challenge_ok challenge client :
  validate_challenge challenge client = inr tt →
  validate_hello client = inr tt ∧ selected_major challenge = wire_major client ∧
  selected_minor challenge = 0 ∧
  challenge_protocol_version challenge = hello_protocol_version client ∧
  challenge_install_id challenge = hello_install_id client ∧
  valid_version (daemon_version challenge) = true ∧ daemon_generation challenge ≤ MAX_SAFE_INTEGER ∧
  validate_wire_limits (limits challenge) (max_response_frame client) = inr tt.
Proof.
  unfold validate_challenge. intros H. apply try_ok in H as ([] & Hhello & H).
  destruct (_ || _) eqn:Hb; [done|]. split_bools.
  pose proof (validate_hello_ok _ Hhello) as (_ & ? & ? & _).
  repeat (split; [first [done|lia]|]). done.
Qed.

(** One transcript, one session: the messages are functions of the transcript. *)
Lemma transcript_session client challenge client' challenge' t :
  new_transcript client challenge = inr t → new_transcript client' challenge' = inr t →
  client = client' ∧ challenge = challenge'.
Proof.
  intros (Hv & Hs & ->)%new_transcript_ok (Hv' & Hs' & Hf)%new_transcript_ok.
  apply framed_inj in Hf; [|done..]. clear Hs Hs'.
  apply validate_challenge_ok in Hv as (_ & Hmaj & _ & Hpv & Hid & _).
  apply validate_challenge_ok in Hv' as (_ & Hmaj' & _ & Hpv' & Hid' & _).
  destruct client, challenge as [? ? ? ? ? ? ? []], client', challenge' as [? ? ? ? ? ? ? []].
  cbn in *. injection Hf. clear Hf. intros.
  repeat match goal with
  | H : pretty _ = pretty _ |- _ => apply (inj pretty) in H
  | H : to_hex _ = to_hex _ |- _ => apply to_hex_inj in H
  end.
  by subst.
Qed.

(** ** What a proof authenticates *)

(** Two messages with one tag under a key. *)
Definition tag_collision `{A : Authenticator} (key : EndpointKey) : Prop :=
  ∃ x y, x ≠ y ∧ hmac_sha256 key x = hmac_sha256 key y.

Section proof_lemmas.
Context `{A : Authenticator}.

Lemma tag_determines key domain domain' t t' :
  String.length domain = String.length domain' →
  hmac_sha256 key (domain +:+ t) = hmac_sha256 key (domain' +:+ t') →
  (domain = domain' ∧ t = t') ∨ tag_collision key.
Proof.
  intros Hlen Htag. destruct (decide (domain +:+ t = domain' +:+ t')) as [Heq|Hne].
  - left. by apply app_inj_length.
  - right. by exists (domain +:+ t), (domain' +:+ t').
Qed.

Lemma sign_auth_ok key client challenge auth :
  sign_auth key client challenge = inr auth ↔
  ∃ t, new_transcript client challenge = inr t ∧
    auth = mkClientAuth (client_nonce client) (server_nonce challenge) (hmac_sha256 key (CLIENT_PROOF_DOMAIN +:+ t)).
Proof.
  unfold sign_auth, sign. split.
  - intros H. apply try_ok in H as (? & _ & H). apply try_ok in H as (t & Ht & H). exists t.
    cbn in H. by injection H as <-.
  - intros (t & Ht & ->). pose proof Ht as (Hv & _)%new_transcript_ok. by rewrite Hv, Ht.
Qed.

Lemma verify_auth_ok auth key client challenge :
  verify_auth auth key client challenge = inr tt ↔
  sign_auth key client challenge = inr auth.
Proof.
  rewrite sign_auth_ok. unfold verify_auth, verify_tag. split.
  - intros H. apply try_ok in H as (? & _ & H). destruct (_ || _) eqn:Hb; [done|]. split_bools.
    apply try_ok in H as (t & Ht & H). exists t. split; [done|].
    destruct (String.eqb_spec (hmac_sha256 key (CLIENT_PROOF_DOMAIN +:+ t)) (client_proof auth)); [|done].
    destruct auth; cbn in *. by subst.
  - intros (t & Ht & ->). pose proof Ht as (Hv & _)%new_transcript_ok. rewrite Hv, Ht. cbn.
    by rewrite !String.eqb_refl.
Qed.

Lemma sign_ready_ok key client challenge auth ready :
  sign_ready key client challenge auth = inr ready ↔
  sign_auth key client challenge = inr auth ∧ short (to_hex (client_proof auth)) ∧
  ready = mkServerReady (hmac_sha256 key (SERVER_PROOF_DOMAIN +:+
            framed (transcript_fields client challenge ++ [to_hex (client_proof auth)]))).
Proof.
  rewrite <-verify_auth_ok. unfold sign_ready, server_tag, sign. split.
  - intros H. apply try_ok in H as ([] & Hv & H). apply try_ok in H as (t & Ht & H).
    apply new_transcript_ok in Ht as (_ & _ & ->). apply try_ok in H as (tag & Htag & H).
    apply try_ok in Htag as (input & Hinput & Htag). apply field_str_ok in Hinput as [? ->].
    rewrite framed_app. injection Htag as <-. by injection H as <-.
  - intros (Hv & Hshort & ->). rewrite Hv. apply verify_auth_ok, sign_auth_ok in Hv as (t & Ht & _).
    rewrite Ht. apply new_transcript_ok in Ht as (_ & _ & ->). cbn [try].
    rewrite field_str_short by done. cbn [try]. by rewrite framed_app.
Qed.

Lemma verify_ready_ok ready key client challenge auth :
  verify_ready ready key client challenge auth = inr tt ↔
  sign_ready key client challenge auth = inr ready.
Proof.
  rewrite sign_ready_ok, <-verify_auth_ok. unfold verify_ready, verify_tag. split.
  - intros H. apply try_ok in H as ([] & Hv & H). apply try_ok in H as (t & Ht & H).
    apply new_transcript_ok in Ht as (_ & _ & ->). apply try_ok in H as (input & Hinput & H).
    apply field_str_ok in Hinput as [? ->]. rewrite framed_app.
    destruct (String.eqb_spec (hmac_sha256 key (SERVER_PROOF_DOMAIN +:+ framed (transcript_fields client challenge) +:+
      framed [to_hex (client_proof auth)])) (server_proof ready)) as [Heq|]; [|done].
    destruct ready. cbn in Heq. by subst.
  - intros (Hv & Hshort & ->). rewrite Hv. apply verify_auth_ok, sign_auth_ok in Hv as (t & Ht & _).
    rewrite Ht. apply new_transcript_ok in Ht as (_ & _ & ->). cbn [try].
    rewrite field_str_short by done. cbn [try server_proof]. by rewrite framed_app, String.eqb_refl.
Qed.

(** Two accepted client proofs are equal only in one session. *)
Lemma auth_session key client challenge auth client' challenge' auth' :
  sign_auth key client challenge = inr auth → sign_auth key client' challenge' = inr auth' →
  client_proof auth' = client_proof auth →
  (client' = client ∧ challenge' = challenge ∧ auth' = auth) ∨ tag_collision key.
Proof.
  intros (t & Ht & ->)%sign_auth_ok (t' & Ht' & ->)%sign_auth_ok Heq. cbn [client_proof server_proof] in Heq.
  destruct (tag_determines _ _ _ _ _ eq_refl Heq) as [[_ ->]|]; [|by right]. left.
  by destruct (transcript_session _ _ _ _ _ Ht Ht') as [-> ->].
Qed.

(** Two accepted server proofs are equal only in one session and for one client proof. *)
Lemma ready_session key client challenge auth ready client' challenge' auth' ready' :
  sign_ready key client challenge auth = inr ready →
  sign_ready key client' challenge' auth' = inr ready' →
  server_proof ready' = server_proof ready →
  (client' = client ∧ challenge' = challenge ∧ auth' = auth ∧ ready' = ready) ∨ tag_collision key.
Proof.
  intros (Ha & Hs & ->)%sign_ready_ok (Ha' & Hs' & ->)%sign_ready_ok Heq. cbn [client_proof server_proof] in Heq.
  destruct (tag_determines _ _ _ _ _ eq_refl Heq) as [[_ Hf]|]; [|by right].
  pose proof Ha as (t & Ht & _)%sign_auth_ok. pose proof Ha' as (t' & Ht' & _)%sign_auth_ok.
  pose proof Ht as (_ & Hst & _)%new_transcript_ok. pose proof Ht' as (_ & Hst' & _)%new_transcript_ok.
  apply framed_inj, app_inj_tail in Hf as [_ Hproof]; [|by apply Forall_app, conj, Forall_singleton..].
  apply to_hex_inj in Hproof.
  destruct (auth_session _ _ _ _ _ _ _ Ha Ha' Hproof) as [(-> & -> & ->)|]; [by left|by right].
Qed.

(** A client proof is a server proof only on a collision: the domains differ. *)
Lemma roles_differ key client challenge auth client' challenge' auth' ready' :
  sign_auth key client challenge = inr auth →
  sign_ready key client' challenge' auth' = inr ready' →
  client_proof auth = server_proof ready' → tag_collision key.
Proof.
  intros (t & _ & ->)%sign_auth_ok (_ & _ & ->)%sign_ready_ok Heq. cbn [client_proof server_proof] in Heq.
  destruct (tag_determines key CLIENT_PROOF_DOMAIN SERVER_PROOF_DOMAIN _ _ eq_refl Heq) as [[Hdomain _]|];
    [|done].
  vm_compute in Hdomain. discriminate Hdomain.
Qed.
End proof_lemmas.

(** C27: a proof authenticates its role and its whole session.  Let a client and a server have
    signed for a hello and a challenge under a shared key.  Wherever a verifier with that key
    later accepts one of the two proofs, as a client proof or as a server proof, for whatever
    hello, challenge and auth message, it is the proof of that role, and hello, challenge and
    auth are, field by field, those that were signed, unless two messages with one HMAC tag are
    at hand.  So no proof can be moved to another session, another version or limit negotiation,
    or the other direction. *)
Theorem proofs_authenticate_session `{A : Authenticator} key client challenge auth ready :
  sign_auth key client challenge = inr auth →
  sign_ready key client challenge auth = inr ready →
  ∀ client' challenge' auth',
    (verify_auth auth' key client' challenge' = inr tt →
     client_proof auth' ∈ [client_proof auth; server_proof ready] →
     (client' = client ∧ challenge' = challenge ∧ auth' = auth) ∨ tag_collision key) ∧
    ∀ ready',
    (verify_ready ready' key client' challenge' auth' = inr tt →
     server_proof ready' ∈ [client_proof auth; server_proof ready] →
     (client' = client ∧ challenge' = challenge ∧ auth' = auth ∧ ready' = ready) ∨ tag_collision key).
Proof.
  intros Ha Hr client' challenge' auth'. split; [|intros ready'].
  - rewrite verify_auth_ok, !elem_of_cons, elem_of_nil. intros Ha' [Hp|[Hp|[]]].
    + by apply (auth_session _ _ _ _ _ _ _ Ha Ha').
    + right. by apply (roles_differ _ _ _ _ _ _ _ _ Ha' Hr).
  - rewrite verify_ready_ok, !elem_of_cons, elem_of_nil. intros Hr' [Hp|[Hp|[]]].
    + right. by apply (roles_differ _ _ _ _ _ _ _ _ Ha Hr').
    + by apply (ready_session _ _ _ _ _ _ _ _ _ Hr Hr').
Qed.

(** ** Decimal texts are short *)

Lemma pretty_N_go_length k x s :
  (x < 10 ^ N.of_nat k)%N → (String.length (pretty_N_go x s) ≤ k + String.length s)%nat.
Proof.
  revert x s. induction k as [|k IH]; intros x s Hx.
  - replace x with 0%N by (simpl in Hx; lia). rewrite pretty_N_go_0. lia.
  - destruct (decide (0 < x)%N) as [Hpos|]; [|replace x with 0%N by lia; rewrite pretty_N_go_0; lia].
    rewrite pretty_N_go_step by done.
    etrans; [apply IH|cbn; lia]. apply N.Div0.div_lt_upper_bound.
    rewrite Nat2N.inj_succ, N.pow_succ_r' in Hx. done.
Qed.

Lemma pretty_short z : 0 ≤ z ≤ MAX_SAFE_INTEGER → short (pretty z).
Proof.
  intros Hz. assert (String.length (pretty z) ≤ 17)%nat; [|unfold short, str_len, u32_max; lia].
  destruct z as [|p|p]; [vm_compute; lia| |lia].
  change (pretty (Zpos p)) with (pretty (Npos p)). unfold pretty, pretty_N.
  case_decide; [vm_compute; lia|]. pose proof (pretty_N_go_length 16 (Npos p) "").
  etrans; [apply H0|cbn; lia]. unfold MAX_SAFE_INTEGER in Hz. cbn. lia.
Qed.

(** A UTF-8 text has at most four bytes per character. *)
Lemma char_count_start a s : byte_code a < 128 ∨ 192 ≤ byte_code a → char_count (String a s) = 1 + char_count s.
Proof.
  intros Ha. cbn [char_count]. destruct (_ && _) eqn:Hb; [|done]. split_bools. lia.
Qed.

Lemma char_count_more a s : char_count s ≤ char_count (String a s).
Proof. cbn [char_count]. destruct (_ && _); lia. Qed.

Lemma is_utf8_length s : is_utf8 s = true → str_len s ≤ 4 * char_count s.
Proof.
  induction s as [s IH] using (induction_ltof1 _ String.length). unfold ltof in IH.
  destruct s as [|a s]; [done|]. intros Hs.
  assert (∀ u, (String.length u < String.length (String a s))%nat → is_utf8 u = true →
    char_count u ≤ char_count s → (byte_code a < 128 ∨ 192 ≤ byte_code a) →
    str_len s ≤ 3 + str_len u → str_len (String a s) ≤ 4 * char_count (String a s)) as Hstep.
  { intros u Hu Hutf Hc Ha Hlen. rewrite char_count_start by done. specialize (IH u Hu Hutf).
    unfold str_len in *. cbn [String.length]. lia. }
  cbn [is_utf8] in Hs. destruct (Z.ltb_spec (byte_code a) 128).
  { apply (Hstep s); [cbn; lia|done|done|lia|lia]. }
  destruct s as [|c s2]; [done|].
  pose proof (char_count_more c s2). destruct (_ && _) eqn:Hb.
  { split_bools. apply (Hstep s2); [cbn; lia|done|done|lia|unfold str_len; cbn [String.length]; lia]. }
  destruct s2 as [|d s3]; [done|].
  pose proof (char_count_more d s3). destruct ((224 <=? byte_code a) && _) eqn:Hb'.
  { split_bools. apply (Hstep s3); [cbn; lia|done|lia|lia|unfold str_len; cbn [String.length]; lia]. }
  destruct s3 as [|e s4]; [done|]. split_bools.
  pose proof (char_count_more e s4).
  apply (Hstep s4); [cbn; lia|done|lia|lia|unfold str_len; cbn [String.length]; lia].
Qed.

Lemma version_short v : valid_version v = true → is_utf8 v = true → short v.
Proof.
  unfold valid_version, MAX_VERSION_LENGTH, short, u32_max. intros Hv Hs%is_utf8_length. split_bools. lia.
Qed.

Lemma id_short v : valid_id v = true → short v.
Proof. destruct v as [|a v]; [done|]. unfold valid_id, short, u32_max. intros H. split_bools. lia. Qed.

Lemma hex_short s : String.length s = 32%nat → short (to_hex s).
Proof. intros H. unfold short, str_len. rewrite to_hex_length, H. done. Qed.

(** Every valid pair of messages has a transcript. *)
Lemma transcript_exists client challenge :
  validate_challenge challenge client = inr tt →
  is_utf8 (client_version client) = true → is_utf8 (daemon_version challenge) = true →
  String.length (client_nonce client) = 32%nat → String.length (server_nonce challenge) = 32%nat →
  0 ≤ daemon_generation challenge →
  ∃ t, new_transcript client challenge = inr t.
Proof.
  intros Hv Hcv Hdv Hcn Hsn Hgen. exists (framed (transcript_fields client challenge)).
  apply new_transcript_ok. split; [done|]. split; [|done]. unfold transcript_fields.
  apply validate_challenge_ok in Hv as (Hh & _ & Hmin & _ & _ & Hdaemon & Hgen' & Hl).
  apply validate_hello_ok in Hh as (-> & -> & -> & -> & -> & Hframe & Hid & Hversion).
  apply validate_wire_limits_ok in Hl as (Hl & Hresponse & _). rewrite Hmin.
  set (r := response_frame_bytes (limits challenge)) in *. clearbody r. rewrite Hl.
  cbn [limit_values map app].
  assert (∀ z, 0 ≤ z ≤ 8388608 ∨ z = daemon_generation challenge → short (pretty z)) as Hnumber.
  { intros z Hz. apply pretty_short. unfold MAX_SAFE_INTEGER in *. lia. }
  repeat (apply Forall_cons; split;
    [lazymatch goal with
     | |- short (pretty _) => apply Hnumber; cbn; lia
     | |- short (to_hex _) => by apply hex_short
     | |- short (hello_install_id _) => by apply id_short
     | |- short CLIENT_KIND_V1 => discriminate
     | |- _ => by apply version_short
     end|]).
  apply Forall_nil_2.
Qed.

(** The handshake completes.  For every hello and challenge that pass the checks of the
    code (versions are text, nonces have 32 bytes, the generation is no negative number) and
    every key, the client's signature verifies at the server, the server's signature on it
    succeeds and verifies at the client. *)
Theorem handshake_completes `{A : Authenticator} {AOk : AuthenticatorOk A} key client challenge :
  validate_challenge challenge client = inr tt →
  is_utf8 (client_version client) = true → is_utf8 (daemon_version challenge) = true →
  String.length (client_nonce client) = 32%nat → String.length (server_nonce challenge) = 32%nat →
  0 ≤ daemon_generation challenge →
  ∃ auth ready, sign_auth key client challenge = inr auth ∧
    verify_auth auth key client challenge = inr tt ∧
    sign_ready key client challenge auth = inr ready ∧
    verify_ready ready key client challenge auth = inr tt.
Proof.
  intros Hv Hcv Hdv Hcn Hsn Hgen.
  destruct (transcript_exists _ _ Hv Hcv Hdv Hcn Hsn Hgen) as [t Ht].
  eexists _, _. rewrite verify_auth_ok, verify_ready_ok, sign_ready_ok, sign_auth_ok.
  split; [by exists t|]. split; [by exists t|]. split; [|split; [by exists t|]].
  all: try (split; [by exists t|]); split; [apply hex_short, hmac_sha256_length|done].
Qed.

(** ** The replay window *)

Definition last_of {B} (n : nat) (l : list B) : list B := drop (length l - n) l.

(** The nonces a run of checks accepts, in order. *)
Definition accepted (guard : NonceReplayGuard) (nonces : list Nonce) : list Nonce :=
  map fst (List.filter (λ na, match snd na with inr _ => true | inl _ => false end)
             (combine nonces (check_all guard nonces).1)).

Lemma check_all_cons guard nonce nonces :
  (check_all guard (nonce :: nonces)).2 = (check_all (check_and_record guard nonce).2 nonces).2 ∧
  accepted guard (nonce :: nonces) =
    match (check_and_record guard nonce).1 with inr _ => [nonce] | inl _ => [] end
    ++ accepted (check_and_record guard nonce).2 nonces.
Proof.
  unfold accepted. cbn [check_all]. destruct (check_and_record guard nonce) as [[e|[]] g]; cbn [fst snd];
    by destruct (check_all g nonces).
Qed.

(** The queue holds the last accepted nonces, in order, and the set is the queue. *)
Definition window (guard : NonceReplayGuard) (past : list Nonce) : Prop :=
  order (state guard) = last_of (capacity guard) past ∧ NoDup (order (state guard)) ∧
  seen (state guard) = list_to_set (order (state guard)).

Lemma tail_of_drop {B} n (l : list B) : tail (drop n l) = drop (S n) l.
Proof. revert n. induction l as [|x l IH]; intros [|n]; try done. apply IH. Qed.

Lemma last_of_snoc {B} n (l : list B) x :
  (0 < n)%nat →
  last_of n (l ++ [x]) = (if (length (last_of n l) =? n)%nat then tail (last_of n l) else last_of n l) ++ [x].
Proof.
  intros Hn. unfold last_of. rewrite length_app, length_drop. cbn [length].
  destruct (Nat.eqb_spec (length l - (length l - n)) n).
  - replace (length l + 1 - n)%nat with (S (length l - n)) by lia.
    rewrite drop_app_le by lia. by rewrite tail_of_drop.
  - rewrite drop_app_le by lia. by replace (length l + 1 - n)%nat with (length l - n)%nat by lia.
Qed.

Lemma check_window guard past nonce :
  (0 < capacity guard)%nat → window guard past →
  check_and_record guard nonce =
    (if bool_decide (nonce ∈ last_of (capacity guard) past) then (inl authentication_failed, guard)
     else (inr tt, (check_and_record guard nonce).2)) ∧
  capacity (check_and_record guard nonce).2 = capacity guard ∧
  (nonce ∉ last_of (capacity guard) past → window (check_and_record guard nonce).2 (past ++ [nonce])).
Proof.
  intros Hcap (Horder & Hdup & Hseen). unfold check_and_record. rewrite (proj2 (Nat.eqb_neq _ 0)) by lia.
  rewrite Hseen, <-Horder. repeat rewrite (bool_decide_ext _ _ (elem_of_list_to_set _ _)).
  case_bool_decide as Hin; [done|]. split; [done|]. split; [done|]. intros _. unfold window. cbn [fst snd state capacity].
  rewrite last_of_snoc, <-Horder by done.
  destruct (Nat.eqb_spec (length (order (state guard))) (capacity guard)) as [Hfull|Hroom].
  - destruct (order (state guard)) as [|expired rest]; [simpl in Hfull; lia|].
    apply NoDup_cons in Hdup as [Hnew Hdup]. apply not_elem_of_cons in Hin as [? Hin].
    cbn [order seen tail]. split; [done|]. split; [|set_solver].
    apply NoDup_app. split; [done|]. split; [set_solver|apply NoDup_singleton].
  - cbn [order seen]. split; [done|]. split; [|set_solver].
    apply NoDup_app. split; [done|]. split; [set_solver|apply NoDup_singleton].
Qed.

Lemma run_window guard past nonces :
  (0 < capacity guard)%nat → window guard past →
  window (check_all guard nonces).2 (past ++ accepted guard nonces) ∧
  capacity (check_all guard nonces).2 = capacity guard.
Proof.
  revert guard past. induction nonces as [|nonce nonces IH]; intros guard past Hcap Hw.
  - cbn. unfold accepted. cbn. by rewrite app_nil_r.
  - destruct (check_all_cons guard nonce nonces) as [-> ->].
    destruct (check_window _ _ nonce Hcap Hw) as (Hcheck & Hcap' & Hnext). rewrite <-Hcap'.
    case_bool_decide as Hin; rewrite Hcheck in *; cbn [fst snd] in *.
    + by apply IH.
    + rewrite app_assoc. apply IH; [by rewrite Hcap'|by apply Hnext].
Qed.

(** C28: the replay guard remembers exactly the last [cap] nonces it accepted.  After any
    checks on a fresh guard, the next nonce is refused as a replay if it is one of the last
    [cap] accepted ones and accepted otherwise, and the guard holds at most [cap] nonces. *)
Theorem replay_guard_window cap nonces nonce :
  (0 < cap)%nat →
  let guard := (check_all (new_guard cap) nonces).2 in
  (check_and_record guard nonce).1 =
    (if bool_decide (nonce ∈ last_of cap (accepted (new_guard cap) nonces))
     then inl authentication_failed else inr tt) ∧
  (size (seen (state guard)) ≤ cap)%nat ∧
  seen (state guard) = list_to_set (last_of cap (accepted (new_guard cap) nonces)).
Proof.
  intros Hcap guard.
  assert (window (new_guard cap) []) as Hfresh.
  { split; [done|]. split; [apply NoDup_nil_2|done]. }
  destruct (run_window (new_guard cap) [] nonces Hcap Hfresh) as [Hw Hcap']. fold guard in Hw, Hcap'.
  cbn [app capacity new_guard] in *.
  destruct (check_window guard _ nonce ltac:(by rewrite Hcap') Hw) as [Hcheck _].
  destruct Hw as (Horder & Hdup & Hseen). rewrite Hcap' in *. rewrite Hseen, <-Horder.
  split; [|split; [|done]].
  - rewrite <-Horder in Hcheck. rewrite Hcheck. by case_bool_decide.
  - rewrite size_list_to_set by done. rewrite Horder. unfold last_of. rewrite length_drop. lia.
Qed.

(** ** A session *)

#[export] Instance sample_authenticator : Authenticator :=
  λ key message, sample_sha256 (key +:+ message).

#[export] Instance sample_authenticator_ok : AuthenticatorOk sample_authenticator.
Proof. intros key message. apply be_bytes_length. Qed.

Definition session_nonce (n : Z) : Nonce := be_bytes 32 n.

Definition sample_hello : ClientHello := {|
  wire_major := 1; min_minor := 0; max_minor := 0; hello_protocol_version := 1;
  hello_install_id := "install-001"; client_kind := "mcp-bridge-native"; client_version := "0.1.0";
  client_nonce := session_nonce 17; max_response_frame := 8388608;
|}.

Definition sample_challenge : ServerChallenge := {|
  selected_major := 1; selected_minor := 0; challenge_protocol_version := 1;
  challenge_install_id := "install-001"; daemon_version := "0.1.0"; daemon_generation := 7;
  server_nonce := session_nonce 34; limits := protocol_v1_0;
|}.

Definition sample_key : EndpointKey := be_bytes 32 5.

Definition sample_auth : ClientAuth :=
  match sign_auth sample_key sample_hello sample_challenge with
  | inr auth => auth
  | inl _ => mkClientAuth "" "" ""
  end.

Definition sample_ready : ServerReady :=
  match sign_ready sample_key sample_hello sample_challenge sample_auth with
  | inr ready => ready
  | inl _ => mkServerReady ""
  end.

Lemma proofs_authenticate_session_witness :
  sign_auth sample_key sample_hello sample_challenge = inr sample_auth ∧
  sign_ready sample_key sample_hello sample_challenge sample_auth = inr sample_ready ∧
  ((sample_hello = sample_hello ∧ sample_challenge = sample_challenge ∧ sample_auth = sample_auth ∧
    sample_ready = sample_ready) ∨ tag_collision sample_key).
Proof.
  split; [vm_compute; reflexivity|]. split; [vm_compute; reflexivity|].
  refine (proj2 (proofs_authenticate_session sample_key sample_hello sample_challenge sample_auth
    sample_ready _ _ sample_hello sample_challenge sample_auth) sample_ready _ _).
  - vm_compute; reflexivity.
  - vm_compute; reflexivity.
  - vm_compute; reflexivity.
  - apply list_elem_of_further, list_elem_of_here.
Defined.

Lemma handshake_completes_witness :
  ∃ auth ready, sign_auth sample_key sample_hello sample_challenge = inr auth ∧
    verify_auth auth sample_key sample_hello sample_challenge = inr tt ∧
    sign_ready sample_key sample_hello sample_challenge auth = inr ready ∧
    verify_ready ready sample_key sample_hello sample_challenge auth = inr tt.
Proof.
  apply handshake_completes; [vm_compute; reflexivity..|vm_compute; discriminate].
Defined.

(** The guard of the unit test: two nonces, the first one expires. *)
Lemma replay_guard_window_witness :
  (check_and_record (check_all (new_guard 2) [session_nonce 1; session_nonce 1; session_nonce 2; session_nonce 3]).2
     (session_nonce 1)).1 = inr tt.
Proof.
  rewrite (proj1 (replay_guard_window 2 [session_nonce 1; session_nonce 1; session_nonce 2; session_nonce 3]
    (session_nonce 1) ltac:(lia))).
  vm_compute. reflexivity.
Defined.
