(* ===== verification/InstallRecord.v ===== *)
(** * The installation record ([install_record.rs])

    The durable record of an installation and its lifecycle: a setup that publishes evidence
    step by step, a state machine over it, and the validation that a store applies to every
    record and every successor.  The newtypes of the code are strings that passed their
    constructor. *)

From S2P Require Import Prelude Externals.

Definition INSTALL_RECORD_FORMAT_VERSION : Z := 1.
Definition MAX_VERSION_LEN : Z := 128.
Definition MAX_RELATIVE_PATH_LEN : Z := 512.
Definition MAX_TASK_PATH_LEN : Z := 512.
Definition MAX_WINDOWS_COMPONENT_UTF16_LEN : Z := 255.

Inductive InstallRecordError :=
  | InvalidIdentity | InvalidDigest | InvalidRelativePath | UnsupportedFormat
  | InvalidTimestampOrRevision | InvalidInitialRecord | RevisionExhausted | InvalidVersion
  | ActiveRecordIncomplete | StaleRevision | TimestampRegressed | IllegalTransition
  | CheckpointRequiresInstalling | InvalidEvidenceOrder | InvalidCheckpointStep | EvidenceConflict
  | EvidencePathMismatch | InvalidScheduledTaskPath.

Definition Checked (A : Type) : Type := InstallRecordError + A.

Definition fails_if (b : bool) (e : InstallRecordError) : Checked unit := if b then inl e else inr tt.
Definition and_then {A B} (r : Checked A) (k : A → Checked B) : Checked B :=
  match r with inl e => inl e | inr a => k a end.
Notation "x <~ r ; k" := (and_then r (λ x, k)) (at level 100, r at next level, k at level 200, right associativity).
Notation "r ;~ k" := (and_then r (λ _, k)) (at level 100, k at level 200, right associativity).

(** ** Validated strings *)

Definition StableId := string.
Definition Sha256Digest := string.
Definition RelativeWindowsPath := string.
Definition ScheduledTaskPath := string.

Definition new_stable_id (value : string) : Checked StableId :=
  if negb (str_len value =? 32) || negb (all_bytes is_lower_hex value) then inl InvalidIdentity
  else inr value.

Definition new_sha256_digest (value : string) : Checked Sha256Digest :=
  if negb (str_len value =? 64) || negb (all_bytes is_lower_hex value) then inl InvalidDigest
  else inr value.

(** [encode_utf16().count()]: a scalar of four UTF-8 bytes is a surrogate pair. *)
Fixpoint utf16_count (s : string) : Z :=
  match s with
  | EmptyString => 0
  | String a s =>
      let b := byte_code a in
      (if (128 <=? b) && (b <? 192) then 0 else if 240 <=? b then 2 else 1) + utf16_count s
  end.

Fixpoint last_byte (s : string) : option ascii :=
  match s with
  | EmptyString => None
  | String a "" => Some a
  | String _ s => last_byte s
  end.

(** [trim_end_matches(' ')] *)
Fixpoint trim_end_spaces (s : string) : string :=
  match s with
  | EmptyString => ""
  | String a s =>
      match trim_end_spaces s with
      | EmptyString => if Ascii.eqb a " "%char then "" else String a ""
      | s => String a s
      end
  end.

Definition to_ascii_upper (a : ascii) : ascii :=
  if is_ascii_lowercase a then byte_of (byte_code a - 32) else a.
Fixpoint to_ascii_uppercase (s : string) : string :=
  match s with
  | EmptyString => ""
  | String a s => String (to_ascii_upper a) (to_ascii_uppercase s)
  end.

(** The digits 1 to 9 and the superscripts one, two and three, in UTF-8. *)
Definition device_numbers : list string :=
  ["1"; "2"; "3"; "4"; "5"; "6"; "7"; "8"; "9"]
  ++ map (λ b, String (byte_of 194) (String (byte_of b) "")) [185; 178; 179].

Definition forbidden_character (a : ascii) : bool :=
  (byte_code a <=? 31)
  || existsb (Ascii.eqb a) ["<"%char; ">"%char; byte_of 34; ":"%char; "|"%char; "?"%char; "*"%char].

Definition is_safe_windows_component (component : string) : bool :=
  if String.eqb component "" || (MAX_WINDOWS_COMPONENT_UTF16_LEN <? utf16_count component)
     || String.eqb component "." || String.eqb component ".."
     || is_some_and (λ a, Ascii.eqb a "."%char || Ascii.eqb a " "%char) (last_byte component)
     || negb (all_bytes (λ a, negb (forbidden_character a)) component)
  then false
  else
    let basename := to_ascii_uppercase (trim_end_spaces (List.hd "" (split_on "."%char component))) in
    if existsb (String.eqb basename) ["CON"; "PRN"; "AUX"; "NUL"; "CLOCK$"; "CONIN$"; "CONOUT$"] then false
    else negb (existsb (λ number, String.eqb basename ("COM" +:+ number) || String.eqb basename ("LPT" +:+ number))
                 device_numbers).

Definition starts_with (prefix s : string) : bool := String.prefix prefix s.

Definition new_relative_path (value : string) : Checked RelativeWindowsPath :=
  if String.eqb value "" || (MAX_RELATIVE_PATH_LEN <? str_len value) || has_byte "/"%char value
     || starts_with "\" value || has_byte ":"%char value
  then inl InvalidRelativePath
  else if negb (forallb is_safe_windows_component (split_on "\"%char value)) then inl InvalidRelativePath
  else inr value.

Definition new_task_path (value : string) : Checked ScheduledTaskPath :=
  match value with
  | String "\" rest =>
      if String.eqb rest "" || (MAX_TASK_PATH_LEN <? str_len value) || starts_with "\\" value
         || has_byte "/"%char value || has_byte (byte_of 0) value || has_byte ":"%char value
         || negb (forallb is_safe_windows_component (split_on "\"%char rest))
      then inl InvalidScheduledTaskPath
      else inr value
  | _ => inl InvalidScheduledTaskPath
  end.

(** ** The record *)

Inductive InstallState := Installing | Active | Removing | Retained | Purging | Broken.
#[export] Instance InstallState_eq_dec : EqDecision InstallState.
Proof. solve_decision. Defined.

Inductive SignerStatus := Signed | UnsignedDevelopment.
#[export] Instance SignerStatus_eq_dec : EqDecision SignerStatus.
Proof. solve_decision. Defined.

Inductive RuntimeArtifactFormat := MeshDaemonExeV1.
#[export] Instance RuntimeArtifactFormat_eq_dec : EqDecision RuntimeArtifactFormat.
Proof. solve_decision. Defined.

Record RuntimeArtifact := mkRuntimeArtifact {
  rt_relative_path : RelativeWindowsPath;
  rt_sha256 : Sha256Digest;
  rt_version : string;
  rt_signer_status : SignerStatus;
  rt_artifact_format : RuntimeArtifactFormat;
}.
#[export] Instance RuntimeArtifact_eq_dec : EqDecision RuntimeArtifact.
Proof. solve_decision. Defined.

Record ProtectedKeyArtifact := mkProtectedKeyArtifact {
  pk_relative_path : RelativeWindowsPath;
  pk_sha256 : Sha256Digest;
}.
#[export] Instance ProtectedKeyArtifact_eq_dec : EqDecision ProtectedKeyArtifact.
Proof. solve_decision. Defined.

Record ScheduledTaskEvidence := mkScheduledTaskEvidence {
  st_task_path : ScheduledTaskPath;
  st_definition_sha256 : Sha256Digest;
}.
#[export] Instance ScheduledTaskEvidence_eq_dec : EqDecision ScheduledTaskEvidence.
Proof. solve_decision. Defined.

Record InstallRecord := mkInstallRecord {
  format_version : Z;
  install_id : StableId;
  consumer_id : StableId;
  install_state : InstallState;
  revision : Z;
  product_relative_path : option RelativeWindowsPath;
  data_relative_path : option RelativeWindowsPath;
  data_schema_version : option Z;
  protected_key : option ProtectedKeyArtifact;
  runtime : option RuntimeArtifact;
  scheduled_task : option ScheduledTaskEvidence;
  created_at_us : Z;
  updated_at_us : Z;
}.
#[export] Instance InstallRecord_eq_dec : EqDecision InstallRecord.
Proof. solve_decision. Defined.
#[export] Instance InstallRecord_eta : Eta InstallRecord := λ r,
  mkInstallRecord (format_version r) (install_id r) (consumer_id r) (install_state r) (revision r)
    (product_relative_path r) (data_relative_path r) (data_schema_version r) (protected_key r)
    (runtime r) (scheduled_task r) (created_at_us r) (updated_at_us r).

(** ** Validation *)

Definition validate_version (version : string) : Checked unit :=
  fails_if (String.eqb version "" || (MAX_VERSION_LEN <? str_len version) || has_byte (byte_of 0) version)
    InvalidVersion.

Definition validate_optional_version (version : option Z) : Checked unit :=
  fails_if (bool_decide (version = Some 0)) InvalidVersion.

Definition some {A} (o : option A) : bool := bool_decide (is_Some o).
Definition none {A} (o : option A) : bool := negb (some o).

Definition validate_evidence_order (r : InstallRecord) : Checked unit :=
  fails_if
    (none (product_relative_path r)
     || negb (Bool.eqb (some (data_relative_path r)) (some (data_schema_version r)))
     || (none (protected_key r)
         && (some (runtime r) || some (data_relative_path r) || some (scheduled_task r)))
     || (none (runtime r) && (some (data_relative_path r) || some (scheduled_task r)))
     || (none (data_relative_path r) && some (scheduled_task r)))
    InvalidEvidenceOrder.

Definition install_root (id : StableId) : string := "installs\" +:+ id.

Definition validate_evidence_paths (r : InstallRecord) : Checked unit :=
  let install_root := install_root (install_id r) in
  fails_if (is_some_and (λ path, negb (String.eqb path install_root)) (product_relative_path r))
    EvidencePathMismatch;~
  fails_if (is_some_and (λ path, negb (String.eqb path (install_root +:+ "\data"))) (data_relative_path r))
    EvidencePathMismatch;~
  fails_if (is_some_and (λ artifact, negb (String.eqb (pk_relative_path artifact)
                                             (install_root +:+ "\secrets\endpoint-key.dpapi")))
              (protected_key r))
    EvidencePathMismatch;~
  fails_if (is_some_and (λ artifact, negb (String.eqb (rt_relative_path artifact)
                                             (install_root +:+ "\bin\" +:+ rt_sha256 artifact +:+ "\mesh-daemon.exe")))
              (runtime r))
    EvidencePathMismatch.

Definition is_active_complete (r : InstallRecord) : bool :=
  some (product_relative_path r) && some (data_relative_path r) && some (data_schema_version r)
  && some (protected_key r) && some (runtime r) && some (scheduled_task r).

(** [InstallRecord::validate] *)
Definition validate_record (r : InstallRecord) : Checked unit :=
  fails_if (negb (format_version r =? INSTALL_RECORD_FORMAT_VERSION)) UnsupportedFormat;~
  fails_if ((revision r =? 0) || (created_at_us r <? 0) || (updated_at_us r <? created_at_us r))
    InvalidTimestampOrRevision;~
  validate_optional_version (data_schema_version r);~
  match runtime r with Some artifact => validate_version (rt_version artifact) | None => inr tt end;~
  validate_evidence_paths r;~
  validate_evidence_order r;~
  fails_if (bool_decide (install_state r ∈ [Active; Removing; Retained; Purging]) && negb (is_active_complete r))
    ActiveRecordIncomplete.

Definition validate_initial (r : InstallRecord) : Checked unit :=
  validate_record r;~
  fails_if
    (negb (bool_decide (install_state r = Installing)) || negb (revision r =? 1)
     || negb (created_at_us r =? updated_at_us r) || none (product_relative_path r)
     || some (data_relative_path r) || some (data_schema_version r) || some (protected_key r)
     || some (runtime r) || some (scheduled_task r))
    InvalidInitialRecord.

(** Whether this record admits normal traffic. *)
Definition admits_ordinary_traffic (r : InstallRecord) : bool :=
  bool_decide (install_state r = Active) && match validate_record r with inr _ => true | inl _ => false end
  && is_active_complete r.

(** ** Changes *)

Definition ensure_cas (r : InstallRecord) (expected_revision updated_at_us' : Z) : Checked unit :=
  validate_record r;~
  fails_if (negb (revision r =? expected_revision)) StaleRevision;~
  fails_if (updated_at_us' <? updated_at_us r) TimestampRegressed.

Definition is_legal_transition (current next : InstallState) : bool :=
  match current, next with
  | Installing, (Active | Broken) | Active, Removing | Removing, (Retained | Broken)
  | Retained, (Installing | Purging) => true
  | _, _ => false
  end.

Definition next_revision (r : InstallRecord) : Checked Z :=
  match u64_checked (revision r + 1) with Some n => inr n | None => inl RevisionExhausted end.

(** [InstallRecord::transition] *)
Definition transition_record (r : InstallRecord) (expected_revision : Z) (next_state : InstallState)
    (now_us : Z) : Checked InstallRecord :=
  ensure_cas r expected_revision now_us;~
  fails_if (negb (is_legal_transition (install_state r) next_state)) IllegalTransition;~
  n <~ next_revision r;
  let next := r <| install_state := next_state |> <| revision := n |> <| updated_at_us := now_us |> in
  validate_record next;~
  inr next.

Record InstallCheckpoint := mkInstallCheckpoint {
  cp_product_relative_path : option RelativeWindowsPath;
  cp_data_relative_path : option RelativeWindowsPath;
  cp_data_schema_version : option Z;
  cp_protected_key : option ProtectedKeyArtifact;
  cp_runtime : option RuntimeArtifact;
  cp_scheduled_task : option ScheduledTaskEvidence;
}.

Definition is_key_step (r : InstallRecord) (c : InstallCheckpoint) : bool :=
  none (protected_key r) && some (cp_protected_key c) && none (cp_product_relative_path c)
  && none (cp_runtime c) && none (cp_data_relative_path c) && none (cp_data_schema_version c)
  && none (cp_scheduled_task c).
Definition is_runtime_step (r : InstallRecord) (c : InstallCheckpoint) : bool :=
  some (protected_key r) && none (runtime r) && some (cp_runtime c) && none (cp_product_relative_path c)
  && none (cp_protected_key c) && none (cp_data_relative_path c) && none (cp_data_schema_version c)
  && none (cp_scheduled_task c).
Definition is_data_step (r : InstallRecord) (c : InstallCheckpoint) : bool :=
  some (runtime r) && none (data_relative_path r) && none (data_schema_version r)
  && some (cp_data_relative_path c) && some (cp_data_schema_version c) && none (cp_product_relative_path c)
  && none (cp_protected_key c) && none (cp_runtime c) && none (cp_scheduled_task c).
Definition is_task_step (r : InstallRecord) (c : InstallCheckpoint) : bool :=
  some (data_relative_path r) && some (data_schema_version r) && none (scheduled_task r)
  && some (cp_scheduled_task c) && none (cp_product_relative_path c) && none (cp_protected_key c)
  && none (cp_runtime c) && none (cp_data_relative_path c) && none (cp_data_schema_version c).

(** [InstallRecord::checkpoint] *)
Definition checkpoint_record (r : InstallRecord) (expected_revision : Z) (c : InstallCheckpoint)
    (now_us : Z) : Checked InstallRecord :=
  ensure_cas r expected_revision now_us;~
  fails_if (negb (bool_decide (install_state r = Installing))) CheckpointRequiresInstalling;~
  n <~ next_revision r;
  fails_if (negb (is_key_step r c || is_runtime_step r c || is_data_step r c || is_task_step r c))
    InvalidCheckpointStep;~
  let next :=
    if is_key_step r c then r <| protected_key := cp_protected_key c |>
    else if is_runtime_step r c then r <| runtime := cp_runtime c |>
    else if is_data_step r c then
      r <| data_relative_path := cp_data_relative_path c |> <| data_schema_version := cp_data_schema_version c |>
    else r <| scheduled_task := cp_scheduled_task c |> in
  let next := next <| revision := n |> <| updated_at_us := now_us |> in
  validate_record next;~
  inr next.

Definition changed {A} `{EqDecision A} (current next : option A) : option A :=
  if bool_decide (current = next) then None else next.

Definition checkpoint_between (r next : InstallRecord) : InstallCheckpoint := {|
  cp_product_relative_path := changed (product_relative_path r) (product_relative_path next);
  cp_data_relative_path := changed (data_relative_path r) (data_relative_path next);
  cp_data_schema_version := changed (data_schema_version r) (data_schema_version next);
  cp_protected_key := changed (protected_key r) (protected_key next);
  cp_runtime := changed (runtime r) (runtime next);
  cp_scheduled_task := changed (scheduled_task r) (scheduled_task next);
|}.

Definition validate_successor (r next : InstallRecord) : Checked unit :=
  validate_record r;~
  validate_record next;~
  derived <~ (if bool_decide (install_state r = install_state next)
              then checkpoint_record r (revision r) (checkpoint_between r next) (updated_at_us next)
              else transition_record r (revision r) (install_state next) (updated_at_us next));
  fails_if (negb (bool_decide (derived = next))) EvidenceConflict.

(** ** What validation establishes *)

Lemma fails_if_ok b e u : fails_if b e = inr u ↔ b = false.
Proof. destruct b, u; done. Qed.

Lemma and_then_ok {A B} (r : Checked A) (k : A → Checked B) b :
  and_then r k = inr b ↔ ∃ a, r = inr a ∧ k a = inr b.
Proof. destruct r as [e|a]; cbn; [naive_solver|]. split; [by eexists|]. by intros (? & [= ->] & ?). Qed.

Lemma guard_then_ok {B} b e (k : Checked B) v : (fails_if b e;~ k) = inr v ↔ b = false ∧ k = inr v.
Proof. destruct b; cbn; naive_solver. Qed.

Lemma some_true {A} (o : option A) : some o = true ↔ is_Some o.
Proof. apply bool_decide_eq_true. Qed.

(** The evidence present, in setup order: key, runtime, data, task. *)
Definition present (r : InstallRecord) : list bool :=
  [some (protected_key r); some (runtime r); some (data_relative_path r); some (scheduled_task r)].

Definition setup_stage (r : InstallRecord) : nat := length (List.filter id (present r)).

Record valid (r : InstallRecord) : Prop := {
  v_format : format_version r = INSTALL_RECORD_FORMAT_VERSION;
  v_revision : revision r ≠ 0;
  v_created : 0 ≤ created_at_us r ≤ updated_at_us r;
  v_schema : data_schema_version r ≠ Some 0;
  v_version : match runtime r with Some artifact => validate_version (rt_version artifact) | None => inr tt end = inr tt;
  v_paths : validate_evidence_paths r = inr tt;
  v_product : some (product_relative_path r) = true;
  v_data : some (data_relative_path r) = some (data_schema_version r);
  (** a prefix of the setup *)
  v_prefix : present r = repeat true (setup_stage r) ++ repeat false (4 - setup_stage r);
  v_complete : install_state r ∈ [Active; Removing; Retained; Purging] → setup_stage r = 4%nat;
}.

Lemma some_cases r :
  (validate_evidence_order r = inr tt ↔
    some (product_relative_path r) = true ∧ some (data_relative_path r) = some (data_schema_version r) ∧
    present r = repeat true (setup_stage r) ++ repeat false (4 - setup_stage r)) ∧
  (validate_evidence_order r = inr tt → is_active_complete r = (setup_stage r =? 4)%nat).
Proof.
  unfold validate_evidence_order, is_active_complete, setup_stage, present, none. rewrite fails_if_ok.
  destruct (some (product_relative_path r)), (some (data_relative_path r)), (some (data_schema_version r)),
    (some (protected_key r)), (some (runtime r)), (some (scheduled_task r)); cbn; naive_solver.
Qed.

Lemma validate_record_valid r : validate_record r = inr tt ↔ valid r.
Proof.
  unfold validate_record, validate_optional_version. rewrite !guard_then_ok, and_then_ok.
  destruct (some_cases r) as [Horder Hcomplete]. split.
  - intros (Hf & Hr & Hs & [] & Hv & H). apply and_then_ok in H as ([] & Hp & H).
    apply and_then_ok in H as ([] & Ho & H). apply fails_if_ok in H. rewrite (Hcomplete Ho) in H.
    apply Horder in Ho as (? & ? & ?). split_bools. split; try done.
    intros Hin. rewrite bool_decide_eq_true_2 in H by done. cbn in H. split_bools. by apply Nat.eqb_eq.
  - intros []. rewrite v_format0. split; [done|].
    split; [rewrite !orb_false_iff; split; [split|]; lia|]. split; [by apply bool_decide_eq_false|].
    exists tt. split; [done|]. rewrite v_paths0. cbn.
    assert (validate_evidence_order r = inr tt) as Ho by (by apply Horder). rewrite Ho. cbn.
    apply fails_if_ok. rewrite (Hcomplete Ho). case_bool_decide as Hin; [|done].
    by rewrite (v_complete0 Hin).
Qed.

(** ** Successors *)

Lemma next_revision_ok r n : next_revision r = inr n ↔ n = revision r + 1 ∧ 0 ≤ revision r + 1 ≤ u64_max.
Proof. unfold next_revision, u64_checked. case_bool_decide; naive_solver. Qed.

Lemma ensure_cas_ok r rev now :
  ensure_cas r rev now = inr tt ↔ valid r ∧ revision r = rev ∧ updated_at_us r ≤ now.
Proof.
  unfold ensure_cas. rewrite <-validate_record_valid, and_then_ok. split.
  - intros ([] & ? & H). apply guard_then_ok in H as [? H]. apply fails_if_ok in H. split_bools. done.
  - intros (? & ? & ?). exists tt. split; [done|]. apply guard_then_ok. rewrite fails_if_ok, negb_false_iff. lia.
Qed.

(** What one setup step publishes. *)
Inductive publishes (r : InstallRecord) : InstallCheckpoint → InstallRecord → Prop :=
  | publish_key k :
      protected_key r = None →
      publishes r (mkInstallCheckpoint None None None (Some k) None None) (r <| protected_key := Some k |>)
  | publish_runtime a :
      is_Some (protected_key r) → runtime r = None →
      publishes r (mkInstallCheckpoint None None None None (Some a) None) (r <| runtime := Some a |>)
  | publish_data path version :
      is_Some (runtime r) → data_relative_path r = None → data_schema_version r = None →
      publishes r (mkInstallCheckpoint None (Some path) (Some version) None None None)
        (r <| data_relative_path := Some path |> <| data_schema_version := Some version |>)
  | publish_task e :
      is_Some (data_relative_path r) → is_Some (data_schema_version r) → scheduled_task r = None →
      publishes r (mkInstallCheckpoint None None None None None (Some e)) (r <| scheduled_task := Some e |>).

(** What one change of the record does, revision and time aside. *)
Inductive changes (r : InstallRecord) : InstallRecord → Prop :=
  | change_publish c m : install_state r = Installing → publishes r c m → changes r m
  | change_state s : is_legal_transition (install_state r) s = true → changes r (r <| install_state := s |>).

Definition stamped (m : InstallRecord) (revision' now : Z) : InstallRecord :=
  m <| revision := revision' |> <| updated_at_us := now |>.

Definition may_follow (r n : InstallRecord) : Prop :=
  valid r ∧ valid n ∧ 0 ≤ revision r + 1 ≤ u64_max ∧ updated_at_us r ≤ updated_at_us n.

Ltac read_presence :=
  repeat match goal with
  | H : none ?o = true |- _ => destruct o eqn:?; [discriminate H|clear H]
  | H : some ?o = true |- _ => destruct o eqn:?; [clear H|discriminate H]
  end.

Lemma checkpoint_record_ok r rev c now n :
  checkpoint_record r rev c now = inr n ↔
  rev = revision r ∧ now = updated_at_us n ∧ may_follow r n ∧ install_state r = Installing ∧
  ∃ m, publishes r c m ∧ n = stamped m (revision r + 1) now.
Proof.
  unfold checkpoint_record, may_follow. split.
  - intros H. apply and_then_ok in H as ([] & (Hv & <- & Hnow)%ensure_cas_ok & H).
    apply guard_then_ok in H as [Hst H]. apply and_then_ok in H as (k & [-> Hk]%next_revision_ok & H).
    apply guard_then_ok in H as [Hstep H]. split_bools.
    apply and_then_ok in H as ([] & Hvn%validate_record_valid & [= <-]).
    split; [done|]. split; [done|]. split; [done|]. split; [done|].
    destruct c as [cp cd cs ck cr ct]. clear Hvn.
    destruct (is_key_step _ _) eqn:Hkey; [|destruct (is_runtime_step _ _) eqn:Hrun; [|destruct (is_data_step _ _) eqn:Hdata]].
    + unfold is_key_step in Hkey. cbn in Hkey. split_bools. read_presence. subst. eexists. split; [by constructor|done].
    + unfold is_runtime_step in Hrun. cbn in Hrun. split_bools. read_presence. subst. eexists. split; [by constructor|done].
    + unfold is_data_step in Hdata. cbn in Hdata. split_bools. read_presence. subst. eexists. split; [by constructor|done].
    + cbn [orb] in Hstep. unfold is_task_step in Hstep. cbn in Hstep. split_bools. read_presence. subst.
      eexists. split; [by constructor|done].
  - intros (-> & -> & (Hv & Hvn & Hk & Hnow) & Hst & m & Hpub & Hn).
    rewrite (proj2 (ensure_cas_ok _ _ _)) by done. cbn [and_then].
    rewrite bool_decide_eq_true_2 by done. cbn [negb fails_if and_then].
    rewrite (proj2 (next_revision_ok _ _)) by done. cbn [and_then].
    apply guard_then_ok. rewrite negb_false_iff. apply validate_record_valid in Hvn.
    assert (∀ m', m' = m → (validate_record (stamped m' (revision r + 1) (updated_at_us n));~
      inr (stamped m' (revision r + 1) (updated_at_us n))) = inr n) as Hend.
    { intros m' ->. rewrite <-Hn, Hvn. done. }
    unfold is_key_step, is_runtime_step, is_data_step, is_task_step.
    destruct Hpub as [k Hk'|a [? Hk'] Hr|path version [? Hr] Hd Hs|e [? Hd] [? Hs] Ht];
      (split; [|apply Hend]); clear Hend Hn;
      repeat match goal with H : ?f r = _ |- _ => rewrite H; clear H end;
      by destruct (protected_key r), (runtime r), (data_relative_path r), (data_schema_version r).
Qed.

Lemma legal_transition_moves s s' : is_legal_transition s s' = true → s ≠ s'.
Proof. by destruct s, s'. Qed.

Lemma transition_record_ok r rev s now n :
  transition_record r rev s now = inr n ↔
  rev = revision r ∧ now = updated_at_us n ∧ may_follow r n ∧ is_legal_transition (install_state r) s = true ∧
  n = stamped (r <| install_state := s |>) (revision r + 1) now.
Proof.
  unfold transition_record, may_follow. split.
  - intros H. apply and_then_ok in H as ([] & (Hv & <- & Hnow)%ensure_cas_ok & H).
    apply guard_then_ok in H as [Hst H]. apply and_then_ok in H as (k & [-> Hk]%next_revision_ok & H).
    apply and_then_ok in H as ([] & Hvn%validate_record_valid & [= <-]). split_bools.
    split; [done|]. split; [done|]. split; [done|]. split; done.
  - intros (-> & -> & (Hv & Hvn & Hk & Hnow) & Hst & Hn).
    rewrite (proj2 (ensure_cas_ok _ _ _)) by done. rewrite Hst. cbn [and_then negb fails_if].
    rewrite (proj2 (next_revision_ok _ _)) by done. cbn [and_then].
    apply validate_record_valid in Hvn. unfold stamped in Hn. rewrite <-Hn, Hvn. done.
Qed.

Lemma publishes_state r c m : publishes r c m → install_state m = install_state r.
Proof. by destruct 1. Qed.

Lemma changed_same {A} `{EqDecision A} (o : option A) : changed o o = None.
Proof. unfold changed. by rewrite bool_decide_eq_true_2. Qed.

Lemma changed_new {A} `{EqDecision A} (a : A) : changed None (Some a) = Some a.
Proof. done. Qed.

(** The checkpoint a store derives is the one that was published. *)
Lemma checkpoint_between_published r c m n k now :
  publishes r c m → n = stamped m k now → checkpoint_between r n = c.
Proof.
  intros Hpub ->. unfold checkpoint_between, stamped. destruct Hpub as [x H|x _ H|x y _ H H'|x _ _ H];
    rec_simpl; rewrite ?H, ?H', ?changed_same, ?changed_new; done.
Qed.

(** C24: the store admits exactly the changes the record's own operations make.  A record is
    accepted as the successor of another one if and only if it is the result of a checkpoint of
    the earlier record, for some evidence and time, or of a state transition of it; nothing
    else that is valid by itself passes. *)
Theorem install_successor_exact r n :
  validate_successor r n = inr tt ↔
  (∃ c now, checkpoint_record r (revision r) c now = inr n) ∨
  (∃ s now, transition_record r (revision r) s now = inr n).
Proof.
  unfold validate_successor. split.
  - intros H. apply and_then_ok in H as ([] & _ & H). apply and_then_ok in H as ([] & _ & H).
    apply and_then_ok in H as (derived & H & Heq%fails_if_ok). split_bools. subst derived.
    case_bool_decide; [left|right]; by eexists _, _.
  - intros [(c & now & H)|(s & now & H)]; pose proof H as H'.
    + apply checkpoint_record_ok in H as (_ & -> & (Hv & Hvn & _) & Hst & m & Hpub & Hn).
      apply validate_record_valid in Hv as ->, Hvn as ->. cbn [and_then].
      rewrite (checkpoint_between_published _ _ _ _ _ _ Hpub Hn).
      rewrite bool_decide_eq_true_2; [|by rewrite Hn, <-(publishes_state _ _ _ Hpub)].
      rewrite H'. cbn [and_then]. by rewrite bool_decide_eq_true_2.
    + apply transition_record_ok in H as (_ & -> & (Hv & Hvn & _) & Hst & Hn).
      apply validate_record_valid in Hv as ->, Hvn as ->. cbn [and_then].
      assert (install_state n = s) as Hs by by rewrite Hn.
      rewrite bool_decide_eq_false_2; [|rewrite Hs; by apply legal_transition_moves].
      rewrite Hs, H'. cbn [and_then]. by rewrite bool_decide_eq_true_2.
Qed.


(** ** Histories *)

Definition successor (r n : InstallRecord) : Prop := validate_successor r n = inr tt.

Lemma successor_changes r n :
  successor r n → may_follow r n ∧ ∃ m, changes r m ∧ n = stamped m (revision r + 1) (updated_at_us n).
Proof.
  unfold successor, validate_successor. intros H.
  apply and_then_ok in H as ([] & _ & H). apply and_then_ok in H as ([] & _ & H).
  apply and_then_ok in H as (derived & H & Heq%fails_if_ok). split_bools. subst derived. case_bool_decide.
  - apply checkpoint_record_ok in H as (_ & _ & ? & Hst & m & Hpub & Hn). split; [done|].
    exists m. split; [by eapply change_publish|done].
  - apply transition_record_ok in H as (_ & _ & ? & Hst & Hn). split; [done|].
    eexists. split; [by apply change_state|done].
Qed.

(** Evidence that is present stays as it is. *)
Definition kept {A} (o o' : option A) : Prop := ∀ a, o = Some a → o' = Some a.

Record retains (r n : InstallRecord) : Prop := {
  rn_install : install_id n = install_id r;
  rn_consumer : consumer_id n = consumer_id r;
  rn_created : created_at_us n = created_at_us r;
  rn_updated : updated_at_us r ≤ updated_at_us n;
  rn_product : kept (product_relative_path r) (product_relative_path n);
  rn_key : kept (protected_key r) (protected_key n);
  rn_runtime : kept (runtime r) (runtime n);
  rn_data : kept (data_relative_path r) (data_relative_path n);
  rn_schema : kept (data_schema_version r) (data_schema_version n);
  rn_task : kept (scheduled_task r) (scheduled_task n);
}.

#[export] Instance retains_preorder : PreOrder retains.
Proof.
  split.
  - intros r. split; unfold kept; done.
  - intros r n n' [] []. split; try congruence; [lia|unfold kept in *; auto..].
Qed.

Lemma successor_retains r n :
  successor r n → retains r n ∧ revision n = revision r + 1 ∧ install_state r ∉ [Purging; Broken] ∧ valid n.
Proof.
  intros ((_ & Hvn & _ & Hup) & m & Hm & Hn)%successor_changes.
  assert (retains r (stamped m (revision r + 1) (updated_at_us n)) ∧ install_state r ∉ [Purging; Broken]) as [Hr Hs].
  { destruct Hm as [c m Hst Hpub|s Hs].
    - rewrite Hst. split; [|set_solver].
      destruct Hpub; split; unfold stamped, kept in *; rec_simpl; try done; congruence.
    - split; [split; unfold kept; done|]. destruct (install_state r); try discriminate Hs; set_solver. }
  rewrite <-Hn in Hr. split; [done|]. split; [by rewrite Hn|]. done.
Qed.

(** C25: an installation's history is append-only and linear.  Along any chain of changes the
    store admits, the identities, the creation time and every piece of evidence once present
    (product, key, runtime, data, schema, task) stay as they are, the clock does not run
    backwards, every change raises the revision by exactly one, every record is valid, and a
    purging or broken installation has no successor. *)
Theorem install_history k r n :
  nsteps successor k r n →
  retains r n ∧ revision n = revision r + Z.of_nat k ∧
  (k ≠ 0%nat → valid n ∧ install_state r ∉ [Purging; Broken]).
Proof.
  induction 1 as [r|k r n n' H Hrest (IHr & IHrev & IHv)]; [by rewrite Z.add_0_r|].
  apply successor_retains in H as (Hr & Hrev & Hs & Hv). split; [by etrans|]. split; [lia|].
  intros _. split; [|done]. destruct k; [inversion Hrest; by subst|by apply IHv].
Qed.

(** ** Setup *)

(** What a setup has to publish. *)
Record Evidence := mkEvidence {
  ev_key_sha256 : Sha256Digest;
  ev_runtime_sha256 : Sha256Digest;
  ev_version : string;
  ev_signer : SignerStatus;
  ev_schema_version : Z;
  ev_task : ScheduledTaskEvidence;
}.

(** The checkpoint of the first missing step. *)
Definition next_checkpoint (r : InstallRecord) (e : Evidence) : InstallCheckpoint :=
  let root := install_root (install_id r) in
  match setup_stage r with
  | 0%nat => mkInstallCheckpoint None None None
               (Some (mkProtectedKeyArtifact (root +:+ "\secrets\endpoint-key.dpapi") (ev_key_sha256 e))) None None
  | 1%nat => mkInstallCheckpoint None None None None
               (Some (mkRuntimeArtifact (root +:+ "\bin\" +:+ ev_runtime_sha256 e +:+ "\mesh-daemon.exe")
                        (ev_runtime_sha256 e) (ev_version e) (ev_signer e) MeshDaemonExeV1)) None
  | 2%nat => mkInstallCheckpoint None (Some (root +:+ "\data")) (Some (ev_schema_version e)) None None None
  | _ => mkInstallCheckpoint None None None None None (Some (ev_task e))
  end.

(** The remaining steps of a setup, and the activation. *)
Fixpoint resume (steps : nat) (r : InstallRecord) (e : Evidence) (now_us : Z) : Checked InstallRecord :=
  match steps with
  | O => transition_record r (revision r) Active now_us
  | S steps => n <~ checkpoint_record r (revision r) (next_checkpoint r e) now_us; resume steps n e now_us
  end.

Lemma paths_iff r :
  validate_evidence_paths r = inr tt ↔
  (∀ p, product_relative_path r = Some p → p = install_root (install_id r)) ∧
  (∀ p, data_relative_path r = Some p → p = install_root (install_id r) +:+ "\data") ∧
  (∀ a, protected_key r = Some a → pk_relative_path a = install_root (install_id r) +:+ "\secrets\endpoint-key.dpapi") ∧
  (∀ a, runtime r = Some a →
     rt_relative_path a = install_root (install_id r) +:+ "\bin\" +:+ rt_sha256 a +:+ "\mesh-daemon.exe").
Proof.
  assert (∀ A (p : A → bool) (o : option A),
    is_some_and (λ a, negb (p a)) o = false ↔ ∀ a, o = Some a → p a = true) as Hopt.
  { intros A p [a|]; cbn; [rewrite negb_false_iff|]; naive_solver. }
  unfold validate_evidence_paths. rewrite !guard_then_ok, fails_if_ok, !Hopt.
  setoid_rewrite String.eqb_eq. done.
Qed.

Definition good_evidence (e : Evidence) : Prop :=
  validate_version (ev_version e) = inr tt ∧ ev_schema_version e ≠ 0.

(** The setup step of a valid record. *)
Lemma next_publishes r e :
  valid r → install_state r = Installing → (setup_stage r < 4)%nat → good_evidence e →
  ∃ m, publishes r (next_checkpoint r e) m ∧ setup_stage m = S (setup_stage r) ∧
    ∀ k now, 0 < k → updated_at_us r ≤ now → valid (stamped m k now).
Proof.
  intros [Hf _ Hc Hs Hv Hp Hprod Hd Hpre _] Hst Hstage [Hver Hschema].
  apply paths_iff in Hp as (Hp1 & Hp2 & Hp3 & Hp4).
  destruct r as [fmt id cid st rev prod data schema key rt task cr up].
  unfold setup_stage, present, next_checkpoint, stamped in *. cbn in *. subst st.
  destruct key as [key|], rt as [rt|], data as [data|], schema as [schema|], task as [task|]; try discriminate;
    cbn in *; try lia;
    (eexists; split; [by econstructor|]; split; [done|]; intros k now Hk Hnow; split; cbn;
     first [done | lia | congruence | apply paths_iff; cbn; naive_solver | intros; set_solver]).
Qed.

Lemma stamped_stage m k now : setup_stage (stamped m k now) = setup_stage m.
Proof. done. Qed.

(** One more step. *)
Lemma checkpoint_progress r e now :
  valid r → install_state r = Installing → (setup_stage r < 4)%nat → good_evidence e →
  updated_at_us r ≤ now → 0 ≤ revision r < u64_max →
  ∃ n, checkpoint_record r (revision r) (next_checkpoint r e) now = inr n ∧ valid n ∧
    install_state n = Installing ∧ setup_stage n = S (setup_stage r) ∧ revision n = revision r + 1 ∧
    updated_at_us n = now.
Proof.
  intros Hv Hst Hstage He Hnow Hrev.
  destruct (next_publishes r e Hv Hst Hstage He) as (m & Hpub & Hm & Hvalid).
  exists (stamped m (revision r + 1) now).
  specialize (Hvalid (revision r + 1) now ltac:(lia) Hnow).
  pose proof (publishes_state _ _ _ Hpub) as Hstate. rewrite Hst in Hstate.
  split; [|split; [done|]; split; [exact Hstate|]; split; [by rewrite stamped_stage|done]].
  apply checkpoint_record_ok. split; [done|]. split; [done|].
  split; [split; [done|]; split; [done|]; split; [lia|done]|]. split; [done|]. by exists m.
Qed.

Lemma activate r now :
  valid r → install_state r = Installing → setup_stage r = 4%nat →
  updated_at_us r ≤ now → 0 ≤ revision r < u64_max →
  ∃ n, transition_record r (revision r) Active now = inr n ∧ admits_ordinary_traffic n = true ∧
    revision n = revision r + 1.
Proof.
  intros Hv Hst Hstage Hnow Hrev.
  exists (stamped (r <| install_state := Active |>) (revision r + 1) now).
  assert (valid (stamped (r <| install_state := Active |>) (revision r + 1) now)) as Hvn.
  { destruct Hv. split; try done; unfold stamped; rec_simpl; lia. }
  split; [|split; [|done]].
  - apply transition_record_ok. rewrite Hst. split; [done|]. split; [done|].
    split; [split; [done|]; split; [done|]; split; [lia|done]|done].
  - pose proof Hvn as Hcheck%validate_record_valid. unfold admits_ordinary_traffic. rewrite Hcheck.
    unfold validate_record in Hcheck. rewrite bool_decide_eq_true_2 by done. cbn [andb].
    destruct (some_cases (stamped (r <| install_state := Active |>) (revision r + 1) now)) as [Ho Hcomplete].
    rewrite Hcomplete; [|apply Ho; by destruct Hvn]. by rewrite stamped_stage, Nat.eqb_eq.
Qed.

(** C26: a setup can be finished from wherever a crash left it.  Every valid record in
    [INSTALLING], whatever prefix of the steps it has published, becomes active by exactly the
    remaining checkpoints, in the order key, runtime, data, task, and one transition: each is
    accepted, and the record then admits traffic. *)
Theorem setup_resumes r e now :
  valid r → install_state r = Installing → good_evidence e → updated_at_us r ≤ now →
  0 ≤ revision r → revision r + 5 ≤ u64_max →
  ∃ n, resume (4 - setup_stage r) r e now = inr n ∧ admits_ordinary_traffic n = true ∧
    revision n = revision r + Z.of_nat (5 - setup_stage r).
Proof.
  intros Hv Hst He Hnow Hrev Hmax.
  assert (setup_stage r ≤ 4)%nat as Hstage.
  { unfold setup_stage, present. etrans; [apply filter_length_le|done]. }
  assert (∃ left, (4 - setup_stage r = left)%nat) as [left Hleft] by by eexists.
  rewrite Hleft. assert (revision r + Z.of_nat (S left) ≤ u64_max) as Hroom by lia. clear Hmax.
  revert r Hv Hst Hnow Hrev Hstage Hleft Hroom.
  induction left as [|left IH]; intros r Hv Hst Hnow Hrev Hstage Hleft Hroom; cbn [resume].
  - destruct (activate r now) as (n & Hn & Ha & Hk); [done|done|lia|done|lia|].
    exists n. split; [done|]. split; [done|]. lia.
  - destruct (checkpoint_progress r e now) as (n & Hn & Hvn & Hstn & Hsn & Hk & Hup); [done|done|lia|done|done|lia|].
    rewrite Hn. cbn [and_then].
    destruct (IH n) as (n' & Hn' & Ha & Hk'); [done|done|lia|lia|lia|lia|lia|].
    exists n'. split; [done|]. split; [done|]. lia.
Qed.

(** ** Samples *)

Definition sample_install : InstallRecord := {|
  format_version := 1;
  install_id := "0123456789abcdef0123456789abcdef";
  consumer_id := "fedcba9876543210fedcba9876543210";
  install_state := Installing;
  revision := 1;
  product_relative_path := Some "installs\0123456789abcdef0123456789abcdef";
  data_relative_path := None; data_schema_version := None; protected_key := None;
  runtime := None; scheduled_task := None;
  created_at_us := 10; updated_at_us := 10;
|}.

Definition sample_digest : string := "0123456789abcdef0123456789abcdef0123456789abcdef0123456789abcdef".

Definition sample_evidence : Evidence := {|
  ev_key_sha256 := sample_digest; ev_runtime_sha256 := sample_digest; ev_version := "0.1.0";
  ev_signer := Signed; ev_schema_version := 7;
  ev_task := mkScheduledTaskEvidence "\CodexAgentMesh-daemon-01234567" sample_digest;
|}.

(** The first checkpoint of the sample. *)
Definition sample_keyed : InstallRecord :=
  match checkpoint_record sample_install 1 (next_checkpoint sample_install sample_evidence) 11 with
  | inr n => n
  | inl _ => sample_install
  end.

Lemma install_history_witness :
  retains sample_install sample_keyed ∧ revision sample_keyed = 2 ∧
  (1%nat ≠ 0%nat → valid sample_keyed ∧ install_state sample_install ∉ [Purging; Broken]).
Proof.
  refine (install_history 1 sample_install sample_keyed _).
  apply (nsteps_l successor 0 sample_install sample_keyed sample_keyed); [vm_compute; reflexivity|apply nsteps_O].
Defined.

Lemma setup_resumes_witness :
  ∃ n, resume 3 sample_keyed sample_evidence 20 = inr n ∧ admits_ordinary_traffic n = true ∧ revision n = 6.
Proof.
  refine (setup_resumes sample_keyed sample_evidence 20 _ _ _ _ _ _).
  - apply validate_record_valid. vm_compute. reflexivity.
  - reflexivity.
  - split; [reflexivity|discriminate].
  - vm_compute. discriminate.
  - vm_compute. discriminate.
  - vm_compute. discriminate.
Defined.
