(* ===== verification/Process.v ===== *)
(** * Process support ([process.rs])

    The environment of a provider process, and the quota that the two drain threads of an
    attempt share.  The quota is a pair of atomics: its operations are modelled as the single
    atomic accesses they consist of, interleaved over any number of threads. *)

From S2P Require Import Prelude.

Definition DEFAULT_SPOOL_QUOTA_BYTES : Z := 8 * 1024 * 1024.
Definition SPOOL_READ_BUFFER_BYTES : Z := 8192.

(** ** The environment *)

Definition ascii_lower (a : ascii) : ascii :=
  if is_ascii_uppercase a then byte_of (byte_code a + 32) else a.

Fixpoint eq_ignore_ascii_case (s t : string) : bool :=
  match s, t with
  | EmptyString, EmptyString => true
  | String a s, String b t => Ascii.eqb (ascii_lower a) (ascii_lower b) && eq_ignore_ascii_case s t
  | _, _ => false
  end.

(** The first pair whose name matches gets the value; a new name goes to the end. *)
Fixpoint set_variable (pairs : list (string * string)) (key value : string) : list (string * string) :=
  match pairs with
  | [] => [(key, value)]
  | (present, old) :: pairs =>
      if eq_ignore_ascii_case present key then (present, value) :: pairs
      else (present, old) :: set_variable pairs key value
  end.

(** [vars]: what [std::env::vars_os] yields. *)
Definition build_allowlisted_environment (vars : list (string * string)) (allowlist : list string)
    (extra : list (string * string)) : list (string * string) :=
  List.fold_left (λ pairs kv, set_variable pairs kv.1 kv.2) extra
    (List.filter (λ kv, existsb (eq_ignore_ascii_case kv.1) allowlist) vars).

(** ** The spool quota *)

(** Where a thread is in [apply_quota]: outside, after its [fetch_add], or after it has
    flagged the quota, with what it will subtract and return. *)
Inductive Pc :=
  | Outside
  | Added (incoming previous : Z)
  | Flagged (subtract returns : Z).

(** A thread: its place, and the bytes the calls it finished have let it write. *)
Record Thread := mkThread { pc : Pc; accepted_bytes : Z; offered_bytes : Z }.

Record SpoolQuota := mkSpoolQuota { written : Z; exceeded : bool; quota_limit : Z }.

Definition new_quota (limit : Z) : SpoolQuota := mkSpoolQuota 0 false limit.

(** [fetch_add] and [fetch_sub] of an [AtomicU64] wrap around. *)
Definition fetch_add (q : SpoolQuota) (n : Z) : SpoolQuota :=
  mkSpoolQuota ((written q + n) mod 2 ^ 64) (exceeded q) (quota_limit q).
Definition fetch_sub (q : SpoolQuota) (n : Z) : SpoolQuota := fetch_add q (- n).

(** The next atomic access of a thread in [apply_quota]; [incoming] is the length of the chunk
    a thread that is outside enters with. *)
Definition thread_step (incoming : Z) (q : SpoolQuota) (t : Thread) : SpoolQuota * Thread :=
  match pc t with
  | Outside =>
      if incoming =? 0 then (q, t)
      else (fetch_add q incoming, mkThread (Added incoming (written q)) (accepted_bytes t) (offered_bytes t + incoming))
  | Added incoming previous =>
      if quota_limit q <=? previous then
        (mkSpoolQuota (written q) true (quota_limit q), mkThread (Flagged incoming 0) (accepted_bytes t) (offered_bytes t))
      else
        let remaining := quota_limit q - previous in
        if remaining <? incoming then
          (mkSpoolQuota (written q) true (quota_limit q),
           mkThread (Flagged (incoming - remaining) remaining) (accepted_bytes t) (offered_bytes t))
        else (q, mkThread Outside (accepted_bytes t + incoming) (offered_bytes t))
  | Flagged subtract returns =>
      (fetch_sub q subtract, mkThread Outside (accepted_bytes t + returns) (offered_bytes t))
  end.

Record Spools := mkSpools { spool_quota : SpoolQuota; threads : list Thread }.

Definition start_spools (limit : Z) (n : nat) : Spools := mkSpools (new_quota limit) (replicate n (mkThread Outside 0 0)).

(** Thread [i] takes its next access, entering with [incoming] when it is outside. *)
Definition spool_step (s : Spools) (move : nat * Z) : Spools :=
  match threads s !! move.1 with
  | None => s
  | Some t =>
      let '(q, t) := thread_step move.2 (spool_quota s) t in
      mkSpools q (<[move.1 := t]> (threads s))
  end.

Definition run_spools (s : Spools) (moves : list (nat * Z)) : Spools := List.fold_left spool_step moves s.

(** ** What a thread has under way *)

Fixpoint sum (l : list Z) : Z := match l with [] => 0 | x :: l => x + sum l end.

(** Its share of the counter, and of the limit. *)
Definition counted (t : Thread) : Z :=
  accepted_bytes t + match pc t with Outside => 0 | Added n _ => n | Flagged n r => n + r end.
Definition granted (limit : Z) (t : Thread) : Z :=
  accepted_bytes t +
  match pc t with
  | Outside => 0
  | Added n previous => if limit <=? previous then 0 else Z.min n (limit - previous)
  | Flagged _ r => r
  end.
(** What it has been refused. *)
Definition refused (limit : Z) (t : Thread) : Z := offered_bytes t - granted limit t.

Definition total (f : Thread → Z) (s : Spools) : Z := sum (map f (threads s)).

Lemma sum_insert f (l : list Thread) i t t' :
  l !! i = Some t → sum (map f (<[i := t']> l)) = sum (map f l) - f t + f t'.
Proof.
  revert i. induction l as [|x l IH]; intros [|i] Hi; try discriminate.
  - injection Hi as ->. csimpl. lia.
  - csimpl in *. rewrite IH by done. lia.
Qed.

Lemma sum_le f g (l : list Thread) : Forall (λ t, f t ≤ g t) l → sum (map f l) ≤ sum (map g l).
Proof. induction 1; cbn; lia. Qed.

Lemma sum_eq_pointwise f g (l : list Thread) t :
  Forall (λ t, f t ≤ g t) l → sum (map f l) = sum (map g l) → t ∈ l → f t = g t.
Proof.
  intros Hl. induction Hl as [|x l Hx Hl IH]; cbn; [intros _ H; by apply elem_of_nil in H|].
  pose proof (sum_le _ _ _ Hl). rewrite elem_of_cons. intros Heq [->|Hin]; [lia|]. apply IH; [lia|done].
Qed.

(** ** The invariant *)

Definition thread_ok (limit : Z) (q : SpoolQuota) (t : Thread) : Prop :=
  0 ≤ accepted_bytes t ∧ counted t ≤ offered_bytes t ∧
  (** what is refused is flagged, or is refused right now *)
  (exceeded q = true ∨ refused limit t = counted t - granted limit t) ∧
  match pc t with
  | Outside => True
  | Added n previous => 0 < n ≤ SPOOL_READ_BUFFER_BYTES ∧ 0 ≤ previous
  | Flagged n r => 0 < n ≤ SPOOL_READ_BUFFER_BYTES ∧ 0 ≤ r ∧ exceeded q = true
  end.

Record spools_inv (limit : Z) (n : nat) (s : Spools) : Prop := {
  si_limit : quota_limit (spool_quota s) = limit;
  si_count : length (threads s) = n;
  si_threads : Forall (thread_ok limit (spool_quota s)) (threads s);
  si_written : written (spool_quota s) = total counted s;
  si_granted : total (granted limit) s ≤ limit;
  (** the limit is used up before anything is refused, and before the flag is up *)
  si_full : total (granted limit) s = limit ∨
            total (refused limit) s = 0 ∧ exceeded (spool_quota s) = false;
}.

Lemma thread_bounds limit q t :
  thread_ok limit q t → 0 ≤ granted limit t ≤ counted t ∧ counted t ≤ granted limit t + SPOOL_READ_BUFFER_BYTES ∧
    counted t - granted limit t ≤ refused limit t.
Proof.
  unfold thread_ok, refused, counted, granted, SPOOL_READ_BUFFER_BYTES.
  destruct (pc t) as [|n previous|n r]; intros (? & ? & _ & ?); [lia| |lia]. destruct (Z.leb_spec limit previous); lia.
Qed.

(** Nothing refused: the counter is what is granted. *)
Lemma nothing_refused limit n s :
  spools_inv limit n s → total (refused limit) s = 0 → total counted s = total (granted limit) s.
Proof.
  intros [] Hzero. unfold total in *. clear si_written0 si_granted0 si_full0 si_count0.
  induction si_threads0 as [|t l Ht Hl IH]; [done|]. cbn in *. apply thread_bounds in Ht.
  assert (0 ≤ sum (map (refused limit) l)).
  { clear -Hl. induction Hl as [|t l Ht _ IH]; cbn; [done|]. apply thread_bounds in Ht. lia. }
  specialize (IH ltac:(lia)). lia.
Qed.

Lemma total_bounds limit n s :
  spools_inv limit n s →
  total (granted limit) s ≤ total counted s ∧
  total counted s ≤ total (granted limit) s + Z.of_nat n * SPOOL_READ_BUFFER_BYTES ∧
  ∀ i t, threads s !! i = Some t → granted limit t = counted t →
    total counted s ≤ total (granted limit) s + (Z.of_nat n - 1) * SPOOL_READ_BUFFER_BYTES.
Proof.
  intros []. subst n. unfold total. clear si_written0 si_granted0 si_full0.
  assert (∀ l, Forall (thread_ok limit (spool_quota s)) l →
    sum (map counted l) ≤ sum (map (granted limit) l) + Z.of_nat (length l) * SPOOL_READ_BUFFER_BYTES) as Hmax.
  { clear. intros l Hl. induction Hl as [|t l Ht _ IH]; cbn [length map sum]; [lia|]. apply thread_bounds in Ht. lia. }
  split; [|split; [by apply Hmax|]].
  - apply sum_le. eapply Forall_impl; [done|]. intros t Ht%thread_bounds. lia.
  - induction si_threads0 as [|t l Ht Hl IH]; intros i x Hx Heq; [done|]. cbn [length map sum].
    apply thread_bounds in Ht. destruct i as [|i].
    + injection Hx as <-. specialize (Hmax l Hl). lia.
    + specialize (IH i x Hx Heq). lia.
Qed.

(** What the counter grants to a chunk. *)
Definition grant (limit before incoming : Z) : Z :=
  if limit <=? before then 0 else Z.min incoming (limit - before).

(** One access of one thread, as the counter and the thread see it. *)
Lemma thread_step_ok limit q t incoming q' t' :
  quota_limit q = limit → thread_ok limit q t → 0 ≤ incoming ≤ SPOOL_READ_BUFFER_BYTES →
  counted t ≤ written q < 2 ^ 64 → (pc t = Outside → written q + incoming < 2 ^ 64) →
  thread_step incoming q t = (q', t') →
  quota_limit q' = limit ∧ thread_ok limit q' t' ∧ written q' = written q - counted t + counted t' ∧
  (exceeded q = true → exceeded q' = true) ∧ (exceeded q' = true → exceeded q = true ∨ 0 < refused limit t) ∧
  (granted limit t' = granted limit t ∧ refused limit t' = refused limit t ∨
   pc t = Outside ∧ 0 < incoming ∧
   granted limit t' = granted limit t + grant limit (written q) incoming ∧
   refused limit t' = refused limit t + (incoming - grant limit (written q) incoming)).
Proof.
  intros Hlim Ht Hin Hw Hroom. pose proof (thread_bounds _ _ _ Ht) as Hb. revert Ht Hw Hroom Hb.
  unfold thread_step, thread_ok, refused, counted, granted, grant, fetch_sub, fetch_add, SPOOL_READ_BUFFER_BYTES in *.
  destruct t as [[|n previous|n r] accepted offered]; cbn [pc accepted_bytes offered_bytes];
    intros (Ha & Hc & Htold & Hpc) Hw Hroom Hb; rewrite Hlim.
  - destruct (Z.eqb_spec incoming 0) as [->|Hne]; intros [= <- <-];
      cbn [pc accepted_bytes offered_bytes quota_limit written exceeded];
      [|rewrite Z.mod_small by (specialize (Hroom eq_refl); lia); destruct (Z.leb_spec limit (written q))];
      split_and?; try first [done|lia|tauto]; first [destruct Htold; [by left|right; lia]|right; split; [done|lia]].
  - destruct (Z.leb_spec limit previous); [|destruct (Z.ltb_spec (limit - previous) n)];
      intros [= <- <-]; cbn [pc accepted_bytes offered_bytes quota_limit written exceeded];
      split_and?; try first [done|lia|tauto]; first [by left|right; lia|left; lia|destruct Htold; [by left|right; lia]].
  - intros [= <- <-]. cbn [pc accepted_bytes offered_bytes quota_limit written exceeded].
    rewrite Z.mod_small by lia. split_and?; try first [done|lia|tauto]; first [left; lia|destruct Htold; [by left|right; lia]].
Qed.

Lemma total_member limit n s i t :
  spools_inv limit n s → threads s !! i = Some t →
  refused limit t ≤ total (refused limit) s ∧ counted t ≤ total counted s.
Proof.
  intros [_ _ Hthreads _ _ _]. unfold total. revert i. induction Hthreads as [|x l Hx Hl IH]; intros [|i] Hi; try done.
  - injection Hi as ->. cbn. clear IH.
    assert (0 ≤ sum (map (refused limit) l) ∧ 0 ≤ sum (map counted l)); [|lia].
    induction Hl as [|y l Hy _ IH]; cbn; [lia|]. apply thread_bounds in Hy. lia.
  - destruct (IH i Hi). apply thread_bounds in Hx. cbn. lia.
Qed.

(** One access keeps the invariant: the chunk sizes are those of the read buffer, and the limit
    leaves room for every thread's chunk below the width of the counter. *)
Lemma spool_step_inv limit n s i incoming :
  limit + Z.of_nat n * SPOOL_READ_BUFFER_BYTES < 2 ^ 64 → 0 ≤ incoming ≤ SPOOL_READ_BUFFER_BYTES →
  spools_inv limit n s → spools_inv limit n (spool_step s (i, incoming)).
Proof.
  intros Hwidth Hin Hinv. unfold spool_step. cbn [fst snd]. destruct (threads s !! i) as [t|] eqn:Hi; [|done].
  destruct (thread_step incoming (spool_quota s) t) as [q' t'] eqn:Hstep.
  pose proof (total_bounds _ _ _ Hinv) as (Hle & Hmax & Hroom). specialize (Hroom i t Hi).
  pose proof (nothing_refused _ _ _ Hinv) as Hzero.
  destruct (total_member _ _ _ _ _ Hinv Hi) as [Hmine Hmine'].
  destruct Hinv as [Hlim Hcount Hthreads Hwritten Hgranted Hfull].
  pose proof (Forall_lookup_1 _ _ _ _ Hthreads Hi) as Ht.
  assert (∀ f, total f (mkSpools q' (<[i:=t']> (threads s))) = total f s - f t + f t') as Htotal
    by (intros f; by apply sum_insert).
  destruct (thread_step_ok limit (spool_quota s) t incoming q' t') as (Hlim' & Ht' & Hw' & Hmono & Hflag & Hcase);
    [done|done|done| | |done|].
  - rewrite Hwritten. pose proof (thread_bounds _ _ _ Ht). lia.
  - intros Hout. rewrite Hwritten. assert (granted limit t = counted t) as Heq by (unfold granted, counted; by rewrite Hout).
    specialize (Hroom Heq). unfold SPOOL_READ_BUFFER_BYTES in *. lia.
  - unfold grant in Hcase. rewrite Hwritten in *. split; cbn [spool_quota threads]; rewrite ?Htotal.
    + done.
    + by rewrite length_insert.
    + apply Forall_insert; [|done]. eapply Forall_impl; [done|]. intros x (? & ? & Htold & Hpc).
      split; [done|]. split; [done|]. split; [naive_solver|]. destruct (pc x); naive_solver.
    + lia.
    + destruct Hcase as [[-> _]|(_ & _ & -> & _)]; [lia|]. destruct (Z.leb_spec limit (total counted s)); lia.
    + destruct Hfull as [Hfull|[Hnone Hdown]].
      * left. destruct Hcase as [[-> _]|(_ & _ & -> & _)]; [lia|]. destruct (Z.leb_spec limit (total counted s)); lia.
      * specialize (Hzero Hnone). destruct Hcase as [[-> ->]|(_ & Hpos & -> & ->)].
        -- right. split; [lia|]. destruct (exceeded q') eqn:Hq; [|done]. destruct (Hflag eq_refl); [congruence|lia].
        -- destruct (Z.leb_spec limit (total counted s)); [left; lia|].
           destruct (Z.leb_spec incoming (limit - total counted s)); [right|left; lia]. split; [lia|].
           destruct (exceeded q') eqn:Hq; [|done]. destruct (Hflag eq_refl); [congruence|lia].
Qed.

Lemma start_spools_inv limit n : 0 ≤ limit → spools_inv limit n (start_spools limit n).
Proof.
  intros Hlimit. assert (∀ f, f (mkThread Outside 0 0) = 0 → total f (start_spools limit n) = 0) as Hzero.
  { intros f Hf. unfold total, start_spools. cbn [threads]. induction n as [|n IH]; cbn; [done|]. rewrite Hf. lia. }
  split; cbn [spool_quota threads start_spools]; [done|apply length_replicate| | | |].
  - apply Forall_replicate. split; [done|]. split; [done|]. split; [by right|done].
  - symmetry. by apply Hzero.
  - rewrite Hzero; done.
  - right. split; [by apply Hzero|done].
Qed.

Lemma run_spools_inv limit n s moves :
  limit + Z.of_nat n * SPOOL_READ_BUFFER_BYTES < 2 ^ 64 →
  Forall (λ move, 0 ≤ move.2 ≤ SPOOL_READ_BUFFER_BYTES) moves →
  spools_inv limit n s → spools_inv limit n (run_spools s moves).
Proof.
  intros Hwidth Hmoves. revert s. induction Hmoves as [|[i incoming] moves Hm _ IH]; intros s Hinv; [done|].
  apply IH. by apply spool_step_inv.
Qed.

(** C23: the spool quota is exact under every interleaving.  However the atomic accesses of any
    number of drain threads interleave, the bytes they have been allowed to write never exceed
    the limit; and whenever no thread is inside [apply_quota], the counter is exactly the bytes
    allowed, and either the quota is not flagged and every byte offered was allowed, or exactly
    the limit was used up. *)
Theorem spool_quota_exact limit n moves :
  0 ≤ limit → limit + Z.of_nat n * SPOOL_READ_BUFFER_BYTES < 2 ^ 64 →
  Forall (λ move, 0 ≤ move.2 ≤ SPOOL_READ_BUFFER_BYTES) moves →
  let s := run_spools (start_spools limit n) moves in
  total accepted_bytes s ≤ limit ∧
  (Forall (λ t, pc t = Outside) (threads s) →
   written (spool_quota s) = total accepted_bytes s ∧
   (exceeded (spool_quota s) = false → total accepted_bytes s = total offered_bytes s) ∧
   (exceeded (spool_quota s) = true → total accepted_bytes s = limit)).
Proof.
  intros Hlimit Hwidth Hmoves s.
  assert (spools_inv limit n s) as Hinv by (by apply run_spools_inv, start_spools_inv).
  split.
  - etrans; [|apply (si_granted _ _ _ Hinv)]. apply sum_le. eapply Forall_impl; [apply (si_threads _ _ _ Hinv)|].
    intros t (? & _ & _ & Hpc). unfold granted. destruct (pc t); [lia| |lia]. destruct (Z.leb_spec limit previous); lia.
  - intros Hout. destruct Hinv as [_ _ Hthreads Hwritten Hgranted Hfull].
    assert (∀ f, (∀ t, pc t = Outside → f t = accepted_bytes t) → total f s = total accepted_bytes s) as Hsame.
    { intros f Hf. unfold total. f_equal. apply map_ext_Forall. eapply Forall_impl; [done|]. exact Hf. }
    rewrite Hwritten, !Hsame by (intros t Ht; unfold counted, granted; rewrite Ht; lia).
    rewrite Hsame in Hfull by (intros t Ht; unfold granted; rewrite Ht; lia). split; [done|].
    split; intros Hflag; [|by destruct Hfull as [|[_ ?]]; [|congruence]].
    unfold total. f_equal. apply map_ext_Forall.
    eapply Forall_impl; [apply Forall_and; split; [exact Hthreads|exact Hout]|].
    intros t [(_ & _ & Htold & _) Ht]. destruct Htold as [|Htold]; [congruence|].
    unfold refused, counted, granted in Htold. rewrite Ht in Htold. lia.
Qed.


(** Two threads: their chunks overlap, the second one is refused in part. *)
Definition sample_moves : list (nat * Z) :=
  [(0%nat, 60); (1%nat, 60); (1%nat, 0); (0%nat, 0); (1%nat, 0)].

Lemma spool_quota_exact_witness :
  total accepted_bytes (run_spools (start_spools 100 2) sample_moves) = 100 ∧
  exceeded (spool_quota (run_spools (start_spools 100 2) sample_moves)) = true ∧
  total accepted_bytes (run_spools (start_spools 100 2) sample_moves) ≤ 100.
Proof.
  split; [reflexivity|]. split; [reflexivity|].
  refine (proj1 (spool_quota_exact 100 2 sample_moves _ _ _)); [discriminate|reflexivity|].
  repeat (constructor; [split; discriminate|]). constructor.
Defined.

(** ** What a provider process sees *)

Fixpoint lower (s : string) : string :=
  match s with EmptyString => "" | String a s => String (ascii_lower a) (lower s) end.

Lemma eq_ignore_ascii_case_spec s t : eq_ignore_ascii_case s t = true ↔ lower s = lower t.
Proof.
  revert t. induction s as [|a s IH]; intros [|b t]; cbn; try done.
  rewrite andb_true_iff, IH, Ascii.eqb_eq. split; [intros [-> ->]; done|intros [= -> ->]; done].
Qed.

(** The value of a variable: names are compared without case. *)
Definition variable (pairs : list (string * string)) (name : string) : option string :=
  snd <$> List.find (λ kv, eq_ignore_ascii_case kv.1 name) pairs.

Lemma variable_set pairs key value name :
  variable (set_variable pairs key value) name =
    if eq_ignore_ascii_case key name then Some value else variable pairs name.
Proof.
  unfold variable. induction pairs as [|[present old] pairs IH]; cbn; [by destruct (eq_ignore_ascii_case key name)|].
  destruct (eq_ignore_ascii_case present key) eqn:Hkey; cbn.
  - apply eq_ignore_ascii_case_spec in Hkey.
    assert (eq_ignore_ascii_case present name = eq_ignore_ascii_case key name) as ->; [|by destruct (eq_ignore_ascii_case key name)].
    apply eq_iff_eq_true. rewrite !eq_ignore_ascii_case_spec. by rewrite Hkey.
  - destruct (eq_ignore_ascii_case present name) eqn:Hname; [|done].
    destruct (eq_ignore_ascii_case key name) eqn:Hboth; [|done].
    apply eq_ignore_ascii_case_spec in Hname, Hboth. rewrite <-Hboth in Hname.
    apply eq_ignore_ascii_case_spec in Hname. congruence.
Qed.

(** The last explicit variable of a name wins; without one, the inherited value passes when
    the name is allowed, and nothing else does. *)
Lemma environment_variable vars allowlist extra name :
  variable (build_allowlisted_environment vars allowlist extra) name =
    match variable (rev extra) name with
    | Some value => Some value
    | None => if existsb (eq_ignore_ascii_case name) allowlist then variable vars name else None
    end.
Proof.
  unfold build_allowlisted_environment. induction extra as [|[key value] extra IH] using rev_ind.
  - cbn. unfold variable. induction vars as [|[k v] vars IH]; cbn; [by destruct (existsb _ _)|].
    assert (eq_ignore_ascii_case k name = true →
      existsb (eq_ignore_ascii_case k) allowlist = existsb (eq_ignore_ascii_case name) allowlist) as Hsame.
    { intros Hk%eq_ignore_ascii_case_spec. clear IH. induction allowlist as [|a l IH]; [done|]. cbn. f_equal; [|done].
      apply eq_iff_eq_true. rewrite !eq_ignore_ascii_case_spec. by rewrite Hk. }
    destruct (existsb (eq_ignore_ascii_case k) allowlist) eqn:Hallowed; cbn;
      destruct (eq_ignore_ascii_case k name) eqn:Hk; cbn.
    + by rewrite <-Hsame.
    + exact IH.
    + specialize (Hsame eq_refl). rewrite <-Hsame in *. exact IH.
    + exact IH.
  - rewrite fold_left_app, rev_app_distr. cbn [List.fold_left fst snd rev app]. rewrite variable_set, IH.
    change (variable ((key, value) :: rev extra) name) with
      (snd <$> (if eq_ignore_ascii_case key name then Some (key, value) else
         List.find (λ kv, eq_ignore_ascii_case kv.1 name) (rev extra))).
    by destruct (eq_ignore_ascii_case key name).
Qed.
