(* ===== verification/Scheduler.v ===== *)
(** * Scheduler decisions ([scheduler.rs])

    Concurrency limits and their validation, the adapter instance identity, and
    [plan_dispatch], the pure planning round: priority order, global and per-adapter
    budgets, bounded bypass of blocked heads.  The occupancy snapshot and the block
    reasons come from [storage.rs]; [wal_pressure] is the reader's dispatch fence. *)

From S2P Require Import Prelude Domain Externals.

(** ** Occupancy and block reasons ([storage.rs]) *)

Record Occupancy := mkOccupancy {
  occ_global : Z;
  occ_per_adapter : gmap string Z;
}.

Definition occupied (self : Occupancy) (adapter_instance_id : string) : Z :=
  default 0 (occ_per_adapter self !! adapter_instance_id).

Definition is_empty (self : Occupancy) : bool := occ_global self =? 0.

Inductive DispatchBlockReason :=
  | GlobalLimit | AdapterLimit | RetryTimerPending | AdapterUnassigned.

#[export] Instance DispatchBlockReason_eq_dec : EqDecision DispatchBlockReason.
Proof. solve_decision. Defined.

(** ** Limits *)

Definition DEFAULT_GLOBAL_LIMIT : Z := 3.
Definition DEFAULT_PER_ADAPTER_LIMIT : Z := 1.
Definition MAX_GLOBAL_LIMIT : Z := 16.
Definition MAX_PER_ADAPTER_LIMIT : Z := 4.
Definition DEFAULT_BYPASS_BOUND : Z := 4.
Definition MAX_BYPASS_BOUND : Z := 128.

Inductive LimitsError :=
  | GlobalOutOfRange (value : Z)
  | PerAdapterOutOfRange (value : Z)
  | BypassBoundOutOfRange (value : Z).

Record SchedulerLimits := mkSchedulerLimits { l_global : Z; l_per_adapter : Z }.

Definition DEFAULT_LIMITS : SchedulerLimits :=
  mkSchedulerLimits DEFAULT_GLOBAL_LIMIT DEFAULT_PER_ADAPTER_LIMIT.

Definition validate_limits (self : SchedulerLimits) : LimitsError + SchedulerLimits :=
  if negb ((1 <=? l_global self) && (l_global self <=? MAX_GLOBAL_LIMIT))
  then inl (GlobalOutOfRange (l_global self))
  else if negb ((1 <=? l_per_adapter self) && (l_per_adapter self <=? MAX_PER_ADAPTER_LIMIT))
  then inl (PerAdapterOutOfRange (l_per_adapter self))
  else inr self.

Record SchedulerPolicy := mkSchedulerPolicy { limits : SchedulerLimits; bypass_bound : Z }.

Definition validate_policy (self : SchedulerPolicy) : LimitsError + SchedulerPolicy :=
  match validate_limits (limits self) with
  | inl e => inl e
  | inr _ =>
      if negb ((1 <=? bypass_bound self) && (bypass_bound self <=? MAX_BYPASS_BOUND))
      then inl (BypassBoundOutOfRange (bypass_bound self))
      else inr self
  end.

(** ** Adapter instance identity *)

Record AdapterInstanceId := mkAdapterInstanceId {
  family : string;
  account : string;
  profile : string;
  config_digest : string;
}.

Inductive AdapterInstanceIdError := mkAdapterInstanceIdError (message : string).

Definition SEPARATOR : ascii := ":"%char.
Definition MAX_FAMILY_CHARS : Z := 12.
Definition MAX_ACCOUNT_CHARS : Z := 16.
Definition MAX_PROFILE_CHARS : Z := 16.

Definition family_byte (byte : ascii) : bool :=
  is_ascii_lowercase byte || is_ascii_digit byte || Ascii.eqb byte "-"%char.
Definition is_family (value : string) : bool :=
  negb (String.eqb value "") && all_bytes family_byte value.

Definition selector_byte (byte : ascii) : bool :=
  is_ascii_alphanumeric byte || Ascii.eqb byte "."%char || Ascii.eqb byte "_"%char
  || Ascii.eqb byte "-"%char.
Definition is_selector (value : string) : bool := all_bytes selector_byte value.

Definition digest_byte (byte : ascii) : bool :=
  is_ascii_hexdigit byte && negb (is_ascii_uppercase byte).

Definition new_adapter_instance_id (family account profile config_digest : string)
  : AdapterInstanceIdError + AdapterInstanceId :=
  if negb (is_family family) || (MAX_FAMILY_CHARS <? str_len family)
  then inl (mkAdapterInstanceIdError "family must be 1..=12 lowercase alphanumerics or dashes")
  else if negb (is_selector account) || String.eqb account "" || (MAX_ACCOUNT_CHARS <? str_len account)
  then inl (mkAdapterInstanceIdError "account must be 1..=16 selector characters ([A-Za-z0-9._-])")
  else if negb (is_selector profile) || String.eqb profile "" || (MAX_PROFILE_CHARS <? str_len profile)
  then inl (mkAdapterInstanceIdError "profile must be 1..=16 selector characters ([A-Za-z0-9._-])")
  else if negb (all_bytes digest_byte config_digest) || negb (str_len config_digest =? 64)
  then inl (mkAdapterInstanceIdError "config_digest must be exactly 64 lowercase hex characters")
  else inr (mkAdapterInstanceId family account profile config_digest).

Definition parse_adapter_instance_id (value : string)
  : AdapterInstanceIdError + AdapterInstanceId :=
  match split_on SEPARATOR value with
  | [c0; c1; c2; c3] => new_adapter_instance_id c0 c1 c2 c3
  | components => inl (mkAdapterInstanceIdError
      ("expected exactly 4 components separated by ':', got " +:+ pretty (length components)))
  end.

Definition encode (self : AdapterInstanceId) : string :=
  family self +:+ ":" +:+ account self +:+ ":" +:+ profile self +:+ ":" +:+ config_digest self.

(** ** Planning *)

Record QueuedCandidate := mkQueuedCandidate {
  c_task_id : string;
  c_generation : Z;
  c_state : TaskState;
  c_priority : Z;
  c_created_at : Z;
  c_retry_at : option Z;
  c_adapter_instance_id : option string;
}.

Record PlannedDispatch := mkPlannedDispatch {
  p_task_id : string;
  p_generation : Z;
  p_priority : Z;
  p_adapter_instance_id : string;
}.

Record PlannedBlock := mkPlannedBlock {
  b_task_id : string;
  b_generation : Z;
  b_reason : DispatchBlockReason;
  b_adapter_instance_id : option string;
}.

Record DispatchPlan := mkDispatchPlan {
  dispatch : list PlannedDispatch;
  blocked : list PlannedBlock;
}.
#[export] Instance eta_plan : Eta DispatchPlan := fun r => mkDispatchPlan (dispatch r) (blocked r).

(** [right.priority.cmp(&left.priority).then(created_at).then(task_id)] is not [Greater] *)
Definition candidate_leb (left right : QueuedCandidate) : bool :=
  match Z.compare (c_priority right) (c_priority left) with
  | Lt => true
  | Gt => false
  | Eq =>
      match Z.compare (c_created_at left) (c_created_at right) with
      | Lt => true
      | Gt => false
      | Eq => String.leb (c_task_id left) (c_task_id right)
      end
  end.

(** The local variables of the planning loop. *)
Record Planner := mkPlanner {
  remaining_global : Z;
  remaining_adapter : gmap string Z;
  bypassed : Z;
  plan : DispatchPlan;
}.
#[export] Instance eta_planner : Eta Planner :=
  fun r => mkPlanner (remaining_global r) (remaining_adapter r) (bypassed r) (plan r).

Definition block (candidate : QueuedCandidate) (reason : DispatchBlockReason)
    (adapter : option string) (st : Planner) : Planner :=
  st <| plan ::= λ p, p <| blocked ::= λ l, l ++
    [mkPlannedBlock (c_task_id candidate) (c_generation candidate) reason adapter] |> |>.

Definition planned (candidate : QueuedCandidate) (adapter : string) : PlannedDispatch :=
  mkPlannedDispatch (c_task_id candidate) (c_generation candidate) (c_priority candidate) adapter.

Definition timer_pending (candidate : QueuedCandidate) (now_us : Z) : bool :=
  bool_decide (c_state candidate = RetryWait) && is_some_and (λ at_, now_us <? at_) (c_retry_at candidate).

(** One iteration of the loop: the next state, and whether the loop goes on
    ([continue] or falling through) or stops ([break]). *)
Definition plan_step (occupancy : Occupancy) (policy : SchedulerPolicy) (now_us : Z)
    (candidate : QueuedCandidate) (st : Planner) : Planner * bool :=
  match c_adapter_instance_id candidate with
  | None => (block candidate AdapterUnassigned None st, true)
  | Some adapter =>
      if timer_pending candidate now_us
      then (block candidate RetryTimerPending (Some adapter) st, true)
      else
        let adapter_left :=
          default (u32_saturating_sub (l_per_adapter (limits policy)) (occupied occupancy adapter))
                  (remaining_adapter st !! adapter) in
        let st := st <| remaining_adapter ::= <[adapter := adapter_left]> |> in
        if adapter_left =? 0 then
          let st := block candidate AdapterLimit (Some adapter) st in
          let st := st <| bypassed ::= Z.add 1 |> in
          (st, negb (bypass_bound policy <=? bypassed st))
        else if remaining_global st =? 0 then
          (block candidate GlobalLimit (Some adapter) st, false)
        else
          (st <| remaining_global ::= λ n, n - 1 |>
              <| remaining_adapter ::= <[adapter := adapter_left - 1]> |>
              <| plan ::= λ p, p <| dispatch ::= λ l, l ++ [planned candidate adapter] |> |>,
           true)
  end.

Fixpoint plan_loop (occupancy : Occupancy) (policy : SchedulerPolicy) (now_us : Z)
    (ordered : list QueuedCandidate) (st : Planner) : Planner :=
  match ordered with
  | [] => st
  | candidate :: ordered =>
      let '(st, continue) := plan_step occupancy policy now_us candidate st in
      if continue : bool then plan_loop occupancy policy now_us ordered st else st
  end.

Definition initial_planner (occupancy : Occupancy) (policy : SchedulerPolicy) : Planner :=
  mkPlanner (u32_saturating_sub (l_global (limits policy)) (occ_global occupancy)) ∅ 0
            (mkDispatchPlan [] []).

Definition plan_dispatch (candidates : list QueuedCandidate) (occupancy : Occupancy)
    (policy : SchedulerPolicy) (now_us : Z) : LimitsError + DispatchPlan :=
  match validate_policy policy with
  | inl e => inl e
  | inr _ =>
      inr (plan (plan_loop occupancy policy now_us (sort_by candidate_leb candidates)
                           (initial_planner occupancy policy)))
  end.

(** ** WAL pressure ([reader.rs]) *)

Inductive WalPressure := Normal | CheckpointPassive | DiagnoseReaders | FenceDispatch.

Definition wal_pressure (bytes : Z) : WalPressure :=
  if 128 * 1024 * 1024 <=? bytes then FenceDispatch
  else if 64 * 1024 * 1024 <=? bytes then DiagnoseReaders
  else if 32 * 1024 * 1024 <=? bytes then CheckpointPassive
  else Normal.

(** ** Lemmas: identities *)

Definition well_formed_id (id : AdapterInstanceId) : Prop :=
  is_family (family id) = true ∧ str_len (family id) ≤ 12 ∧
  is_selector (account id) = true ∧ account id ≠ "" ∧ str_len (account id) ≤ 16 ∧
  is_selector (profile id) = true ∧ profile id ≠ "" ∧ str_len (profile id) ≤ 16 ∧
  all_bytes digest_byte (config_digest id) = true ∧ str_len (config_digest id) = 64.

Lemma new_adapter_instance_id_ok f a p d id :
  new_adapter_instance_id f a p d = inr id ↔ id = mkAdapterInstanceId f a p d ∧ well_formed_id id.
Proof.
  unfold new_adapter_instance_id, well_formed_id. split.
  - intros H. repeat (case_match; try discriminate). injection H as <-. split_bools. simpl.
    unfold MAX_FAMILY_CHARS, MAX_ACCOUNT_CHARS, MAX_PROFILE_CHARS in *. split_and!; done || lia.
  - intros [-> H]. simpl in H. destruct_and! H.
    unfold MAX_FAMILY_CHARS, MAX_ACCOUNT_CHARS, MAX_PROFILE_CHARS.
    repeat case_match; [exfalso..|done];
      match goal with E : _ || _ = true |- _ =>
        rewrite !orb_true_iff, ?negb_true_iff, ?Z.ltb_lt, ?String.eqb_eq, ?Z.eqb_neq in E
      end; naive_solver congruence || lia.
Qed.

Lemma well_formed_id_separator id :
  well_formed_id id →
  Forall (λ w, has_byte SEPARATOR w = false) [family id; account id; profile id; config_digest id].
Proof.
  intros H. unfold well_formed_id in H. destruct_and! H.
  unfold is_family in *. split_bools.
  repeat constructor; eapply all_bytes_has_byte; [|eassumption| |eassumption| |eassumption| |eassumption]; done.
Qed.

Lemma encode_join id :
  encode id = join (String SEPARATOR "") [family id; account id; profile id; config_digest id].
Proof. done. Qed.

(** ** Lemmas: candidate order *)

Lemma candidate_leb_total x y : candidate_leb x y = false → candidate_leb y x = true.
Proof.
  unfold candidate_leb. rewrite (Z.compare_antisym (c_priority y) (c_priority x)),
    (Z.compare_antisym (c_created_at y) (c_created_at x)).
  destruct (Z.compare (c_priority y) (c_priority x)); simpl; try done.
  destruct (Z.compare (c_created_at y) (c_created_at x)); simpl; try done.
  unfold String.leb. rewrite (String.compare_antisym (c_task_id x)).
  by destruct (String.compare (c_task_id y) (c_task_id x)).
Qed.

Lemma string_leb_trans s t u :
  String.leb s t = true → String.leb t u = true → String.leb s u = true.
Proof.
  rewrite <-!Is_true_true. change (String.le s t → String.le t u → String.le s u). by intros; trans t.
Qed.

Lemma candidate_leb_spec x y :
  candidate_leb x y = true ↔
  c_priority y < c_priority x ∨
  (c_priority y = c_priority x ∧ (c_created_at x < c_created_at y ∨
     (c_created_at x = c_created_at y ∧ String.leb (c_task_id x) (c_task_id y) = true))).
Proof.
  unfold candidate_leb.
  destruct (Z.compare_spec (c_priority y) (c_priority x)); [|naive_solver lia..].
  destruct (Z.compare_spec (c_created_at x) (c_created_at y)); naive_solver lia.
Qed.

Lemma candidate_leb_trans x y z :
  candidate_leb x y = true → candidate_leb y z = true → candidate_leb x z = true.
Proof.
  rewrite !candidate_leb_spec. intros Hxy Hyz.
  destruct Hxy as [?|[? [?|[? Hs]]]], Hyz as [?|[? [?|[? Ht]]]]; try (left; lia); right;
    (split; [lia|]); try (left; lia); right; (split; [lia|]); by eapply string_leb_trans.
Qed.

(** ** Lemmas: the planning loop *)

Section planning.
Context (occupancy : Occupancy) (policy : SchedulerPolicy) (now_us : Z).

(** What the limits leave when the round starts. *)
Definition global_budget : Z :=
  u32_saturating_sub (l_global (limits policy)) (occ_global occupancy).
Definition adapter_budget (a : string) : Z :=
  u32_saturating_sub (l_per_adapter (limits policy)) (occupied occupancy a).

Definition is_ready (a : string) (c : QueuedCandidate) : bool :=
  bool_decide (c_adapter_instance_id c = Some a) && negb (timer_pending c now_us).
(** The candidates for one adapter a round may dispatch, in scan order. *)
Definition ready_for (a : string) (l : list QueuedCandidate) : list PlannedDispatch :=
  (λ c, planned c a) <$> filter (λ c, is_ready a c = true) l.
(** Every candidate a round may dispatch, in scan order. *)
Definition ready_all (l : list QueuedCandidate) : list PlannedDispatch :=
  omap (λ c, a ← c_adapter_instance_id c; if timer_pending c now_us then None else Some (planned c a)) l.

Definition dispatched_to (a : string) (p : DispatchPlan) : list PlannedDispatch :=
  filter (λ d, p_adapter_instance_id d = a) (dispatch p).
Definition adapter_blocks (p : DispatchPlan) : list PlannedBlock :=
  filter (λ b, b_reason b = AdapterLimit) (blocked p).
Definition adapter_left (st : Planner) (a : string) : Z :=
  default (adapter_budget a) (remaining_adapter st !! a).

Definition zlen {A} (l : list A) : Z := Z.of_nat (length l).

(** The state after the candidates [done]. *)
Record planner_inv (done : list QueuedCandidate) (st : Planner) : Prop := {
  inv_global : remaining_global st + zlen (dispatch (plan st)) = global_budget ∧
               0 ≤ remaining_global st;
  inv_adapter a : adapter_left st a + zlen (dispatched_to a (plan st)) = adapter_budget a ∧
                  0 ≤ adapter_left st a;
  inv_bypassed : bypassed st = zlen (adapter_blocks (plan st));
  inv_order : dispatch (plan st) `sublist_of` ready_all done;
  inv_fifo a : ∃ rest, ready_for a done = dispatched_to a (plan st) ++ rest ∧
                 (rest = [] ∨ adapter_left st a = 0 ∨ remaining_global st = 0);
}.

Lemma zlen_app {A} (l m : list A) : zlen (l ++ m) = zlen l + zlen m.
Proof. unfold zlen. rewrite length_app. lia. Qed.

Lemma zlen_nil {A} : zlen (@nil A) = 0.
Proof. done. Qed.

Lemma zlen_singleton {A} (x : A) : zlen [x] = 1.
Proof. done. Qed.

Lemma u32_saturating_sub_nonneg x y : 0 ≤ u32_saturating_sub x y.
Proof. unfold u32_saturating_sub. lia. Qed.

Lemma planner_inv_initial : planner_inv [] (initial_planner occupancy policy).
Proof.
  split; simpl; try (intros a; unfold adapter_left; simpl; rewrite lookup_empty; simpl).
  - unfold zlen. simpl. split; [unfold global_budget; lia|apply u32_saturating_sub_nonneg].
  - unfold zlen. simpl. split; [lia|apply u32_saturating_sub_nonneg].
  - done.
  - constructor.
  - exists []. naive_solver.
Qed.

Lemma ready_for_snoc a l c :
  ready_for a (l ++ [c]) = ready_for a l ++ (if is_ready a c then [planned c a] else []).
Proof.
  unfold ready_for. rewrite filter_app, fmap_app. f_equal. rewrite filter_cons.
  destruct (is_ready a c); by case_decide.
Qed.

Lemma ready_all_snoc l c : ready_all (l ++ [c]) =
  ready_all l ++ omap (λ c, a ← c_adapter_instance_id c;
    if timer_pending c now_us then None else Some (planned c a)) [c].
Proof. apply omap_app. Qed.

Lemma adapter_blocks_block c reason a st :
  zlen (adapter_blocks (plan (block c reason a st))) =
  zlen (adapter_blocks (plan st)) + (if decide (reason = AdapterLimit) then 1 else 0).
Proof.
  unfold adapter_blocks, block. simpl. rewrite filter_app, zlen_app, filter_cons. simpl.
  by repeat case_decide.
Qed.

(** A candidate that is not ready, or not dispatched, leaves the plan's dispatches alone. *)
Lemma planner_inv_skip done st st' c :
  planner_inv done st →
  dispatch (plan st') = dispatch (plan st) → remaining_global st' = remaining_global st →
  (∀ a, adapter_left st' a = adapter_left st a) →
  bypassed st' = zlen (adapter_blocks (plan st')) →
  (∀ a, is_ready a c = true → adapter_left st a = 0 ∨ remaining_global st = 0) →
  planner_inv (done ++ [c]) st'.
Proof.
  intros [] Hd Hg Ha Hb Hready. split.
  - by rewrite Hd, Hg.
  - intros a. unfold dispatched_to. rewrite Hd, Ha. apply inv_adapter0.
  - done.
  - rewrite Hd, ready_all_snoc. by apply sublist_inserts_r.
  - intros a. unfold dispatched_to. rewrite Hd, Ha, Hg, ready_for_snoc.
    destruct (inv_fifo0 a) as (rest & -> & Hrest). unfold dispatched_to. rewrite <-app_assoc.
    eexists; split; [done|]. destruct (is_ready a c) eqn:E; [right; by apply Hready|].
    by rewrite app_nil_r.
Qed.

Lemma adapter_left_insert st a b n :
  default (adapter_budget b) (<[a := n]> (remaining_adapter st) !! b) =
  if decide (a = b) then n else adapter_left st b.
Proof. unfold adapter_left. case_decide; subst; [by rewrite lookup_insert_eq|by rewrite lookup_insert_ne]. Qed.

Lemma planner_inv_step done st c :
  planner_inv done st →
  let '(st', continue) := plan_step occupancy policy now_us c st in
  planner_inv (done ++ [c]) st' ∧
  (bypassed st < bypass_bound policy → bypassed st' ≤ bypass_bound policy) ∧
  (continue = true → bypassed st < bypass_bound policy → bypassed st' < bypass_bound policy) ∧
  (continue = false → bypass_bound policy ≤ bypassed st' ∨ remaining_global st' = 0).
Proof.
  intros Hinv. unfold plan_step. destruct (c_adapter_instance_id c) as [a|] eqn:Ea.
  2: { split_and!; simpl; [|lia|lia|done]. eapply planner_inv_skip; try done.
       - rewrite adapter_blocks_block. simpl. rewrite (inv_bypassed _ _ Hinv). lia.
       - intros b. unfold is_ready. rewrite Ea. done. }
  destruct (timer_pending c now_us) eqn:Et.
  { split_and!; simpl; [|lia|lia|done]. eapply planner_inv_skip; try done.
    - rewrite adapter_blocks_block. simpl. rewrite (inv_bypassed _ _ Hinv). lia.
    - intros b. unfold is_ready. rewrite Et, andb_false_r. done. }
  assert (default (u32_saturating_sub (l_per_adapter (limits policy)) (occupied occupancy a))
     (remaining_adapter st !! a) = adapter_left st a) as -> by done.
  assert (∀ b, is_ready b c = true → b = a) as Hready.
  { intros b. unfold is_ready. rewrite Ea. intros ?. split_bools. naive_solver. }
  assert (∀ b, default (adapter_budget b) (<[a:=adapter_left st a]> (remaining_adapter st) !! b)
            = adapter_left st b) as Hsame.
  { intros b. rewrite adapter_left_insert. case_decide; by subst. }
  destruct (Z.eqb_spec (adapter_left st a) 0) as [Hzero|Hnz].
  { pose proof (inv_bypassed _ _ Hinv) as Hby.
    split_and!; simpl; [|lia|..].
    - eapply planner_inv_skip; try done.
      + etrans; [|symmetry; apply (adapter_blocks_block c AdapterLimit (Some a) st)].
        simpl. lia.
      + intros b ->%Hready. by left.
    - rewrite negb_true_iff, Z.leb_gt. lia.
    - rewrite negb_false_iff, Z.leb_le. naive_solver. }
  simpl. destruct (Z.eqb_spec (remaining_global st) 0) as [Hg|Hg].
  { split_and!; simpl; [|lia|lia|tauto]. eapply planner_inv_skip; try done.
    - rewrite adapter_blocks_block. simpl. rewrite (inv_bypassed _ _ Hinv). lia.
    - naive_solver. }
  split_and!; simpl; [|lia|lia|done]. destruct Hinv. split; simpl.
  - rewrite zlen_app, zlen_singleton. lia.
  - intros b. unfold dispatched_to, adapter_left. simpl.
    rewrite insert_insert_eq, adapter_left_insert, filter_app, zlen_app, filter_cons. simpl.
    destruct (inv_adapter0 b) as [Hb Hb0]. unfold dispatched_to in Hb.
    rewrite filter_nil.
    unfold adapter_left in *. repeat case_decide; subst; try done;
      rewrite ?zlen_singleton, ?zlen_nil; lia.
  - done.
  - rewrite ready_all_snoc. simpl. rewrite Ea. simpl. rewrite Et.
    by apply sublist_app.
  - intros b. destruct (inv_fifo0 b) as (rest & Hrest & Hstop).
    rewrite ready_for_snoc, Hrest. unfold dispatched_to, adapter_left. simpl.
    rewrite insert_insert_eq, adapter_left_insert, filter_app, filter_cons, filter_nil. simpl.
    destruct (decide (a = b)) as [<-|Hne].
    + destruct Hstop as [->|[?|?]]; [|done..]. exists []. rewrite !app_nil_r. split; [|by left].
      f_equal. unfold is_ready. by rewrite Et, bool_decide_true.
    + destruct (is_ready b c) eqn:E; [by apply Hready in E|].
      exists rest. rewrite !app_nil_r. split; [done|].
      destruct Hstop as [?|[?|?]]; [by left|by right; left|done].
Qed.

(** The state the loop ends in: the invariant holds of the scanned prefix, the bypass
    bound holds, and the scan stopped early only for one of the two limits. *)
Lemma plan_loop_inv ordered done st :
  planner_inv done st → bypassed st < bypass_bound policy →
  let st' := plan_loop occupancy policy now_us ordered st in
  ∃ scanned rest, ordered = scanned ++ rest ∧ planner_inv (done ++ scanned) st' ∧
    bypassed st' ≤ bypass_bound policy ∧
    (rest = [] ∨ bypassed st' = bypass_bound policy ∨ remaining_global st' = 0).
Proof.
  revert done st. induction ordered as [|c ordered IH]; intros done st Hinv Hby; simpl.
  { exists [], []. rewrite !app_nil_r. split_and!; [done|done|lia|by left]. }
  pose proof (planner_inv_step done st c Hinv) as Hstep.
  destruct (plan_step occupancy policy now_us c st) as [st' [|]].
  - destruct Hstep as (Hinv' & _ & Hlt & _).
    destruct (IH _ _ Hinv' (Hlt eq_refl Hby)) as (scanned & rest & -> & Hend & Hrest).
    exists (c :: scanned), rest. rewrite <-app_assoc in Hend. done.
  - destruct Hstep as (Hinv' & Hle & _ & Hstop). exists [c], ordered.
    split_and!; [done..|by apply Hle|]. right. specialize (Hle Hby).
    destruct (Hstop eq_refl); [left; lia|by right].
Qed.

Lemma ready_for_app a l m : ready_for a (l ++ m) = ready_for a l ++ ready_for a m.
Proof. unfold ready_for. by rewrite filter_app, fmap_app. Qed.

Lemma ready_all_app l m : ready_all (l ++ m) = ready_all l ++ ready_all m.
Proof. apply omap_app. Qed.
End planning.

Lemma validate_policy_ok policy :
  validate_policy policy = inr policy ↔
  1 ≤ l_global (limits policy) ≤ MAX_GLOBAL_LIMIT ∧
  1 ≤ l_per_adapter (limits policy) ≤ MAX_PER_ADAPTER_LIMIT ∧
  1 ≤ bypass_bound policy ≤ MAX_BYPASS_BOUND.
Proof.
  unfold validate_policy, validate_limits. split.
  - intros H. repeat (case_match; try discriminate). simplify_eq. split_bools. lia.
  - intros H. repeat case_match; simplify_eq; try done; split_bools;
      match goal with E : _ && _ = false |- _ => apply andb_false_iff in E end;
      rewrite !Z.leb_gt in *; lia.
Qed.

Lemma plan_dispatch_inv candidates occupancy policy now_us p :
  plan_dispatch candidates occupancy policy now_us = inr p →
  let ordered := sort_by candidate_leb candidates in
  ∃ scanned rest st, ordered = scanned ++ rest ∧ p = plan st ∧
    planner_inv occupancy policy now_us scanned st ∧
    bypassed st ≤ bypass_bound policy ∧
    (rest = [] ∨ bypassed st = bypass_bound policy ∨ remaining_global st = 0).
Proof.
  unfold plan_dispatch. destruct (validate_policy policy) as [|policy'] eqn:Hv; [done|].
  intros [= <-]. simpl.
  assert (policy' = policy) as ->.
  { unfold validate_policy in Hv. repeat (case_match; try discriminate). congruence. }
  apply validate_policy_ok in Hv.
  edestruct (plan_loop_inv occupancy policy now_us) as (scanned & rest & Hl & Hinv & H);
    [apply planner_inv_initial|simpl; lia|].
  rewrite app_nil_l in Hinv. eauto 10.
Qed.

(** ** Properties *)

(** An adapter identity is a faithful encoding: the text of a valid identity parses
    back to it, has at most 111 characters, and conversely every text the parser
    accepts is the encoding of the identity it returns. *)
Theorem adapter_id_roundtrip :
  (∀ f a p d, match new_adapter_instance_id f a p d with
     | inr id => parse_adapter_instance_id (encode id) = inr id ∧ str_len (encode id) ≤ 111
     | inl _ => True
     end) ∧
  (∀ value, match parse_adapter_instance_id value with
     | inr id => encode id = value ∧ well_formed_id id
     | inl _ => True
     end).
Proof.
  split.
  - intros f a p d. destruct (new_adapter_instance_id f a p d) as [|id] eqn:H; [done|].
    apply new_adapter_instance_id_ok in H as [Heq Hwf]. split.
    + unfold parse_adapter_instance_id. rewrite encode_join, split_on_join;
        [|done|by apply well_formed_id_separator].
      apply new_adapter_instance_id_ok. by destruct id.
    + unfold well_formed_id in Hwf. destruct_and! Hwf. unfold encode, str_len in *.
      rewrite !app_length_string. simpl. lia.
  - intros value. unfold parse_adapter_instance_id.
    destruct (split_on SEPARATOR value) as [|c0 [|c1 [|c2 [|c3 [|]]]]] eqn:E; try done.
    destruct (new_adapter_instance_id c0 c1 c2 c3) as [|id] eqn:H; [done|].
    apply new_adapter_instance_id_ok in H as [-> Hwf]. split; [|done].
    rewrite encode_join. simpl family. simpl account. simpl profile. simpl config_digest.
    rewrite <-E. apply join_split_on.
Qed.

(** C35: a planning round never exceeds the limits: on top of the occupancy it plans at
    most what the global limit leaves in total, at most what the per-adapter limit
    leaves for each adapter, and it steps over at most [bypass_bound] blocked heads. *)
Theorem plan_dispatch_within_limits (candidates : list QueuedCandidate) (occupancy : Occupancy)
    (policy : SchedulerPolicy) (now_us : Z) (p : DispatchPlan) :
  plan_dispatch candidates occupancy policy now_us = inr p →
  zlen (dispatch p) ≤ Z.max 0 (l_global (limits policy) - occ_global occupancy) ∧
  (∀ a, zlen (dispatched_to a p) ≤
          Z.max 0 (l_per_adapter (limits policy) - occupied occupancy a)) ∧
  zlen (adapter_blocks p) ≤ bypass_bound policy.
Proof.
  intros (scanned & rest & st & _ & -> & [] & Hby & _)%plan_dispatch_inv.
  unfold global_budget, adapter_budget, u32_saturating_sub in *. split_and!; [lia| |lia].
  intros a. specialize (inv_adapter0 a). lia.
Qed.

(** C36: a planning round is first-in first-out within priority: its dispatches appear in
    the sorted candidate order (priority, then age, then task id), and for each adapter
    they are exactly the first ready candidates of that adapter, so no candidate
    overtakes an earlier ready one of its own adapter. *)
Theorem plan_dispatch_fifo (candidates : list QueuedCandidate) (occupancy : Occupancy)
    (policy : SchedulerPolicy) (now_us : Z) (p : DispatchPlan) :
  plan_dispatch candidates occupancy policy now_us = inr p →
  let ordered := sort_by candidate_leb candidates in
  StronglySorted (λ x y, candidate_leb x y = true) ordered ∧ ordered ≡ₚ candidates ∧
  dispatch p `sublist_of` ready_all now_us ordered ∧
  ∀ a, dispatched_to a p `prefix_of` ready_for now_us a ordered.
Proof.
  intros (scanned & rest & st & Hord & -> & [] & _)%plan_dispatch_inv.
  split_and!.
  - apply sort_by_sorted; [apply candidate_leb_total|apply candidate_leb_trans].
  - apply sort_by_perm.
  - rewrite Hord, ready_all_app. by apply sublist_inserts_r.
  - intros a. rewrite Hord, ready_for_app. destruct (inv_fifo0 a) as (r & -> & _).
    rewrite <-app_assoc. by apply prefix_app_r.
Qed.

(** C37: a planning round is work conserving: unless it used the whole global budget or
    stepped over [bypass_bound] blocked heads, every adapter is given as many of its
    ready candidates as its own limit leaves. *)
Theorem plan_dispatch_work_conserving (candidates : list QueuedCandidate)
    (occupancy : Occupancy) (policy : SchedulerPolicy) (now_us : Z) (p : DispatchPlan) :
  plan_dispatch candidates occupancy policy now_us = inr p →
  zlen (dispatch p) = global_budget occupancy policy ∨
  zlen (adapter_blocks p) = bypass_bound policy ∨
  ∀ a, dispatched_to a p =
       take (Z.to_nat (adapter_budget occupancy policy a))
            (ready_for now_us a (sort_by candidate_leb candidates)).
Proof.
  intros (scanned & rest & st & Hord & -> & [] & _ & Hstop)%plan_dispatch_inv.
  destruct (decide (remaining_global st = 0)) as [Hg|Hg]; [left; lia|].
  destruct Hstop as [->|[Hb|Hg']]; [|right; left; lia|done].
  right; right. intros a. rewrite Hord, app_nil_r.
  destruct (inv_adapter0 a) as [Hleft Hpos].
  destruct (inv_fifo0 a) as (r & -> & [->|[Hz|?]]); [| |done].
  - rewrite app_nil_r, take_ge; [done|]. unfold zlen in Hleft. lia.
  - rewrite take_app_length'; [done|]. unfold zlen in Hleft. lia.
Qed.

Definition sample_candidate (id : string) (priority : Z) (adapter : string) : QueuedCandidate :=
  mkQueuedCandidate id 0 Queued priority 100 None (Some adapter).
Definition sample_candidates : list QueuedCandidate :=
  [sample_candidate "t1" 5 "claude:a:default:0"; sample_candidate "t2" 9 "claude:a:default:0";
   sample_candidate "t3" 1 "grok:b:default:0"].
Definition sample_policy : SchedulerPolicy := mkSchedulerPolicy DEFAULT_LIMITS DEFAULT_BYPASS_BOUND.
Definition sample_occupancy : Occupancy := mkOccupancy 1 {["kimi:c:default:0" := 1]}.
Definition sample_plan : DispatchPlan :=
  mkDispatchPlan
    [mkPlannedDispatch "t2" 0 9 "claude:a:default:0"; mkPlannedDispatch "t3" 0 1 "grok:b:default:0"]
    [mkPlannedBlock "t1" 0 AdapterLimit (Some "claude:a:default:0")].

Lemma plan_dispatch_within_limits_witness :
  zlen (dispatch sample_plan) ≤ 2 ∧
  (∀ a, zlen (dispatched_to a sample_plan) ≤ Z.max 0 (1 - occupied sample_occupancy a)) ∧
  zlen (adapter_blocks sample_plan) ≤ 4.
Proof.
  apply (plan_dispatch_within_limits sample_candidates sample_occupancy sample_policy 0 sample_plan).
  vm_compute. reflexivity.
Defined.

Lemma plan_dispatch_fifo_witness :
  plan_dispatch sample_candidates sample_occupancy sample_policy 0 = inr sample_plan ∧
  dispatched_to "claude:a:default:0" sample_plan `prefix_of`
    ready_for 0 "claude:a:default:0" (sort_by candidate_leb sample_candidates).
Proof.
  split; [vm_compute; reflexivity|].
  apply (plan_dispatch_fifo sample_candidates sample_occupancy sample_policy 0 sample_plan).
  vm_compute. reflexivity.
Defined.

Lemma plan_dispatch_work_conserving_witness :
  zlen (dispatch sample_plan) = global_budget sample_occupancy sample_policy ∨
  zlen (adapter_blocks sample_plan) = bypass_bound sample_policy ∨
  ∀ a, dispatched_to a sample_plan =
       take (Z.to_nat (adapter_budget sample_occupancy sample_policy a))
            (ready_for 0 a (sort_by candidate_leb sample_candidates)).
Proof.
  apply (plan_dispatch_work_conserving sample_candidates sample_occupancy sample_policy 0 sample_plan).
  vm_compute. reflexivity.
Defined.

(** An identity may start with a dash, which the protocol's id pattern
    [[A-Za-z0-9][A-Za-z0-9._:-]*] does not admit. *)
Lemma adapter_id_leading_dash :
  match new_adapter_instance_id "-agent" "account" "default"
          "0000000000000000000000000000000000000000000000000000000000000000" with
  | inr id => is_some_and (λ a, negb (is_ascii_alphanumeric a)) (String.get 0 (encode id)) = true
  | inl _ => False
  end.
Proof. vm_compute. reflexivity. Qed.
