(* ===== verification/Improvement.v ===== *)
(** * The improvement engine ([improvement.rs])

    Observation of reviewed tasks, eligibility of a failure signature, cases and
    their states, candidate proposals behind the fixture gate, stable canary
    assignment, evaluation of the two arms, promotion, rollback and freezing.

    A [BTreeMap] is a [gmap]; its [values()] are listed in key order.  Methods that
    take [&mut self] return the new engine; early returns keep the mutations the
    code made before them.  [usize], [u64] and [u128] accumulators are unbounded:
    they count stored rows and sum [i64]-bounded metrics. *)

From Stdlib Require Import QArith.
From S2P Require Import Prelude Externals SampleExternals.
#[local] Open Scope Z_scope.

Definition ELIGIBILITY_OCCURRENCES : Z := 3.
Definition ELIGIBILITY_WINDOW : nat := 20.
Definition MIN_FIXTURE_OUTCOMES : Z := 10.
Definition CANARY_PERCENT : Z := 20.
Definition MIN_CANARY_SAMPLES_PER_ARM : Z := 20.
Definition COOLDOWN_US : Z := 7 * 86400000000.
Definition MIN_CANARY_AGE_US : Z := 7 * 86400000000.
Definition CASE_EXPIRY_US : Z := 30 * 86400000000.
Definition MAX_TOKEN_LENGTH : Z := 128.
Definition MAX_HYPOTHESIS_LENGTH : Z := 2048.

(** ** Data *)

Inductive ImprovementState := Observing | Canary | Promoted | RolledBack | Frozen.

#[export] Instance ImprovementState_eq_dec : EqDecision ImprovementState.
Proof. solve_decision. Defined.

Inductive CandidateKnob :=
  | PromptComposition | ContextSelection | SameAgentTransportPriority | Quality | Effort.

Definition knob_as_str (self : CandidateKnob) : string :=
  match self with
  | PromptComposition => "prompt_composition"
  | ContextSelection => "context_selection"
  | SameAgentTransportPriority => "same_agent_transport_priority"
  | Quality => "quality"
  | Effort => "effort"
  end.

Record ImprovementPolicy := mkPolicy {
  enabled : bool;
  prompt_profiles : gset string;
  context_profiles : gset string;
  transport_profiles : gset string;
  allowed_quality : gset string;
  allowed_effort : gset string;
}.
#[export] Instance eta_policy : Eta ImprovementPolicy := fun r =>
  mkPolicy (enabled r) (prompt_profiles r) (context_profiles r) (transport_profiles r)
           (allowed_quality r) (allowed_effort r).

Definition default_policy : ImprovementPolicy :=
  mkPolicy false ∅ ∅ ∅ {["low"; "standard"; "high"]} {["low"; "medium"; "high"]}.

Record FailureSignature := mkSignature {
  protocol_stage : string;
  failure_class : string;
  version_bucket : string;
  diagnostic_code : string;
}.
#[export] Instance FailureSignature_eq_dec : EqDecision FailureSignature.
Proof. solve_decision. Defined.

Record Cohort := mkCohort {
  co_adapter_instance_id : string;
  co_adapter_version : string;
  co_config_version : Z;
  co_config_digest : string;
}.
#[export] Instance Cohort_eq_dec : EqDecision Cohort.
Proof. solve_decision. Defined.

Record ObservationInput := mkObservation {
  o_task_id : string;
  o_component : string;
  o_cohort : Cohort;
  o_reviewed_at_us : Z;
  o_success : bool;
  o_failure_signature : option FailureSignature;
  o_latency_us : option Z;
  o_token_cost : option Z;
  o_safety_violations : Z;
}.
#[export] Instance ObservationInput_eq_dec : EqDecision ObservationInput.
Proof. solve_decision. Defined.

Record FixtureOutcome := mkFixture {
  fixture_id : string;
  passed : bool;
  hard_invariant_failures : Z;
}.

Record CandidateProposal := mkProposal {
  pr_case_id : string;
  pr_knob : CandidateKnob;
  pr_value : Value;
  pr_hypothesis : string;
  pr_fixtures : list FixtureOutcome;
}.

Record CandidateValidation := mkValidation { fixture_gate_passed : bool; hard_failure : bool }.

Inductive ObservationDecision :=
  | OFeatureDisabled
  | OInvalid
  | OConflictingReplay
  | ORecorded (comparable_tasks matching_failures : Z)
  | OEligible (case_id : string) (comparable_tasks matching_failures : Z)
  | OActiveCase (case_id : string)
  | OCoolingDown
  | OFrozen.

Inductive CandidateDecision :=
  | CFeatureDisabled
  | CCanary (candidate_config_version : Z) (candidate_config_digest : string)
  | CFixtureRejected (hard_invariant_failure : bool).

Record CanaryAssignment := mkAssignment {
  as_case_id : string;
  as_task_id : string;
  as_candidate : bool;
  as_config_version : Z;
  as_config_digest : string;
  as_replayed : bool;
}.
#[export] Instance eta_assignment : Eta CanaryAssignment := fun r =>
  mkAssignment (as_case_id r) (as_task_id r) (as_candidate r) (as_config_version r)
               (as_config_digest r) (as_replayed r).

Record CanaryAdmission := mkAdmission {
  ad_task_id : string;
  ad_cohort : Cohort;
  ad_opted_in : bool;
  ad_read_only : bool;
  ad_is_new : bool;
  ad_now_us : Z;
}.

Inductive CanaryDecision :=
  | KFeatureDisabled
  | KNotEligible
  | KAssigned (assignment : CanaryAssignment).

Inductive EvaluationDecision :=
  | EFeatureDisabled
  | EWaitingForTime
  | EWaitingForSamples (candidate control : Z)
  | EMissingMetrics
  | EPromoted (config_version : Z)
  | ERolledBack (config_version rollback_count : Z)
  | EFrozen (config_version rollback_count : Z).

Record CaseRecord := mkCase {
  k_case_id : string;
  k_component : string;
  k_cohort : Cohort;
  k_signature : string;
  k_created_at_us : Z;
  k_state : ImprovementState;
  k_candidate_id : option string;
  k_parent_config_version : Z;
  k_canary_started_at_us : option Z;
  k_rollback_count : Z;
}.
#[export] Instance eta_case : Eta CaseRecord := fun r =>
  mkCase (k_case_id r) (k_component r) (k_cohort r) (k_signature r) (k_created_at_us r)
         (k_state r) (k_candidate_id r) (k_parent_config_version r)
         (k_canary_started_at_us r) (k_rollback_count r).

Record CandidateRecord := mkCandidate {
  d_candidate_id : string;
  d_case_id : string;
  d_component : string;
  d_knob : CandidateKnob;
  d_value : Value;
  d_parent_config_version : Z;
  d_rollback_config_version : Z;
  d_candidate_config_version : Z;
  d_candidate_config_digest : string;
  d_fixture_gate_passed : bool;
  d_fixture_hard_failure : bool;
}.

Record ImprovementEngine := mkEngine {
  policy : ImprovementPolicy;
  observations : gmap string ObservationInput;
  cases : gmap string CaseRecord;
  candidates : gmap string CandidateRecord;
  assignments : gmap string CanaryAssignment;
  active_config_versions : gmap string Z;
  cooldown_until : gmap string Z;
  rollback_counts : gmap string Z;
  next_config_version : Z;
}.
#[export] Instance eta_engine : Eta ImprovementEngine := fun r =>
  mkEngine (policy r) (observations r) (cases r) (candidates r) (assignments r)
           (active_config_versions r) (cooldown_until r) (rollback_counts r)
           (next_config_version r).

(** [BTreeMap::values]: in key order *)
Definition btree_values {A} (m : gmap string A) : list A :=
  (sort_by (λ x y : string * A, String.leb x.1 y.1) (map_to_list m)).*2.

(** ** Validation *)

Definition token_byte (byte : ascii) : bool :=
  is_ascii_alphanumeric byte || Ascii.eqb byte "-"%char || Ascii.eqb byte "_"%char
  || Ascii.eqb byte "."%char || Ascii.eqb byte ":"%char || Ascii.eqb byte "/"%char
  || Ascii.eqb byte "@"%char.

Definition valid_token (value : string) : bool :=
  negb (String.eqb value "") && (str_len value <=? MAX_TOKEN_LENGTH)
  && all_bytes token_byte value.

Definition fits_i64 (value : Z) : bool := bool_decide (value ≤ i64_max).

Definition case_active (case : CaseRecord) : bool :=
  bool_decide (k_state case = Observing) || bool_decide (k_state case = Canary).

Definition allowlist (policy : ImprovementPolicy) (knob : CandidateKnob) : gset string :=
  match knob with
  | PromptComposition => prompt_profiles policy
  | ContextSelection => context_profiles policy
  | SameAgentTransportPriority => transport_profiles policy
  | Quality => allowed_quality policy
  | Effort => allowed_effort policy
  end.

(** [any(|fixture| !valid_token(id) || !fixture_ids.insert(id))] *)
Fixpoint fixture_ids_bad (fixtures : list FixtureOutcome) (fixture_ids : gset string) : bool :=
  match fixtures with
  | [] => false
  | fixture :: fixtures =>
      if negb (valid_token (fixture_id fixture)) then true
      else if bool_decide (fixture_id fixture ∈ fixture_ids) then true
      else fixture_ids_bad fixtures ({[fixture_id fixture]} ∪ fixture_ids)
  end.

Definition validate_proposal (self : CandidateProposal) (policy : ImprovementPolicy)
  : option CandidateValidation :=
  if negb (valid_token (pr_case_id self)) || String.eqb (pr_hypothesis self) ""
     || (MAX_HYPOTHESIS_LENGTH <? char_count (pr_hypothesis self))
     || (Z.of_nat (length (pr_fixtures self)) <? MIN_FIXTURE_OUTCOMES)
  then None
  else if fixture_ids_bad (pr_fixtures self) ∅ then None
  else
    value ← as_str (pr_value self);
    if negb (valid_token value) then None
    else if negb (bool_decide (value ∈ allowlist policy (pr_knob self))) then None
    else
      let hard_failure := existsb (λ f, negb (hard_invariant_failures f =? 0)) (pr_fixtures self) in
      let all_passed := forallb passed (pr_fixtures self) in
      Some (mkValidation (all_passed && negb hard_failure) hard_failure).

Section engine.
Context `{E : Externals}.

Definition normalized_key (self : FailureSignature) : option string :=
  let fields := [protocol_stage self; failure_class self; version_bucket self;
                 diagnostic_code self] in
  if forallb valid_token fields
  then Some (sha256_hex (concat_strings (map (λ field, field +:+ String "000"%char "") fields)))
  else None.

Definition validate_cohort (self : Cohort) : bool :=
  valid_token (co_adapter_instance_id self) && valid_token (co_adapter_version self)
  && (0 <=? co_config_version self) && is_lower_sha256 (co_config_digest self).

Definition validate_observation (self : ObservationInput) : bool :=
  valid_token (o_task_id self) && valid_token (o_component self)
  && validate_cohort (o_cohort self) && (0 <=? o_reviewed_at_us self)
  && is_none_or (λ signature, bool_decide (is_Some (normalized_key signature)))
       (o_failure_signature self)
  && Bool.eqb (o_success self) (bool_decide (o_failure_signature self = None))
  && is_none_or fits_i64 (o_latency_us self) && is_none_or fits_i64 (o_token_cost self).

Definition signature_key (input : ObservationInput) : option string :=
  signature ← o_failure_signature input; normalized_key signature.

(** ** Deterministic identities *)

Definition be_value (s : string) : Z :=
  List.fold_left (λ acc a, 256 * acc + byte_code a) (String.list_ascii_of_string s) 0.

Definition stable_canary_bucket (case_id task_id : string) : Z :=
  let digest := sha256 (json_to_string
    (json_object [("case_id", VString case_id); ("task_id", VString task_id)])) in
  be_value (String.substring 0 8 digest) mod 100.

Definition deterministic_case_id (component adapter_instance_id adapter_version : string)
    (config_version : Z) (config_digest signature trigger_task_id : string) : string :=
  let hex := sha256_hex (json_to_string (json_object
    [("adapter_instance_id", VString adapter_instance_id);
     ("adapter_version", VString adapter_version);
     ("component", VString component);
     ("config_version", VNumber (NInt config_version));
     ("config_digest", VString config_digest);
     ("signature", VString signature);
     ("trigger_task_id", VString trigger_task_id)])) in
  "imp-" +:+ String.substring 0 32 hex.

Definition candidate_digest (parent_version : Z) (component : string) (knob : CandidateKnob)
    (value : Value) : string :=
  sha256_hex (json_to_string (json_object
    [("component", VString component); ("knob", VString (knob_as_str knob));
     ("parent_version", VNumber (NInt parent_version)); ("value", value)])).

Definition candidate_id_of (proposal : CandidateProposal) : string :=
  let hex := sha256_hex (json_to_string (json_object
    [("case", VString (pr_case_id proposal)); ("knob", VString (knob_as_str (pr_knob proposal)));
     ("value", pr_value proposal)])) in
  "cand-" +:+ String.substring 0 32 hex.

(** ** The engine *)

Definition new_engine (policy : ImprovementPolicy) : ImprovementEngine :=
  mkEngine policy ∅ ∅ ∅ ∅ ∅ ∅ ∅ 1.

Definition set_enabled (b : bool) (self : ImprovementEngine) : ImprovementEngine :=
  self <| policy ::= λ p, p <| enabled := b |> |>.

Definition observation_leb (left right : ObservationInput) : bool :=
  match Z.compare (o_reviewed_at_us right) (o_reviewed_at_us left) with
  | Lt => true
  | Gt => false
  | Eq => String.leb (o_task_id left) (o_task_id right)
  end.

Definition comparable_observations (self : ImprovementEngine) (component : string)
    (cohort : Cohort) : list ObservationInput :=
  take ELIGIBILITY_WINDOW (sort_by observation_leb
    (filter (λ o, o_component o = component ∧ o_cohort o = cohort)
            (btree_values (observations self)))).

Definition case_expired (now_us : Z) (case : CaseRecord) : bool :=
  case_active case
  && (CASE_EXPIRY_US <=? i64_saturating_sub now_us (k_created_at_us case)).

Definition expire_one (now_us : Z) (self : ImprovementEngine) (ids : string * string)
  : ImprovementEngine :=
  self <| cases ::= alter (λ case, case <| k_state := RolledBack |>) ids.1 |>
       <| cooldown_until ::= <[ids.2 := i64_saturating_add now_us COOLDOWN_US]> |>.

Definition expire (now_us : Z) (self : ImprovementEngine) : ImprovementEngine :=
  let expired := map (λ case, (k_case_id case, k_component case))
    (List.filter (case_expired now_us) (btree_values (cases self))) in
  List.fold_left (expire_one now_us) expired self.

Definition eligibility_for (self : ImprovementEngine) (input : ObservationInput)
  : ObservationDecision :=
  match signature_key input with
  | None => ORecorded 1 0
  | Some signature =>
      if existsb (λ case, String.eqb (k_component case) (o_component input)
                          && bool_decide (k_state case = Frozen)) (btree_values (cases self))
      then OFrozen
      else match List.find (λ case, String.eqb (k_component case) (o_component input)
                                    && case_active case) (btree_values (cases self)) with
      | Some case => OActiveCase (k_case_id case)
      | None =>
          if is_some_and (λ until, o_reviewed_at_us input <? until)
                         (cooldown_until self !! o_component input)
          then OCoolingDown
          else
            let comparable := comparable_observations self (o_component input) (o_cohort input) in
            let comparable_tasks := Z.of_nat (length comparable) in
            let matching := Z.of_nat (length
              (filter (λ o, signature_key o = Some signature) comparable)) in
            if matching <? ELIGIBILITY_OCCURRENCES then ORecorded comparable_tasks matching
            else
              let cohort := o_cohort input in
              OEligible
                (deterministic_case_id (o_component input) (co_adapter_instance_id cohort)
                   (co_adapter_version cohort) (co_config_version cohort)
                   (co_config_digest cohort) signature (o_task_id input))
                comparable_tasks matching
      end
  end.

(** A task with a canary assignment must be observed under the assigned configuration. *)
Definition assignment_ok (self : ImprovementEngine) (input : ObservationInput) : bool :=
  match assignments self !! o_task_id input with
  | None => true
  | Some assignment =>
      match cases self !! as_case_id assignment with
      | None => false
      | Some case =>
          negb (negb (String.eqb (o_component input) (k_component case))
            || negb (String.eqb (co_adapter_instance_id (o_cohort input))
                                (co_adapter_instance_id (k_cohort case)))
            || negb (String.eqb (co_adapter_version (o_cohort input))
                                (co_adapter_version (k_cohort case)))
            || negb (co_config_version (o_cohort input) =? as_config_version assignment)
            || negb (String.eqb (co_config_digest (o_cohort input))
                                (as_config_digest assignment)))
      end
  end.

(** [observe] after the expiry of old cases *)
Definition record_observation (self : ImprovementEngine) (input : ObservationInput)
  : ObservationDecision * ImprovementEngine :=
  match observations self !! o_task_id input with
  | Some existing =>
      if bool_decide (existing = input) then (eligibility_for self existing, self)
      else (OConflictingReplay, self)
  | None =>
      if negb (assignment_ok self input) then (OInvalid, self)
      else
        let self := self
          <| next_config_version ::= λ n, Z.max n (co_config_version (o_cohort input)) |>
          <| observations ::= <[o_task_id input := input]> |> in
        (eligibility_for self input, self)
  end.

Definition observe (self : ImprovementEngine) (input : ObservationInput)
  : ObservationDecision * ImprovementEngine :=
  if negb (enabled (policy self)) then (OFeatureDisabled, self)
  else if negb (validate_observation input) then (OInvalid, self)
  else record_observation (expire (o_reviewed_at_us input) self) input.

Definition or_insert {A} (k : string) (a : A) (m : gmap string A) : gmap string A :=
  match m !! k with Some _ => m | None => <[k := a]> m end.

Definition open_eligible_case (self : ImprovementEngine) (input : ObservationInput) (now_us : Z)
  : option string * ImprovementEngine :=
  if negb (enabled (policy self)) || negb (validate_observation input) then (None, self)
  else
    let self := expire now_us self in
    match eligibility_for self input with
    | OEligible case_id _ _ =>
        match signature_key input with
        | None => (None, self)
        | Some signature =>
            let case := mkCase case_id (o_component input) (o_cohort input) signature now_us
              Observing None (co_config_version (o_cohort input)) None
              (default 0 (rollback_counts self !! o_component input)) in
            (Some case_id,
             self <| active_config_versions ::=
                       or_insert (o_component input) (co_config_version (o_cohort input)) |>
                  <| cases ::= <[case_id := case]> |>)
        end
    | _ => (None, self)
    end.

Definition candidate_config_version (self : ImprovementEngine) (case_id : string) : option Z :=
  case ← cases self !! case_id;
  candidate ← k_candidate_id case;
  d_candidate_config_version <$> candidates self !! candidate.

Definition propose_candidate (self : ImprovementEngine) (proposal : CandidateProposal) (now_us : Z)
  : option CandidateDecision * ImprovementEngine :=
  if negb (enabled (policy self)) then (Some CFeatureDisabled, self)
  else match cases self !! pr_case_id proposal with
  | None => (None, self)
  | Some case =>
      if negb (bool_decide (k_state case = Observing))
         || (CASE_EXPIRY_US <=? i64_saturating_sub now_us (k_created_at_us case))
      then (None, self)
      else match validate_proposal proposal (policy self) with
      | None => (None, self)
      | Some validation =>
          let candidate_id := candidate_id_of proposal in
          match candidates self !! candidate_id with
          | Some existing =>
              (Some (if fixture_gate_passed validation
                     then CCanary (d_candidate_config_version existing)
                                  (d_candidate_config_digest existing)
                     else CFixtureRejected (hard_failure validation)), self)
          | None =>
              let candidate_version := i64_saturating_add (next_config_version self) 1 in
              let digest := candidate_digest (k_parent_config_version case) (k_component case)
                              (pr_knob proposal) (pr_value proposal) in
              let record := mkCandidate candidate_id (pr_case_id proposal) (k_component case)
                (pr_knob proposal) (pr_value proposal) (k_parent_config_version case)
                (k_parent_config_version case) candidate_version digest
                (fixture_gate_passed validation) (hard_failure validation) in
              let self := self <| next_config_version := candidate_version |>
                               <| candidates ::= <[candidate_id := record]> |> in
              let case := case <| k_candidate_id := Some candidate_id |> in
              if negb (fixture_gate_passed validation) then
                let case := case <| k_state := RolledBack |> in
                (Some (CFixtureRejected (hard_failure validation)),
                 self <| cases ::= <[pr_case_id proposal := case]> |>
                      <| cooldown_until ::=
                           <[k_component case := i64_saturating_add now_us COOLDOWN_US]> |>)
              else
                let case := case <| k_state := Canary |>
                                 <| k_canary_started_at_us := Some now_us |> in
                (Some (CCanary candidate_version digest),
                 self <| cases ::= <[pr_case_id proposal := case]> |>)
          end
      end
  end.

Definition assign_canary (self : ImprovementEngine) (case_id : string) (admission : CanaryAdmission)
  : CanaryDecision * ImprovementEngine :=
  if negb (enabled (policy self)) then (KFeatureDisabled, self)
  else match assignments self !! ad_task_id admission with
  | Some existing =>
      if String.eqb (as_case_id existing) case_id
      then (KAssigned (existing <| as_replayed := true |>), self)
      else (KNotEligible, self)
  | None =>
      match cases self !! case_id with
      | None => (KNotEligible, self)
      | Some case =>
          if negb (bool_decide (k_state case = Canary))
             || (CASE_EXPIRY_US <=? i64_saturating_sub (ad_now_us admission) (k_created_at_us case))
             || negb (ad_opted_in admission) || negb (ad_read_only admission)
             || negb (ad_is_new admission)
             || negb (bool_decide (ad_cohort admission = k_cohort case))
          then (KNotEligible, self)
          else match k_candidate_id case ≫= λ id, candidates self !! id with
          | None => (KNotEligible, self)
          | Some candidate =>
              let is_candidate := stable_canary_bucket case_id (ad_task_id admission) <? CANARY_PERCENT in
              let '(config_version, config_digest) :=
                if is_candidate
                then (d_candidate_config_version candidate, d_candidate_config_digest candidate)
                else (d_rollback_config_version candidate, co_config_digest (k_cohort case)) in
              let assignment := mkAssignment case_id (ad_task_id admission) is_candidate
                                  config_version config_digest false in
              (KAssigned assignment,
               self <| assignments ::= <[ad_task_id admission := assignment]> |>)
          end
      end
  end.

(** ** Evaluation *)

Record ArmMetrics := mkArm {
  samples : Z;
  successes : Z;
  latency_sum : Z;
  token_sum : Z;
  missing_metrics : bool;
  safety_violations : Z;
}.

Definition default_arm : ArmMetrics := mkArm 0 0 0 0 false 0.

Inductive MetricGate :=
  | GPass | GQualityRegression | GResourceRegression | GMissing | GSafetyViolation.

Definition regresses_over_ten_percent
    (candidate_sum candidate_samples control_sum control_samples : Z) : bool :=
  11 * control_sum * candidate_samples <? 10 * candidate_sum * control_samples.

Definition compare_arms (candidate control : ArmMetrics) : MetricGate :=
  if negb (safety_violations candidate =? 0) then GSafetyViolation
  else if missing_metrics candidate || missing_metrics control then GMissing
  else if (samples candidate =? 0) || (samples control =? 0) then GQualityRegression
  else if 10 * successes candidate * samples control <?
          10 * successes control * samples candidate + samples candidate * samples control
  then GQualityRegression
  else if regresses_over_ten_percent (latency_sum candidate) (samples candidate)
                                     (latency_sum control) (samples control)
       || regresses_over_ten_percent (token_sum candidate) (samples candidate)
                                     (token_sum control) (samples control)
  then GResourceRegression
  else GPass.

Definition add_sample (arm : ArmMetrics) (input : ObservationInput) : ArmMetrics :=
  mkArm (samples arm + 1) (successes arm + (if o_success input then 1 else 0))
    (latency_sum arm + default 0 (o_latency_us input))
    (token_sum arm + default 0 (o_token_cost input))
    (missing_metrics arm || bool_decide (o_latency_us input = None)
                         || bool_decide (o_token_cost input = None))
    (safety_violations arm + o_safety_violations input).

(** The candidate and the control arm of a case. *)
Definition arms_of (self : ImprovementEngine) (case_id : string) : ArmMetrics * ArmMetrics :=
  List.fold_left
    (λ arms assignment,
       match observations self !! as_task_id assignment with
       | None => arms
       | Some observation =>
           if as_candidate assignment
           then (add_sample arms.1 observation, arms.2)
           else (arms.1, add_sample arms.2 observation)
       end)
    (filter (λ a, as_case_id a = case_id) (btree_values (assignments self)))
    (default_arm, default_arm).

Definition rollback_case (self : ImprovementEngine) (case : CaseRecord) (now_us : Z)
  : EvaluationDecision * ImprovementEngine :=
  let count := u32_saturating_add
    (default (k_rollback_count case) (rollback_counts self !! k_component case)) 1 in
  let frozen := 2 <=? count in
  let self := self
    <| rollback_counts ::= <[k_component case := count]> |>
    <| cases ::= alter (λ current, current <| k_rollback_count := count |>
         <| k_state := if frozen then Frozen else RolledBack |>) (k_case_id case) |>
    <| active_config_versions ::= <[k_component case := k_parent_config_version case]> |>
    <| cooldown_until ::= <[k_component case := i64_saturating_add now_us COOLDOWN_US]> |> in
  (if frozen then EFrozen (k_parent_config_version case) count
   else ERolledBack (k_parent_config_version case) count, self).

Definition evaluate_canary (self : ImprovementEngine) (case : CaseRecord) (now_us : Z)
  : EvaluationDecision * ImprovementEngine :=
  match k_candidate_id case with
  | None => (EWaitingForSamples 0 0, self)
  | Some _ =>
      let '(candidate, control) := arms_of self (k_case_id case) in
      if negb (safety_violations candidate =? 0) then rollback_case self case now_us
      else if (samples candidate <? MIN_CANARY_SAMPLES_PER_ARM)
           || (samples control <? MIN_CANARY_SAMPLES_PER_ARM)
      then (EWaitingForSamples (samples candidate) (samples control), self)
      else if missing_metrics candidate || missing_metrics control
      then (EMissingMetrics, self)
      else if is_none_or (λ started, i64_saturating_sub now_us started <? MIN_CANARY_AGE_US)
                         (k_canary_started_at_us case)
      then (EWaitingForTime, self)
      else match compare_arms candidate control with
      | GPass =>
          let self := self <| cases ::= alter (λ c, c <| k_state := Promoted |>) (k_case_id case) |> in
          let version := default (k_parent_config_version case)
                                 (candidate_config_version self (k_case_id case)) in
          (EPromoted version,
           self <| active_config_versions ::= <[k_component case := version]> |>
                <| cooldown_until ::=
                     <[k_component case := i64_saturating_add now_us COOLDOWN_US]> |>)
      | GMissing => (EMissingMetrics, self)
      | GSafetyViolation | GQualityRegression | GResourceRegression =>
          rollback_case self case now_us
      end
  end.

Definition evaluate (self : ImprovementEngine) (case_id : string) (now_us : Z)
  : EvaluationDecision * ImprovementEngine :=
  if negb (enabled (policy self)) then (EFeatureDisabled, self)
  else
    let self := expire now_us self in
    match cases self !! case_id with
    | None => (EWaitingForSamples 0 0, self)
    | Some case =>
        match k_state case with
        | Promoted => (EPromoted (default (k_parent_config_version case)
                                          (candidate_config_version self case_id)), self)
        | RolledBack => (ERolledBack (k_parent_config_version case) (k_rollback_count case), self)
        | Frozen => (EFrozen (k_parent_config_version case) (k_rollback_count case), self)
        | Observing => (EWaitingForSamples 0 0, self)
        | Canary => evaluate_canary self case now_us
        end
    end.

Definition request_rollback (self : ImprovementEngine) (case_id : string)
    (target_config_version now_us : Z) : EvaluationDecision * ImprovementEngine :=
  if negb (enabled (policy self)) then (EFeatureDisabled, self)
  else
    let self := expire now_us self in
    match cases self !! case_id with
    | None => (EWaitingForSamples 0 0, self)
    | Some case =>
        if negb (target_config_version =? k_parent_config_version case)
        then (EWaitingForSamples 0 0, self)
        else match k_state case with
        | Canary | Promoted => rollback_case self case now_us
        | RolledBack => (ERolledBack (k_parent_config_version case) (k_rollback_count case), self)
        | Frozen => (EFrozen (k_parent_config_version case) (k_rollback_count case), self)
        | Observing => (EWaitingForSamples 0 0, self)
        end
    end.
End engine.

(** ** The engine as a transition system *)

Section steps.
Context `{E : Externals}.

(** One call of a method that can change the engine. *)
Inductive engine_step : ImprovementEngine → ImprovementEngine → Prop :=
  | step_set_enabled e b : engine_step e (set_enabled b e)
  | step_observe e input :
      co_config_version (o_cohort input) ≤ i64_max → engine_step e (observe e input).2
  | step_open e input now : engine_step e (open_eligible_case e input now).2
  | step_propose e proposal now : engine_step e (propose_candidate e proposal now).2
  | step_assign e id admission : engine_step e (assign_canary e id admission).2
  | step_evaluate e id now : engine_step e (evaluate e id now).2
  | step_rollback e id target now : engine_step e (request_rollback e id target now).2.

(** What holds of every engine the daemon can reach. *)
Record engine_ok (e : ImprovementEngine) : Prop := {
  ok_key id c : cases e !! id = Some c → k_case_id c = id;
  ok_one_active id1 id2 c1 c2 :
    cases e !! id1 = Some c1 → cases e !! id2 = Some c2 →
    case_active c1 = true → case_active c2 = true →
    k_component c1 = k_component c2 → id1 = id2;
  ok_gate id c : cases e !! id = Some c → k_state c = Canary ∨ k_state c = Promoted →
    ∃ cand r, k_candidate_id c = Some cand ∧ candidates e !! cand = Some r ∧
      d_case_id r = id ∧ d_fixture_gate_passed r = true ∧ d_fixture_hard_failure r = false ∧
      d_rollback_config_version r = k_parent_config_version c;
  ok_versions cand r : candidates e !! cand = Some r →
    d_candidate_config_version r ≤ next_config_version e;
  ok_fresh cand1 cand2 r1 r2 :
    candidates e !! cand1 = Some r1 → candidates e !! cand2 = Some r2 →
    d_candidate_config_version r1 = d_candidate_config_version r2 →
    cand1 = cand2 ∨ next_config_version e = i64_max;
  ok_next : 1 ≤ next_config_version e ≤ i64_max;
}.

(** The states a case can be in after being in [from]. *)
Definition case_reaches (from to : ImprovementState) : bool :=
  match from, to with
  | Observing, _ => true
  | Canary, (Canary | Promoted | RolledBack | Frozen) => true
  | Promoted, (Promoted | RolledBack | Frozen) => true
  | RolledBack, RolledBack => true
  | Frozen, Frozen => true
  | _, _ => false
  end.

Definition same_identity (c c' : CaseRecord) : Prop :=
  k_component c' = k_component c ∧ k_cohort c' = k_cohort c ∧ k_signature c' = k_signature c ∧
  k_parent_config_version c' = k_parent_config_version c.

(** The key of a case is the digest of what it was opened for. *)
Definition case_named (id : string) (c : CaseRecord) : Prop :=
  (∃ task, id = deterministic_case_id (k_component c) (co_adapter_instance_id (k_cohort c))
     (co_adapter_version (k_cohort c)) (co_config_version (k_cohort c)) (co_config_digest (k_cohort c))
     (k_signature c) task) ∧
  0 ≤ co_config_version (k_cohort c) ≤ i64_max ∧ k_parent_config_version c = co_config_version (k_cohort c).

(** Nothing the engine has recorded is rewritten: observations, candidates and assignments stay,
    and a case keeps its identity while its state follows the state machine.  Every step does
    this, but for one that opens a closed case again. *)
Record engine_evolves (e e' : ImprovementEngine) : Prop := {
  ev_observations : observations e ⊆ observations e';
  ev_recorded k o : observations e' !! k = Some o →
    observations e !! k = Some o ∨ co_config_version (o_cohort o) ≤ i64_max;
  ev_candidates : candidates e ⊆ candidates e';
  ev_assignments : assignments e ⊆ assignments e';
  ev_cases id c : cases e !! id = Some c →
    ∃ c', cases e' !! id = Some c' ∧ k_component c' = k_component c ∧
      k_cohort c' = k_cohort c ∧ k_signature c' = k_signature c ∧
      k_parent_config_version c' = k_parent_config_version c ∧
      case_reaches (k_state c) (k_state c') = true;
  ev_opened id c' : cases e' !! id = Some c' → is_Some (cases e !! id) ∨ case_named id c';
  ev_next : next_config_version e ≤ next_config_version e';
}.

(** The steps from the first engine to the second open a case of this key that was closed. *)
Definition reopened (e : ImprovementEngine) (id : string) (e' : ImprovementEngine) : Prop :=
  ∃ e1 c1 input now, rtc engine_step e e1 ∧ cases (expire now e1) !! id = Some c1 ∧
    k_state c1 ∈ [Promoted; RolledBack] ∧ (open_eligible_case e1 input now).1 = Some id ∧
    rtc engine_step (open_eligible_case e1 input now).2 e'.

(** The text a case key is computed from, when the case is opened for a task. *)
Definition case_text (c : CaseRecord) (task : string) : string :=
  json_to_string (json_object
    [("adapter_instance_id", VString (co_adapter_instance_id (k_cohort c)));
     ("adapter_version", VString (co_adapter_version (k_cohort c)));
     ("component", VString (k_component c));
     ("config_version", VNumber (NInt (co_config_version (k_cohort c))));
     ("config_digest", VString (co_config_digest (k_cohort c)));
     ("signature", VString (k_signature c));
     ("trigger_task_id", VString task)]).

(** The key is the one of two different texts: their digests agree on the 128 bits it keeps. *)
Definition texts_collide (id : string) (c d : CaseRecord) : Prop :=
  ∃ t u, case_text c t ≠ case_text d u ∧
    id = "imp-" +:+ String.substring 0 32 (sha256_hex (case_text c t)) ∧
    id = "imp-" +:+ String.substring 0 32 (sha256_hex (case_text d u)).

(** Along the steps two cases were recorded under one key although their texts differ. *)
Definition key_collision (e e' : ImprovementEngine) : Prop :=
  ∃ e1 e2 id c d, rtc engine_step e e1 ∧ rtc engine_step e1 e2 ∧ rtc engine_step e2 e' ∧
    cases e1 !! id = Some c ∧ cases e2 !! id = Some d ∧ texts_collide id c d.

(** ** Lemmas: expiry *)

Lemma btree_values_elem {A} (m : gmap string A) x : x ∈ btree_values m ↔ ∃ k, m !! k = Some x.
Proof.
  unfold btree_values. rewrite list_elem_of_fmap. split.
  - intros ([k a] & -> & Hin). rewrite sort_by_perm in Hin.
    exists k. by apply elem_of_map_to_list in Hin.
  - intros [k Hk]. exists (k, x). split; [done|]. rewrite sort_by_perm.
    by apply elem_of_map_to_list.
Qed.

Lemma expire_fold now l e :
  let e' := List.fold_left (expire_one now) l e in
  (∀ id, cases e' !! id = (λ c, if decide (id ∈ l.*1) then c <| k_state := RolledBack |> else c)
                          <$> cases e !! id) ∧
  policy e' = policy e ∧ observations e' = observations e ∧ candidates e' = candidates e ∧
  assignments e' = assignments e ∧ rollback_counts e' = rollback_counts e ∧
  active_config_versions e' = active_config_versions e ∧
  next_config_version e' = next_config_version e.
Proof.
  revert e. induction l as [|[i comp] l IH]; intros e; simpl.
  { split_and!; try done. intros id. by destruct (cases e !! id). }
  destruct (IH (expire_one now e (i, comp))) as (Hc & Hrest). split; [|exact Hrest].
  intros id. rewrite Hc. unfold expire_one. simpl.
  destruct (decide (i = id)) as [->|Hne].
  - rewrite lookup_alter_eq. destruct (cases e !! id); simpl; [|done].
    f_equal. repeat case_decide; done || set_solver.
  - rewrite lookup_alter_ne by done. destruct (cases e !! id); simpl; [|done].
    f_equal. repeat case_decide; done || set_solver.
Qed.

Lemma expire_cases now e id :
  engine_ok e →
  cases (expire now e) !! id =
    (λ c, if case_expired now c then c <| k_state := RolledBack |> else c) <$> cases e !! id.
Proof.
  intros Hok. unfold expire.
  set (l := map _ _). destruct (expire_fold now l e) as [-> _].
  destruct (cases e !! id) as [c|] eqn:Hc; [|done]. simpl.
  assert (id ∈ l.*1 ↔ case_expired now c = true) as Hl.
  { subst l. rewrite list_elem_of_fmap. split.
    - intros ([i comp] & -> & Hin). apply list_elem_of_fmap in Hin as (c' & [= -> ->] & Hin).
      apply list_elem_of_In, filter_In in Hin as [Hin He].
      apply list_elem_of_In, btree_values_elem in Hin as [k Hk]. simpl in Hc.
      rewrite (ok_key _ Hok _ _ Hk) in Hc. congruence.
    - intros He. exists (k_case_id c, k_component c). simpl.
      split; [by rewrite (ok_key _ Hok _ _ Hc)|]. apply list_elem_of_fmap. exists c. split; [done|].
      apply list_elem_of_In, filter_In. split; [|done].
      apply list_elem_of_In, btree_values_elem. eauto. }
  destruct (case_expired now c) eqn:He; case_decide; done || naive_solver.
Qed.

Lemma expire_fields now e :
  let e' := expire now e in
  policy e' = policy e ∧ observations e' = observations e ∧ candidates e' = candidates e ∧
  assignments e' = assignments e ∧ rollback_counts e' = rollback_counts e ∧
  active_config_versions e' = active_config_versions e ∧
  next_config_version e' = next_config_version e.
Proof. unfold expire. apply expire_fold. Qed.

(** ** Lemmas: append-only evolution *)

Lemma case_reaches_refl x : case_reaches x x = true.
Proof. by destruct x. Qed.

Lemma case_reaches_trans x y z :
  case_reaches x y = true → case_reaches y z = true → case_reaches x z = true.
Proof. by destruct x, y, z. Qed.

Lemma case_named_same id c c' : same_identity c c' → case_named id c → case_named id c'.
Proof. unfold case_named. by intros (-> & -> & -> & ->). Qed.

#[export] Instance engine_evolves_preorder : PreOrder engine_evolves.
Proof.
  split.
  - intros e. split; try done; try by eauto. intros id c Hc. exists c. split_and!; try done. apply case_reaches_refl.
  - intros e1 e2 e3 [] []. split; [by etrans| |by etrans|by etrans| | |lia].
    + intros k o [Ho|?]%ev_recorded1; [by apply ev_recorded0|by right].
    + intros id c Hc. destruct (ev_cases0 id c Hc) as (c2 & Hc2 & H2).
      destruct (ev_cases1 id c2 Hc2) as (c3 & Hc3 & H3). exists c3.
      destruct_and! H2. destruct_and! H3. split_and!; try congruence.
      by eapply case_reaches_trans.
    + intros id c3 Hc3. destruct (ev_opened1 _ _ Hc3) as [[c2 Hc2]|?]; [|by right].
      destruct (ev_opened0 _ _ Hc2) as [?|Hn]; [by left|]. right.
      destruct (ev_cases1 _ _ Hc2) as (c3' & Hc3' & ? & ? & ? & ? & _). simplify_eq.
      by eapply case_named_same.
Qed.

(** Two cases that differ only in what a transition may change. *)
Definition same_case (c c' : CaseRecord) : Prop :=
  k_component c' = k_component c ∧ k_cohort c' = k_cohort c ∧ k_signature c' = k_signature c ∧
  k_parent_config_version c' = k_parent_config_version c ∧
  case_reaches (k_state c) (k_state c') = true.

(** The engine after one case was changed to [c'], the rest of the ledger kept. *)
Lemma evolves_update e e' id c' :
  observations e' = observations e → candidates e ⊆ candidates e' →
  assignments e ⊆ assignments e' → next_config_version e ≤ next_config_version e' →
  is_Some (cases e !! id) →
  (∀ c, cases e !! id = Some c → same_case c c') → cases e' = <[id := c']> (cases e) →
  engine_evolves e e'.
Proof.
  intros Ho Hd Ha Hn Hid Hc Heq. split; rewrite ?Ho; try done; [by left|..].
  - intros id' c Hc'. rewrite Heq. destruct (decide (id = id')) as [<-|Hne].
    + rewrite lookup_insert_eq. exists c'. split; [done|]. by apply Hc.
    + rewrite lookup_insert_ne by done. exists c. split_and!; try done. apply case_reaches_refl.
  - intros id' c. rewrite Heq, lookup_insert_Some. intros [[<- _]|[_ H]]; left; by eauto.
Qed.

Lemma expire_evolves now e : engine_ok e → engine_evolves e (expire now e).
Proof.
  intros Hok. destruct (expire_fields now e) as (? & Ho & Hd & Ha & ? & ? & Hn).
  split; rewrite ?Ho, ?Hd, ?Ha, ?Hn; try done; [by left|..].
  - intros id c Hc. rewrite (expire_cases _ _ _ Hok), Hc. simpl. eexists. split; [done|].
    destruct (case_expired now c) eqn:He; [|split_and!; try done; apply case_reaches_refl].
    split_and!; try done. unfold case_expired, case_active in He.
    by destruct (k_state c).
  - intros id c. rewrite (expire_cases _ _ _ Hok), fmap_Some. intros (c0 & Hc0 & _). left. by eauto.
Qed.

Lemma case_expired_state now c :
  case_active (if case_expired now c then c <| k_state := RolledBack |> else c) = true →
  case_active c = true ∧ case_expired now c = false.
Proof. destruct (case_expired now c) eqn:He; [done|]. done. Qed.

Lemma expire_ok now e : engine_ok e → engine_ok (expire now e).
Proof.
  intros Hok. destruct (expire_fields now e) as (_ & Ho & Hd & Ha & _ & _ & Hn).
  split; rewrite ?Hd, ?Hn; try apply Hok.
  - intros id c. rewrite (expire_cases _ _ _ Hok), fmap_Some. intros (c0 & Hc & ->).
    apply (ok_key _ Hok) in Hc. by destruct (case_expired now c0).
  - intros id1 id2 c1 c2. rewrite !(expire_cases _ _ _ Hok), !fmap_Some.
    intros (d1 & Hd1 & ->) (d2 & Hd2 & ->) [H1 E1]%case_expired_state [H2 E2]%case_expired_state.
    rewrite E1, E2. by apply (ok_one_active _ Hok id1 id2 d1 d2).
  - intros id c. rewrite (expire_cases _ _ _ Hok), fmap_Some. intros (c0 & Hc & ->).
    destruct (case_expired now c0); [intros [[=]|[=]]|]. by apply (ok_gate _ Hok).
Qed.

(** A change of one case that neither activates it nor moves it behind the gate. *)
Lemma ok_close e e' id c c' :
  engine_ok e → cases e !! id = Some c → cases e' = <[id := c']> (cases e) →
  candidates e' = candidates e → next_config_version e' = next_config_version e →
  k_case_id c' = k_case_id c → case_active c' = false →
  (k_state c' = Promoted → k_state c = Canary ∧ k_candidate_id c' = k_candidate_id c ∧
     k_parent_config_version c' = k_parent_config_version c) →
  engine_ok e'.
Proof.
  intros Hok Hc Heq Hd Hn Hid Hact Hprom.
  split; rewrite ?Hd, ?Hn, ?Heq; try apply Hok.
  - intros id' d. rewrite lookup_insert_Some. intros [[<- <-]|[_ H]]; [|by apply (ok_key _ Hok)].
    rewrite Hid. by apply (ok_key _ Hok).
  - intros id1 id2 c1 c2. rewrite !lookup_insert_Some.
    intros [[<- <-]|[_ H1]] [[<- <-]|[_ H2]]; try congruence. by apply (ok_one_active _ Hok).
  - intros id' d. rewrite lookup_insert_Some. intros [[<- <-]|[_ H]]; [|by apply (ok_gate _ Hok)].
    intros [Hs|Hs]; [unfold case_active in Hact; by rewrite Hs in Hact|].
    destruct (Hprom Hs) as (Hcan & -> & ->). apply (ok_gate _ Hok); [done|by left].
Qed.

Definition preserved (e e' : ImprovementEngine) : Prop := engine_ok e' ∧ engine_evolves e e'.

Lemma preserved_expire now e e' : engine_ok e → preserved (expire now e) e' → preserved e e'.
Proof. intros Hok [? ?]. split; [done|]. etrans; [by apply expire_evolves|done]. Qed.

Lemma preserved_refl e : engine_ok e → preserved e e.
Proof. by split. Qed.

Lemma alter_insert_Some {A} (f : A → A) (m : gmap string A) i x :
  m !! i = Some x → alter f i m = <[i := f x]> m.
Proof.
  intros Hx. apply map_eq. intros j. destruct (decide (i = j)) as [<-|].
  - by rewrite lookup_alter_eq, lookup_insert_eq, Hx.
  - by rewrite lookup_alter_ne, lookup_insert_ne.
Qed.

(** Changes outside the cases. *)
Lemma preserved_no_case e e' :
  engine_ok e → cases e' = cases e → candidates e' = candidates e →
  observations e ⊆ observations e' →
  (∀ k o, observations e' !! k = Some o →
     observations e !! k = Some o ∨ co_config_version (o_cohort o) ≤ i64_max) →
  assignments e ⊆ assignments e' →
  next_config_version e ≤ next_config_version e' ≤ i64_max → preserved e e'.
Proof.
  intros Hok Hc Hd Ho Hrec Ha Hn. split.
  - split; rewrite ?Hc, ?Hd; try apply Hok.
    + intros cand r H. apply (ok_versions _ Hok) in H. lia.
    + intros cand1 cand2 r1 r2 H1 H2 Heq.
      destruct (ok_fresh _ Hok _ _ _ _ H1 H2 Heq); [by left|right; lia].
    + pose proof (ok_next _ Hok). lia.
  - split; rewrite ?Hd, ?Hc; try done; [| |lia].
    + intros id c H. exists c. split_and!; try done. apply case_reaches_refl.
    + intros id c H. left. by eauto.
Qed.

Lemma observe_preserved e input :
  engine_ok e → co_config_version (o_cohort input) ≤ i64_max → preserved e (observe e input).2.
Proof.
  intros Hok Hv. unfold observe.
  destruct (enabled _); simpl; [|by apply preserved_refl].
  destruct (validate_observation input); simpl; [|by apply preserved_refl].
  apply (preserved_expire (o_reviewed_at_us input)); [done|].
  set (e1 := expire _ e). assert (engine_ok e1) as Hok1 by by apply expire_ok.
  pose proof (ok_next _ Hok1). unfold record_observation.
  destruct (observations e1 !! o_task_id input) eqn:Hobs.
  { case_bool_decide; by apply preserved_refl. }
  destruct (assignment_ok e1 input); [|by apply preserved_refl].
  apply preserved_no_case; simpl; try done; try lia; [by apply insert_subseteq|].
  intros k o. rewrite lookup_insert_Some. intros [[_ <-]|[_ ?]]; [by right|by left].
Qed.

Lemma assign_preserved e id admission : engine_ok e → preserved e (assign_canary e id admission).2.
Proof.
  intros Hok. pose proof (ok_next _ Hok). unfold assign_canary.
  repeat (case_match; try (by apply preserved_refl));
    apply preserved_no_case; simpl; try done; try lia; try (by left); by apply insert_subseteq.
Qed.

Lemma rollback_preserved e id case now :
  engine_ok e → cases e !! id = Some case → k_state case = Canary ∨ k_state case = Promoted →
  preserved e (rollback_case e case now).2.
Proof.
  intros Hok Hc Hs. pose proof (ok_key _ Hok _ _ Hc) as Hid. unfold rollback_case. simpl.
  match goal with |- preserved e ?e' => set (e2 := e') end.
  assert (∃ c', cases e2 = <[id := c']> (cases e) ∧ same_case case c' ∧
            k_case_id c' = k_case_id case ∧ (k_state c' = Frozen ∨ k_state c' = RolledBack))
    as (c' & Heq & Hsame & Hid' & Hst).
  { eexists. split; [simpl; rewrite Hid; by apply alter_insert_Some|]. simpl.
    split_and!; try done; case_match; try (by left); try (by right);
      unfold same_case; simpl; split_and!; try done; by destruct Hs as [-> | ->]. }
  split.
  - apply (ok_close e e2 id case c'); try done.
    + unfold case_active. by destruct Hst as [-> | ->].
    + destruct Hst as [-> | ->]; intros [=].
  - apply (evolves_update e e2 id c'); try done; try (by eauto). intros c Hc'. by simplify_eq.
Qed.

Lemma evaluate_canary_preserved e id case now :
  engine_ok e → cases e !! id = Some case → k_state case = Canary →
  preserved e (evaluate_canary e case now).2.
Proof.
  intros Hok Hc Hs. unfold evaluate_canary. pose proof (ok_key _ Hok _ _ Hc) as Hid.
  destruct (k_candidate_id case); [|by apply preserved_refl].
  destruct (arms_of e (k_case_id case)) as [cand ctl].
  repeat (case_match; try (by apply preserved_refl); try (by eapply rollback_preserved; eauto)).
  simpl. match goal with |- preserved e ?e' => set (e2 := e') end.
  assert (cases e2 = <[id := case <| k_state := Promoted |>]> (cases e)) as Heq.
  { simpl. rewrite Hid. by apply alter_insert_Some. }
  split.
  - by apply (ok_close e e2 id case (case <| k_state := Promoted |>)).
  - apply (evolves_update e e2 id (case <| k_state := Promoted |>)); try done; try (by eauto).
    intros c Hc'. simplify_eq. unfold same_case. simpl. by rewrite Hs.
Qed.

Lemma evaluate_preserved e id now : engine_ok e → preserved e (evaluate e id now).2.
Proof.
  intros Hok. unfold evaluate. destruct (enabled _); simpl; [|by apply preserved_refl].
  apply (preserved_expire now); [done|]. assert (engine_ok (expire now e)) by by apply expire_ok.
  destruct (cases (expire now e) !! id) as [case|] eqn:Hc; [|by apply preserved_refl].
  destruct (k_state case) eqn:Hs; try (by apply preserved_refl).
  by eapply evaluate_canary_preserved.
Qed.

Lemma request_rollback_preserved e id target now :
  engine_ok e → preserved e (request_rollback e id target now).2.
Proof.
  intros Hok. unfold request_rollback. destruct (enabled _); simpl; [|by apply preserved_refl].
  apply (preserved_expire now); [done|]. assert (engine_ok (expire now e)) by by apply expire_ok.
  destruct (cases (expire now e) !! id) as [case|] eqn:Hc; [|by apply preserved_refl].
  destruct (negb _); [by apply preserved_refl|].
  destruct (k_state case) eqn:Hs; try (by apply preserved_refl);
    eapply rollback_preserved; eauto.
Qed.

Lemma existsb_values_false {A} (f : A → bool) (m : gmap string A) k x :
  existsb f (btree_values m) = false → m !! k = Some x → f x = false.
Proof.
  intros Hf Hk. apply not_true_iff_false. intros Hx. apply not_true_iff_false in Hf.
  apply Hf, existsb_exists. exists x. split; [|done].
  apply list_elem_of_In, btree_values_elem. eauto.
Qed.

Lemma find_values_None {A} (f : A → bool) (m : gmap string A) k x :
  List.find f (btree_values m) = None → m !! k = Some x → f x = false.
Proof.
  intros Hf Hk. eapply List.find_none; [exact Hf|].
  apply list_elem_of_In, btree_values_elem. eauto.
Qed.

(** An eligible observation finds no frozen and no active case of its component. *)
Lemma eligible_inv e input id a b :
  eligibility_for e input = OEligible id a b →
  ∀ id' c, cases e !! id' = Some c → k_component c = o_component input →
    case_active c = false ∧ k_state c ≠ Frozen.
Proof.
  unfold eligibility_for. intros H id' c Hc Hcomp.
  destruct (signature_key input); [|done].
  destruct (existsb _ _) eqn:Hfrozen; [done|].
  destruct (List.find _ _) eqn:Hactive; [done|].
  apply (existsb_values_false _ _ _ _ Hfrozen) in Hc as Hf.
  apply (find_values_None _ _ _ _ Hactive) in Hc as Ha.
  simpl in Hf, Ha. rewrite Hcomp, String.eqb_refl in Hf, Ha. simpl in Hf, Ha.
  split; [done|]. by apply bool_decide_eq_false in Hf.
Qed.

Lemma open_ok e input now : engine_ok e → engine_ok (open_eligible_case e input now).2.
Proof.
  intros Hok. unfold open_eligible_case. destruct (_ || _); [done|].
  assert (engine_ok (expire now e)) as Hok1 by by apply expire_ok.
  destruct (eligibility_for _ input) as [| | | |id a b| | |] eqn:Hel; try done.
  destruct (signature_key input) as [sig|]; [|done]. simpl.
  pose proof (eligible_inv _ _ _ _ _ Hel) as Hnone.
  split; simpl; try apply Hok1.
  - intros id' c. rewrite lookup_insert_Some. intros [[<- <-]|[_ H]]; [done|].
    by apply (ok_key _ Hok1).
  - intros id1 id2 c1 c2. rewrite !lookup_insert_Some.
    intros [[<- <-]|[Hne1 H1]] [[<- <-]|[Hne2 H2]] Ha1 Ha2 Heq; simpl in *; [done|..].
    + destruct (Hnone _ _ H2); congruence.
    + destruct (Hnone _ _ H1); congruence.
    + by apply (ok_one_active _ Hok1 id1 id2 c1 c2).
  - intros id' c. rewrite lookup_insert_Some.
    intros [[<- <-]|[_ H]]; [simpl; intros [[=]|[=]]|]. by apply (ok_gate _ Hok1).
Qed.

(** What an opening does: nothing but the expiry, or a new record under the key of its trigger. *)
Lemma open_cases e input now :
  let e1 := expire now e in
  (∀ k o, observations e !! k = Some o → co_config_version (o_cohort o) ≤ i64_max) →
  (open_eligible_case e input now).2 = e ∨ (open_eligible_case e input now).2 = e1 ∨
  ∃ id c, (open_eligible_case e input now).1 = Some id ∧ case_named id c ∧
    k_component c = o_component input ∧
    (∀ id' c', cases e1 !! id' = Some c' → k_component c' = o_component input →
       case_active c' = false ∧ k_state c' ≠ Frozen) ∧
    let e2 := (open_eligible_case e input now).2 in
    observations e2 = observations e1 ∧ candidates e2 = candidates e1 ∧ assignments e2 = assignments e1 ∧
    next_config_version e2 = next_config_version e1 ∧ cases e2 = <[id := c]> (cases e1).
Proof.
  intros e1 Hrange. unfold open_eligible_case. destruct (_ || _) eqn:Hvalid; [by left|]. right. fold e1.
  destruct (eligibility_for e1 input) as [| | | |id a b| | |] eqn:Hel; try by left.
  destruct (signature_key input) as [sig|] eqn:Hsig; [|by left]. right. simpl.
  eexists id, _. split; [done|]. split; [|split; [|split; [by eapply eligible_inv|split_and!; done]]]; [|done].
  unfold eligibility_for in Hel. rewrite Hsig in Hel. repeat (case_match; try discriminate Hel).
  injection Hel as Hid _ _. unfold case_named. simpl. split; [by exists (o_task_id input)|]. split; [|done].
  split_bools. unfold validate_observation, validate_cohort in *. split_bools. split; [done|].
  rename select (ELIGIBILITY_OCCURRENCES ≤ _) into Hcount. unfold comparable_observations in Hcount.
  unfold ELIGIBILITY_OCCURRENCES in Hcount.
  destruct (filter _ (take _ _)) as [|o os] eqn:Hf in Hcount; [simpl in Hcount; lia|].
  assert (o ∈ o :: os) as Hin by by left. rewrite <-Hf in Hin.
  apply list_elem_of_filter in Hin as [_ (i & Hin & _)%elem_of_take]. apply list_elem_of_lookup_2 in Hin.
  rewrite sort_by_perm in Hin. apply list_elem_of_filter in Hin as [[_ Hco] [k Hk]%btree_values_elem].
  rewrite <-Hco. destruct (expire_fields now e) as (_ & Ho & _). unfold e1 in Hk. rewrite Ho in Hk. by eapply Hrange.
Qed.

Lemma propose_preserved e proposal now : engine_ok e → preserved e (propose_candidate e proposal now).2.
Proof.
  intros Hok. unfold propose_candidate. destruct (enabled _); simpl; [|by apply preserved_refl].
  destruct (cases e !! pr_case_id proposal) as [case|] eqn:Hc; [|by apply preserved_refl].
  destruct (negb _ || _) eqn:Hobs; [by apply preserved_refl|]. split_bools.
  rename select (k_state case = Observing) into Hs.
  destruct (validate_proposal _ _) as [[gate hard]|] eqn:Hv; [|by apply preserved_refl].
  set (cand := candidate_id_of proposal).
  destruct (candidates e !! cand) eqn:Hd; [by apply preserved_refl|].
  set (record := mkCandidate _ _ _ _ _ _ _ _ _ _ _).
  set (version := i64_saturating_add _ 1) in *.
  pose proof (ok_next _ Hok) as Hnext.
  assert (next_config_version e ≤ version ≤ i64_max ∧
          (version = i64_max ∨ version = next_config_version e + 1)) as [Hver Hver'].
  { unfold version, i64_saturating_add, i64_saturate. unfold i64_max, i64_min in *. lia. }
  set (e1 := e <| next_config_version := version |> <| candidates ::= <[cand := record]> |>).
  assert (preserved e e1) as [Hok1 Hev1].
  { split; [split; simpl; try apply Hok|].
    - intros id c H1 H2. destruct (ok_gate _ Hok _ _ H1 H2) as (k & r & ? & Hk & ?).
      exists k, r. split; [done|]. split; [|done]. rewrite lookup_insert_ne; [done|]. congruence.
    - intros k r. rewrite lookup_insert_Some. intros [[<- <-]|[_ H]]; [simpl; lia|].
      apply (ok_versions _ Hok) in H. lia.
    - intros k1 k2 r1 r2. rewrite !lookup_insert_Some.
      intros [[<- <-]|[_ H1]] [[<- <-]|[_ H2]] Heq; simpl in Heq; [by left|..].
      + apply (ok_versions _ Hok) in H2. right. lia.
      + apply (ok_versions _ Hok) in H1. right. lia.
      + destruct (ok_fresh _ Hok _ _ _ _ H1 H2 Heq); [by left|right; lia].
    - lia.
    - split; simpl; try done; [by left|by apply insert_subseteq| |by eauto|lia].
      intros id c H. exists c. split_and!; try done. apply case_reaches_refl. }
  assert (cases e1 !! pr_case_id proposal = Some case) as Hc1 by done.
  split; [|etrans; [exact Hev1|]].
  - destruct gate eqn:Hgate; simpl.
    + split; simpl; try apply Hok1.
      * intros id c. rewrite lookup_insert_Some. intros [[<- <-]|[_ H]]; [|by apply (ok_key _ Hok)].
        simpl. by apply (ok_key _ Hok).
      * intros id1 id2 c1 c2. rewrite !lookup_insert_Some.
        assert (case_active case = true) as Hact by (unfold case_active; by rewrite Hs).
        intros [[<- <-]|[Hn1 H1]] [[<- <-]|[Hn2 H2]] Ha1 Ha2 Heq; simpl in *; [done|..].
        -- by apply (ok_one_active _ Hok _ _ case c2).
        -- by apply (ok_one_active _ Hok _ _ c1 case).
        -- by apply (ok_one_active _ Hok _ _ c1 c2).
      * intros id c. rewrite lookup_insert_Some.
        intros [[<- <-]|[_ H]]; [|by apply (ok_gate _ Hok1)]. intros _. simpl.
        exists cand, record. rewrite lookup_insert_eq. simpl. split_and!; try done.
        unfold validate_proposal in Hv. repeat (case_match; try discriminate).
        apply bind_Some in Hv as (v & _ & Hv). repeat (case_match; try discriminate).
        injection Hv as Hg <-. destruct (existsb _ _); [|done]. by rewrite andb_false_r in Hg.
    + by eapply (ok_close e1 _ (pr_case_id proposal) case).
  - destruct gate; simpl; eapply evolves_update; try done; try (by eauto); intros c Hc'; simplify_eq;
      unfold same_case; simpl; by rewrite Hs.
Qed.

Lemma step_ok e e' : engine_ok e → engine_step e e' → engine_ok e'.
Proof.
  intros Hok Hs. revert Hok. destruct Hs; intros Hok; [split; apply Hok|by apply observe_preserved|by apply open_ok
    |by apply propose_preserved|by apply assign_preserved|by apply evaluate_preserved
    |by apply request_rollback_preserved].
Qed.

Lemma new_engine_ok policy : engine_ok (new_engine policy).
Proof. split; simpl; try (intros *; by rewrite lookup_empty). done. Qed.

Lemma steps_ok e e' : engine_ok e → rtc engine_step e e' → engine_ok e'.
Proof. intros Hok H. induction H; [done|]. eauto using step_ok. Qed.

Lemma reachable_ok policy e : rtc engine_step (new_engine policy) e → engine_ok e.
Proof. apply steps_ok, new_engine_ok. Qed.

(** The names of the cases and the range of the recorded versions. *)
Record engine_named (e : ImprovementEngine) : Prop := {
  en_recorded k o : observations e !! k = Some o → co_config_version (o_cohort o) ≤ i64_max;
  en_cases id c : cases e !! id = Some c → case_named id c;
}.

Lemma evolves_named e e' : engine_evolves e e' → engine_named e → engine_named e'.
Proof.
  intros [] [Hrec Hcases]. split.
  - intros k o [Ho|?]%ev_recorded0; [by eapply Hrec|done].
  - intros id c' Hc'. destruct (ev_opened0 _ _ Hc') as [[c Hc]|?]; [|done].
    destruct (ev_cases0 _ _ Hc) as (c2 & Hc2 & ? & ? & ? & ? & _). simplify_eq.
    eapply case_named_same; [|by apply Hcases]. done.
Qed.

(** A step evolves the engine, or records a case anew under its key. *)
Definition reopens (e : ImprovementEngine) (id : string) (e' : ImprovementEngine) : Prop :=
  ∃ c input now, e' = (open_eligible_case e input now).2 ∧ (open_eligible_case e input now).1 = Some id ∧
    case_named id c ∧ k_component c = o_component input ∧ engine_evolves e (expire now e) ∧
    (∀ id' c', cases (expire now e) !! id' = Some c' → k_component c' = o_component input →
       case_active c' = false ∧ k_state c' ≠ Frozen) ∧
    observations e' = observations (expire now e) ∧ candidates e' = candidates (expire now e) ∧
    assignments e' = assignments (expire now e) ∧ next_config_version e' = next_config_version (expire now e) ∧
    cases e' = <[id := c]> (cases (expire now e)).

Lemma set_enabled_evolves b e : engine_evolves e (set_enabled b e).
Proof.
  split; simpl; try done; [by left| |by eauto].
  intros id c Hc. exists c. split_and!; try done. apply case_reaches_refl.
Qed.

Lemma step_cases e e' :
  engine_ok e → engine_named e → engine_step e e' → engine_evolves e e' ∨ ∃ id, reopens e id e'.
Proof.
  intros Hok Hnamed Hs. revert Hok Hnamed. destruct Hs; intros Hok Hnamed;
    [left; apply set_enabled_evolves|left; by apply observe_preserved| |left; by apply propose_preserved
    |left; by apply assign_preserved|left; by apply evaluate_preserved|left; by apply request_rollback_preserved].
  pose proof (expire_evolves now e Hok) as Hexp.
  destruct (open_cases e input now (en_recorded _ Hnamed)) as [-> |[-> |(id & c & H1 & H2 & H3 & H4 & H5)]];
    [by left|by left|]. right. exists id, c, input, now. done.
Qed.

Lemma reopens_named e id e' : engine_named e → reopens e id e' → engine_named e'.
Proof.
  intros Hn (c & input & now & _ & _ & Hc & _ & Hexp & _ & Ho & _ & _ & _ & Hcases).
  apply (evolves_named _ _ Hexp) in Hn as [Hrec Hold]. split; [rewrite Ho; apply Hrec|].
  intros id' c'. rewrite Hcases, lookup_insert_Some. intros [[<- <-]|[_ ?]]; [done|by apply Hold].
Qed.

Lemma step_named e e' : engine_ok e → engine_named e → engine_step e e' → engine_named e'.
Proof.
  intros Hok Hn Hs. destruct (step_cases _ _ Hok Hn Hs) as [?|[id ?]]; [by eapply evolves_named|by eapply reopens_named].
Qed.

Lemma reachable_named policy e : rtc engine_step (new_engine policy) e → engine_named e.
Proof.
  intros H. assert (engine_named (new_engine policy)) as Hn by (split; intros *; simpl; by rewrite lookup_empty).
  pose proof (new_engine_ok policy) as Hok. induction H; [done|]. eauto using step_ok, step_named.
Qed.

(** What every step keeps. *)
Lemma step_grows e e' :
  engine_ok e → engine_named e → engine_step e e' →
  observations e ⊆ observations e' ∧ candidates e ⊆ candidates e' ∧ assignments e ⊆ assignments e' ∧
  next_config_version e ≤ next_config_version e'.
Proof.
  intros Hok Hn Hs. destruct (step_cases _ _ Hok Hn Hs) as [[]|(id & c & i & now & _ & _ & _ & _ & [] & _ & -> & -> & -> & -> & _)];
    done.
Qed.

Lemma steps_grow e e' :
  engine_ok e → engine_named e → rtc engine_step e e' →
  observations e ⊆ observations e' ∧ candidates e ⊆ candidates e' ∧ assignments e ⊆ assignments e' ∧
  next_config_version e ≤ next_config_version e'.
Proof.
  intros Hok Hn H. induction H as [e|e e1 e' Hs _ IH]; [done|].
  destruct (step_grows _ _ Hok Hn Hs) as (? & ? & ? & ?).
  destruct IH as (? & ? & ? & ?); [by eapply step_ok|by eapply step_named|]. split_and!; [by etrans..|lia].
Qed.

(** Equal keys belong to equal identities. *)
Lemma substring_prefix_cancel (p x y : string) : p +:+ x = p +:+ y → x = y.
Proof. induction p as [|a p IH]; [done|]. intros [= H]. by apply IH. Qed.

Lemma case_named_inj `{!ExternalsOk E} id c d :
  case_named id c → case_named id d → texts_collide id c d ∨ same_identity c d.
Proof.
  intros [[t Ht] [Hc Hpc]] [[u Hu] [Hd Hpd]].
  destruct (decide (case_text c t = case_text d u)) as [Hs|Hne]; [|left; by exists t, u].
  unfold case_text in Hs.
  right. apply (f_equal json_from_str) in Hs.
  rewrite !json_from_to in Hs; [|unfold json_readable; apply andb_true_iff; split; [|done]; simpl;
    rewrite !andb_true_r; apply andb_true_iff; rewrite !Z.leb_le; unfold i64_min, i64_max, u64_max in *; lia..].
  injection Hs. intros. destruct c as [? ? [] ? ? ? ? ? ? ?], d as [? ? [] ? ? ? ? ? ? ?]. unfold same_identity. simpl in *.
  subst. done.
Qed.

Lemma reopened_later e e1 id e' : engine_step e e1 → reopened e1 id e' → reopened e id e'.
Proof.
  intros Hs (e2 & c & input & now & Hrun & H). exists e2, c, input, now. split; [by eapply rtc_l|done].
Qed.

(** What later engines say of a case. *)
Definition case_kept (e e' : ImprovementEngine) : Prop :=
  ∀ id c, cases e !! id = Some c → ∃ c', cases e' !! id = Some c' ∧ same_identity c c' ∧
    (case_reaches (k_state c) (k_state c') = true ∨ (k_state c ≠ Frozen ∧ reopened e id e')).

Lemma case_kept_step e e1 e' id c c1 :
  engine_step e e1 → case_kept e1 e' → cases e1 !! id = Some c1 → same_case c c1 →
  ∃ c', cases e' !! id = Some c' ∧ same_identity c c' ∧
    (case_reaches (k_state c) (k_state c') = true ∨ (k_state c ≠ Frozen ∧ reopened e id e')).
Proof.
  intros Hs Hkept Hc1 (H1 & H2 & H3 & H4 & Hreach). destruct (Hkept _ _ Hc1) as (c' & Hc' & (? & ? & ? & ?) & Hst).
  exists c'. split; [done|]. split; [split_and!; congruence|].
  destruct Hst as [Hst|[Hf Hst]]; [left; by eapply case_reaches_trans|right].
  split; [|by eapply reopened_later]. intros Hfrozen. rewrite Hfrozen in Hreach. by destruct (k_state c1).
Qed.

Lemma evolves_kept e e1 e' : engine_step e e1 → engine_evolves e e1 → case_kept e1 e' → case_kept e e'.
Proof.
  intros Hs [] Hkept id c Hc. destruct (ev_cases0 _ _ Hc) as (c1 & Hc1 & Hsame). by eapply case_kept_step.
Qed.

Lemma reopens_kept `{!ExternalsOk E} e id e1 e' :
  engine_named e → engine_step e e1 → reopens e id e1 → rtc engine_step e1 e' → case_kept e1 e' →
  engine_ok e → key_collision e e' ∨ case_kept e e'.
Proof.
  intros Hn Hs (new & input & now & -> & Hopen & Hnew & Hcomp & Hexp & Hclosed & _ & _ & _ & _ & Hcases) Hrun Hkept Hok.
  pose proof (evolves_named _ _ Hexp Hn) as Hn1. destruct Hexp.
  destruct (cases (expire now e) !! id) as [old|] eqn:Hold.
  2: { right. intros id' c Hc. destruct (ev_cases0 _ _ Hc) as (c1 & Hc1 & Hsame).
       eapply case_kept_step; [done|done| |done]. rewrite Hcases, lookup_insert_ne; [done|congruence]. }
  assert (∃ c0, cases e !! id = Some c0 ∧ same_identity old c0) as (c0 & Hc0 & Ho1 & Ho2 & Ho3 & Ho4).
  { rewrite (expire_cases _ _ _ Hok), fmap_Some in Hold. destruct Hold as (c0 & Hc0 & ->). exists c0.
    split; [done|]. by destruct (case_expired now c0). }
  destruct (case_named_inj id c0 new) as [Hcol|(Hj1 & Hj2 & Hj3 & Hj4)]; [by apply (en_cases _ Hn)|done| |].
  { left. exists e, (open_eligible_case e input now).2, id, c0, new. split; [apply rtc_refl|]. split; [by apply rtc_once|].
    split; [done|]. split; [done|]. by rewrite Hcases, lookup_insert_eq. }
  right. assert (same_identity old new) as (Hi1 & Hi2 & Hi3 & Hi4) by (split_and!; congruence).
  intros id' c Hc. destruct (ev_cases0 _ _ Hc) as (c1 & Hc1 & Hsame).
  destruct (decide (id = id')) as [<-|Hne];
    [|eapply case_kept_step; [done|done| |done]; by rewrite Hcases, lookup_insert_ne].
  assert (c1 = old) as -> by congruence. destruct Hsame as (? & ? & ? & ? & Hreach).
  destruct (Hclosed _ _ Hold) as [Hact Hfrozen]; [congruence|].
  destruct (Hkept id new) as (c' & Hc' & (? & ? & ? & ?) & _); [by rewrite Hcases, lookup_insert_eq|].
  exists c'. split; [done|]. split; [split_and!; congruence|]. right. split.
  - intros Hf. rewrite Hf in Hreach. by destruct (k_state old).
  - exists e, old, input, now. split; [apply rtc_refl|]. split_and!; try done.
    unfold case_active in Hact. destruct (k_state old); try done; set_solver.
Qed.

Lemma steps_kept `{!ExternalsOk E} e e' :
  engine_ok e → engine_named e → rtc engine_step e e' → key_collision e e' ∨ case_kept e e'.
Proof.
  intros Hok Hn H. induction H as [e|e e1 e' Hs Hrun IH].
  { right. intros id c Hc. exists c. split_and!; try done. left. apply case_reaches_refl. }
  destruct IH as [Hcol|Hkept]; [by eapply step_ok|by eapply step_named|left|].
  { destruct Hcol as (e2 & e3 & id & c & d & H1 & Hrest). exists e2, e3, id, c, d. split; [by eapply rtc_l|done]. }
  destruct (step_cases _ _ Hok Hn Hs) as [?|[id ?]]; [right; by eapply evolves_kept|by eapply reopens_kept].
Qed.
End steps.

(** ** Lemmas: replay and promotion *)

Section replay.
Context `{E : Externals}.

Lemma expire_none now e :
  (∀ id c, cases e !! id = Some c → case_expired now c = false) → expire now e = e.
Proof.
  intros Hnone. unfold expire.
  assert (List.filter (case_expired now) (btree_values (cases e)) = []) as ->; [|done].
  destruct (List.filter _ _) as [|c l] eqn:Hl; [done|].
  assert (In c (c :: l)) as Hin by by left. rewrite <-Hl in Hin.
  apply filter_In in Hin as [Hin He]. apply list_elem_of_In, btree_values_elem in Hin as [id Hid].
  apply Hnone in Hid. congruence.
Qed.

Lemma expire_expired now e id c :
  engine_ok e → cases (expire now e) !! id = Some c → case_expired now c = false.
Proof.
  intros Hok. rewrite (expire_cases _ _ _ Hok), fmap_Some. intros (c0 & _ & ->).
  by destruct (case_expired now c0) eqn:He0.
Qed.

Lemma record_observation_cases e input :
  cases (record_observation e input).2 = cases e ∧ policy (record_observation e input).2 = policy e.
Proof. unfold record_observation. repeat case_match; done. Qed.

Lemma record_observation_replay e input :
  record_observation (record_observation e input).2 input = record_observation e input.
Proof.
  unfold record_observation at 2 3.
  destruct (observations e !! o_task_id input) as [existing|] eqn:Hobs.
  { case_bool_decide as Heq; unfold record_observation; simpl; rewrite Hobs;
      [by rewrite bool_decide_true|by rewrite bool_decide_false]. }
  destruct (assignment_ok e input) eqn:Ha; unfold record_observation; simpl.
  - by rewrite lookup_insert_eq, bool_decide_true.
  - by rewrite Hobs, Ha.
Qed.

(** The arms hold exactly the reviewed tasks assigned to the case. *)
Lemma candidate_version_promoted e id cand r c :
  cases e !! id = Some c → k_candidate_id c = Some cand → candidates e !! cand = Some r →
  candidate_config_version (e <| cases ::= alter (λ c, c <| k_state := Promoted |>) id |>) id =
    Some (d_candidate_config_version r).
Proof.
  intros Hc Hcand Hr. unfold candidate_config_version. simpl.
  rewrite lookup_alter_eq, Hc. simpl. rewrite Hcand. simpl. by rewrite Hr.
Qed.

(** The success rate and the mean of an arm. *)
Definition success_rate (a : ArmMetrics) : Q := inject_Z (successes a) / inject_Z (samples a).
Definition mean (sum : Z) (a : ArmMetrics) : Q := inject_Z sum / inject_Z (samples a).

(** What a candidate must show: no safety violation, complete metrics, a success rate
    ten percentage points above the control's, and mean latency and tokens within
    ten percent of the control's. *)
Definition candidate_wins (cand ctl : ArmMetrics) : Prop :=
  safety_violations cand = 0 ∧ missing_metrics cand = false ∧ missing_metrics ctl = false ∧
  (success_rate ctl + (1 # 10) <= success_rate cand)%Q ∧
  (mean (latency_sum cand) cand <= (11 # 10) * mean (latency_sum ctl) ctl)%Q ∧
  (mean (token_sum cand) cand <= (11 # 10) * mean (token_sum ctl) ctl)%Q.

Lemma mean_within (x y n m : Z) :
  0 < n → 0 < m →
  (inject_Z x / inject_Z n <= (11 # 10) * (inject_Z y / inject_Z m))%Q ↔
  10 * x * m ≤ 11 * y * n.
Proof.
  intros Hn Hm. destruct n as [|n|], m as [|m|]; try lia.
  unfold Qle, Qdiv, Qmult, Qinv, inject_Z. simpl. nia.
Qed.

Lemma rate_above (x y n m : Z) :
  0 < n → 0 < m →
  (inject_Z y / inject_Z m + (1 # 10) <= inject_Z x / inject_Z n)%Q ↔
  10 * y * n + n * m ≤ 10 * x * m.
Proof.
  intros Hn Hm. destruct n as [|n|], m as [|m|]; try lia.
  unfold Qle, Qdiv, Qmult, Qinv, Qplus, inject_Z. simpl. nia.
Qed.

Lemma compare_arms_pass cand ctl :
  0 < samples cand → 0 < samples ctl →
  compare_arms cand ctl = GPass ↔ candidate_wins cand ctl.
Proof.
  intros Hn Hm. unfold compare_arms, candidate_wins, success_rate, mean.
  rewrite rate_above, !mean_within by done. unfold regresses_over_ten_percent. split.
  - intros H. repeat (case_match; try discriminate). split_bools. split_and!; done || lia.
  - intros (Hs & Hmc & Hmk & Hr & Hl & Ht). rewrite Hs, Hmc, Hmk. simpl.
    rewrite !(proj2 (Z.eqb_neq _ _)) by lia. simpl.
    rewrite !(proj2 (Z.ltb_ge _ _)) by lia. done.
Qed.
End replay.

(** ** Properties *)

(** C38: every engine the daemon can reach is well formed: case keys are identities, a
    component has at most one active case, a case is in canary or promoted only with a
    candidate whose fixtures all passed without a hard failure and whose rollback
    version is the case's parent, and no two candidates share a configuration version
    before the version counter saturates. *)
Theorem engine_reachable_invariant `{E : Externals} (p : ImprovementPolicy) (e : ImprovementEngine) :
  rtc engine_step (new_engine p) e → engine_ok e.
Proof. apply reachable_ok. Qed.

(** C39: the engine's ledger is append-only.  Along any run of a reachable engine no
    observation, candidate or assignment is changed or removed and the version counter never
    decreases.  No case is removed, and unless the run has recorded two cases of different texts
    under one key (their SHA-256 digests agree on the 128 bits of the key), every case keeps its component, cohort, signature and parent, while its state only moves
    forward in the case state machine - or the run has opened it again after it was promoted
    or rolled back, which is how the code treats a trigger that is reviewed once more.  A frozen
    case is never opened again. *)
Theorem engine_ledger_append_only `{E : Externals} `{!ExternalsOk E} (p : ImprovementPolicy)
    (e e' : ImprovementEngine) :
  rtc engine_step (new_engine p) e → rtc engine_step e e' →
  observations e ⊆ observations e' ∧ candidates e ⊆ candidates e' ∧ assignments e ⊆ assignments e' ∧
  next_config_version e ≤ next_config_version e' ∧
  (key_collision e e' ∨
   ∀ id c, cases e !! id = Some c → ∃ c', cases e' !! id = Some c' ∧ same_identity c c' ∧
     (case_reaches (k_state c) (k_state c') = true ∨ (k_state c ≠ Frozen ∧ reopened e id e'))).
Proof.
  intros Hr Hrun. pose proof (reachable_ok p e Hr) as Hok. pose proof (reachable_named p e Hr) as Hn.
  destruct (steps_grow _ _ Hok Hn Hrun) as (? & ? & ? & ?). split_and!; try done. by apply steps_kept.
Qed.

(** C40: promotion needs evidence.  When [evaluate] reports a promotion, either the case
    was promoted before, or it was in canary for at least seven days, both arms have at
    least twenty reviewed samples, the candidate arm wins (no safety violation, complete
    metrics, success rate ten points above, latency and tokens within ten percent), the
    promoted version is that of a candidate that passed the fixture gate, and it becomes
    the component's active version. *)
Theorem promotion_requires_evidence `{E : Externals} (e e' : ImprovementEngine)
    (id : string) (now version : Z) :
  engine_ok e → evaluate e id now = (EPromoted version, e') →
  ∃ c, cases e !! id = Some c ∧
    (k_state c = Promoted ∨
     k_state c = Canary ∧
     ∃ cand ctl started r candidate,
       arms_of e id = (cand, ctl) ∧
       MIN_CANARY_SAMPLES_PER_ARM ≤ samples cand ∧ MIN_CANARY_SAMPLES_PER_ARM ≤ samples ctl ∧
       candidate_wins cand ctl ∧
       k_canary_started_at_us c = Some started ∧
       MIN_CANARY_AGE_US ≤ i64_saturating_sub now started ∧
       k_candidate_id c = Some candidate ∧ candidates e !! candidate = Some r ∧
       d_fixture_gate_passed r = true ∧ version = d_candidate_config_version r ∧
       active_config_versions e' !! k_component c = Some version).
Proof.
  intros Hok. unfold evaluate. destruct (enabled _); [|done]. simpl.
  destruct (cases (expire now e) !! id) as [c|] eqn:Hc; [|done].
  pose proof (expire_ok now e Hok) as Hok1. pose proof (ok_key _ Hok1 _ _ Hc) as Hid.
  assert (k_state c ≠ RolledBack → cases e !! id = Some c) as Hsame.
  { rewrite (expire_cases _ _ _ Hok), fmap_Some in Hc. destruct Hc as (c0 & Hc0 & ->).
    by destruct (case_expired now c0). }
  destruct (expire_fields now e) as (_ & Ho & Hd & Ha & _).
  destruct (k_state c) eqn:Hs; intros H; try discriminate H.
  2: { exists c. split; [by apply Hsame|by left]. }
  exists c. split; [by apply Hsame|]. right. split; [done|].
  unfold evaluate_canary in H. destruct (k_candidate_id c) as [candidate|] eqn:Hcand; [|done].
  destruct (arms_of (expire now e) (k_case_id c)) as [cand ctl] eqn:Harms.
  assert (∀ x, rollback_case (expire now e) c now ≠ (EPromoted version, x)) as Hno.
  { intros x H'. apply (f_equal fst) in H'. simpl in H'. by destruct (2 <=? _). }
  destruct (negb (safety_violations cand =? 0)); [by apply Hno in H|].
  destruct (_ || _) eqn:Hn in H; [done|]. destruct (_ || _) in H; [done|].
  destruct (k_canary_started_at_us c) as [started|] eqn:Hst; [|done]. simpl in H.
  destruct (_ <? _) eqn:Hage in H; [done|]. split_bools.
  destruct (compare_arms cand ctl) eqn:Hcmp; try done; try (by apply Hno in H).
  destruct (ok_gate _ Hok1 _ _ Hc (or_introl Hs)) as (cand' & r & Hk & Hr & _ & Hgate & _).
  rewrite Hcand in Hk. injection Hk as <-. rewrite Hid in Harms, H.
  rewrite (candidate_version_promoted _ id candidate r c) in H by done. simpl in H.
  injection H as <- <-. exists cand, ctl, started, r, candidate.
  apply compare_arms_pass in Hcmp; [|unfold MIN_CANARY_SAMPLES_PER_ARM in *; lia..].
  rewrite <-Hd. split_and!; try done.
  - revert Harms. unfold arms_of. by rewrite Ho, Ha.
  - simpl. by rewrite lookup_insert_eq.
Qed.

(** Recording a review is idempotent: observing the same evidence a second time
    returns the same decision and leaves the engine unchanged, whatever the first
    decision was. *)
Theorem observe_idempotent `{E : Externals} (e : ImprovementEngine) (input : ObservationInput) :
  engine_ok e → observe (observe e input).2 input = observe e input.
Proof.
  intros Hok. unfold observe at 2 3.
  destruct (enabled (policy e)) eqn:Hen; [|simpl; unfold observe; by rewrite Hen].
  destruct (validate_observation input) eqn:Hv; [|simpl; unfold observe; by rewrite Hen, Hv].
  simpl. set (e1 := expire _ e). unfold observe.
  destruct (record_observation_cases e1 input) as [Hcases ->].
  destruct (expire_fields (o_reviewed_at_us input) e) as [Hp _]. fold e1 in Hp.
  rewrite Hp, Hen, Hv. simpl. rewrite expire_none; [apply record_observation_replay|].
  intros id c. rewrite Hcases. by apply expire_expired.
Qed.

(** A frozen component stays frozen: along any later run no observation of the component becomes
    eligible, so no new case for it is ever opened (or case keys collide). *)
Theorem frozen_component_stays_frozen `{E : Externals} `{!ExternalsOk E} (p : ImprovementPolicy)
    (e e' : ImprovementEngine) (id : string) (c : CaseRecord) (input : ObservationInput) :
  rtc engine_step (new_engine p) e → rtc engine_step e e' →
  cases e !! id = Some c → k_state c = Frozen → o_component input = k_component c →
  key_collision e e' ∨ ∀ case_id a b, eligibility_for e' input ≠ OEligible case_id a b.
Proof.
  intros Hr Hrun Hc Hs Hcomp. pose proof (reachable_ok p e Hr) as Hok. pose proof (reachable_named p e Hr) as Hn.
  destruct (steps_kept _ _ Hok Hn Hrun) as [?|Hkept]; [by left|right]. intros i a b Hel.
  destruct (Hkept _ _ Hc) as (c' & Hc' & (Hcomp' & _) & [Hreach|[? _]]); [|done].
  destruct (eligible_inv _ _ _ _ _ Hel _ _ Hc') as [_ Hnf]; [congruence|].
  rewrite Hs in Hreach. by destruct (k_state c').
Qed.

(** A canary assignment is sticky: once a task is assigned, every later request for
    it under the same case replays exactly the recorded arm, version and digest, and a
    request under another case is refused; neither changes the engine. *)
Theorem assignment_is_sticky `{E : Externals} (p : ImprovementPolicy) (e e' : ImprovementEngine)
    (a : CanaryAssignment) (admission : CanaryAdmission) (case_id : string) :
  rtc engine_step (new_engine p) e → rtc engine_step e e' → enabled (policy e') = true →
  assignments e !! ad_task_id admission = Some a →
  assign_canary e' case_id admission =
    (if String.eqb (as_case_id a) case_id then KAssigned (a <| as_replayed := true |>)
     else KNotEligible, e').
Proof.
  intros Hr Hrun Hen Ha.
  destruct (steps_grow _ _ (reachable_ok p e Hr) (reachable_named p e Hr) Hrun) as (_ & _ & Has & _).
  unfold assign_canary. rewrite Hen. simpl. rewrite (lookup_weaken _ _ _ _ Ha Has). by destruct (String.eqb _ _).
Qed.

(** ** Witnesses *)

Section samples.
#[local] Existing Instance sample_externals.

Definition sample_hex : string :=
  "00112233445566778899aabbccddeeff00112233445566778899aabbccddeeff".
Definition sample_cohort : Cohort := mkCohort "claude:a:default:0" "v1" 1 sample_hex.
Definition sample_engine_policy : ImprovementPolicy :=
  default_policy <| enabled := true |>.
Definition sample_failure (task : string) (at_us : Z) : ObservationInput :=
  mkObservation task "claude" sample_cohort at_us false
    (Some (mkSignature "terminal" "failed" "v1" "code")) (Some 10) (Some 10) 0.

(** Three failures of one signature, and the case the third one opens. *)
Definition sample_open_engine : ImprovementEngine :=
  let e := (observe (new_engine sample_engine_policy) (sample_failure "t1" 1)).2 in
  let e := (observe e (sample_failure "t2" 2)).2 in
  let e := (observe e (sample_failure "t3" 3)).2 in
  (open_eligible_case e (sample_failure "t3" 3) 4).2.

Lemma sample_open_reachable : rtc engine_step (new_engine sample_engine_policy) sample_open_engine.
Proof.
  unfold sample_open_engine.
  eapply rtc_l; [apply (step_observe _ (sample_failure "t1" 1)); done|].
  eapply rtc_l; [apply (step_observe _ (sample_failure "t2" 2)); done|].
  eapply rtc_l; [apply (step_observe _ (sample_failure "t3" 3)); done|].
  eapply rtc_l; [apply (step_open _ (sample_failure "t3" 3) 4)|apply rtc_refl].
Qed.

(** The third task is reviewed again after its case has expired: its case is opened again. *)
Definition sample_late : Z := CASE_EXPIRY_US + COOLDOWN_US + 100.
Definition sample_expired_engine : ImprovementEngine := (observe sample_open_engine (sample_failure "t4" (CASE_EXPIRY_US + 5))).2.
Definition sample_reopened_engine : ImprovementEngine :=
  (open_eligible_case sample_expired_engine (sample_failure "t3" sample_late) sample_late).2.

Lemma closed_case_is_opened_again :
  map (λ e, map (λ kv, (k_state kv.2, k_created_at_us kv.2)) (map_to_list (cases e)))
    [sample_open_engine; sample_expired_engine; sample_reopened_engine] =
  [[(Observing, 4)]; [(RolledBack, 4)]; [(Observing, sample_late)]].
Proof. vm_compute. reflexivity. Qed.

(** A canary with twenty winning candidate samples and twenty control samples. *)
Definition arm_task (candidate : bool) (n : nat) : string :=
  (if candidate then "candidate-" else "control-") +:+ pretty n.
Definition arm_assignment (candidate : bool) (n : nat) : string * CanaryAssignment :=
  (arm_task candidate n,
   mkAssignment "case" (arm_task candidate n) candidate (if candidate then 2 else 1) sample_hex false).
Definition arm_observation (candidate : bool) (n : nat) : string * ObservationInput :=
  (arm_task candidate n,
   mkObservation (arm_task candidate n) "claude" sample_cohort 0 candidate None (Some 10) (Some 10) 0).
Definition sample_case : CaseRecord :=
  mkCase "case" "claude" sample_cohort "signature" 0 Canary (Some "cand") 1 (Some 0) 0.
Definition sample_candidate : CandidateRecord :=
  mkCandidate "cand" "case" "claude" Quality (VString "high") 1 1 2 sample_hex true false.
Definition sample_canary_engine : ImprovementEngine :=
  mkEngine sample_engine_policy
    (list_to_map (map (arm_observation true) (seq 0 20) ++ map (arm_observation false) (seq 0 20)))
    {["case" := sample_case]} {["cand" := sample_candidate]}
    (list_to_map (map (arm_assignment true) (seq 0 20) ++ map (arm_assignment false) (seq 0 20)))
    ∅ ∅ ∅ 2.

Lemma sample_canary_ok : engine_ok sample_canary_engine.
Proof.
  split; simpl; [intros id c|intros id1 id2 c1 c2|intros id c|intros cand r
    |intros cand1 cand2 r1 r2|done]; rewrite !lookup_singleton_Some.
  - by intros [<- <-].
  - by intros [<- _] [<- _].
  - intros [<- <-] _. by exists "cand", sample_candidate.
  - by intros [<- <-].
  - intros [<- _] [<- _]. by left.
Qed.

Lemma engine_reachable_invariant_witness : engine_ok sample_open_engine.
Proof.
  apply (engine_reachable_invariant sample_engine_policy), sample_open_reachable.
Defined.

Lemma sample_reopened_run : rtc engine_step sample_open_engine sample_reopened_engine.
Proof.
  eapply rtc_l; [apply (step_observe _ (sample_failure "t4" (CASE_EXPIRY_US + 5))); done|].
  eapply rtc_l; [apply (step_open _ (sample_failure "t3" sample_late) sample_late)|apply rtc_refl].
Qed.

Lemma engine_ledger_append_only_witness :
  observations sample_open_engine ⊆ observations sample_reopened_engine ∧ size (observations sample_open_engine) = 3%nat.
Proof.
  split; [|vm_compute; reflexivity].
  exact (proj1 (engine_ledger_append_only sample_engine_policy sample_open_engine sample_reopened_engine
    sample_open_reachable sample_reopened_run)).
Defined.

Definition week_later : Z := MIN_CANARY_AGE_US.

Lemma promotion_requires_evidence_witness :
  (evaluate sample_canary_engine "case" week_later).1 = EPromoted 2 ∧
  ∃ c, cases sample_canary_engine !! "case" = Some c ∧
    (k_state c = Promoted ∨ k_state c = Canary ∧
     ∃ cand ctl started r candidate,
       arms_of sample_canary_engine "case" = (cand, ctl) ∧
       MIN_CANARY_SAMPLES_PER_ARM ≤ samples cand ∧ MIN_CANARY_SAMPLES_PER_ARM ≤ samples ctl ∧
       candidate_wins cand ctl ∧
       k_canary_started_at_us c = Some started ∧
       MIN_CANARY_AGE_US ≤ i64_saturating_sub week_later started ∧
       k_candidate_id c = Some candidate ∧ candidates sample_canary_engine !! candidate = Some r ∧
       d_fixture_gate_passed r = true ∧ 2 = d_candidate_config_version r ∧
       active_config_versions (evaluate sample_canary_engine "case" week_later).2
         !! k_component c = Some 2).
Proof.
  assert ((evaluate sample_canary_engine "case" week_later).1 = EPromoted 2) as H
    by (vm_compute; reflexivity).
  split; [exact H|].
  apply (promotion_requires_evidence sample_canary_engine
           (evaluate sample_canary_engine "case" week_later).2 "case" week_later 2
           sample_canary_ok).
  rewrite <-H. apply surjective_pairing.
Defined.

Lemma observe_idempotent_witness :
  observe (observe sample_open_engine (sample_failure "t4" 5)).2 (sample_failure "t4" 5) =
  observe sample_open_engine (sample_failure "t4" 5).
Proof.
  apply (observe_idempotent sample_open_engine (sample_failure "t4" 5)).
  apply (reachable_ok sample_engine_policy), sample_open_reachable.
Defined.
End samples.
