(* ===== verification/Schema.v ===== *)
(** * The durable schema ([storage.rs], the migrations)

    One record per table row and the database as a record of tables.  A table with a
    primary key is a finite map from the key to the remaining columns, so the key's
    uniqueness holds by construction; the event log is kept as a list in insertion
    order.  A [TEXT] column whose [CHECK] lists the spellings of an enumeration is
    the enumeration itself.  Columns no modelled operation reads are left out. *)

From S2P Require Import Prelude Domain Externals Improvement.

(** ** Rows *)

Record Task := mkTask {
  t_request_digest : string;
  t_retry_of_task_id : option string;
  t_state : TaskState;
  t_generation : Z;
  t_last_event_seq : Z;
  t_projection_event_seq : Z;
  t_evicted_through_seq : Z;
  t_result_version : option Z;
  t_terminal_event_seq : option Z;
  t_terminal_at : option Z;
  t_cancel_requested_at : option Z;
  t_retry_at : option Z;
  t_created_at : Z;
  t_updated_at : Z;
  t_priority : Z;
  t_adapter_instance_id : string;
}.
#[export] Instance eta_task : Eta Task := fun r =>
  mkTask (t_request_digest r) (t_retry_of_task_id r) (t_state r) (t_generation r)
    (t_last_event_seq r) (t_projection_event_seq r) (t_evicted_through_seq r)
    (t_result_version r) (t_terminal_event_seq r) (t_terminal_at r)
    (t_cancel_requested_at r) (t_retry_at r) (t_created_at r) (t_updated_at r)
    (t_priority r) (t_adapter_instance_id r).

Record Event := mkEvent {
  e_task_id : string;
  e_event_seq : Z;
  e_event_id : string;
  e_generation : Z;
  e_kind : string;
  e_payload : string;
  e_committed_at : Z;
}.

Record AttemptRow := mkAttemptRow {
  a_task_id : string;
  a_generation : Z;
  a_ordinal : Z;
  a_state : AttemptState;
  a_dispatch_phase : DispatchPhase;
  a_process_receipt : option string;
  a_provider_session : option string;
  a_effect_profile : string;
  a_isolation_level : string;
  a_retry_class : string;
  a_adapter_instance_id : string;
  a_adapter_version : string;
  a_config_version : Z;
  a_config_digest : string;
  a_worktree_id : option string;
  a_resumable_capability_digest : option string;
  a_resume_proof_digest : option string;
  a_created_at : Z;
  a_updated_at : Z;
  a_ended_at : option Z;
}.
#[export] Instance eta_attempt : Eta AttemptRow := fun r =>
  mkAttemptRow (a_task_id r) (a_generation r) (a_ordinal r) (a_state r) (a_dispatch_phase r)
    (a_process_receipt r) (a_provider_session r) (a_effect_profile r) (a_isolation_level r)
    (a_retry_class r) (a_adapter_instance_id r) (a_adapter_version r) (a_config_version r)
    (a_config_digest r) (a_worktree_id r) (a_resumable_capability_digest r)
    (a_resume_proof_digest r) (a_created_at r) (a_updated_at r) (a_ended_at r).

Record InteractionRow := mkInteractionRow {
  i_task_id : string;
  i_attempt_id : string;
  i_generation : Z;
  i_operation_digest : string;
  i_policy_digest : string;
  i_config_digest : string;
  i_capability_class : option string;
  i_config_version : option Z;
  i_policy_version : option Z;
  i_nonce : string;
  i_expires_at : Z;
  i_state : InteractionState;
  i_created_at : Z;
  i_updated_at : Z;
}.
#[export] Instance eta_interaction : Eta InteractionRow := fun r =>
  mkInteractionRow (i_task_id r) (i_attempt_id r) (i_generation r) (i_operation_digest r)
    (i_policy_digest r) (i_config_digest r) (i_capability_class r) (i_config_version r)
    (i_policy_version r) (i_nonce r) (i_expires_at r) (i_state r) (i_created_at r) (i_updated_at r).

Record ResponseRow := mkResponseRow {
  r_consumer_id : string;
  r_decision_digest : string;
  r_response_kind : option string;
  r_response_bytes : option string;
  r_byte_length : option Z;
  r_response_digest : option string;
  r_committed_at : Z;
}.

Record ResultRow := mkResultRow {
  res_result_id : string;
  res_terminal_event_seq : Z;
  res_result_digest : string;
  res_created_at : Z;
}.

Record OutboxRow := mkOutboxRow {
  ob_result_id : string;
  ob_ack_token : string;
  ob_terminal_event_seq : Z;
  ob_created_at : Z;
  ob_acked_at : option Z;
  ob_review_id : option string;
}.
#[export] Instance eta_outbox : Eta OutboxRow := fun r =>
  mkOutboxRow (ob_result_id r) (ob_ack_token r) (ob_terminal_event_seq r) (ob_created_at r)
    (ob_acked_at r) (ob_review_id r).

Record ReviewRow := mkReviewRow {
  rv_consumer_id : string;
  rv_task_id : string;
  rv_review_digest : string;
  rv_verdict : string;
  rv_diagnosis_ref : option string;
  rv_created_at : Z;
}.

Record CommandRow := mkCommand {
  cd_request_digest : string;
  cd_response_locator : string;
  cd_committed_at : Z;
  cd_response_json : option string;
  cd_response_digest : option string;
}.
(** The rows of every command but the improvement commands leave the response columns null. *)
Notation mkCommandRow request_digest response_locator committed_at :=
  (mkCommand request_digest response_locator committed_at None None).

Record OperationRow := mkOperationRow {
  op_digest : string;
  op_task_id : string;
  op_generation : Z;
  op_kind : string;
  op_response_locator : string;
  op_committed_at : Z;
}.
#[export] Instance eta_operation : Eta OperationRow := fun r =>
  mkOperationRow (op_digest r) (op_task_id r) (op_generation r) (op_kind r)
    (op_response_locator r) (op_committed_at r).

Record RequestRow := mkRequestRow {
  rq_request_digest : string;
  rq_request_bytes : string;
  rq_byte_length : Z;
  rq_created_at : Z;
}.

Record TombstoneRow := mkTombstoneRow {
  tb_request_digest : string;
  tb_terminal_state : string;
  tb_last_event_seq : Z;
  tb_evicted_through_seq : Z;
  tb_result_digest : option string;
  tb_summary : option string;
  tb_compacted_at : Z;
}.

Record WorktreeRow := mkWorktreeRow {
  w_task_id : string;
  w_path : string;
  w_terminal_state : option string;
  w_terminal_at : option Z;
  w_acked_at : option Z;
  w_state : string;
  w_created_at : Z;
}.
#[export] Instance eta_worktree : Eta WorktreeRow := fun r =>
  mkWorktreeRow (w_task_id r) (w_path r) (w_terminal_state r) (w_terminal_at r) (w_acked_at r)
    (w_state r) (w_created_at r).

Record BlobRefRow := mkBlobRefRow { br_hash : string; br_eligible_at : option Z }.
#[export] Instance eta_blob_ref : Eta BlobRefRow := fun r => mkBlobRefRow (br_hash r) (br_eligible_at r).

(** ** The tables of retention: blobs, reader leases and collection intents *)

Record BlobRow := mkBlobRow { bo_byte_length : Z; bo_published_at : Z; bo_last_verified_at : Z }.
#[export] Instance eta_blob_row : Eta BlobRow := fun r =>
  mkBlobRow (bo_byte_length r) (bo_published_at r) (bo_last_verified_at r).

Record StagingRow := mkStagingRow {
  sg_file_name : string;
  sg_expected_hash : string;
  sg_byte_length : Z;
  sg_created_at : Z;
}.

Record LeaseRow := mkLeaseRow {
  ls_lease_epoch : Z;
  ls_owner_id : string;
  ls_issued_at : Z;
  ls_heartbeat_at : Z;
  ls_expires_at : Z;
}.
#[export] Instance eta_lease : Eta LeaseRow := fun r =>
  mkLeaseRow (ls_lease_epoch r) (ls_owner_id r) (ls_issued_at r) (ls_heartbeat_at r) (ls_expires_at r).

Inductive GcState := GcMarked | GcDeleted | GcFailed.

#[export] Instance GcState_eq_dec : EqDecision GcState.
Proof. solve_decision. Defined.

Record IntentRow := mkIntentRow {
  gi_state : GcState;
  gi_byte_length : Z;
  gi_fence_token : string;
  gi_attempts : Z;
  gi_marked_at : Z;
  gi_finished_at : option Z;
  gi_error_digest : option string;
}.
#[export] Instance eta_intent : Eta IntentRow := fun r =>
  mkIntentRow (gi_state r) (gi_byte_length r) (gi_fence_token r) (gi_attempts r) (gi_marked_at r)
    (gi_finished_at r) (gi_error_digest r).

(** [reader_lease_items] is a set of lease, resource kind and resource. *)
Record RetentionTables := mkRetentionTables {
  blob_objects : gmap string BlobRow;
  blob_staging : gmap string StagingRow;
  reader_leases : gmap string LeaseRow;
  reader_lease_items : gset (string * (string * string));
  gc_intents : gmap (string * string) IntentRow;
}.
#[export] Instance eta_retention : Eta RetentionTables := fun r =>
  mkRetentionTables (blob_objects r) (blob_staging r) (reader_leases r) (reader_lease_items r)
    (gc_intents r).

(** ** The improvement tables *)

Record CanaryRow := mkCanaryRow {
  ca_case_id : string;
  ca_candidate : bool;
  ca_config_version : Z;
  ca_config_digest : string;
  ca_assigned_at : Z;
}.

Record CaseRow := mkCaseRow {
  cs_component : string;
  cs_state : string;
  cs_created_at : Z;
  cs_candidate_id : option string;
  cs_parent_config_version : Z;
  cs_canary_started_at : option Z;
  cs_rollback_count : Z;
}.
#[export] Instance eta_case_row : Eta CaseRow := fun r =>
  mkCaseRow (cs_component r) (cs_state r) (cs_created_at r) (cs_candidate_id r)
    (cs_parent_config_version r) (cs_canary_started_at r) (cs_rollback_count r).

Record CandidateRow := mkCandidateRow {
  cn_case_id : string;
  cn_component : string;
  cn_knob : string;
  cn_value_json : string;
  cn_parent_config_version : Z;
  cn_rollback_config_version : Z;
  cn_candidate_config_version : Z;
  cn_candidate_config_digest : string;
  cn_fixture_gate_passed : bool;
  cn_fixture_hard_failure : bool;
  cn_created_at : Z;
}.

Record ConfigRow := mkConfigRow {
  cf_digest : string;
  cf_component : string;
  cf_parent_version : Z;
  cf_rollback_version : Z;
  cf_candidate_id : string;
  cf_created_at : Z;
}.

Record ActiveConfigRow := mkActiveConfigRow { ac_config_version : Z; ac_updated_at : Z }.

Record ImprovementAuditRow := mkImprovementAuditRow {
  ia_action : string;
  ia_state_digest : string;
  ia_created_at : Z;
}.

Record EngineStateRow := mkEngineStateRow {
  eng_revision : Z;
  eng_state_json : string;
  eng_state_digest : string;
  eng_created_at : Z;
  eng_updated_at : Z;
}.

(** The tables [migration 6] adds; [improvement_audit] is keyed by its unique revision. *)
Record ImprovementTables := mkImprovementTables {
  improvement_engine_state : option EngineStateRow;
  improvement_cases : gmap string CaseRow;
  improvement_candidates : gmap string CandidateRow;
  improvement_config_versions : gmap Z ConfigRow;
  canary_assignments : gmap string CanaryRow;
  improvement_active_configs : gmap string ActiveConfigRow;
  improvement_audit : gmap Z ImprovementAuditRow;
}.
#[export] Instance eta_improvement_tables : Eta ImprovementTables := fun r =>
  mkImprovementTables (improvement_engine_state r) (improvement_cases r) (improvement_candidates r)
    (improvement_config_versions r) (canary_assignments r) (improvement_active_configs r)
    (improvement_audit r).

Record AuditRow := mkAuditRow {
  au_kind : string;
  au_task_id : option string;
  au_generation : option Z;
  au_details_digest : string;
  au_created_at : Z;
}.

Inductive EmergencyState := EmNormal | EmLatched | EmReserveReleased.

#[export] Instance EmergencyState_eq_dec : EqDecision EmergencyState.
Proof. solve_decision. Defined.

Record MetaRow := mkMetaRow {
  lease_epoch : Z;
  mutation_epoch : Z;
  emergency_state : EmergencyState;
  meta_updated_at : Z;
}.
#[export] Instance eta_meta : Eta MetaRow := fun r =>
  mkMetaRow (lease_epoch r) (mutation_epoch r) (emergency_state r) (meta_updated_at r).

Record ConfigVersionRow := mkConfigVersionRow { cv_config_digest : string; cv_created_at : Z }.

(** ** The database *)

Record Db := mkDb {
  storage_meta : MetaRow;
  command_dedup : gmap (string * string * string) CommandRow;
  tasks : gmap string Task;
  events : list Event;
  attempts : gmap string AttemptRow;
  pending_interactions : gmap string InteractionRow;
  interaction_responses : gmap string ResponseRow;
  results : gmap string ResultRow;
  reviews : gmap string ReviewRow;
  result_outbox : gmap (string * string) OutboxRow;
  internal_operations : gmap string OperationRow;
  task_tombstones : gmap string TombstoneRow;
  task_requests : gmap string RequestRow;
  blob_refs : gmap (string * string * string) BlobRefRow;
  worktrees : gmap string WorktreeRow;
  audit_log : list AuditRow;
  improvement : ImprovementTables;
  retention : RetentionTables;
  config_versions : gmap Z ConfigVersionRow;
}.
#[export] Instance eta_db : Eta Db := fun r =>
  mkDb (storage_meta r) (command_dedup r) (tasks r) (events r) (attempts r)
    (pending_interactions r) (interaction_responses r) (results r) (reviews r)
    (result_outbox r) (internal_operations r) (task_tombstones r) (task_requests r)
    (blob_refs r) (worktrees r) (audit_log r) (improvement r) (retention r) (config_versions r).

Definition empty_db : Db :=
  mkDb (mkMetaRow 0 0 EmNormal 0) ∅ ∅ [] ∅ ∅ ∅ ∅ ∅ ∅ ∅ ∅ ∅ ∅ ∅ [] (mkImprovementTables None ∅ ∅ ∅ ∅ ∅ ∅)
    (mkRetentionTables ∅ ∅ ∅ ∅ ∅) ∅.

(** ** Queries *)

(** The rows of a table that satisfy a [WHERE] clause. *)
Definition select {K A} `{Countable K} (p : K → A → bool) (m : gmap K A) : list (K * A) :=
  filter (λ kv, p kv.1 kv.2 = true) (map_to_list m).

(** [FROM attempts a WHERE a.task_id=? AND a.generation=?] *)
Definition attempts_at (db : Db) (task_id : string) (generation : Z) : list (string * AttemptRow) :=
  select (λ _ a, String.eqb (a_task_id a) task_id && (a_generation a =? generation)) (attempts db).

(** [FROM events WHERE task_id=? ORDER BY event_seq] *)
Definition events_of (db : Db) (task_id : string) : list Event :=
  sort_by (λ x y, e_event_seq x <=? e_event_seq y)
    (List.filter (λ e, String.eqb (e_task_id e) task_id) (events db)).

(** [SELECT MAX(ordinal) FROM attempts WHERE task_id=?], [COALESCE]d with 0 *)
Definition max_ordinal (db : Db) (task_id : string) : Z :=
  List.fold_left Z.max
    (map (λ kv, a_ordinal kv.2) (select (λ _ a, String.eqb (a_task_id a) task_id) (attempts db))) 0.

(** [FROM pending_interactions WHERE task_id=? AND generation=? AND state='PENDING'
    ORDER BY interaction_id] *)
Definition pending_of (db : Db) (task_id : string) (generation : Z) : list (string * InteractionRow) :=
  sort_by (λ x y, String.leb x.1 y.1)
    (select (λ _ i, String.eqb (i_task_id i) task_id && (i_generation i =? generation)
                    && bool_decide (i_state i = IPending)) (pending_interactions db)).

Lemma select_elem {K A} `{Countable K} (p : K → A → bool) (m : gmap K A) k a :
  (k, a) ∈ select p m ↔ m !! k = Some a ∧ p k a = true.
Proof. unfold select. rewrite list_elem_of_filter, elem_of_map_to_list. simpl. tauto. Qed.

Lemma select_nil {K A} `{Countable K} (p : K → A → bool) (m : gmap K A) :
  select p m = [] ↔ ∀ k a, m !! k = Some a → p k a = false.
Proof.
  split.
  - intros Hnil k a Hk. apply not_true_iff_false. intros Hp.
    assert ((k, a) ∈ select p m) as Hin by by apply select_elem. rewrite Hnil in Hin. set_solver.
  - intros Hall. destruct (select p m) as [|[k a] l] eqn:E; [done|].
    assert ((k, a) ∈ select p m) as Hin by (rewrite E; set_solver).
    apply select_elem in Hin as [Hk Hp]. apply Hall in Hk. congruence.
Qed.

Lemma attempts_at_elem db task_id generation id a :
  (id, a) ∈ attempts_at db task_id generation ↔
  attempts db !! id = Some a ∧ a_task_id a = task_id ∧ a_generation a = generation.
Proof.
  unfold attempts_at. rewrite select_elem, andb_true_iff, String.eqb_eq, Z.eqb_eq. tauto.
Qed.
