(* ===== verification/StoreMonad.v ===== *)
(** * The storage monad

    [Storage] of [storage.rs] as explicit state: the database, the quota policy, the
    emergency latch, what the filesystem reports, and a counter that names the next
    value of the random sources.  An operation returns a [StorageError] or a value
    together with the new state; [transaction] restores the database of its start
    when its body fails, which is what dropping an uncommitted
    [rusqlite::Transaction] does.  The preorder framework ([moves], [moves_ok])
    carries the invariants and the append-only relations through the operations. *)

From S2P Require Import Prelude Externals Schema.

Inductive StorageError :=
  | ErrInvalidRoot
  | ErrQuarantined (reason : string)
  | ErrIdempotencyConflict
  | ErrStaleGeneration
  | ErrTerminalImmutable
  | ErrAckMismatch
  | ErrAlreadyReviewed
  | ErrCursorExpired (oldest_available_seq last_committed_seq : Z)
  | ErrBlobCorruption (at_ : string)
  | ErrInteractionConflict
  | ErrStorageEmergency
  | ErrQuotaExceeded
  | ErrInvalidRequest
  | ErrOutputLimitExceeded
  | ErrQueryDeadline
  | ErrReaderSaturated
  | ErrWriterBackpressure
  | ErrWalPressure
  | ErrMigrationMismatch (what : string)
  | ErrRestoreRefused
  (** [Sql]: a query that must return a row returned none, or a constraint, a foreign
      key or a trigger refused a statement *)
  | ErrSqlNoRows
  | ErrSqlConstraint
  (** the disk ran full under a statement *)
  | ErrSqlDiskFull
  (** a column of a type the code does not expect *)
  | ErrSqlColumn
  | ErrIo.

Record QuotaPolicy := mkQuotaPolicy {
  quota_bytes : Z;
  reserve_bytes : Z;
  max_global_concurrency : Z;
}.

(** What the filesystem answers; [None] is an I/O error. *)
Record FsView := mkFsView {
  wal_len : option Z;
  allocated_bytes : option Z;
  free_bytes : option Z;
}.

Record Storage := mkStorage {
  db : Db;
  quota : option QuotaPolicy;
  emergency : EmergencyState;
  fs : FsView;
  entropy : nat;
}.
#[export] Instance eta_storage : Eta Storage := fun r =>
  mkStorage (db r) (quota r) (emergency r) (fs r) (entropy r).

Definition M (A : Type) : Type := Storage → (StorageError + A) * Storage.

#[export] Instance M_ret : MRet M := λ A a s, (inr a, s).
#[export] Instance M_bind : MBind M := λ A B f m s,
  match m s with
  | (inl e, s') => (inl e, s')
  | (inr a, s') => f a s'
  end.

Definition fail {A} (e : StorageError) : M A := λ s, (inl e, s).

(** [if condition { return Err(e) }] *)
Definition refuse_if (condition : bool) (e : StorageError) : M unit :=
  if condition then fail e else mret tt.

(** [.ok_or(e)?] *)
Definition some_or {A} (o : option A) (e : StorageError) : M A :=
  match o with Some a => mret a | None => fail e end.

(** [.map_err(|_| e)?] *)
Definition ok_or {X A} (r : X + A) (e : StorageError) : M A :=
  match r with inr a => mret a | inl _ => fail e end.

Definition get_storage : M Storage := λ s, (inr s, s).

(** A query that reads the database. *)
Definition query {A} (f : Db → A) : M A := λ s, (inr (f (db s)), s).

(** [query_row] without [optional()]: no row is an SQL error. *)
Definition query_row {A} (f : Db → option A) : M A :=
  o ← query f; some_or o ErrSqlNoRows.

(** A statement: [None] when a constraint or a trigger refuses it. *)
Definition execute (f : Db → option Db) : M unit := λ s,
  match f (db s) with
  | Some d => (inr tt, s <| db := d |>)
  | None => (inl ErrSqlConstraint, s)
  end.

(** [for x in l { body(x)? }] *)
Fixpoint for_each {A} (l : list A) (body : A → M unit) : M unit :=
  match l with
  | [] => mret tt
  | x :: l => body x;; for_each l body
  end.

(** [transaction_with_behavior(Immediate)] .. [commit] *)
Definition transaction {A} (body : M A) : M A := λ s,
  match body s with
  | (inl e, s') => (inl e, s' <| db := db s |>)
  | (inr a, s') => (inr a, s')
  end.

Section randomness.
Context `{E : Externals}.

(** [Uuid::new_v4().to_string()] *)
Definition new_v4 : M string := λ s, (inr (uuid_v4 (entropy s)), s <| entropy ::= S |>).

Definition new_token : M string := λ s, (inr (random_token (entropy s)), s <| entropy ::= S |>).
End randomness.

(** ** Inversion of successful runs *)

Section inversion.
Context {A B : Type}.

Lemma bind_ok (m : M A) (f : A → M B) s b s' :
  (m ≫= f) s = (inr b, s') ↔ ∃ a s1, m s = (inr a, s1) ∧ f a s1 = (inr b, s').
Proof.
  unfold mbind, M_bind. destruct (m s) as [[e|a] s1]; naive_solver.
Qed.

Lemma ret_ok (a b : A) s s' : (mret a : M A) s = (inr b, s') ↔ a = b ∧ s = s'.
Proof. unfold mret, M_ret. naive_solver. Qed.

Lemma fail_ok e (b : A) s s' : (fail e : M A) s = (inr b, s') ↔ False.
Proof. unfold fail. naive_solver. Qed.

Lemma query_ok (f : Db → A) b s s' : query f s = (inr b, s') ↔ b = f (db s) ∧ s' = s.
Proof. unfold query. naive_solver. Qed.

Lemma some_or_ok (o : option A) e b s s' : some_or o e s = (inr b, s') ↔ o = Some b ∧ s' = s.
Proof. unfold some_or, mret, M_ret, fail. destruct o; naive_solver. Qed.

Lemma query_row_ok (f : Db → option A) b s s' :
  query_row f s = (inr b, s') ↔ f (db s) = Some b ∧ s' = s.
Proof.
  unfold query_row, mbind, M_bind, query, some_or, mret, M_ret, fail.
  destruct (f (db s)); naive_solver.
Qed.

Lemma transaction_ok (m : M A) s a s' : transaction m s = (inr a, s') ↔ m s = (inr a, s').
Proof. unfold transaction. destruct (m s) as [[e|x] s1]; naive_solver. Qed.

Lemma transaction_error (m : M A) s e s' : transaction m s = (inl e, s') → db s' = db s.
Proof. unfold transaction. destruct (m s) as [[e'|x] s1]; naive_solver. Qed.
End inversion.

Lemma refuse_if_ok b e s s' : refuse_if b e s = (inr tt, s') ↔ b = false ∧ s' = s.
Proof. unfold refuse_if, fail, mret, M_ret. destruct b; naive_solver. Qed.

Lemma execute_ok f s s' :
  execute f s = (inr tt, s') ↔ ∃ d, f (db s) = Some d ∧ s' = s <| db := d |>.
Proof. unfold execute. destruct (f (db s)); naive_solver. Qed.

(** Takes a successful run of a sequence of operations apart. *)
Ltac inv_ok H :=
  let a := fresh "a" in let s := fresh "s" in let H1 := fresh H in let H2 := fresh H in
  first
  [ rewrite bind_ok in H; destruct H as (a & s & H1 & H2); inv_ok H1; inv_ok H2
  | rewrite ret_ok in H; destruct H as [H1 H2]; subst
  | rewrite fail_ok in H; destruct H
  | rewrite query_row_ok in H; destruct H as [H1 H2]; subst
  | rewrite query_ok in H; destruct H as [H1 H2]; subst
  | rewrite some_or_ok in H; destruct H as [H1 H2]; subst
  | match type of H with refuse_if _ _ _ = (inr ?t, _) => destruct t end;
    rewrite refuse_if_ok in H; destruct H as [H1 H2]; subst
  | match type of H with execute _ _ = (inr ?t, _) => destruct t end;
    rewrite execute_ok in H; destruct H as (a & H1 & H2); subst
  | idtac ].

(** ** Running a sequence whose checks pass *)

Section running.
Context {A B : Type}.

Lemma run_refuse_if b e (f : unit → M B) s : b = false → (refuse_if b e ≫= f) s = f tt s.
Proof. by intros ->. Qed.

Lemma run_some_or (o : option A) e a (f : A → M B) s : o = Some a → (some_or o e ≫= f) s = f a s.
Proof. by intros ->. Qed.

Lemma run_query (q : Db → A) a (f : A → M B) s : q (db s) = a → (query q ≫= f) s = f a s.
Proof. by intros <-. Qed.

Lemma run_query_row (q : Db → option A) a (f : A → M B) s :
  q (db s) = Some a → (query_row q ≫= f) s = f a s.
Proof. unfold query_row, mbind, M_bind, query, some_or. by intros ->. Qed.

Lemma run_bind (m : M A) (f : A → M B) a s s1 : m s = (inr a, s1) → (m ≫= f) s = f a s1.
Proof. unfold mbind, M_bind. by intros ->. Qed.
End running.

Lemma run_ok_or {X A B} (r : X + A) e a (f : A → M B) s : r = inr a → (ok_or r e ≫= f) s = f a s.
Proof. by intros ->. Qed.

(** ** Reads and atomic operations *)

(** The operation changes nothing. *)
Definition reads {A} (m : M A) : Prop := ∀ s, (m s).2 = s.

(** A failed operation leaves the database as it was. *)
Definition atomic {A} (m : M A) : Prop := ∀ s e s', m s = (inl e, s') → db s' = db s.

Section reads.
Context {A B : Type}.

Lemma reads_ret (a : A) : reads (mret a).
Proof. done. Qed.

Lemma reads_fail e : reads (fail e : M A).
Proof. done. Qed.

Lemma reads_query (f : Db → A) : reads (query f).
Proof. done. Qed.

Lemma reads_get : reads get_storage.
Proof. done. Qed.

Lemma reads_refuse_if b e : reads (refuse_if b e).
Proof. by intros s; destruct b. Qed.

Lemma reads_some_or (o : option A) e : reads (some_or o e).
Proof. by intros s; destruct o. Qed.

Lemma reads_bind (m : M A) (f : A → M B) : reads m → (∀ a, reads (f a)) → reads (m ≫= f).
Proof.
  intros Hm Hf s. unfold mbind, M_bind. specialize (Hm s). destruct (m s) as [[e|a] s1]; [done|].
  simpl in *. subst. apply Hf.
Qed.

Lemma reads_query_row (f : Db → option A) : reads (query_row f).
Proof. unfold query_row, reads, mbind, M_bind, query. intros s. by destruct (f (db s)). Qed.

Lemma reads_ok (m : M A) s r s' : reads m → m s = (r, s') → s' = s.
Proof. intros Hm Heq. specialize (Hm s). by rewrite Heq in Hm. Qed.

Lemma reads_atomic (m : M A) : reads m → atomic m.
Proof. intros Hm s e s' Heq. by apply reads_ok in Heq as ->. Qed.

Lemma atomic_bind (m : M A) (f : A → M B) : reads m → (∀ a, atomic (f a)) → atomic (m ≫= f).
Proof.
  intros Hm Hf s e s'. unfold mbind, M_bind. specialize (Hm s).
  destruct (m s) as [[e'|a] s1]; simpl in *; subst; [naive_solver|]. apply Hf.
Qed.

Lemma atomic_transaction (m : M A) : atomic (transaction m).
Proof. intros s e s'. apply transaction_error. Qed.
End reads.

Lemma reads_for_each {A} (l : list A) (body : A → M unit) : (∀ x, reads (body x)) → reads (for_each l body).
Proof. intros Hb. induction l as [|x l IH]; [apply reads_ret|]. cbn [for_each]. by apply reads_bind. Qed.

Lemma reads_ok_or {X A} (r : X + A) e : reads (ok_or r e).
Proof. by intros s; destruct r. Qed.

(** Proves that an operation built from queries and checks changes nothing. *)
Ltac reads_step :=
  match goal with
  | |- ∀ _, _ => intros ?
  | |- reads (mret _) => apply reads_ret
  | |- reads (fail _) => apply reads_fail
  | |- reads (query _) => apply reads_query
  | |- reads (query_row _) => apply reads_query_row
  | |- reads get_storage => apply reads_get
  | |- reads (refuse_if _ _) => apply reads_refuse_if
  | |- reads (some_or _ _) => apply reads_some_or
  | |- reads (ok_or _ _) => apply reads_ok_or
  | |- reads (for_each _ _) => apply reads_for_each
  | |- reads (_ ≫= _) => apply reads_bind
  | |- reads (match ?x with _ => _ end) => destruct x
  end.

(** ** Preorders on databases carried through operations *)

Section preorders.
Context (R : relation Db) `{!PreOrder R}.

(** Whatever its result, the operation moves the database along [R]. *)
Definition moves {A} (m : M A) : Prop := ∀ s, R (db s) (db (m s).2).

(** When it succeeds, the operation moves the database along [R]. *)
Definition moves_ok {A} (m : M A) : Prop :=
  ∀ s a s', m s = (inr a, s') → R (db s) (db s').

Lemma moves_moves_ok {A} (m : M A) : moves m → moves_ok m.
Proof. intros Hm s a s' Heq. specialize (Hm s). by rewrite Heq in Hm. Qed.

Lemma moves_ret {A} (a : A) : moves (mret a).
Proof. intros s. reflexivity. Qed.

Lemma moves_fail {A} e : moves (fail e : M A).
Proof. intros s. reflexivity. Qed.

Lemma moves_bind {A B} (m : M A) (f : A → M B) : moves m → (∀ a, moves (f a)) → moves (m ≫= f).
Proof.
  intros Hm Hf s. unfold mbind, M_bind. specialize (Hm s). destruct (m s) as [[e|a] s1]; [done|].
  etrans; [exact Hm|apply Hf].
Qed.

Lemma moves_ok_bind {A B} (m : M A) (f : A → M B) :
  moves_ok m → (∀ a, moves_ok (f a)) → moves_ok (m ≫= f).
Proof.
  intros Hm Hf s b s' (a & s1 & H1 & H2)%bind_ok. etrans; [by eapply Hm|by eapply Hf].
Qed.

Lemma moves_atomic {A} (m : M A) : atomic m → moves_ok m → moves m.
Proof.
  intros Ha Hm s. destruct (m s) as [[e|a] s1] eqn:Heq; simpl.
  - apply Ha in Heq. rewrite Heq. reflexivity.
  - by eapply Hm.
Qed.

Lemma moves_transaction {A} (m : M A) : moves_ok m → moves (transaction m).
Proof.
  intros Hm s. unfold transaction. destruct (m s) as [[e|a] s1] eqn:E; simpl; [reflexivity|].
  by eapply Hm.
Qed.

(** Binding a check keeps what it checked. *)
Lemma moves_ok_some_or {A B} (o : option A) e (f : A → M B) :
  (∀ a, o = Some a → moves_ok (f a)) → moves_ok (some_or o e ≫= f).
Proof.
  intros Hf s b s' (a & s1 & H1 & H2)%bind_ok. apply some_or_ok in H1 as [-> ->]. by eapply Hf.
Qed.

Lemma moves_ok_refuse_if {B} b e (f : unit → M B) :
  (b = false → moves_ok (f tt)) → moves_ok (refuse_if b e ≫= f).
Proof.
  intros Hf s c s' ([] & s1 & H1 & H2)%bind_ok. apply refuse_if_ok in H1 as [-> ->]. by eapply Hf.
Qed.

Lemma moves_refuse_if_bind {B} b e (f : unit → M B) :
  (b = false → moves (f tt)) → moves (refuse_if b e ≫= f).
Proof.
  intros Hf s. unfold refuse_if, mbind, M_bind, fail, mret, M_ret. destruct b; [reflexivity|by apply Hf].
Qed.

Lemma moves_query {A} (f : Db → A) : moves (query f).
Proof. intros s. reflexivity. Qed.

Lemma moves_get : moves get_storage.
Proof. intros s. reflexivity. Qed.

Lemma moves_refuse_if b e : moves (refuse_if b e).
Proof. intros s. by destruct b. Qed.

Lemma moves_some_or {A} (o : option A) e : moves (some_or o e).
Proof. intros s. by destruct o. Qed.

Lemma moves_ok_or {X A} (r : X + A) e : moves (ok_or r e).
Proof. intros s. by destruct r. Qed.

Lemma moves_query_row {A} (f : Db → option A) : moves (query_row f).
Proof. apply moves_bind; [apply moves_query|intros o; apply moves_some_or]. Qed.

Lemma moves_for_each {A} (l : list A) body : (∀ x, moves (body x)) → moves (for_each l body).
Proof.
  intros Hb. induction l as [|x l IH]; simpl; [apply moves_ret|by apply moves_bind].
Qed.

Lemma moves_ok_for_each {A} (l : list A) body :
  (∀ x, moves_ok (body x)) → moves_ok (for_each l body).
Proof.
  intros Hb. induction l as [|x l IH]; simpl; [apply moves_moves_ok, moves_ret|by apply moves_ok_bind].
Qed.

Lemma moves_execute (f : Db → option Db) :
  (∀ d d', f d = Some d' → R d d') → moves (execute f).
Proof. intros Hf s. unfold execute. destruct (f (db s)) eqn:E; simpl; [by apply Hf|done]. Qed.

Lemma moves_new_v4 `{E : Externals} : moves new_v4.
Proof. intros s. reflexivity. Qed.

Lemma moves_new_token `{E : Externals} : moves new_token.
Proof. intros s. reflexivity. Qed.
End preorders.

(** The operations that leave the database alone. *)
Ltac moves_leaf :=
  first [ apply moves_ret | apply moves_fail | apply moves_query | apply moves_get
        | apply moves_refuse_if | apply moves_some_or | apply moves_ok_or | apply moves_query_row
        | apply moves_new_v4 | apply moves_new_token ]; apply _.

(** ** What surrounds the database *)

(** The operation leaves the quota, the emergency latch and the view of the filesystem alone. *)
Definition keeps_world {A} (m : M A) : Prop :=
  ∀ s, quota (m s).2 = quota s ∧ emergency (m s).2 = emergency s ∧ fs (m s).2 = fs s.

Lemma keeps_world_reads {A} (m : M A) : reads m → keeps_world m.
Proof. intros Hm s. by rewrite (Hm s). Qed.

Lemma keeps_world_bind {A B} (m : M A) (f : A → M B) :
  keeps_world m → (∀ a, keeps_world (f a)) → keeps_world (m ≫= f).
Proof.
  intros Hm Hf s. unfold mbind, M_bind. specialize (Hm s). destruct (m s) as [[e|a] s1]; [done|].
  destruct (Hf a s1) as (-> & -> & ->). done.
Qed.

Lemma keeps_world_execute f : keeps_world (execute f).
Proof. intros s. unfold execute. by destruct (f (db s)). Qed.

Lemma keeps_world_new_v4 `{E : Externals} : keeps_world new_v4.
Proof. done. Qed.

Lemma keeps_world_new_token `{E : Externals} : keeps_world new_token.
Proof. done. Qed.

Lemma keeps_world_transaction {A} (m : M A) : keeps_world m → keeps_world (transaction m).
Proof. intros Hm s. unfold transaction. specialize (Hm s). by destruct (m s) as [[e|a] s1]. Qed.

Lemma keeps_world_for_each {A} (l : list A) body : (∀ x, keeps_world (body x)) → keeps_world (for_each l body).
Proof. intros Hb. induction l; simpl; [done|by apply keeps_world_bind]. Qed.
