(* ===== verification/Tables.v ===== *)
(** * Statements on the tables ([storage.rs], the migrations)

    One definition per [INSERT] and [UPDATE] shape the storage uses, each with the
    constraints SQLite enforces on it: primary and unique keys, foreign keys,
    [CHECK]s, and the two triggers that make terminal tasks and attempts immutable.
    A statement that violates one of them is [None] and changes nothing. *)

From S2P Require Import Prelude Domain Externals Improvement Schema StoreMonad.

(** ** Row constraints *)

Definition between (lo x hi : Z) : bool := (lo <=? x) && (x <=? hi).

Definition terminal_tuple_check (t : Task) : bool :=
  if TaskState.is_terminal (t_state t) then
    bool_decide (t_result_version t = Some 1) && bool_decide (is_Some (t_terminal_event_seq t))
    && bool_decide (is_Some (t_terminal_at t))
  else
    bool_decide (t_result_version t = None) && bool_decide (t_terminal_event_seq t = None)
    && bool_decide (t_terminal_at t = None).

Definition task_check (t : Task) : bool :=
  between 0 (t_generation t) i64_max && between 0 (t_last_event_seq t) i64_max
  && between 0 (t_projection_event_seq t) (t_last_event_seq t)
  && between 0 (t_evicted_through_seq t) (t_last_event_seq t)
  && between 0 (t_priority t) 9 && terminal_tuple_check t.

Definition attempt_check (a : AttemptRow) : bool :=
  (0 <=? a_generation a) && (0 <? a_ordinal a) && (1 <=? a_config_version a).

Definition has_event (d : Db) (task_id : string) (seq : Z) : bool :=
  existsb (λ e, String.eqb (e_task_id e) task_id && (e_event_seq e =? seq)) (events d).

Definition has_row {K A} `{Countable K} (m : gmap K A) (k : K) : bool := bool_decide (is_Some (m !! k)).

(** No row of the table satisfies the predicate: a unique key is free. *)
Definition free_of {K A} `{Countable K} (p : K → A → bool) (m : gmap K A) : bool :=
  match select p m with [] => true | _ => false end.

Section statements.
Context `{E : Externals}.

(** ** Inserts *)

Definition insert_task (task_id : string) (t : Task) (d : Db) : option Db :=
  if negb (has_row (tasks d) task_id) && task_check t
  then Some (d <| tasks ::= <[task_id := t]> |>) else None.

Definition insert_event (e : Event) (d : Db) : option Db :=
  if has_row (tasks d) (e_task_id e) && (0 <? e_event_seq e) && (0 <=? e_generation e)
     && bool_decide (is_Some (json_from_str (e_payload e)))
     && negb (has_event d (e_task_id e) (e_event_seq e))
     && negb (existsb (λ x, String.eqb (e_event_id x) (e_event_id e)) (events d))
  then Some (d <| events ::= λ l, l ++ [e] |>) else None.

Definition insert_attempt (attempt_id : string) (a : AttemptRow) (d : Db) : option Db :=
  if negb (has_row (attempts d) attempt_id) && has_row (tasks d) (a_task_id a) && attempt_check a
     && free_of (λ _ x, String.eqb (a_task_id x) (a_task_id a) &&
                        ((a_generation x =? a_generation a) || (a_ordinal x =? a_ordinal a)))
                (attempts d)
  then Some (d <| attempts ::= <[attempt_id := a]> |>) else None.

Definition insert_interaction (interaction_id : string) (i : InteractionRow) (d : Db) : option Db :=
  if negb (has_row (pending_interactions d) interaction_id)
     && free_of (λ _ x, String.eqb (i_nonce x) (i_nonce i)) (pending_interactions d)
     && is_some_and (λ a, String.eqb (a_task_id a) (i_task_id i) && (a_generation a =? i_generation i))
                    (attempts d !! i_attempt_id i)
  then Some (d <| pending_interactions ::= <[interaction_id := i]> |>) else None.

Definition insert_response (interaction_id : string) (r : ResponseRow) (d : Db) : option Db :=
  if negb (has_row (interaction_responses d) interaction_id)
     && has_row (pending_interactions d) interaction_id
  then Some (d <| interaction_responses ::= <[interaction_id := r]> |>) else None.

Definition insert_result (task_id : string) (r : ResultRow) (d : Db) : option Db :=
  if negb (has_row (results d) task_id) && has_row (tasks d) task_id
     && free_of (λ _ x, String.eqb (res_result_id x) (res_result_id r)) (results d)
     && has_event d task_id (res_terminal_event_seq r)
  then Some (d <| results ::= <[task_id := r]> |>) else None.

Definition insert_outbox (consumer_id task_id : string) (o : OutboxRow) (d : Db) : option Db :=
  if negb (has_row (result_outbox d) (consumer_id, task_id))
     && free_of (λ k x, String.eqb k.1 consumer_id && String.eqb (ob_result_id x) (ob_result_id o))
                (result_outbox d)
     && (char_count (ob_ack_token o) =? 64) && has_row (results d) task_id
     && has_event d task_id (ob_terminal_event_seq o)
  then Some (d <| result_outbox ::= <[(consumer_id, task_id) := o]> |>) else None.

Definition insert_review (review_id : string) (r : ReviewRow) (d : Db) : option Db :=
  if negb (has_row (reviews d) review_id)
     && free_of (λ _ x, String.eqb (rv_consumer_id x) (rv_consumer_id r)
                        && String.eqb (rv_task_id x) (rv_task_id r)) (reviews d)
     && has_row (results d) (rv_task_id r)
  then Some (d <| reviews ::= <[review_id := r]> |>) else None.

Definition insert_command (consumer_id method command_key : string) (c : CommandRow) (d : Db)
  : option Db :=
  if negb (has_row (command_dedup d) (consumer_id, method, command_key))
  then Some (d <| command_dedup ::= <[(consumer_id, method, command_key) := c]> |>) else None.

Definition insert_operation (operation_id : string) (o : OperationRow) (d : Db) : option Db :=
  if negb (has_row (internal_operations d) operation_id) && has_row (tasks d) (op_task_id o)
     && (0 <=? op_generation o)
  then Some (d <| internal_operations ::= <[operation_id := o]> |>) else None.

Definition insert_request (task_id : string) (r : RequestRow) (d : Db) : option Db :=
  if negb (has_row (task_requests d) task_id) && has_row (tasks d) task_id
     && (char_count (rq_request_digest r) =? 64) && (0 <? rq_byte_length r)
  then Some (d <| task_requests ::= <[task_id := r]> |>) else None.

Definition insert_audit (a : AuditRow) (d : Db) : option Db :=
  Some (d <| audit_log ::= λ l, l ++ [a] |>).

(** ** Updates *)

(** [UPDATE tasks SET .. WHERE task_id=? AND <where_>]; [guarded] when the [SET] list names
    a column of the trigger [terminal_tasks_are_immutable]. *)
Definition update_task (guarded : bool) (task_id : string) (where_ : Task → bool) (f : Task → Task)
    (d : Db) : option Db :=
  match tasks d !! task_id with
  | Some t =>
      if where_ t then
        if (guarded && TaskState.is_terminal (t_state t)) || negb (task_check (f t)) then None
        else Some (d <| tasks ::= <[task_id := f t]> |>)
      else Some d
  | None => Some d
  end.

(** [UPDATE attempts SET .. WHERE <where_>]; [guarded] when the [SET] list names a column
    of the trigger [terminal_attempts_are_immutable]. *)
Definition update_attempts (guarded : bool) (where_ : string → AttemptRow → bool)
    (f : AttemptRow → AttemptRow) (d : Db) : option Db :=
  if forallb (λ kv, negb (guarded && AttemptState.is_terminal (a_state kv.2)) && attempt_check (f kv.2))
             (select where_ (attempts d))
  then Some (d <| attempts ::= map_imap (λ k a, Some (if where_ k a then f a else a)) |>)
  else None.

(** [WHERE task_id=? AND generation=?] on attempts *)
Definition attempt_is (task_id : string) (generation : Z) (_ : string) (a : AttemptRow) : bool :=
  String.eqb (a_task_id a) task_id && (a_generation a =? generation).

Definition update_interactions (where_ : string → InteractionRow → bool)
    (f : InteractionRow → InteractionRow) (d : Db) : option Db :=
  Some (d <| pending_interactions ::=
          map_imap (λ k i, Some (if where_ k i then f i else i)) |>).

Definition update_outbox (consumer_id task_id : string) (now_us : Z) (review_id : string) (d : Db)
  : option Db :=
  match result_outbox d !! (consumer_id, task_id) with
  | Some o =>
      if has_row (reviews d) review_id
         && free_of (λ _ x, bool_decide (ob_review_id x = Some review_id)) (result_outbox d)
      then Some (d <| result_outbox ::= <[(consumer_id, task_id) :=
                   o <| ob_acked_at := Some now_us |> <| ob_review_id := Some review_id |>]> |>)
      else None
  | None => Some d
  end.

Definition update_worktrees (task_id : string) (f : WorktreeRow → WorktreeRow) (d : Db) : option Db :=
  Some (d <| worktrees ::= fmap (λ w, if String.eqb (w_task_id w) task_id then f w else w) |>).

Definition update_blob_refs (owners : list string) (eligible_at : Z) (d : Db) : option Db :=
  Some (d <| blob_refs ::= map_imap (λ k b,
          Some (if bool_decide (k.1.2 ∈ owners) then b <| br_eligible_at := Some eligible_at |> else b)) |>).

Definition update_operation_locator (operation_id from to : string) (d : Db) : option Db :=
  Some (d <| internal_operations ::= alter (λ o,
          if String.eqb (op_response_locator o) from then o <| op_response_locator := to |> else o)
          operation_id |>).

(** [bump_mutation_epoch] *)
Definition bump_mutation_epoch (now_us : Z) : M unit :=
  execute (λ d, Some (d <| storage_meta ::= λ m,
    m <| mutation_epoch ::= Z.add 1 |> <| meta_updated_at ::= Z.max now_us |> |>)).

(** ** Events *)

(** [append_event]: the next sequence number is taken from the task row. *)
Definition append_event (task_id : string) (generation : Z) (kind payload : string) (now : Z)
  : M Z :=
  t ← query_row (λ d, tasks d !! task_id);
  let seq := t_last_event_seq t + 1 in
  execute (update_task false task_id (λ _, true)
    (λ t, t <| t_last_event_seq := seq |> <| t_projection_event_seq := seq |>));;
  event_id ← new_v4;
  execute (insert_event (mkEvent task_id seq event_id generation kind payload now));;
  mret seq.

Definition state_event_payload (state : string) : string :=
  json_to_string (json_object [("state", VString state)]).

Definition terminal_event_payload (state result_id : string) : string :=
  json_to_string (json_object [("state", VString state); ("result_id", VString result_id)]).

Definition interaction_requested_event_payload (interaction_id : string) : string :=
  json_to_string (json_object [("interaction_id", VString interaction_id)]).

Definition interaction_decided_event_payload (interaction_id status : string)
    (response_kind : option InteractionResponseKind) : string :=
  json_to_string (json_object
    match response_kind with
    | Some response_kind =>
        [("interaction_id", VString interaction_id); ("status", VString status);
         ("response_kind", VString (InteractionResponseKind.as_str response_kind))]
    | None => [("interaction_id", VString interaction_id); ("status", VString status)]
    end).

(** ** Idempotency records *)

(** [command_replay] *)
Definition command_replay (consumer_id method command_key request_digest : string)
  : M (option string) :=
  row ← query (λ d, command_dedup d !! (consumer_id, method, command_key));
  match row with
  | Some c =>
      if String.eqb (cd_request_digest c) request_digest then mret (Some (cd_response_locator c))
      else fail ErrIdempotencyConflict
  | None => mret None
  end.

(** [store_command] *)
Definition store_command (consumer_id method command_key request_digest response_locator : string)
    (now_us : Z) : M unit :=
  execute (insert_command consumer_id method command_key
             (mkCommandRow request_digest response_locator now_us)).

(** [internal_operation_replay] *)
Definition internal_operation_replay (operation_id operation_digest : string) : M (option string) :=
  row ← query (λ d, internal_operations d !! operation_id);
  match row with
  | Some o =>
      if String.eqb (op_digest o) operation_digest then mret (Some (op_response_locator o))
      else fail ErrIdempotencyConflict
  | None => mret None
  end.

(** [INSERT INTO internal_operations] *)
Definition store_operation (operation_id operation_digest task_id : string) (generation : Z)
    (kind response_locator : string) (now_us : Z) : M unit :=
  execute (insert_operation operation_id
    (mkOperationRow operation_digest task_id generation kind response_locator now_us)).
End statements.
