(* ===== verification/TaskStore.v ===== *)
(** * Task operations of the storage writer ([storage.rs])

    Admission and idempotent submission, attempts, the dispatch claim with its
    occupancy check, dispatch phases, adapter events, transitions, cancellation,
    safe retry and finalization.  Each operation is the whole handler: its fences,
    its replay path, its statements in their order and its commit. *)

From S2P Require Import Prelude Domain Externals Scheduler Improvement Schema StoreMonad Tables.

Definition MAX_SAFE_TIME_US : Z := 9007199254740991000.
Definition MAX_CANONICAL_TASK_REQUEST_BYTES : Z := 1024 * 1024.
Definition TASK_SUBMISSION_ROW_OVERHEAD_BYTES : Z := 4096.
Definition DAY_US : Z := 86400000000.

(** What the improvement component promises to the storage operations: the durable
    engine, or the error that quarantines it.  [EngineStore.v] has the implementation. *)
Class ImprovementStore := load_improvement_engine : Db → StorageError + option ImprovementEngine.

(** The engine is read from its own tables. *)
Class ImprovementStoreOk (Store : ImprovementStore) :=
  load_frame : ∀ d d', improvement d' = improvement d →
    load_improvement_engine d' = load_improvement_engine d.

(** ** Values returned to callers *)

Record Submission := mkSubmission { sub_task_id : string; sub_replayed : bool }.

Record ResultDelivery := mkDelivery {
  del_task_id : string;
  del_result_id : string;
  del_result_version : Z;
  del_ack_token : string;
  del_terminal_event_seq : Z;
  del_terminal_state : string;
}.

Record Attempt := mkAttempt {
  at_attempt_id : string;
  at_task_id : string;
  at_generation : Z;
  at_ordinal : Z;
}.

Record AttemptSpec := mkSpec {
  effect_profile : string;
  isolation_level : string;
  retry_class : string;
  adapter_instance_id : string;
  adapter_version : string;
  config_version : Z;
  spec_config_digest : string;
  worktree_id : option string;
}.

Record DispatchBlocked := mkBlocked {
  bl_reason : DispatchBlockReason;
  bl_global_limit : Z;
  bl_global_occupied : Z;
  bl_per_adapter_limit : Z;
  bl_adapter_occupied : Z;
  bl_adapter_instance_id : string;
}.

Inductive DispatchOutcome :=
  | Dispatched (attempt : Attempt)
  | Blocked (blocked : DispatchBlocked).

(** ** Admission fences *)

Definition validate_quota (self : QuotaPolicy) : StorageError + QuotaPolicy :=
  let minimum := Z.max (64 * 1024 * 1024) (8 * 1024 * 1024 * max_global_concurrency self) in
  let maximum := Z.min (512 * 1024 * 1024) (quota_bytes self / 10) in
  if (quota_bytes self =? 0) || (reserve_bytes self <? minimum) || (maximum <? reserve_bytes self)
  then inl ErrQuotaExceeded else inr self.

Definition wal_bytes (s : Storage) : Z := default 0 (wal_len (fs s)).

Definition ensure_mutation_allowed (emergency_safe : bool) : M unit :=
  s ← get_storage;
  refuse_if (negb (bool_decide (emergency s = EmNormal)) && negb emergency_safe) ErrStorageEmergency;;
  refuse_if (negb emergency_safe && (128 * 1024 * 1024 <=? wal_bytes s)) ErrWalPressure.

Definition ensure_capacity (declared_maximum : Z) : M unit :=
  s ← get_storage;
  match quota s with
  | None => mret tt
  | Some policy =>
      used ← some_or (allocated_bytes (fs s)) ErrIo;
      free ← some_or (free_bytes (fs s)) ErrIo;
      refuse_if ((u64_saturating_sub (quota_bytes policy) (reserve_bytes policy) <?
                    u64_saturating_add used declared_maximum)
                 || (u64_saturating_sub free declared_maximum <? reserve_bytes policy))
                ErrQuotaExceeded
  end.

(** ** Occupancy *)

(** The [WHERE] of [OCCUPANCY_SQL]: the attempt of the task's current generation holds a slot. *)
Definition holds_slot (d : Db) (a : AttemptRow) : bool :=
  match tasks d !! a_task_id a with
  | None => false
  | Some t =>
      (t_generation t =? a_generation a)
      && (bool_decide (t_state t ∈ [Preparing; Running; Finalizing; CancelRequested])
          || (bool_decide (t_state t = WaitingApproval)
              && bool_decide (a_dispatch_phase a ∈ [ProcessStarted; ProviderObserved])))
  end.

Definition occupying (d : Db) : list (string * AttemptRow) :=
  select (λ _ a, holds_slot d a) (attempts d).

(** [OCCUPANCY_SQL] grouped by adapter *)
Definition occupancy_rows (d : Db) : gmap string Z :=
  List.fold_left (λ counts kv, partial_alter (λ n, Some (default 0 n + 1)) (a_adapter_instance_id kv.2) counts)
    (occupying d) ∅.

(** [read_occupancy]: the counts are added up with [u32] overflow checks. *)
Definition read_occupancy : M Occupancy :=
  rows ← query occupancy_rows;
  refuse_if (existsb (λ kv, u32_max <? kv.2) (map_to_list rows)) (ErrQuarantined "occupancy count overflow");;
  let total := List.fold_left Z.add (map_to_list rows).*2 0 in
  refuse_if (u32_max <? total) (ErrQuarantined "occupancy overflow");;
  mret (mkOccupancy total rows).

Section operations.
Context `{E : Externals} `{Store : ImprovementStore}.

(** ** Loading and verification helpers *)

Definition load_attempt (attempt_id : string) : M Attempt :=
  a ← query_row (λ d, attempts d !! attempt_id);
  mret (mkAttempt attempt_id (a_task_id a) (a_generation a) (a_ordinal a)).

Definition verify_attempt_assignment (task_id : string) (spec : AttemptSpec) : M unit :=
  assignment ← query (λ d, canary_assignments (improvement d) !! task_id);
  match assignment with
  | None => mret tt
  | Some assignment =>
      refuse_if (negb (ca_config_version assignment =? config_version spec)
                 || negb (String.eqb (ca_config_digest assignment) (spec_config_digest spec)))
                ErrIdempotencyConflict;;
      loaded ← query load_improvement_engine;
      engine ← match loaded with
               | inl e => fail e
               | inr engine => some_or engine
                   (ErrQuarantined "improvement engine missing for canary assignment")
               end;
      case ← some_or (cases engine !! ca_case_id assignment) (ErrQuarantined "canary case missing");
      refuse_if (negb (String.eqb (co_adapter_instance_id (k_cohort case)) (adapter_instance_id spec))
                 || negb (String.eqb (co_adapter_version (k_cohort case)) (adapter_version spec)))
                ErrIdempotencyConflict
  end.

Definition verify_existing_attempt_config (attempt_id : string) (spec : AttemptSpec) : M unit :=
  a ← query_row (λ d, attempts d !! attempt_id);
  refuse_if (negb (String.eqb (a_adapter_instance_id a) (adapter_instance_id spec))
             || negb (String.eqb (a_adapter_version a) (adapter_version spec))
             || negb (a_config_version a =? config_version spec)
             || negb (String.eqb (a_config_digest a) (spec_config_digest spec)))
            ErrIdempotencyConflict.

Definition verify_task_request (task_id digest expected_bytes : string) : M unit :=
  row ← query (λ d, task_requests d !! task_id);
  match row with
  | None =>
      compacted ← query (λ d, tb_request_digest <$> task_tombstones d !! task_id);
      if bool_decide (compacted = Some digest) && String.eqb (sha256_hex expected_bytes) digest
      then mret tt
      else fail (ErrQuarantined "missing canonical task request")
  | Some r =>
      refuse_if (negb (String.eqb (rq_request_digest r) digest)
                 || negb (String.eqb (rq_request_bytes r) expected_bytes)
                 || negb (rq_byte_length r =? str_len (rq_request_bytes r))
                 || negb (String.eqb (sha256_hex (rq_request_bytes r)) digest))
                (ErrQuarantined "canonical task request integrity mismatch")
  end.

Definition load_delivery (consumer_id result_id : string) : M ResultDelivery :=
  query_row (λ d,
    '((_, task_id), o) ← head (select (λ k o, String.eqb k.1 consumer_id
                                              && String.eqb (ob_result_id o) result_id)
                                      (result_outbox d));
    t ← tasks d !! task_id;
    Some (mkDelivery task_id (ob_result_id o) 1 (ob_ack_token o) (ob_terminal_event_seq o)
            (TaskState.as_str (t_state t)))).

(** ** Submission *)

Definition new_task (request_digest : string) (retry_of_task_id : option string) (priority : Z)
    (adapter : string) (now_us : Z) : Task :=
  mkTask request_digest retry_of_task_id Queued 0 0 0 0 None None None None None now_us now_us
    priority adapter.

Definition is_terminal (state : string) : bool :=
  String.eqb state "SUCCEEDED" || String.eqb state "FAILED" || String.eqb state "CANCELLED"
  || String.eqb state "NEEDS_ATTENTION".

(** The state a retried task ended in: its row, or else its tombstone. *)
Definition parent_state (d : Db) (parent : string) : option string :=
  match tasks d !! parent with
  | Some t => Some (TaskState.as_str (t_state t))
  | None => tb_terminal_state <$> task_tombstones d !! parent
  end.

Definition submit_inner (consumer_id method command_key request_digest : string)
    (canonical_request : option string) (declared_maximum : Z) (task_id : string)
    (retry_of_task_id : option string) (priority : Z) (adapter : option string) (now_us : Z)
  : M Submission :=
  stored_adapter ← match adapter with
                   | None | Some "" => mret ""
                   | Some value =>
                       match parse_adapter_instance_id value with
                       | inl _ => fail ErrInvalidRequest
                       | inr _ => mret value
                       end
                   end;
  replay ← transaction (
    row ← query (λ d, command_dedup d !! (consumer_id, method, command_key));
    match row with
    | None => mret None
    | Some c =>
        refuse_if (negb (String.eqb (cd_request_digest c) request_digest)) ErrIdempotencyConflict;;
        match canonical_request with
        | Some bytes => verify_task_request (cd_response_locator c) request_digest bytes
        | None => mret tt
        end;;
        mret (Some (mkSubmission (cd_response_locator c) true))
    end);
  match replay with
  | Some submission => mret submission
  | None =>
      ensure_mutation_allowed false;;
      ensure_capacity declared_maximum;;
      transaction (
        existing ← query (λ d, tasks d !! task_id);
        refuse_if (bool_decide (is_Some existing)) ErrIdempotencyConflict;;
        match retry_of_task_id with
        | None => mret tt
        | Some parent =>
            terminal ← query (λ d, parent_state d parent);
            refuse_if (negb (is_some_and is_terminal terminal)) ErrTerminalImmutable
        end;;
        execute (insert_task task_id
                   (new_task request_digest retry_of_task_id priority stored_adapter now_us));;
        match canonical_request with
        | Some bytes => execute (insert_request task_id
                          (mkRequestRow request_digest bytes (str_len bytes) now_us))
        | None => mret tt
        end;;
        append_event task_id 0 "state_changed" (state_event_payload "QUEUED") now_us;;
        store_command consumer_id method command_key request_digest task_id now_us;;
        bump_mutation_epoch now_us;;
        mret (mkSubmission task_id false))
  end.

Definition submit_with_request (consumer_id method command_key canonical_request task_id : string)
    (retry_of_task_id : option string) (priority : Z) (adapter : option string) (now_us : Z)
  : M Submission :=
  refuse_if (String.eqb canonical_request ""
             || (MAX_CANONICAL_TASK_REQUEST_BYTES <? str_len canonical_request)) ErrInvalidRequest;;
  let declared := str_len canonical_request + TASK_SUBMISSION_ROW_OVERHEAD_BYTES in
  submit_inner consumer_id method command_key (sha256_hex canonical_request)
    (Some canonical_request) declared task_id retry_of_task_id priority adapter now_us.

(** ** Attempts *)

(** The row [begin_attempt_with_spec] and [claim_dispatch_slot] insert. *)
Definition new_attempt_row (task_id : string) (generation ordinal : Z) (spec : AttemptSpec)
    (now_us : Z) : AttemptRow :=
  mkAttemptRow task_id generation ordinal APreparing PreDispatch None None
    (effect_profile spec) (isolation_level spec) (retry_class spec) (adapter_instance_id spec)
    (adapter_version spec) (config_version spec) (spec_config_digest spec) (worktree_id spec)
    None None now_us now_us None.

Definition attempt_started_payload (attempt_id : string) (ordinal : Z) : string :=
  json_to_string (json_object [("attempt_id", VString attempt_id);
                               ("ordinal", VNumber (NInt ordinal))]).

Definition begin_attempt_with_spec (consumer_id command_key request_digest task_id : string)
    (generation : Z) (spec : AttemptSpec) (now_us : Z) : M Attempt :=
  ensure_mutation_allowed false;;
  transaction (
    verify_attempt_assignment task_id spec;;
    replay ← command_replay consumer_id "begin_attempt" command_key request_digest;
    match replay with
    | Some locator =>
        attempt ← load_attempt locator;
        verify_existing_attempt_config (at_attempt_id attempt) spec;;
        mret attempt
    | None =>
        t ← query_row (λ d, tasks d !! task_id);
        ordinal ← query (λ d, max_ordinal d task_id + 1);
        refuse_if (negb (t_generation t =? generation)
                   || negb (bool_decide (t_state t ∈ [Queued; RetryWait]))) ErrStaleGeneration;;
        attempt_id ← new_v4;
        execute (insert_attempt attempt_id (new_attempt_row task_id generation ordinal spec now_us));;
        execute (update_task true task_id (λ t, t_generation t =? generation)
          (λ t, t <| t_state := Preparing |> <| t_updated_at := now_us |>));;
        append_event task_id generation "attempt_started"
          (attempt_started_payload attempt_id ordinal) now_us;;
        store_command consumer_id "begin_attempt" command_key request_digest attempt_id now_us;;
        bump_mutation_epoch now_us;;
        mret (mkAttempt attempt_id task_id generation ordinal)
    end).

(** ** The dispatch claim *)

Definition claim_digest (task_id : string) (generation : Z) (spec : AttemptSpec) : string :=
  digest_fields [task_id; pretty generation; adapter_instance_id spec; adapter_version spec;
    pretty (config_version spec); spec_config_digest spec; effect_profile spec;
    isolation_level spec; retry_class spec; default "" (worktree_id spec)].

(** The guards both claims start with. *)
Definition claim_arguments_ok (operation_id : string) (spec : AttemptSpec)
    (limits : SchedulerLimits) (now_us : Z) : M unit :=
  refuse_if (negb (between 0 now_us MAX_SAFE_TIME_US) || String.eqb operation_id "") ErrInvalidRequest;;
  ok_or (validate_limits limits) ErrInvalidRequest;;
  ok_or (parse_adapter_instance_id (adapter_instance_id spec)) ErrInvalidRequest;;
  mret tt.

(** Returns the attempt a replayed operation created. *)
Definition replayed_attempt (locator : string) (spec : AttemptSpec) : M DispatchOutcome :=
  attempt ← load_attempt locator;
  verify_existing_attempt_config (at_attempt_id attempt) spec;;
  mret (Dispatched attempt).

Definition claim_ready (t : Task) (now_us : Z) : bool :=
  match t_state t with
  | Queued => true
  | RetryWait => is_none_or (λ at_, at_ <=? now_us) (t_retry_at t)
  | _ => false
  end.

(** The reservation: the new attempt, the task in [PREPARING], the event and the record. *)
Definition reserve_slot (operation_id operation_digest task_id : string) (generation : Z)
    (spec : AttemptSpec) (now_us : Z) : M DispatchOutcome :=
  ordinal ← query (λ d, max_ordinal d task_id + 1);
  attempt_id ← new_v4;
  execute (insert_attempt attempt_id (new_attempt_row task_id generation ordinal spec now_us));;
  execute (update_task true task_id
    (λ t, (t_generation t =? generation) && bool_decide (t_state t ∈ [Queued; RetryWait]))
    (λ t, t <| t_state := Preparing |> <| t_adapter_instance_id := adapter_instance_id spec |>
            <| t_updated_at := now_us |>));;
  append_event task_id generation "attempt_started" (attempt_started_payload attempt_id ordinal) now_us;;
  store_operation operation_id operation_digest task_id generation "claim_dispatch_slot" attempt_id now_us;;
  bump_mutation_epoch now_us;;
  mret (Dispatched (mkAttempt attempt_id task_id generation ordinal)).

Definition claim_dispatch_slot (operation_id task_id : string) (generation : Z) (spec : AttemptSpec)
    (limits : SchedulerLimits) (now_us : Z) : M DispatchOutcome :=
  claim_arguments_ok operation_id spec limits now_us;;
  ensure_mutation_allowed false;;
  let operation_digest := claim_digest task_id generation spec in
  let blocked reason global_occupied adapter_occupied :=
    mret (Blocked (mkBlocked reason (l_global limits) global_occupied (l_per_adapter limits)
                     adapter_occupied (adapter_instance_id spec))) in
  transaction (
    verify_attempt_assignment task_id spec;;
    replay ← internal_operation_replay operation_id operation_digest;
    match replay with
    | Some locator => replayed_attempt locator spec
    | None =>
        row ← query (λ d, tasks d !! task_id);
        t ← some_or row ErrStaleGeneration;
        refuse_if (negb (t_generation t =? generation)) ErrStaleGeneration;;
        if negb (claim_ready t now_us) then
          if bool_decide (t_state t = RetryWait) then blocked RetryTimerPending 0 0
          else fail ErrStaleGeneration
        else
          refuse_if (negb (String.eqb (t_adapter_instance_id t) "")
                     && negb (String.eqb (t_adapter_instance_id t) (adapter_instance_id spec)))
                    ErrStaleGeneration;;
          occupancy ← read_occupancy;
          let adapter_occupied := occupied occupancy (adapter_instance_id spec) in
          if l_global limits <=? occ_global occupancy then
            blocked GlobalLimit (occ_global occupancy) adapter_occupied
          else if l_per_adapter limits <=? adapter_occupied then
            blocked AdapterLimit (occ_global occupancy) adapter_occupied
          else reserve_slot operation_id operation_digest task_id generation spec now_us
    end).

(** ** Re-reserving an answered preflight approval *)

Definition reclaim_digest (task_id : string) (generation : Z) (spec : AttemptSpec) : string :=
  digest_fields [task_id; pretty generation; adapter_instance_id spec; adapter_version spec;
    pretty (config_version spec); spec_config_digest spec; default "" (worktree_id spec);
    "reclaim_preflight"].

(** The latest answered interactions of a task with their response, newest first. *)
Definition answered_responses (d : Db) (task_id : string) (generation : Z)
  : list (string * InteractionRow * ResponseRow) :=
  omap (λ kv, (λ r, (kv.1, kv.2, r)) <$> interaction_responses d !! kv.1)
    (sort_by (λ x y, match Z.compare (i_updated_at y.2) (i_updated_at x.2) with
                     | Lt => true
                     | Gt => false
                     | Eq => String.leb x.1 y.1
                     end)
      (select (λ _ i, String.eqb (i_task_id i) task_id && (i_generation i =? generation)
                      && bool_decide (i_state i = IAnswered)) (pending_interactions d))).

Definition approved (d : Db) (task_id : string) (generation : Z) : bool :=
  existsb (λ x, bool_decide (r_response_kind x.2 = Some "approve")) (answered_responses d task_id generation).

(** Both rows of the generation move from one state to the other, with an event. *)
Definition move_task_and_attempts (task_id : string) (generation : Z) (from : TaskState)
    (afrom : AttemptState) (to : TaskState) (ato : AttemptState) (now_us : Z) : M unit :=
  execute (update_task true task_id
    (λ t, (t_generation t =? generation) && bool_decide (t_state t = from))
    (λ t, t <| t_state := to |> <| t_updated_at := now_us |>));;
  execute (update_attempts true
    (λ k a, attempt_is task_id generation k a && bool_decide (a_state a = afrom))
    (λ a, a <| a_state := ato |> <| a_updated_at := now_us |>));;
  append_event task_id generation "state_changed" (state_event_payload (TaskState.as_str to)) now_us;;
  mret tt.

Definition reclaim_preflight_dispatch_slot (operation_id task_id : string) (generation : Z)
    (spec : AttemptSpec) (limits : SchedulerLimits) (now_us : Z) : M DispatchOutcome :=
  claim_arguments_ok operation_id spec limits now_us;;
  ensure_mutation_allowed false;;
  let operation_digest := reclaim_digest task_id generation spec in
  transaction (
    verify_attempt_assignment task_id spec;;
    replay ← internal_operation_replay operation_id operation_digest;
    match replay with
    | Some locator => replayed_attempt locator spec
    | None =>
        row ← query (λ d, t ← tasks d !! task_id;
                          '(id, a) ← head (attempts_at d task_id (t_generation t));
                          Some (t, id, a));
        '(t, attempt_id, a) ← some_or row ErrStaleGeneration;
        refuse_if (negb (t_generation t =? generation)
                   || negb (bool_decide (t_state t ∈ [Running; WaitingApproval]))
                   || negb (String.eqb (a_adapter_instance_id a) (adapter_instance_id spec))
                   || negb (String.eqb (a_adapter_version a) (adapter_version spec))
                   || negb (a_config_version a =? config_version spec)
                   || negb (String.eqb (a_config_digest a) (spec_config_digest spec))
                   || negb (bool_decide (a_dispatch_phase a ∈ [PreDispatch; SpawnPrepared])))
                  ErrStaleGeneration;;
        answered ← query (λ d, approved d task_id generation);
        refuse_if (negb answered) ErrStaleGeneration;;
        occupancy ← read_occupancy;
        let self_occupies := bool_decide (t_state t = Running) in
        let adapter_occupied := occupied occupancy (adapter_instance_id spec) in
        let global_blocked :=
          if self_occupies then l_global limits <? occ_global occupancy
          else l_global limits <=? occ_global occupancy in
        let adapter_blocked :=
          if self_occupies then l_per_adapter limits <? adapter_occupied
          else l_per_adapter limits <=? adapter_occupied in
        if global_blocked || adapter_blocked then
          (if self_occupies then
             move_task_and_attempts task_id generation Running ARunning WaitingApproval
               AWaitingApproval now_us;;
             bump_mutation_epoch now_us
           else mret tt);;
          mret (Blocked (mkBlocked (if global_blocked then GlobalLimit else AdapterLimit)
            (l_global limits) (occ_global occupancy) (l_per_adapter limits) adapter_occupied
            (adapter_instance_id spec)))
        else
          (if negb self_occupies then
             move_task_and_attempts task_id generation WaitingApproval AWaitingApproval Running
               ARunning now_us
           else mret tt);;
          attempt ← load_attempt attempt_id;
          store_operation operation_id operation_digest task_id generation
            "reclaim_preflight_slot" (at_attempt_id attempt) now_us;;
          bump_mutation_epoch now_us;;
          mret (Dispatched attempt)
    end).
End operations.
