(* ===== verification/Lifecycle.v ===== *)
(** * Lifecycle operations of the storage writer ([storage.rs])

    Dispatch phases, adapter events, resumable sessions, transitions, cancellation,
    safe retry and finalization of a task that has been admitted. *)

From S2P Require Import Prelude Domain Externals Scheduler Improvement Schema StoreMonad Tables.
From S2P Require Import TaskStore.

(** ** Joins *)

(** [FROM attempts a JOIN tasks t .. WHERE a.task_id=? AND a.generation=? AND t.generation=?
    AND t.state IN (..)] *)
Definition live_attempt (task_id : string) (generation : Z) (states : list TaskState) (d : Db)
  : option (string * AttemptRow) :=
  t ← tasks d !! task_id;
  if (t_generation t =? generation) && bool_decide (t_state t ∈ states)
  then head (attempts_at d task_id generation) else None.

(** [SELECT .. FROM tasks WHERE task_id=? AND generation=?] *)
Definition task_at (task_id : string) (generation : Z) (d : Db) : option Task :=
  t ← tasks d !! task_id; if t_generation t =? generation then Some t else None.

Definition process_phase (phase : DispatchPhase) : bool :=
  bool_decide (phase ∈ [ProcessStarted; ProviderObserved]).

Definition live_event_kind (kind : string) : bool :=
  bool_decide (kind ∈ ["text_delta"; "warning"; "protocol_error"; "usage"; "tool_proposal"]).

Section operations.
Context `{E : Externals}.

(** ** Dispatch phases *)

Definition phase_digest (task_id : string) (generation : Z) (phase : DispatchPhase)
    (process_receipt : option string) : string :=
  digest_fields [task_id; pretty generation; DispatchPhase.as_str phase; default "" process_receipt].

(** The attempts [record_dispatch_phase] updates. *)
Definition phase_target (task_id : string) (generation : Z) (d : Db) (k : string) (a : AttemptRow) : bool :=
  attempt_is task_id generation k a && negb (AttemptState.is_terminal (a_state a))
  && is_some_and (λ t, (t_generation t =? generation) && bool_decide (t_state t ∈ [Preparing; Running]))
                 (tasks d !! a_task_id a).

Definition record_dispatch_phase (operation_id task_id : string) (generation : Z)
    (phase : DispatchPhase) (process_receipt : option string) (now_us : Z) : M bool :=
  ensure_mutation_allowed true;;
  let operation_digest := phase_digest task_id generation phase process_receipt in
  transaction (
    replay ← internal_operation_replay operation_id operation_digest;
    match replay with
    | Some _ => mret true
    | None =>
        row ← query (live_attempt task_id generation [Preparing; Running]);
        '(_, a) ← some_or row ErrStaleGeneration;
        refuse_if (negb (DispatchPhase.can_advance_to (a_dispatch_phase a) phase)) ErrStaleGeneration;;
        d ← query id;
        let target := phase_target task_id generation d in
        let changed := Z.of_nat (length (select target (attempts d))) in
        execute (update_attempts true target
          (λ a, a <| a_dispatch_phase := phase |>
                  <| a_process_receipt ::= λ old, match process_receipt with Some r => Some r | None => old end |>
                  <| a_state ::= λ old, if process_phase phase then ARunning else old |>
                  <| a_updated_at := now_us |>));;
        refuse_if (negb (changed =? 1)) ErrStaleGeneration;;
        (if process_phase phase then
           execute (update_task true task_id
             (λ t, (t_generation t =? generation) && bool_decide (t_state t = Preparing))
             (λ t, t <| t_state := Running |> <| t_updated_at := now_us |>))
         else mret tt);;
        append_event task_id generation "dispatch_phase"
          (json_to_string (json_object [("phase", VString (DispatchPhase.as_str phase))])) now_us;;
        store_operation operation_id operation_digest task_id generation "dispatch_phase" "" now_us;;
        bump_mutation_epoch now_us;;
        mret false
    end).

(** ** Adapter events *)

Definition record_adapter_event (operation_id task_id : string) (generation : Z) (kind : string)
    (payload : Value) (now_us : Z) : M Z :=
  refuse_if (negb (live_event_kind kind)) ErrInvalidRequest;;
  refuse_if (negb (bool_decide (is_Some (as_object payload)))) ErrInvalidRequest;;
  ensure_mutation_allowed true;;
  let payload_text := json_to_string payload in
  let operation_digest := digest_fields [task_id; pretty generation; kind; payload_text] in
  transaction (
    replay ← internal_operation_replay operation_id operation_digest;
    match replay with
    | Some locator => some_or (parse_i64 locator) (ErrQuarantined "adapter event replay locator")
    | None =>
        t ← query (task_at task_id generation);
        refuse_if (negb (is_some_and (λ t, bool_decide (t_state t ∈
          [Preparing; Running; WaitingApproval; CancelRequested; Finalizing])) t)) ErrStaleGeneration;;
        seq ← append_event task_id generation kind payload_text now_us;
        store_operation operation_id operation_digest task_id generation "adapter_event" (pretty seq) now_us;;
        bump_mutation_epoch now_us;;
        mret seq
    end).

(** ** Resumable sessions *)

Definition resume_proof (a : AttemptRow) (capability_digest : string) : string :=
  digest_fields [a_adapter_instance_id a; a_adapter_version a; a_config_digest a; capability_digest].

Definition record_resumable_session (task_id : string) (generation : Z)
    (provider_session capability_digest : string) (now_us : Z) : M unit :=
  ensure_mutation_allowed true;;
  transaction (
    '(_, a) ← query_row (λ d, head (attempts_at d task_id generation));
    refuse_if (bool_decide (a_process_receipt a = None)
               || negb (bool_decide (a_dispatch_phase a = ProviderObserved))
               || String.eqb provider_session "" || String.eqb capability_digest "") ErrStaleGeneration;;
    let proof := resume_proof a capability_digest in
    let target k a := attempt_is task_id generation k a && bool_decide (a_state a = ARunning) in
    changed ← query (λ d, Z.of_nat (length (select target (attempts d))));
    execute (update_attempts true target
      (λ a, a <| a_provider_session := Some provider_session |>
              <| a_resumable_capability_digest := Some capability_digest |>
              <| a_resume_proof_digest := Some proof |>
              <| a_updated_at := now_us |>));;
    refuse_if (negb (changed =? 1)) ErrStaleGeneration;;
    bump_mutation_epoch now_us).

(** ** Cancellation *)

Definition request_cancel (consumer_id command_key request_digest task_id : string) (now_us : Z)
  : M bool :=
  ensure_mutation_allowed true;;
  transaction (
    replay ← command_replay consumer_id "cancel" command_key request_digest;
    match replay with
    | Some _ => mret true
    | None =>
        t ← query_row (λ d, tasks d !! task_id);
        let generation := t_generation t in
        let current := t_state t in
        (if negb (TaskState.is_terminal current) && negb (bool_decide (current = CancelRequested)) then
           refuse_if (negb (TaskState.allows current CancelRequested)) ErrStaleGeneration;;
           pending ← query (λ d, (pending_of d task_id generation).*1);
           for_each pending (λ interaction_id,
             append_event task_id generation "interaction_decided"
               (interaction_decided_event_payload interaction_id "CANCELLED" None) now_us;;
             mret tt);;
           execute (update_task true task_id (λ t, t_generation t =? generation)
             (λ t, t <| t_state := CancelRequested |> <| t_cancel_requested_at := Some now_us |>
                     <| t_updated_at := now_us |>));;
           execute (update_attempts true
             (λ k a, attempt_is task_id generation k a && negb (AttemptState.is_terminal (a_state a)))
             (λ a, a <| a_state := ACancelRequested |> <| a_updated_at := now_us |>));;
           execute (update_interactions
             (λ _ i, String.eqb (i_task_id i) task_id && (i_generation i =? generation)
                     && bool_decide (i_state i = IPending))
             (λ i, i <| i_state := ICancelled |> <| i_updated_at := now_us |>));;
           append_event task_id generation "state_changed" (state_event_payload "CANCEL_REQUESTED") now_us;;
           mret tt
         else mret tt);;
        store_command consumer_id "cancel" command_key request_digest task_id now_us;;
        bump_mutation_epoch now_us;;
        mret false
    end).

(** ** Safe retry *)

Definition retry_payload (generation retry_at : Z) : string :=
  json_to_string (json_object [("prior_generation", VNumber (NInt generation));
                               ("retry_at_ms", VNumber (NInt (Z.max retry_at 0 / 1000)))]).

Definition schedule_safe_retry (operation_id task_id : string) (generation retry_at now_us : Z) : M Z :=
  ensure_mutation_allowed false;;
  let operation_digest := digest_fields [task_id; pretty generation; pretty retry_at] in
  transaction (
    replay ← internal_operation_replay operation_id operation_digest;
    match replay with
    | Some existing => some_or (parse_i64 existing) (ErrQuarantined "invalid retry generation")
    | None =>
        '(_, a) ← query_row (live_attempt task_id generation [Preparing; RetryWait]);
        refuse_if (negb (bool_decide (a_dispatch_phase a ∈ [PreDispatch; SpawnPrepared]))) ErrStaleGeneration;;
        next_generation ← some_or (i64_checked (generation + 1)) ErrStaleGeneration;
        execute (update_attempts true (attempt_is task_id generation)
          (λ a, a <| a_state := ARetryWait |> <| a_ended_at := Some now_us |> <| a_updated_at := now_us |>));;
        execute (update_task true task_id (λ t, t_generation t =? generation)
          (λ t, t <| t_generation := next_generation |> <| t_state := RetryWait |>
                  <| t_retry_at := Some retry_at |> <| t_updated_at := now_us |>));;
        append_event task_id next_generation "retry_scheduled" (retry_payload generation retry_at) now_us;;
        store_operation operation_id operation_digest task_id generation "safe_retry"
          (pretty next_generation) now_us;;
        bump_mutation_epoch now_us;;
        mret next_generation
    end).

(** ** Transitions *)

Definition transition (operation_id task_id : string) (generation : Z) (from : list string)
    (to : string) (now_us : Z) : M Z :=
  let operation_digest := digest_fields
    [task_id; pretty generation; join (String "000"%char "") from; to] in
  next ← ok_or (TaskState.from_str to) ErrStaleGeneration;
  ensure_mutation_allowed (bool_decide (next = Finalizing));;
  refuse_if (TaskState.is_terminal next) ErrTerminalImmutable;;
  transaction (
    replay ← internal_operation_replay operation_id operation_digest;
    match replay with
    | Some locator => some_or (parse_i64 locator) (ErrQuarantined "invalid transition replay")
    | None =>
        row ← query (task_at task_id generation);
        t ← some_or row ErrStaleGeneration;
        let current := t_state t in
        refuse_if (TaskState.is_terminal current) ErrTerminalImmutable;;
        refuse_if (negb (bool_decide (TaskState.as_str current ∈ from))
                   || negb (TaskState.allows current next)) ErrStaleGeneration;;
        execute (update_task true task_id (λ t, t_generation t =? generation)
          (λ t, t <| t_state := next |> <| t_updated_at := now_us |>));;
        seq ← append_event task_id generation "state_changed" (state_event_payload to) now_us;
        store_operation operation_id operation_digest task_id generation "transition" (pretty seq) now_us;;
        bump_mutation_epoch now_us;;
        mret seq
    end).

(** ** Finalization *)

(** The attempt state spelled like a terminal task state. *)
Definition terminal_attempt_state (terminal : TaskState) : AttemptState :=
  match terminal with
  | Succeeded => ASucceeded
  | Failed => AFailed
  | Cancelled => ACancelled
  | _ => ANeedsAttention
  end.

(** The statements that commit a terminal result; returns the delivery. *)
Definition write_terminal_tuple (consumer_id task_id : string) (generation : Z) (terminal : TaskState)
    (result_digest result_id ack_token : string) (now_us : Z) : M ResultDelivery :=
  let terminal_state := TaskState.as_str terminal in
  seq ← append_event task_id generation "terminal" (terminal_event_payload terminal_state result_id) now_us;
  execute (insert_result task_id (mkResultRow result_id seq result_digest now_us));;
  execute (insert_outbox consumer_id task_id (mkOutboxRow result_id ack_token seq now_us None None));;
  execute (update_task true task_id (λ t, t_generation t =? generation)
    (λ t, t <| t_state := terminal |> <| t_result_version := Some 1 |>
            <| t_terminal_event_seq := Some seq |> <| t_terminal_at := Some now_us |>
            <| t_updated_at := now_us |>));;
  mret (mkDelivery task_id result_id 1 ack_token seq terminal_state).

Definition finalize (consumer_id command_key request_digest task_id : string) (generation : Z)
    (terminal_state result_digest : string) (now_us : Z) : M ResultDelivery :=
  ensure_mutation_allowed true;;
  terminal ← ok_or (TaskState.from_str terminal_state) ErrStaleGeneration;
  refuse_if (negb (TaskState.is_terminal terminal)) ErrStaleGeneration;;
  transaction (
    replay ← command_replay consumer_id "finalize" command_key request_digest;
    match replay with
    | Some locator => load_delivery consumer_id locator
    | None =>
        row ← query (task_at task_id generation);
        t ← some_or row ErrStaleGeneration;
        let current := t_state t in
        refuse_if (TaskState.is_terminal current) ErrTerminalImmutable;;
        refuse_if (negb (TaskState.allows current terminal)) ErrStaleGeneration;;
        refuse_if (bool_decide (is_Some (t_cancel_requested_at t))
                   && negb (bool_decide (terminal = Cancelled))) ErrStaleGeneration;;
        result_id ← new_v4;
        ack_token ← new_token;
        pending ← query (λ d, pending_of d task_id generation);
        for_each pending (λ kv,
          append_event task_id generation "interaction_decided"
            (interaction_decided_event_payload kv.1
               (if i_expires_at kv.2 <=? now_us then "EXPIRED" else "CANCELLED") None) now_us;;
          mret tt);;
        delivery ← write_terminal_tuple consumer_id task_id generation terminal result_digest
                     result_id ack_token now_us;
        execute (update_attempts true (attempt_is task_id generation)
          (λ a, a <| a_state := terminal_attempt_state terminal |> <| a_ended_at := Some now_us |>
                  <| a_updated_at := now_us |>));;
        execute (update_interactions
          (λ _ i, String.eqb (i_task_id i) task_id && (i_generation i =? generation)
                  && bool_decide (i_state i = IPending))
          (λ i, i <| i_state := if i_expires_at i <=? now_us then IExpired else ICancelled |>
                  <| i_updated_at := now_us |>));;
        execute (update_worktrees task_id (λ w, w <| w_terminal_state := Some terminal_state |>
          <| w_terminal_at := Some now_us |> <| w_state := "RETAINED" |>));;
        store_command consumer_id "finalize" command_key request_digest result_id now_us;;
        bump_mutation_epoch now_us;;
        mret delivery
    end).
End operations.
