(* ===== verification/InteractionStore.v ===== *)
(** * Interactions of the storage writer ([storage.rs])

    The approval cycle: opening an interaction blocks the task, one canonical and
    nonce-bound response answers it, an unanswered one expires and finalizes the
    task.  The decoding of canonical response commands and the verification of a
    replayed response against its durable evidence are here too. *)

From S2P Require Import Prelude Domain Externals Protocol Scheduler Improvement Schema StoreMonad.
From S2P Require Import Tables TaskStore Lifecycle.

Definition MAX_INTERACTION_RESPONSE_BYTES : Z := 6 * 32 * 1024 + 128.
Definition MAX_DIAGNOSIS_CHARS : Z := 8192.

Record Interaction := mkInteraction {
  in_interaction_id : string;
  in_task_id : string;
  in_attempt_id : string;
  in_adapter_instance_id : string;
  in_generation : Z;
  in_nonce : string;
  in_capability_class : InteractionCapabilityClass;
  in_config_version : Z;
  in_policy_version : Z;
}.

Record ParsedInteractionResponseCommand := mkResponseCommand {
  rc_command_key : string;
  rc_task_id : string;
  rc_interaction_id : string;
  rc_generation : Z;
  rc_operation_digest : string;
  rc_policy_digest : string;
  rc_config_digest : string;
  rc_nonce : string;
  rc_response_kind : InteractionResponseKind;
  rc_response_bytes : string;
}.

Record InteractionResponseEvidence := mkEvidence {
  ev_interaction_id : string;
  ev_consumer_id : string;
  ev_response_kind : InteractionResponseKind;
  ev_response_digest : string;
  ev_bytes : string;
}.

Section operations.
Context `{E : Externals}.

(** ** Canonical commands: [None] is [Err(StorageError::InvalidRequest)] *)

Definition parse_canonical_json (bytes : string) (maximum_bytes : Z) : option Value :=
  if String.eqb bytes "" || (maximum_bytes <? str_len bytes) then None
  else value ← json_from_str bytes;
       match canonicalize value with
       | inl _ => None
       | inr canonical => if String.eqb canonical bytes then Some value else None
       end.

Definition required_string (object : list (string * Value)) (key : string) : option string :=
  v ← assoc key object; as_str v.

Definition required_i64 (object : list (string * Value)) (key : string) : option Z :=
  v ← assoc key object; as_i64 v.

Definition parse_interaction_response_value (value : Value) : option InteractionResponseKind :=
  object ← as_object value;
  kind ← required_string object "kind";
  let len := Z.of_nat (length object) in
  if String.eqb kind "approve" && (len =? 1) then Some Approve
  else if String.eqb kind "deny"
          && ((len =? 1)
              || ((len =? 2) && is_some_and (λ reason, char_count reason <=? 4096)
                                  (assoc "reason" object ≫= as_str))) then Some Deny
  else if String.eqb kind "text" && (len =? 2)
          && is_some_and (λ text, (1 <=? char_count text) && (char_count text <=? 32 * 1024))
               (assoc "text" object ≫= as_str) then Some Text
  else None.

Definition parse_canonical_interaction_response (bytes : string) : option InteractionResponseKind :=
  value ← parse_canonical_json bytes MAX_INTERACTION_RESPONSE_BYTES;
  parse_interaction_response_value value.

Definition parse_interaction_response_command (bytes : string)
  : option ParsedInteractionResponseCommand :=
  value ← parse_canonical_json bytes MAX_CANONICAL_TASK_REQUEST_BYTES;
  match decode_v1 value with
  | inl _ => None
  | inr _ =>
      object ← as_object value;
      response ← assoc "response" object;
      response_kind ← parse_interaction_response_value response;
      match canonicalize response with
      | inl _ => None
      | inr response_bytes =>
          if String.eqb response_bytes "" || (MAX_INTERACTION_RESPONSE_BYTES <? str_len response_bytes)
          then None
          else
            command_key ← required_string object "command_key";
            task_id ← required_string object "task_id";
            interaction_id ← required_string object "interaction_id";
            generation ← required_i64 object "generation";
            operation_digest ← required_string object "operation_digest";
            policy_digest ← required_string object "policy_digest";
            config_digest ← required_string object "config_digest";
            nonce ← required_string object "nonce";
            Some (mkResponseCommand command_key task_id interaction_id generation operation_digest
                    policy_digest config_digest nonce response_kind response_bytes)
      end
  end.

(** ** Durable evidence *)

Definition validate_interaction_metadata (interaction_id : string) (capability_class : option string)
    (config_version policy_version : option Z) (adapter_instance_id : string) : M unit :=
  refuse_if (is_none_or (λ value, match InteractionCapabilityClass.from_str value with
                                  | inl _ => true | inr _ => false end) capability_class
             || is_none_or (λ version, version <=? 0) config_version
             || is_none_or (λ version, version <=? 0) policy_version
             || String.eqb adapter_instance_id "")
            (ErrQuarantined ("invalid durable interaction metadata: " +:+ interaction_id)).

(** The columns of the [LEFT JOIN] of an interaction with its response. *)
Definition response_metadata (d : Db) (interaction_id : string)
  : option (InteractionState * option ResponseRow) :=
  i ← pending_interactions d !! interaction_id;
  Some (i_state i, interaction_responses d !! interaction_id).

Definition validate_interaction_response_metadata (interaction_id : string) (state : InteractionState)
    (row : option ResponseRow) : M (string * InteractionResponseKind * Z * string) :=
  refuse_if (negb (bool_decide (state = IAnswered)))
    (ErrQuarantined ("response evidence belongs to a non-answered interaction: " +:+ interaction_id));;
  '(r, kind, byte_length, response_digest) ← some_or
    (r ← row; kind ← r_response_kind r; byte_length ← r_byte_length r;
     response_digest ← r_response_digest r; Some (r, kind, byte_length, response_digest))
    (ErrQuarantined ("answered interaction has incomplete response evidence: " +:+ interaction_id));
  refuse_if (negb (between 1 byte_length MAX_INTERACTION_RESPONSE_BYTES))
    (ErrQuarantined ("interaction response length is out of bounds: " +:+ interaction_id));;
  response_kind ← ok_or (InteractionResponseKind.from_str kind)
    (ErrQuarantined ("invalid interaction response kind: " +:+ interaction_id));
  refuse_if (String.eqb (r_consumer_id r) "" || negb (String.eqb (r_decision_digest r) response_digest)
             || negb (is_lower_sha256 response_digest))
    (ErrQuarantined ("interaction response metadata mismatch: " +:+ interaction_id));;
  mret (r_consumer_id r, response_kind, byte_length, response_digest).

Definition build_interaction_response_evidence (interaction_id consumer_id : string)
    (response_kind : InteractionResponseKind) (byte_length : Z) (response_digest : string)
    (bytes : option string) : M InteractionResponseEvidence :=
  bytes ← some_or bytes
    (ErrQuarantined ("interaction response bytes are missing: " +:+ interaction_id));
  refuse_if (negb (str_len bytes =? byte_length) || negb (String.eqb (hash_bytes bytes) response_digest))
    (ErrQuarantined ("interaction response integrity mismatch: " +:+ interaction_id));;
  decoded_kind ← some_or (parse_canonical_interaction_response bytes)
    (ErrQuarantined ("interaction response bytes are not canonical protocol evidence: " +:+ interaction_id));
  refuse_if (negb (bool_decide (decoded_kind = response_kind)))
    (ErrQuarantined ("interaction response kind disagrees with canonical evidence: " +:+ interaction_id));;
  mret (mkEvidence interaction_id consumer_id response_kind response_digest bytes).

(** [load_interaction_response_evidence] and the first half of
    [verify_interaction_response_replay_tx]; [missing] is the error for an unknown interaction. *)
Definition load_evidence (missing : StorageError) (interaction_id : string)
  : M InteractionResponseEvidence :=
  row ← query (λ d, response_metadata d interaction_id);
  '(state, response) ← some_or row missing;
  '(consumer_id, response_kind, byte_length, response_digest) ←
    validate_interaction_response_metadata interaction_id state response;
  bytes ← query (λ d, interaction_responses d !! interaction_id ≫= r_response_bytes);
  build_interaction_response_evidence interaction_id consumer_id response_kind byte_length
    response_digest bytes.

Definition load_interaction_response_evidence : string → M InteractionResponseEvidence :=
  load_evidence ErrInteractionConflict.

Definition verify_interaction_response_replay_tx (interaction_id consumer_id : string)
    (command : ParsedInteractionResponseCommand) : M unit :=
  evidence ← load_evidence
    (ErrQuarantined "interaction-response command points to a missing interaction") interaction_id;
  context ← query (λ d, pending_interactions d !! interaction_id);
  i ← some_or context
    (ErrQuarantined "interaction-response command has no durable interaction context");
  refuse_if (negb (String.eqb (ev_consumer_id evidence) consumer_id)
             || negb (String.eqb (rc_interaction_id command) interaction_id)
             || negb (String.eqb (rc_task_id command) (i_task_id i))
             || negb (rc_generation command =? i_generation i)
             || negb (String.eqb (rc_nonce command) (i_nonce i))
             || negb (String.eqb (rc_operation_digest command) (i_operation_digest i))
             || negb (String.eqb (rc_policy_digest command) (i_policy_digest i))
             || negb (String.eqb (rc_config_digest command) (i_config_digest i))
             || negb (bool_decide (ev_response_kind evidence = rc_response_kind command))
             || negb (String.eqb (ev_bytes evidence) (rc_response_bytes command)))
            ErrIdempotencyConflict.

Definition load_interaction (interaction_id : string) : M Interaction :=
  '(i, a) ← query_row (λ d,
    i ← pending_interactions d !! interaction_id;
    a ← attempts d !! i_attempt_id i;
    if String.eqb (a_task_id a) (i_task_id i) && (a_generation a =? i_generation i)
    then Some (i, a) else None);
  validate_interaction_metadata interaction_id (i_capability_class i) (i_config_version i)
    (i_policy_version i) (a_adapter_instance_id a);;
  text ← some_or (i_capability_class i) (ErrQuarantined "missing interaction capability class");
  capability_class ← ok_or (InteractionCapabilityClass.from_str text)
    (ErrQuarantined "invalid interaction capability class");
  config_version ← some_or (i_config_version i) (ErrQuarantined "missing interaction config version");
  policy_version ← some_or (i_policy_version i) (ErrQuarantined "missing interaction policy version");
  mret (mkInteraction interaction_id (i_task_id i) (i_attempt_id i) (a_adapter_instance_id a)
          (i_generation i) (i_nonce i) capability_class config_version policy_version).

Definition latest_answered_response_kind (task_id : string) (generation : Z) : M (option string) :=
  row ← query (λ d, head (answered_responses d task_id generation));
  match row with
  | None => mret None
  | Some (_, r) => kind ← some_or (r_response_kind r) ErrSqlColumn; mret (Some kind)
  end.

(** ** Opening *)

Definition interaction_digest (task_id attempt_id : string) (generation : Z)
    (operation_digest policy_digest config_digest : string) (capability_class : InteractionCapabilityClass)
    (config_version policy_version expires_at : Z) : string :=
  digest_fields [task_id; attempt_id; pretty generation; operation_digest; policy_digest;
    config_digest; InteractionCapabilityClass.as_str capability_class; pretty config_version;
    pretty policy_version; pretty expires_at].

Definition open_interaction (operation_id task_id attempt_id : string) (generation : Z)
    (operation_digest policy_digest config_digest : string)
    (capability_class : InteractionCapabilityClass) (config_version policy_version expires_at now_us : Z)
  : M Interaction :=
  ensure_mutation_allowed true;;
  refuse_if (negb (is_lower_sha256 operation_digest) || negb (is_lower_sha256 policy_digest)
             || negb (is_lower_sha256 config_digest) || (config_version <=? 0)
             || (policy_version <=? 0)) ErrInvalidRequest;;
  let internal_digest := interaction_digest task_id attempt_id generation operation_digest
    policy_digest config_digest capability_class config_version policy_version expires_at in
  transaction (
    replay ← internal_operation_replay operation_id internal_digest;
    match replay with
    | Some locator => load_interaction locator
    | None =>
        adapter ← query (λ d,
          a ← attempts d !! attempt_id;
          t ← tasks d !! a_task_id a;
          if String.eqb (a_task_id a) task_id && (a_generation a =? generation)
             && (t_generation t =? generation) && bool_decide (t_state t ∈ [Preparing; Running])
          then Some (a_adapter_instance_id a) else None);
        adapter_instance_id ← some_or adapter ErrStaleGeneration;
        refuse_if (String.eqb adapter_instance_id "")
          (ErrQuarantined "interaction attempt has no adapter instance id");;
        interaction_id ← new_v4;
        nonce ← new_token;
        execute (insert_interaction interaction_id
          (mkInteractionRow task_id attempt_id generation operation_digest policy_digest config_digest
             (Some (InteractionCapabilityClass.as_str capability_class)) (Some config_version)
             (Some policy_version) nonce expires_at IPending now_us now_us));;
        execute (update_task true task_id (λ t, t_generation t =? generation)
          (λ t, t <| t_state := WaitingApproval |> <| t_updated_at := now_us |>));;
        execute (update_attempts true (λ k _, String.eqb k attempt_id)
          (λ a, a <| a_state := AWaitingApproval |> <| a_updated_at := now_us |>));;
        append_event task_id generation "interaction_requested"
          (interaction_requested_event_payload interaction_id) now_us;;
        store_operation operation_id internal_digest task_id generation "open_interaction"
          interaction_id now_us;;
        bump_mutation_epoch now_us;;
        mret (mkInteraction interaction_id task_id attempt_id adapter_instance_id generation nonce
                capability_class config_version policy_version)
    end).

(** ** Responding *)

(** The checks of a parsed command against the arguments it came with. *)
Definition command_matches (command : ParsedInteractionResponseCommand) (command_key interaction_id nonce : string)
    (expected_generation : Z) (operation_digest policy_digest config_digest : string)
    (response_kind parsed_response_kind : InteractionResponseKind) (response_bytes : string) : bool :=
  String.eqb (rc_command_key command) command_key
  && negb (String.eqb (rc_task_id command) "")
  && String.eqb (rc_interaction_id command) interaction_id
  && (rc_generation command =? expected_generation)
  && String.eqb (rc_operation_digest command) operation_digest
  && String.eqb (rc_policy_digest command) policy_digest
  && String.eqb (rc_config_digest command) config_digest
  && String.eqb (rc_nonce command) nonce
  && bool_decide (rc_response_kind command = response_kind)
  && String.eqb (rc_response_bytes command) response_bytes
  && bool_decide (parsed_response_kind = response_kind).

(** The checks of the interaction's row against the expected values. *)
Definition interaction_answerable (i : InteractionRow) (task_id nonce : string) (expected_generation : Z)
    (operation_digest policy_digest config_digest : string) (now_us : Z) : bool :=
  String.eqb task_id (i_task_id i) && bool_decide (i_state i = IPending)
  && negb (i_expires_at i <=? now_us) && (i_generation i =? expected_generation)
  && constant_time_eq (i_nonce i) nonce
  && constant_time_eq (i_operation_digest i) operation_digest
  && constant_time_eq (i_policy_digest i) policy_digest
  && constant_time_eq (i_config_digest i) config_digest.

(** The row's version-4 columns are present and well-formed. *)
Definition interaction_metadata_ok (interaction_id : string) (i : InteractionRow) : M unit :=
  '(capability_class, config_version, policy_version) ← some_or
    (c ← i_capability_class i; cv ← i_config_version i; pv ← i_policy_version i; Some (c, cv, pv))
    (ErrQuarantined ("interaction has incomplete v4 metadata: " +:+ interaction_id));
  refuse_if (match InteractionCapabilityClass.from_str capability_class with
             | inl _ => true | inr _ => false end
             || (config_version <=? 0) || (policy_version <=? 0))
    (ErrQuarantined ("interaction has invalid v4 metadata: " +:+ interaction_id)).

(** The statements that answer the interaction. *)
Definition answer_interaction (consumer_id command_key request_digest interaction_id : string)
    (i : InteractionRow) (response_kind : InteractionResponseKind) (response_bytes : string) (now_us : Z)
  : M bool :=
  let task_id := i_task_id i in
  let generation := i_generation i in
  let response_digest := hash_bytes response_bytes in
  execute (update_interactions
    (λ k i, String.eqb k interaction_id && bool_decide (i_state i = IPending))
    (λ i, i <| i_state := IAnswered |> <| i_updated_at := now_us |>));;
  byte_length ← some_or (i64_checked (str_len response_bytes)) ErrInvalidRequest;
  execute (insert_response interaction_id
    (mkResponseRow consumer_id response_digest (Some (InteractionResponseKind.as_str response_kind))
       (Some response_bytes) (Some byte_length) (Some response_digest) now_us));;
  execute (update_task true task_id
    (λ t, (t_generation t =? generation) && bool_decide (t_state t = WaitingApproval))
    (λ t, t <| t_state := Running |> <| t_updated_at := now_us |>));;
  execute (update_attempts true
    (λ k a, attempt_is task_id generation k a && bool_decide (a_state a = AWaitingApproval))
    (λ a, a <| a_state := ARunning |> <| a_updated_at := now_us |>));;
  append_event task_id generation "interaction_decided"
    (interaction_decided_event_payload interaction_id
       (InteractionResponseKind.event_status response_kind) (Some response_kind)) now_us;;
  store_command consumer_id "interaction_response" command_key request_digest interaction_id now_us;;
  bump_mutation_epoch now_us;;
  mret false.

Definition respond_interaction (consumer_id command_key canonical_command_bytes interaction_id nonce : string)
    (expected_generation : Z)
    (expected_operation_digest expected_policy_digest expected_config_digest : string)
    (response_kind : InteractionResponseKind) (canonical_response_bytes : string) (now_us : Z) : M bool :=
  ensure_mutation_allowed true;;
  parsed_command ← some_or (parse_interaction_response_command canonical_command_bytes) ErrInvalidRequest;
  parsed_response_kind ← some_or (parse_canonical_interaction_response canonical_response_bytes)
    ErrInvalidRequest;
  refuse_if (negb (command_matches parsed_command command_key interaction_id nonce expected_generation
    expected_operation_digest expected_policy_digest expected_config_digest response_kind
    parsed_response_kind canonical_response_bytes)) ErrIdempotencyConflict;;
  let request_digest := hash_bytes canonical_command_bytes in
  transaction (
    replay ← command_replay consumer_id "interaction_response" command_key request_digest;
    match replay with
    | Some locator =>
        verify_interaction_response_replay_tx locator consumer_id parsed_command;;
        mret true
    | None =>
        row ← query (λ d, pending_interactions d !! interaction_id);
        i ← some_or row ErrInteractionConflict;
        interaction_metadata_ok interaction_id i;;
        refuse_if (negb (interaction_answerable i (rc_task_id parsed_command) nonce expected_generation
          expected_operation_digest expected_policy_digest expected_config_digest now_us))
          ErrInteractionConflict;;
        answer_interaction consumer_id command_key request_digest interaction_id i response_kind
          canonical_response_bytes now_us
    end).

(** ** Expiring *)

(** What distinguishes [expire_interaction] from [expire_preflight_interaction]. *)
Record Expiry := mkExpiry {
  ex_digest_fields : list string;
  ex_preflight : bool;
  ex_kind : string;
  ex_request_field : string;
  ex_command_prefix : string;
  ex_result_field : string;
  ex_terminal : TaskState;
}.

Definition runtime_expiry : Expiry :=
  mkExpiry [] false "interaction_expired" "expired-result" "interaction-expired:"
    "interaction-timeout" NeedsAttention.

Definition preflight_expiry : Expiry :=
  mkExpiry ["preflight"] true "interaction_preflight_expired" "preflight-expired-result"
    "interaction-preflight-expired:" "interaction-preflight-timeout" Cancelled.

(** The task whose wait ends: the joins of the two [SELECT]s. *)
Definition expirable (preflight : bool) (interaction_id : string) (generation now_us : Z) (d : Db)
  : option string :=
  i ← pending_interactions d !! interaction_id;
  t ← tasks d !! i_task_id i;
  if (i_generation i =? generation) && bool_decide (i_state i = IPending)
     && (i_expires_at i <=? now_us) && (t_generation t =? generation)
     && bool_decide (t_state t = WaitingApproval)
     && (negb preflight
         || existsb (λ kv, bool_decide (a_dispatch_phase kv.2 ∈ [PreDispatch; SpawnPrepared]))
                    (attempts_at d (i_task_id i) (i_generation i)))
  then Some (i_task_id i) else None.

(** The first transaction: the interaction expires and the task is handed to finalization;
    a replay answers the task and the locator the operation recorded. *)
Definition expire_begin (x : Expiry) (operation_id interaction_id : string) (generation now_us : Z)
  : M (string * option string) :=
  let operation_digest := digest_fields ([interaction_id; pretty generation] ++ ex_digest_fields x) in
  transaction (
    replay ← internal_operation_replay operation_id operation_digest;
    match replay with
    | Some locator =>
        task_id ← query_row (λ d, op_task_id <$> internal_operations d !! operation_id);
        mret (task_id, Some locator)
    | None =>
        row ← query (expirable (ex_preflight x) interaction_id generation now_us);
        task_id ← some_or row ErrInteractionConflict;
        append_event task_id generation "interaction_decided"
          (interaction_decided_event_payload interaction_id "EXPIRED" None) now_us;;
        execute (update_interactions (λ k _, String.eqb k interaction_id)
          (λ i, i <| i_state := IExpired |> <| i_updated_at := now_us |>));;
        execute (update_attempts true (attempt_is task_id generation)
          (λ a, a <| a_state := AFinalizing |> <| a_updated_at := now_us |>));;
        execute (update_task true task_id (λ t, t_generation t =? generation)
          (λ t, t <| t_state := Finalizing |> <| t_updated_at := now_us |>));;
        store_operation operation_id operation_digest task_id generation (ex_kind x) "pending-result" now_us;;
        bump_mutation_epoch now_us;;
        mret (task_id, None)
    end).

(** The second half: the terminal result, recorded in the operation's locator. *)
Definition expire_finish (x : Expiry) (consumer_id operation_id interaction_id task_id : string)
    (generation now_us : Z) : M ResultDelivery :=
  delivery ← finalize consumer_id (ex_command_prefix x +:+ interaction_id)
    (digest_fields [interaction_id; ex_request_field x]) task_id generation
    (TaskState.as_str (ex_terminal x)) (digest_fields [ex_result_field x; interaction_id]) now_us;
  execute (update_operation_locator operation_id "pending-result" (del_result_id delivery));;
  mret delivery.

Definition expire_with (x : Expiry) (consumer_id operation_id interaction_id : string)
    (generation now_us : Z) : M ResultDelivery :=
  ensure_mutation_allowed true;;
  '(task_id, locator) ← expire_begin x operation_id interaction_id generation now_us;
  match locator with
  | Some locator =>
      if negb (String.eqb locator "pending-result")
      then transaction (load_delivery consumer_id locator)
      else expire_finish x consumer_id operation_id interaction_id task_id generation now_us
  | None => expire_finish x consumer_id operation_id interaction_id task_id generation now_us
  end.

Definition expire_interaction : string → string → string → Z → Z → M ResultDelivery :=
  expire_with runtime_expiry.

Definition expire_preflight_interaction : string → string → string → Z → Z → M ResultDelivery :=
  expire_with preflight_expiry.
End operations.
