(* ===== verification/Recovery.v ===== *)
(** * Reopening a store ([storage.rs])

    What the daemon does with a database it finds: the integrity check of the
    terminal tuples, the projection of every task replayed from its event log and
    repaired where it drifted, and the reconciliation of the tasks a crash left in
    the middle of a dispatch. *)

From S2P Require Import Prelude Domain Externals Scheduler Improvement Schema StoreMonad Tables.
From S2P Require Import TaskStore Lifecycle InteractionStore.

(** ** Projections *)

(** [value["state"].as_str().and_then(|value| value.parse().ok())] *)
Definition payload_state `{Externals} (payload : string) : option TaskState :=
  value ← json_from_str payload;
  text ← as_str (json_index value "state");
  match TaskState.from_str text with inr state => Some state | inl _ => None end.

(** The state one event projects to. *)
Definition projected_state `{Externals} (kind payload : string) (state : TaskState)
  : StorageError + TaskState :=
  if bool_decide (kind ∈ ["state_changed"; "terminal"]) then
    match payload_state payload with
    | Some state => inr state
    | None => inl (ErrQuarantined "invalid state event payload")
    end
  else inr (
    if bool_decide (kind ∈ ["SUBMITTED"; "QUEUED"]) then Queued
    else if bool_decide (kind ∈ ["attempt_started"; "ATTEMPT_STARTED"; "PREPARING"]) then Preparing
    else if bool_decide (kind ∈ ["interaction_requested"; "INTERACTION_OPENED"; "WAITING_APPROVAL"])
    then WaitingApproval
    else if bool_decide (kind ∈ ["interaction_decided"; "dispatch_phase"; "INTERACTION_ANSWERED";
                                 "DISPATCH_PHASE"; "RUNNING"]) then Running
    else if bool_decide (kind = "CANCEL_REQUESTED") then CancelRequested
    else if bool_decide (kind ∈ ["RETRY_SCHEDULED"; "RETRY_WAIT"]) then RetryWait
    else if bool_decide (kind = "FINALIZING") then Finalizing
    else if bool_decide (kind = "SUCCEEDED") then Succeeded
    else if bool_decide (kind = "FAILED") then Failed
    else if bool_decide (kind = "CANCELLED") then Cancelled
    else if bool_decide (kind = "NEEDS_ATTENTION") then NeedsAttention
    else state).

Fixpoint derive_from `{Externals} (rows : list Event) (state : TaskState) (generation last : Z)
  : StorageError + (TaskState * Z * Z) :=
  match rows with
  | [] => inr (state, generation, last)
  | e :: rows =>
      if negb (e_event_seq e =? last + 1) then inl (ErrQuarantined "event sequence gap")
      else match projected_state (e_kind e) (e_payload e) state with
           | inl error => inl error
           | inr state => derive_from rows state (e_generation e) (e_event_seq e)
           end
  end.

Definition derive_projection `{Externals} (d : Db) (task_id : string)
  : StorageError + (TaskState * Z * Z) :=
  derive_from (events_of d task_id) Queued 0 0.

Section operations.
Context `{E : Externals} `{Store : ImprovementStore}.

(** [?] on a pure result *)
Definition lift {A} (r : StorageError + A) : M A :=
  match r with inr a => mret a | inl e => fail e end.

(** The body of the loop of [replay_projections] for one row. *)
Definition replay_projection (now_us : Z) (row : string * Task) : M unit :=
  let '(task_id, t) := row in
  if negb (t_evicted_through_seq t =? 0) then
    refuse_if (negb (t_projection_event_seq t =? t_last_event_seq t))
      (ErrQuarantined "projection drift with incomplete event log")
  else
    derived ← query (λ d, derive_projection d task_id);
    '(state, generation, last) ← lift derived;
    refuse_if (negb (generation =? t_generation t) || negb (last =? t_last_event_seq t))
      (ErrQuarantined "event generation or sequence drift");;
    if bool_decide (t_state t = state) && (t_projection_event_seq t =? t_last_event_seq t) then mret tt
    else
      refuse_if (TaskState.is_terminal (t_state t) || TaskState.is_terminal state)
        (ErrQuarantined "terminal tuple projection cannot be repaired");;
      execute (update_task true task_id (λ _, true)
        (λ x, x <| t_state := state |> <| t_projection_event_seq := t_last_event_seq t |>
                <| t_updated_at := now_us |>));;
      execute (insert_audit (mkAuditRow "PROJECTION_REPAIRED" (Some task_id) (Some (t_generation t))
        (digest_fields [TaskState.as_str (t_state t); TaskState.as_str state]) now_us)).

(** The tasks [replay_projections] looks at: the nonterminal ones and those whose result
    is not acknowledged. *)
Definition projected_tasks (d : Db) : list (string * Task) :=
  select (λ id t, negb (TaskState.is_terminal (t_state t))
                  || negb (bool_decide (select (λ k o, String.eqb k.2 id && bool_decide (ob_acked_at o = None))
                                               (result_outbox d) = []))) (tasks d).

Definition replay_projections (now_us : Z) : M unit :=
  rows ← query projected_tasks;
  for_each rows (replay_projection now_us).

(** ** Integrity of the terminal tuples *)

Definition terminal_tasks (d : Db) : list (string * Task) :=
  select (λ _ t, TaskState.is_terminal (t_state t)) (tasks d).

Definition events_at (d : Db) (task_id : string) (seq : option Z) : list Event :=
  List.filter (λ e, String.eqb (e_task_id e) task_id && bool_decide (seq = Some (e_event_seq e))) (events d).

Definition outbox_of (d : Db) (task_id : string) : list (string * string * OutboxRow) :=
  select (λ k _, String.eqb k.2 task_id) (result_outbox d).

(** One result, one outbox row and one terminal event. *)
Definition tuple_complete (d : Db) (row : string * Task) : bool :=
  has_row (results d) row.1 && Nat.eqb (length (outbox_of d row.1)) 1
  && Nat.eqb (length (events_at d row.1 (t_terminal_event_seq row.2))) 1.

(** The join of the terminal tasks with their result, outbox rows and terminal events. *)
Definition terminal_rows (d : Db) : list (string * Task * ResultRow * OutboxRow * Event) :=
  '(task_id, t) ← terminal_tasks d;
  match results d !! task_id with
  | None => []
  | Some r =>
      '(_, o) ← outbox_of d task_id;
      e ← events_at d task_id (t_terminal_event_seq t);
      [(task_id, t, r, o, e)]
  end.

Definition verify_terminal_row (row : string * Task * ResultRow * OutboxRow * Event) : M unit :=
  let '(task_id, t, r, o, e) := row in
  value ← some_or (json_from_str (e_payload e))
    (ErrQuarantined ("invalid terminal event payload: " +:+ task_id));
  object ← some_or (as_object value)
    (ErrQuarantined ("terminal event payload is not an object: " +:+ task_id));
  refuse_if (negb (String.eqb (e_kind e) "terminal")
             || negb (Nat.eqb (length object) 2)
             || negb (bool_decide ((assoc "state" object ≫= as_str) = Some (TaskState.as_str (t_state t))))
             || negb (bool_decide ((assoc "result_id" object ≫= as_str) = Some (res_result_id r)))
             || negb (bool_decide (Some (res_terminal_event_seq r) = t_terminal_event_seq t))
             || negb (bool_decide (Some (ob_terminal_event_seq o) = t_terminal_event_seq t))
             || negb (String.eqb (ob_result_id o) (res_result_id r)))
            (ErrQuarantined ("terminal event/result tuple mismatch: " +:+ task_id)).

(** [integrity_check]; [quick] is what [PRAGMA quick_check] answers. *)
Definition integrity_check (quick : string) : M unit :=
  refuse_if (negb (String.eqb quick "ok")) (ErrQuarantined quick);;
  d ← query id;
  match List.find (λ row, negb (tuple_complete d row)) (terminal_tasks d) with
  | Some (task_id, _) => fail (ErrQuarantined ("partial terminal tuple for " +:+ task_id))
  | None => mret tt
  end;;
  for_each (terminal_rows d) verify_terminal_row.

(** ** Reconciliation *)

(** The durable evidence that the provider session of the attempt can be resumed. *)
Definition resume_proven (a : AttemptRow) : bool :=
  bool_decide (a_dispatch_phase a = ProviderObserved)
  && bool_decide (is_Some (a_process_receipt a))
  && is_some_and (λ value, negb (String.eqb value "")) (a_provider_session a)
  && is_some_and (λ value, negb (String.eqb value "")) (a_resumable_capability_digest a)
  && bool_decide (a_resume_proof_digest a = resume_proof a <$> a_resumable_capability_digest a).

(** The decision for one row; [None] is [continue]. *)
Definition recovery_decision (t : Task) (a : option AttemptRow) (answered_kind : option string)
  : option RecoveryDecision :=
  let state := t_state t in
  let current_directory := is_some_and (λ a, String.eqb (a_effect_profile a) "CURRENT_DIRECTORY") a in
  let pre_dispatch := is_some_and (λ a, bool_decide (a_dispatch_phase a ∈ [PreDispatch; SpawnPrepared])) a in
  let approved_or_text := bool_decide (answered_kind ∈ [Some "approve"; Some "text"]) in
  if bool_decide (state = CancelRequested) then Some FinalizeCancellation
  else if bool_decide (state = Finalizing) then
    if bool_decide (is_Some (t_cancel_requested_at t)) then Some FinalizeCancellation
    else Some RNeedsAttention
  else if is_some_and resume_proven a then Some ResumeSession
  else if current_directory && negb pre_dispatch then Some RNeedsAttention
  else if pre_dispatch then
    if bool_decide (answered_kind = Some "deny") then Some FinalizeCancellation
    else if bool_decide (state = WaitingApproval) && (bool_decide (answered_kind = None) || approved_or_text)
    then None
    else if bool_decide (state = Running) && approved_or_text then None
    else Some RetrySafe
  else Some RNeedsAttention.

Definition resume_session (task_id : string) (generation now_us : Z) : M unit :=
  let digest := digest_fields [task_id; pretty generation; "resume-session"] in
  let operation := "recovery-resume:" +:+ task_id +:+ ":" +:+ pretty generation in
  transaction (
    replay ← internal_operation_replay operation digest;
    match replay with
    | Some _ => mret tt
    | None =>
        append_event task_id generation "recovery_required"
          ("{" +:+ String (byte_of 34) ("action" +:+ String (byte_of 34) (":" +:+ String (byte_of 34)
             ("resume_session" +:+ String (byte_of 34) "}")))) now_us;;
        store_operation operation digest task_id generation "recovery_resume" "" now_us
    end).

(** The effect of a decision. *)
Definition carry_out (consumer_id task_id : string) (t : Task) (decision : RecoveryDecision) (now_us : Z)
  : M unit :=
  let generation := t_generation t in
  let suffix := task_id +:+ ":" +:+ pretty generation in
  match decision with
  | RetrySafe =>
      schedule_safe_retry ("recovery-retry:" +:+ suffix) task_id generation now_us now_us;;
      mret tt
  | ResumeSession => resume_session task_id generation now_us
  | FinalizeCancellation | RNeedsAttention =>
      let target := if bool_decide (decision = FinalizeCancellation) then Cancelled else NeedsAttention in
      (if negb (bool_decide (t_state t = Finalizing)) then
         transition ("recovery-finalizing:" +:+ suffix) task_id generation
           [TaskState.as_str (t_state t)] (TaskState.as_str Finalizing) now_us;;
         mret tt
       else mret tt);;
      finalize consumer_id ("recovery-result:" +:+ suffix)
        (digest_fields [task_id; pretty generation; TaskState.as_str target]) task_id generation
        (TaskState.as_str target)
        (digest_fields ["minimal-recovery-result"; TaskState.as_str target]) now_us;;
      mret tt
  end.

(** The tasks that are neither waiting in the queue nor terminal, oldest first, each with
    the attempt of its generation. *)
Definition interrupted_tasks (d : Db) : list (string * Task * option AttemptRow) :=
  map (λ row, (row, snd <$> head (attempts_at d row.1 (t_generation row.2))))
    (sort_by (λ x y, t_created_at x.2 <=? t_created_at y.2)
      (select (λ _ t, negb (bool_decide (t_state t ∈ [Queued; RetryWait]))
                      && negb (TaskState.is_terminal (t_state t))) (tasks d))).

Fixpoint reconcile_rows (consumer_id : string) (rows : list (string * Task * option AttemptRow)) (now_us : Z)
  : M (list (string * RecoveryDecision)) :=
  match rows with
  | [] => mret []
  | (task_id, t, a) :: rows =>
      answered_kind ← latest_answered_response_kind task_id (t_generation t);
      match recovery_decision t a answered_kind with
      | None => reconcile_rows consumer_id rows now_us
      | Some decision =>
          carry_out consumer_id task_id t decision now_us;;
          decisions ← reconcile_rows consumer_id rows now_us;
          mret ((task_id, decision) :: decisions)
      end
  end.

Definition reconcile_nonterminal (consumer_id : string) (now_us : Z)
  : M (list (string * RecoveryDecision)) :=
  ensure_mutation_allowed true;;
  rows ← query interrupted_tasks;
  reconcile_rows consumer_id rows now_us.
End operations.
