(* ===== verification/Review.v ===== *)
(** * Review acknowledgement ([storage.rs])

    [review_and_ack] binds a canonical review command to one delivered result: exact
    token and version, one review per result, and the retention clocks of the blobs
    and worktrees start.  The observation it feeds to the improvement engine after
    its commit is an interface. *)

From S2P Require Import Prelude Domain Externals Protocol Scheduler Improvement Schema StoreMonad.
From S2P Require Import Tables TaskStore Lifecycle InteractionStore.

(** [record_review_observation]: what the improvement component does with a review. *)
Class ReviewObserver :=
  record_review_observation : ResultDelivery → ReviewVerdict → option string → Z → M unit.

Record ParsedReviewAckCommand := mkReviewCommand {
  ra_command_key : string;
  ra_task_id : string;
  ra_result_id : string;
  ra_result_version : Z;
  ra_ack_token : string;
  ra_verdict : ReviewVerdict;
  ra_diagnosis : option string;
}.

(** The columns of an outbox row joined with its task and, if it has one, its review. *)
Record AckRow := mkAckRow {
  ar_outbox : OutboxRow;
  ar_state : TaskState;
  ar_review : option ReviewRow;
}.

Section operations.
Context `{E : Externals} `{Store : ImprovementStore} `{Observer : ReviewObserver}.

(** [validate_diagnosis] *)
Definition diagnosis_ok (diagnosis : option string) : bool :=
  is_none_or (λ text, char_count text <=? MAX_DIAGNOSIS_CHARS) diagnosis.

Definition parse_review_ack_command (bytes : string) : option ParsedReviewAckCommand :=
  value ← parse_canonical_json bytes MAX_CANONICAL_TASK_REQUEST_BYTES;
  match decode_v1 value with
  | inl _ => None
  | inr _ =>
      object ← as_object value;
      diagnosis ← match assoc "diagnosis" object with
                  | Some (VString text) => Some (Some text)
                  | None => Some None
                  | Some _ => None
                  end;
      if negb (diagnosis_ok diagnosis) then None
      else
        text ← required_string object "verdict";
        match ReviewVerdict.from_str text with
        | inl _ => None
        | inr verdict =>
            command_key ← required_string object "command_key";
            task_id ← required_string object "task_id";
            result_id ← required_string object "result_id";
            result_version ← required_i64 object "result_version";
            ack_token ← required_string object "ack_token";
            Some (mkReviewCommand command_key task_id result_id result_version ack_token verdict diagnosis)
        end
  end.

Definition review_matches (command : ParsedReviewAckCommand) (command_key : string)
    (delivery : ResultDelivery) (verdict : ReviewVerdict) (diagnosis : option string) : bool :=
  String.eqb (ra_command_key command) command_key
  && String.eqb (ra_task_id command) (del_task_id delivery)
  && String.eqb (ra_result_id command) (del_result_id delivery)
  && (ra_result_version command =? del_result_version delivery)
  && constant_time_eq (ra_ack_token command) (del_ack_token delivery)
  && bool_decide (ra_verdict command = verdict)
  && bool_decide (ra_diagnosis command = diagnosis).

(** [FROM result_outbox o JOIN tasks t .. LEFT JOIN reviews r ON r.review_id=o.review_id] *)
Definition ack_row (d : Db) (consumer_id : string) (delivery : ResultDelivery) : option AckRow :=
  if negb (del_result_version delivery =? 1) then None
  else
    o ← result_outbox d !! (consumer_id, del_task_id delivery);
    t ← tasks d !! del_task_id delivery;
    Some (mkAckRow o (t_state t) (id ← ob_review_id o; reviews d !! id)).

(** The row is the delivery's. *)
Definition delivery_matches (row : AckRow) (delivery : ResultDelivery) : bool :=
  String.eqb (ob_result_id (ar_outbox row)) (del_result_id delivery)
  && (ob_terminal_event_seq (ar_outbox row) =? del_terminal_event_seq delivery)
  && String.eqb (TaskState.as_str (ar_state row)) (del_terminal_state delivery)
  && constant_time_eq (ob_ack_token (ar_outbox row)) (del_ack_token delivery).

(** The stored review is this review. *)
Definition same_review (row : AckRow) (review_digest : string) (verdict : ReviewVerdict)
    (diagnosis : option string) : bool :=
  bool_decide ((rv_review_digest <$> ar_review row) = Some review_digest)
  && bool_decide ((rv_verdict <$> ar_review row) = Some (ReviewVerdict.as_str verdict))
  && bool_decide ((ar_review row ≫= rv_diagnosis_ref) = diagnosis).

Definition verify_review_replay_tx (consumer_id : string) (delivery : ResultDelivery)
    (review_digest : string) (verdict : ReviewVerdict) (diagnosis_ref : option string) : M unit :=
  found ← query (λ d, ack_row d consumer_id delivery);
  row ← some_or found (ErrQuarantined "review command points to a missing result delivery");
  refuse_if (negb (delivery_matches row delivery)
             || bool_decide (ob_acked_at (ar_outbox row) = None))
            (ErrQuarantined "review command points to an invalid result delivery");;
  refuse_if (negb (same_review row review_digest verdict diagnosis_ref)) ErrIdempotencyConflict.

(** The statements of a first review: the review, the acknowledgement, the retention. *)
Definition record_review (consumer_id : string) (delivery : ResultDelivery) (review_digest : string)
    (verdict : ReviewVerdict) (diagnosis : option string) (now_us : Z) : M unit :=
  let task_id := del_task_id delivery in
  review_id ← new_v4;
  execute (insert_review review_id (mkReviewRow consumer_id task_id review_digest
    (ReviewVerdict.as_str verdict) diagnosis now_us));;
  execute (update_outbox consumer_id task_id now_us review_id);;
  t ← query_row (λ d, tasks d !! task_id);
  terminal_at ← some_or (t_terminal_at t) ErrSqlColumn;
  let blob_eligible := Z.max (i64_saturating_add terminal_at (14 * DAY_US))
                             (i64_saturating_add now_us (7 * DAY_US)) in
  execute (update_blob_refs [task_id; del_result_id delivery] blob_eligible);;
  execute (update_worktrees task_id (λ w, w <| w_acked_at := Some now_us |>
    <| w_state ::= λ state, if String.eqb state "ACTIVE" then "RETAINED" else state |>)).

(** The transaction; [true] when it only replayed. *)
Definition review_transaction (consumer_id command_key review_digest : string)
    (delivery : ResultDelivery) (verdict : ReviewVerdict) (diagnosis : option string) (now_us : Z) : M bool :=
  transaction (
    replay ← command_replay consumer_id "review_ack" command_key review_digest;
    match replay with
    | Some locator =>
        refuse_if (negb (String.eqb locator (del_result_id delivery))) ErrIdempotencyConflict;;
        verify_review_replay_tx consumer_id delivery review_digest verdict diagnosis;;
        mret true
    | None =>
        found ← query (λ d, ack_row d consumer_id delivery);
        row ← some_or found ErrAckMismatch;
        refuse_if (negb (delivery_matches row delivery)) ErrAckMismatch;;
        (if bool_decide (is_Some (ob_acked_at (ar_outbox row))) then
           refuse_if (negb (same_review row review_digest verdict diagnosis)) ErrAlreadyReviewed
         else record_review consumer_id delivery review_digest verdict diagnosis now_us);;
        store_command consumer_id "review_ack" command_key review_digest (del_result_id delivery) now_us;;
        generation ← query (λ d, t_generation <$> tasks d !! del_task_id delivery);
        match generation with
        | Some generation => execute (insert_audit (mkAuditRow "RESULT_ACKED" (Some (del_task_id delivery))
                                        (Some generation) review_digest now_us))
        | None => mret tt
        end;;
        bump_mutation_epoch now_us;;
        mret false
    end).

Definition review_and_ack (consumer_id command_key canonical_review_command : string)
    (delivery : ResultDelivery) (verdict : ReviewVerdict) (diagnosis : option string) (now_us : Z) : M bool :=
  ensure_mutation_allowed true;;
  parsed_command ← some_or (parse_review_ack_command canonical_review_command) ErrInvalidRequest;
  refuse_if (negb (review_matches parsed_command command_key delivery verdict diagnosis))
    ErrIdempotencyConflict;;
  let review_digest := hash_bytes canonical_review_command in
  replayed ← review_transaction consumer_id command_key review_digest delivery verdict diagnosis now_us;
  record_review_observation delivery verdict diagnosis now_us;;
  mret replayed.
End operations.
