(* ===== verification/Retention.v ===== *)
(** * Retention ([storage.rs])

    Reader leases, worktree registration, the marking of garbage with the compaction of
    old acknowledged tasks, the two halves of a deletion, and the emergency latch.  What
    the filesystem answers (a canonical path, whether the reserve could be released) is
    an argument of the operation. *)

From S2P Require Import Prelude Domain Externals Scheduler Improvement Schema StoreMonad Tables.
From S2P Require Import TaskStore Lifecycle Recovery.

Definition LEASE_TTL_US : Z := 60000000.
Definition LEASE_HEARTBEAT_US : Z := 20000000.
Definition GC_BATCH_ROWS : nat := 100.
Definition GC_BATCH_BYTES : Z := 64 * 1024 * 1024.

Record GcCandidate := mkGcCandidate {
  gc_resource_kind : string;
  gc_resource_id : string;
  gc_byte_length : Z;
  gc_fence_token : string;
}.

(** [exact_path]: the path of a blob is computed from its digest. *)
Inductive GcPath := BlobPath (digest : string) | WorktreePath (path : string).

Record GcDeletionPlan := mkGcPlan { plan_candidate : GcCandidate; plan_path : GcPath }.

(** ** Statements *)

Definition set_retention (f : RetentionTables → option RetentionTables) (d : Db) : option Db :=
  t ← f (retention d); Some (d <| retention := t |>).

Definition insert_worktree (worktree_id : string) (w : WorktreeRow) (d : Db) : option Db :=
  if negb (has_row (worktrees d) worktree_id) && has_row (tasks d) (w_task_id w)
     && free_of (λ _ x, String.eqb (w_path x) (w_path w)) (worktrees d)
  then Some (d <| worktrees ::= <[worktree_id := w]> |>) else None.

(** [INSERT INTO reader_leases .. ON CONFLICT(lease_id) DO UPDATE] keeps owner and issue time. *)
Definition upsert_lease (lease_id : string) (epoch now_us expires_at : Z) (t : RetentionTables)
  : option RetentionTables :=
  let row := match reader_leases t !! lease_id with
             | Some old => old <| ls_lease_epoch := epoch |> <| ls_heartbeat_at := now_us |>
                               <| ls_expires_at := expires_at |>
             | None => mkLeaseRow epoch lease_id now_us now_us expires_at
             end in
  Some (t <| reader_leases ::= <[lease_id := row]> |>).

Definition insert_lease_item (lease_id kind id : string) (t : RetentionTables) : option RetentionTables :=
  if has_row (reader_leases t) lease_id
  then Some (t <| reader_lease_items ::= union {[(lease_id, (kind, id))]} |>) else None.

(** [DELETE FROM reader_leases WHERE ..]; the items of a deleted lease go with it. *)
Definition delete_leases (where_ : string → LeaseRow → bool) (t : RetentionTables) : option RetentionTables :=
  let kept := filter (λ kv, where_ kv.1 kv.2 = false) (reader_leases t) in
  Some (t <| reader_leases := kept |>
          <| reader_lease_items ::= filter (λ item, is_Some (kept !! item.1)) |>).

Definition insert_intent (kind id : string) (row : IntentRow) (t : RetentionTables) : option RetentionTables :=
  if negb (has_row (gc_intents t) (kind, id)) && (char_count (gi_fence_token row) =? 64)
  then Some (t <| gc_intents ::= <[(kind, id) := row]> |>) else None.

Definition update_intent (kind id token : string) (f : IntentRow → IntentRow) (t : RetentionTables)
  : option RetentionTables :=
  Some (t <| gc_intents ::= map_imap (λ k row,
               Some (if bool_decide (k = (kind, id)) && String.eqb (gi_fence_token row) token
                     then f row else row)) |>).

Definition marked (d : Db) (kind id : string) : option IntentRow :=
  row ← gc_intents (retention d) !! (kind, id);
  if bool_decide (gi_state row = GcMarked) then Some row else None.

(** A lease item of the resource whose lease has not expired. *)
Definition leased (d : Db) (kind id : string) (now_us : Z) : bool :=
  existsb (λ item, bool_decide (item.2 = (kind, id))
                   && is_some_and (λ l, now_us <? ls_expires_at l) (reader_leases (retention d) !! item.1))
    (elements (reader_lease_items (retention d))).

Section operations.
Context `{E : Externals}.

(** ** Leases and worktrees *)

(** [canonical] is what [Path::canonicalize] answers and [inside] whether it lies under the root. *)
Definition register_worktree (worktree_id task_id : string) (canonical : option string) (inside : bool)
    (now_us : Z) : M unit :=
  ensure_mutation_allowed false;;
  path ← some_or canonical ErrIo;
  refuse_if (negb inside) ErrInvalidRoot;;
  transaction (
    execute (insert_worktree worktree_id (mkWorktreeRow task_id path None None None "ACTIVE" now_us));;
    bump_mutation_epoch now_us).

Definition current_lease_epoch : M Z := query (λ d, lease_epoch (storage_meta d)).

Definition acquire_lease (lease_id resource_kind resource_id : string) (epoch now_us : Z) : M unit :=
  ensure_mutation_allowed true;;
  transaction (
    current_epoch ← current_lease_epoch;
    refuse_if (negb (epoch =? current_epoch) || (now_us <? 0)) ErrStaleGeneration;;
    prior ← query (λ d, l ← reader_leases (retention d) !! lease_id;
                        if ls_lease_epoch l =? epoch then Some l else None);
    refuse_if (is_some_and (λ l, (ls_expires_at l <? now_us)
                                 || (i64_saturating_add (ls_heartbeat_at l) LEASE_HEARTBEAT_US <? now_us))
                 prior) ErrStaleGeneration;;
    let expires_at := i64_saturating_add now_us LEASE_TTL_US in
    fenced ← query (λ d, marked d resource_kind resource_id);
    refuse_if (bool_decide (is_Some fenced)) (ErrQuarantined "resource is fenced for GC");;
    execute (set_retention (upsert_lease lease_id epoch now_us expires_at));;
    execute (set_retention (insert_lease_item lease_id resource_kind resource_id))).

Definition release_lease (lease_id : string) (epoch : Z) : M bool :=
  ensure_mutation_allowed true;;
  held ← query (λ d, reader_leases (retention d) !! lease_id);
  execute (set_retention (delete_leases (λ k l, String.eqb k lease_id && (ls_lease_epoch l =? epoch))));;
  mret (is_some_and (λ l, ls_lease_epoch l =? epoch) held).

(** ** Compaction of old acknowledged tasks *)

(** A task none of whose worktrees is left on disk. *)
Definition worktrees_deleted (d : Db) (task_id : string) : bool :=
  free_of (λ _ w, String.eqb (w_task_id w) task_id && negb (String.eqb (w_state w) "DELETED")) (worktrees d).

(** The tasks the [SELECT] of [compact_eligible_tasks] lists, oldest first. *)
Definition compactable (d : Db) (now_us : Z) : list (string * Task) :=
  let cutoff := i64_saturating_sub now_us (90 * DAY_US) in
  take 100 (sort_by (λ x y, default 0 (t_terminal_at x.2) <=? default 0 (t_terminal_at y.2))
    (omap (λ row, let '((_, task_id), o) := row in
                  t ← tasks d !! task_id;
                  if bool_decide (is_Some (ob_acked_at o))
                     && is_some_and (λ at_, at_ <=? cutoff) (t_terminal_at t)
                     && negb (leased d "task" task_id now_us) && worktrees_deleted d task_id
                  then Some (task_id, t) else None)
       (map_to_list (result_outbox d)))).

(** The [DELETE]s: each is refused when a row that [REFERENCES .. ON DELETE RESTRICT] a deleted
    row would be left. *)
Definition delete_blob_refs (owner_id : string) (d : Db) : option Db :=
  Some (d <| blob_refs ::= filter (λ kv, kv.1.1.2 ≠ owner_id) |>).

Definition delete_requests (task_id : string) (d : Db) : option Db :=
  Some (d <| task_requests ::= delete task_id |>).

Definition delete_operations (task_id : string) (d : Db) : option Db :=
  Some (d <| internal_operations ::= filter (λ kv, op_task_id kv.2 ≠ task_id) |>).

Definition delete_outbox (task_id : string) (d : Db) : option Db :=
  Some (d <| result_outbox ::= filter (λ kv, kv.1.2 ≠ task_id) |>).

Definition delete_reviews (task_id : string) (d : Db) : option Db :=
  let kept := filter (λ kv, rv_task_id kv.2 ≠ task_id) (reviews d) in
  if free_of (λ _ o, is_some_and (λ id, has_row (reviews d) id && negb (has_row kept id)) (ob_review_id o))
       (result_outbox d)
  then Some (d <| reviews := kept |>) else None.

Definition delete_results (task_id : string) (d : Db) : option Db :=
  if free_of (λ k _, String.eqb k.2 task_id) (result_outbox d)
     && free_of (λ _ r, String.eqb (rv_task_id r) task_id) (reviews d)
  then Some (d <| results ::= delete task_id |>) else None.

Definition delete_events (task_id : string) (d : Db) : option Db :=
  if negb (has_row (results d) task_id) && free_of (λ k _, String.eqb k.2 task_id) (result_outbox d)
  then Some (d <| events ::= List.filter (λ e, negb (String.eqb (e_task_id e) task_id)) |>) else None.

Definition interactions_of (d : Db) (task_id : string) : gmap string InteractionRow :=
  filter (λ kv, i_task_id kv.2 = task_id) (pending_interactions d).

Definition delete_responses (task_id : string) (d : Db) : option Db :=
  Some (d <| interaction_responses ::= filter (λ kv, interactions_of d task_id !! kv.1 = None) |>).

Definition delete_interactions (task_id : string) (d : Db) : option Db :=
  if free_of (λ k _, has_row (interactions_of d task_id) k) (interaction_responses d)
  then Some (d <| pending_interactions ::= filter (λ kv, i_task_id kv.2 ≠ task_id) |>) else None.

Definition delete_attempts (task_id : string) (d : Db) : option Db :=
  Some (d <| attempts ::= filter (λ kv, a_task_id kv.2 ≠ task_id) |>).

Definition delete_worktrees (task_id : string) (d : Db) : option Db :=
  Some (d <| worktrees ::= filter (λ kv, ¬ (w_task_id kv.2 = task_id ∧ w_state kv.2 = "DELETED")) |>).

Definition delete_task (task_id : string) (d : Db) : option Db :=
  if negb (has_row (results d) task_id) && negb (has_row (task_requests d) task_id)
     && free_of (λ _ o, String.eqb (op_task_id o) task_id) (internal_operations d)
     && free_of (λ _ w, String.eqb (w_task_id w) task_id) (worktrees d)
  then Some (d <| tasks ::= delete task_id |>) else None.

Definition insert_tombstone (task_id : string) (row : TombstoneRow) (d : Db) : option Db :=
  Some (if has_row (task_tombstones d) task_id then d
        else d <| task_tombstones ::= <[task_id := row]> |>).

Definition tombstone_of (t : Task) (result : option ResultRow) (now_us : Z) : TombstoneRow :=
  mkTombstoneRow (t_request_digest t) (TaskState.as_str (t_state t)) (t_last_event_seq t)
    (Z.max (t_last_event_seq t) (t_evicted_through_seq t)) (res_result_digest <$> result)
    (Some (TaskState.as_str (t_state t))) now_us.

Definition compact_task (now_us : Z) (row : string * Task) : M unit :=
  let '(task_id, t) := row in
  result ← query (λ d, results d !! task_id);
  execute (insert_tombstone task_id (tombstone_of t result now_us));;
  execute (delete_blob_refs task_id);;
  execute (delete_requests task_id);;
  match result with Some r => execute (delete_blob_refs (res_result_id r)) | None => mret tt end;;
  execute (delete_operations task_id);;
  execute (delete_outbox task_id);;
  execute (delete_reviews task_id);;
  execute (delete_results task_id);;
  execute (delete_events task_id);;
  execute (delete_responses task_id);;
  execute (delete_interactions task_id);;
  execute (delete_attempts task_id);;
  execute (delete_worktrees task_id);;
  execute (delete_task task_id);;
  execute (insert_audit (mkAuditRow "TASK_COMPACTED" (Some task_id) None
    (digest_fields [TaskState.as_str (t_state t); pretty (t_last_event_seq t)]) now_us)).

Definition compact_eligible_tasks (now_us : Z) : M unit :=
  rows ← query (λ d, compactable d now_us);
  for_each rows (compact_task now_us).

(** ** Marking *)

Definition refs_of (d : Db) (hash : string) : list ((string * string * string) * BlobRefRow) :=
  select (λ _ r, String.eqb (br_hash r) hash) (blob_refs d).

(** Unreferenced for a day, or every reference past its own eligibility. *)
Definition blob_eligible (d : Db) (now_us : Z) (hash : string) (b : BlobRow) : bool :=
  (match refs_of d hash with
   | [] => bo_published_at b <=? now_us - DAY_US
   | refs => forallb (λ kv, is_some_and (λ at_, at_ <=? now_us) (br_eligible_at kv.2)) refs
   end)
  && negb (leased d "blob" hash now_us) && bool_decide (marked d "blob" hash = None).

Definition eligible_blobs (d : Db) (now_us : Z) : list (string * BlobRow) :=
  take GC_BATCH_ROWS (sort_by (λ x y, bo_published_at x.2 <=? bo_published_at y.2)
    (select (blob_eligible d now_us) (blob_objects (retention d)))).

Definition worktree_eligible (d : Db) (now_us : Z) (worktree_id : string) (w : WorktreeRow) : bool :=
  let success_cutoff := i64_saturating_sub now_us (7 * DAY_US) in
  let non_success_cutoff := i64_saturating_sub now_us (30 * DAY_US) in
  String.eqb (w_state w) "RETAINED"
  && is_some_and (λ terminal_at,
       (bool_decide (w_terminal_state w = Some "SUCCEEDED")
        && is_some_and (λ at_, at_ <=? success_cutoff) (w_acked_at w))
       || (is_some_and (λ st, bool_decide (st ∈ ["FAILED"; "CANCELLED"; "NEEDS_ATTENTION"])) (w_terminal_state w)
           && (terminal_at <=? non_success_cutoff))) (w_terminal_at w)
  && negb (leased d "worktree" worktree_id now_us) && bool_decide (marked d "worktree" worktree_id = None).

Definition eligible_worktrees (d : Db) (now_us : Z) (limit : nat) : list (string * WorktreeRow) :=
  take limit (sort_by (λ x y, default 0 (w_terminal_at x.2) <=? default 0 (w_terminal_at y.2))
    (select (worktree_eligible d now_us) (worktrees d))).

(** The loop over the eligible blobs: it stops before the batch would exceed its bytes,
    yet always takes the first. *)
Fixpoint draw_blobs (rows : list (string * BlobRow)) (candidates : list GcCandidate) (bytes : Z)
  : M (list GcCandidate) :=
  match rows with
  | [] => mret candidates
  | (id, b) :: rows =>
      refuse_if (bo_byte_length b <? 0) (ErrBlobCorruption id);;
      if bool_decide (candidates ≠ []) && (GC_BATCH_BYTES <? u64_saturating_add bytes (bo_byte_length b))
      then mret candidates
      else
        token ← new_token;
        draw_blobs rows (candidates ++ [mkGcCandidate "blob" id (bo_byte_length b) token])
          (u64_saturating_add bytes (bo_byte_length b))
  end.

Fixpoint draw_worktrees (rows : list (string * WorktreeRow)) (candidates : list GcCandidate)
  : M (list GcCandidate) :=
  match rows with
  | [] => mret candidates
  | (id, _) :: rows =>
      token ← new_token;
      draw_worktrees rows (candidates ++ [mkGcCandidate "worktree" id 0 token])
  end.

Definition set_worktree_state (worktree_id : string) (prior : string → bool) (state : string) (d : Db)
  : option Db :=
  Some (d <| worktrees ::= alter (λ w, if prior (w_state w) then w <| w_state := state |> else w)
                             worktree_id |>).

Definition mark_candidate (now_us : Z) (c : GcCandidate) : M unit :=
  refuse_if (i64_max <? gc_byte_length c) (ErrQuarantined "GC byte length exceeds SQLite range");;
  execute (set_retention (insert_intent (gc_resource_kind c) (gc_resource_id c)
    (mkIntentRow GcMarked (gc_byte_length c) (gc_fence_token c) 0 now_us None None)));;
  execute (insert_audit (mkAuditRow "GC_MARKED" None None
    (digest_fields [gc_resource_kind c; gc_resource_id c]) now_us));;
  if String.eqb (gc_resource_kind c) "worktree"
  then execute (set_worktree_state (gc_resource_id c) (λ _, true) "GC_MARKED") else mret tt.

Definition mark_retention_gc (now_us : Z) : M (list GcCandidate) :=
  ensure_mutation_allowed false;;
  transaction (
    execute (set_retention (delete_leases (λ _ l, ls_expires_at l <=? now_us)));;
    compact_eligible_tasks now_us;;
    blobs ← query (λ d, eligible_blobs d now_us);
    candidates ← draw_blobs blobs [] 0;
    candidates ← (if (length candidates <? GC_BATCH_ROWS)%nat
                  then trees ← query (λ d, eligible_worktrees d now_us (GC_BATCH_ROWS - length candidates));
                       draw_worktrees trees candidates
                  else mret candidates);
    for_each candidates (mark_candidate now_us);;
    bump_mutation_epoch now_us;;
    mret candidates).

(** ** Deletion *)

(** [inside] is [path.starts_with(&self.root)] for a stored path. *)
Definition prepare_gc_deletion (inside : string → bool) (resource_kind resource_id : string)
  : M GcDeletionPlan :=
  intent ← query_row (λ d, marked d resource_kind resource_id);
  exact_path ←
    (if String.eqb resource_kind "blob" && is_lower_sha256 resource_id
     then mret (BlobPath resource_id)
     else if String.eqb resource_kind "worktree"
     then stored ← query_row (λ d, w ← worktrees d !! resource_id;
                                  if String.eqb (w_state w) "GC_MARKED" then Some (w_path w) else None);
          refuse_if (negb (inside stored)) (ErrQuarantined "GC path escaped data root");;
          mret (WorktreePath stored)
     else fail (ErrQuarantined "unknown GC resource"));
  refuse_if (gi_byte_length intent <? 0) (ErrQuarantined "negative GC length");;
  mret (mkGcPlan (mkGcCandidate resource_kind resource_id (gi_byte_length intent) (gi_fence_token intent))
          exact_path).

Definition delete_refs_to (hash : string) (d : Db) : option Db :=
  Some (d <| blob_refs ::= filter (λ kv, br_hash kv.2 ≠ hash) |>).

Definition delete_blob_object (hash : string) (d : Db) : option Db :=
  if free_of (λ _ r, String.eqb (br_hash r) hash) (blob_refs d)
  then set_retention (λ t, Some (t <| blob_objects ::= delete hash |>)) d else None.

Definition finish_gc_deletion (c : GcCandidate) (success : bool) (error_digest : option string) (now_us : Z)
  : M unit :=
  ensure_mutation_allowed false;;
  transaction (
    matches ← query (λ d, row ← marked d (gc_resource_kind c) (gc_resource_id c);
                          if String.eqb (gi_fence_token row) (gc_fence_token c) then Some row else None);
    refuse_if (bool_decide (matches = None)) ErrStaleGeneration;;
    (if success then
       (if String.eqb (gc_resource_kind c) "blob" then
          execute (delete_refs_to (gc_resource_id c));;
          execute (delete_blob_object (gc_resource_id c))
        else if String.eqb (gc_resource_kind c) "worktree" then
          execute (set_worktree_state (gc_resource_id c) (String.eqb "GC_MARKED") "DELETED")
        else fail (ErrQuarantined "unknown GC resource"));;
       execute (set_retention (update_intent (gc_resource_kind c) (gc_resource_id c) (gc_fence_token c)
         (λ row, row <| gi_state := GcDeleted |> <| gi_finished_at := Some now_us |>
                     <| gi_attempts ::= Z.add 1 |>)));;
       execute (insert_audit (mkAuditRow "GC_DELETED" None None
         (digest_fields [gc_resource_kind c; gc_resource_id c]) now_us))
     else
       execute (set_retention (update_intent (gc_resource_kind c) (gc_resource_id c) (gc_fence_token c)
         (λ row, row <| gi_state := GcFailed |> <| gi_finished_at := Some now_us |>
                     <| gi_error_digest := Some (default "unknown" error_digest) |>
                     <| gi_attempts ::= Z.add 1 |>)));;
       execute (insert_audit (mkAuditRow "GC_FAILED" None None (default "unknown" error_digest) now_us)));;
    bump_mutation_epoch now_us).
End operations.

(** ** The emergency latch *)

Definition set_emergency (state : EmergencyState) : M unit := λ s, (inr tt, s <| emergency := state |>).

Definition record_emergency (state : EmergencyState) (now_us : Z) (d : Db) : option Db :=
  Some (d <| storage_meta ::= λ m, m <| emergency_state := state |> <| meta_updated_at := now_us |> |>).

(** [released]: whether [release_reserve] succeeds. *)
Definition latch_emergency (released : bool) (now_us : Z) : M EmergencyState :=
  s ← get_storage;
  if bool_decide (emergency s = EmReserveReleased) then mret EmReserveReleased
  else
    set_emergency EmLatched;;
    match quota s with
    | Some _ =>
        refuse_if (negb released) ErrIo;;
        set_emergency EmReserveReleased;;
        execute (record_emergency EmReserveReleased now_us);;
        execute (insert_audit (mkAuditRow "RESERVE_RELEASED" None None "storage-emergency" now_us));;
        mret EmReserveReleased
    | None =>
        execute (record_emergency EmLatched now_us);;
        mret EmLatched
    end.

(** [quick] is what [PRAGMA quick_check] answers, [checkpointed] and [created] whether the
    checkpoint and [create_reserve] succeed. *)
Definition recover_emergency `{Externals} (quick : string) (checkpointed created : bool) (now_us : Z) : M unit :=
  s ← get_storage;
  match quota s with
  | None => set_emergency EmNormal
  | Some policy =>
      integrity_check quick;;
      refuse_if (negb checkpointed) ErrIo;;
      used ← some_or (allocated_bytes (fs s)) ErrIo;
      free ← some_or (free_bytes (fs s)) ErrIo;
      refuse_if ((quota_bytes policy <? u64_saturating_add used (reserve_bytes policy))
                 || (free <? u64_saturating_mul (reserve_bytes policy) 2)) ErrQuotaExceeded;;
      refuse_if (negb created) ErrIo;;
      execute (record_emergency EmNormal now_us);;
      execute (insert_audit (mkAuditRow "RESERVE_RECREATED" None None "storage-recovered" now_us));;
      set_emergency EmNormal
  end.
