(* ===== verification/Blobs.v ===== *)
(** * The blob store ([storage.rs])

    Content-addressed files beside the database.  A [World] is the storage together with
    the files under the root, by path; an operation on it is written in a state and error
    monad of its own, into which the storage operations lift.  What the platform answers
    to each filesystem call is an argument ([BlobIo]): a call that fails leaves the files
    as a crash at that point would, so the failing runs are the crash points too. *)

From S2P Require Import Prelude Domain Externals Scheduler Improvement Schema StoreMonad Tables.
From S2P Require Import TaskStore Lifecycle Recovery Retention.

Record World := mkWorld { store : Storage; files : gmap string string }.
#[export] Instance eta_world : Eta World := fun r => mkWorld (store r) (files r).

Definition B (A : Type) : Type := World → (StorageError + A) * World.

#[export] Instance B_ret : MRet B := λ A a w, (inr a, w).
#[export] Instance B_bind : MBind B := λ A C f m w,
  match m w with
  | (inl e, w') => (inl e, w')
  | (inr a, w') => f a w'
  end.

(** A storage operation, which leaves the files alone. *)
Definition on_store {A} (m : M A) : B A := λ w, ((m (store w)).1, w <| store := (m (store w)).2 |>).

Definition refuse (condition : bool) (e : StorageError) : B unit := on_store (refuse_if condition e).

(** [Path::exists], [metadata], [File::open]: what the path holds. *)
Definition file_at (path : string) : B (option string) := λ w, (inr (files w !! path), w).

Definition set_file (path bytes : string) : B unit := λ w, (inr tt, w <| files ::= <[path := bytes]> |>).
Definition remove_file (path : string) : B unit := λ w, (inr tt, w <| files ::= delete path |>).

Fixpoint each {A} (l : list A) (body : A → B unit) : B unit :=
  match l with
  | [] => mret tt
  | x :: l => body x;; each l body
  end.

(** Whether each filesystem call succeeds; [io_written] is how much a failing write leaves. *)
Record BlobIo := mkBlobIo {
  io_directories : bool;
  io_create : bool;
  io_written : option nat;
  io_publish : bool;
  io_sync : bool;
  io_remove : bool;
}.

Definition io_fine : BlobIo := mkBlobIo true true None true true true.

(** ** Paths *)

Definition blob_path (digest : string) : string :=
  if is_lower_sha256 digest
  then "blobs/sha256/" +:+ String.substring 0 2 digest +:+ "/" +:+ String.substring 2 2 digest +:+ "/" +:+ digest
  else "blobs/invalid".

Definition stage_path (file_name : string) : string := "blobs/.staging/" +:+ file_name.

(** ** Statements *)

(** [INSERT OR IGNORE INTO blob_objects] *)
Definition insert_blob_object (hash : string) (byte_length now_us : Z) (t : RetentionTables)
  : option RetentionTables :=
  if has_row (blob_objects t) hash then Some t
  else if (char_count hash =? 64) && (0 <=? byte_length)
  then Some (t <| blob_objects ::= <[hash := mkBlobRow byte_length now_us now_us]> |>) else Some t.

Definition insert_staging (staging_id : string) (row : StagingRow) (t : RetentionTables)
  : option RetentionTables :=
  if negb (has_row (blob_staging t) staging_id)
     && free_of (λ _ r, String.eqb (sg_file_name r) (sg_file_name row)) (blob_staging t)
     && (char_count (sg_expected_hash row) =? 64) && (0 <=? sg_byte_length row)
  then Some (t <| blob_staging ::= <[staging_id := row]> |>) else None.

Definition delete_staging (p : string → StagingRow → bool) (t : RetentionTables) : option RetentionTables :=
  Some (t <| blob_staging ::= filter (λ kv, p kv.1 kv.2 = false) |>).

(** [INSERT INTO blob_refs .. ON CONFLICT DO UPDATE SET hash]: an old reference keeps its eligibility. *)
Definition upsert_blob_ref (key : string * string * string) (hash : string) (d : Db) : option Db :=
  if has_row (blob_objects (retention d)) hash
  then Some (d <| blob_refs ::= <[key := mkBlobRefRow hash (blob_refs d !! key ≫= br_eligible_at)]> |>)
  else None.

Definition set_blob_length (hash : string) (byte_length : Z) (t : RetentionTables) : option RetentionTables :=
  Some (t <| blob_objects ::= alter (λ b, b <| bo_byte_length := byte_length |>) hash |>).

Section operations.
Context `{E : Externals}.

(** ** Reading *)

Definition verify_blob (path digest : string) (length : Z) : B unit :=
  content ← file_at path;
  bytes ← on_store (some_or content ErrIo);
  refuse (negb (str_len bytes =? length) || negb (String.eqb (sha256_hex bytes) digest))
         (ErrBlobCorruption digest).

Definition read_blob (digest : string) : B string :=
  let path := blob_path digest in
  content ← file_at path;
  bytes ← on_store (some_or content ErrIo);
  verify_blob path digest (str_len bytes);;
  mret bytes.

(** ** Publication *)

(** [create_new], [write_all], [sync_all] *)
Definition write_stage (io : BlobIo) (stage bytes : string) : B unit :=
  prior ← file_at stage;
  refuse (negb (io_create io) || bool_decide (is_Some prior)) ErrIo;;
  match io_written io with
  | None => set_file stage bytes
  | Some n => set_file stage (String.substring 0 n bytes);; refuse true ErrIo
  end.

(** The platform's [atomic_publish]: the staged file becomes the destination, or nothing happens. *)
Definition atomic_publish (io : BlobIo) (stage final : string) : B bool :=
  staged ← file_at stage;
  match staged with
  | Some bytes => if io_publish io then remove_file stage;; set_file final bytes;; mret true else mret false
  | None => mret false
  end.

Definition commit_blob (digest : string) (byte_length : Z) (done : string → StagingRow → bool) (now_us : Z)
  : M unit :=
  transaction (
    execute (set_retention (insert_blob_object digest byte_length now_us));;
    execute (set_retention (delete_staging done));;
    bump_mutation_epoch now_us).

Definition publish_blob (io : BlobIo) (bytes : string) (now_us : Z) : B string :=
  on_store (ensure_mutation_allowed false);;
  on_store (ensure_capacity (str_len bytes));;
  let digest := sha256_hex bytes in
  let byte_length := str_len bytes in
  refuse (i64_max <? byte_length) ErrQuotaExceeded;;
  let final_path := blob_path digest in
  existing ← file_at final_path;
  match existing with
  | Some _ =>
      verify_blob final_path digest byte_length;;
      on_store (transaction (
        execute (set_retention (insert_blob_object digest byte_length now_us));;
        bump_mutation_epoch now_us));;
      mret digest
  | None =>
      refuse (negb (io_directories io)) ErrIo;;
      staging_id ← on_store new_v4;
      let stage_name := staging_id +:+ ".part" in
      let stage := stage_path stage_name in
      on_store (execute (set_retention (insert_staging staging_id
        (mkStagingRow stage_name digest byte_length now_us))));;
      write_stage io stage bytes;;
      verify_blob stage digest byte_length;;
      moved ← atomic_publish io stage final_path;
      (if moved : bool then mret tt
       else
         raced ← file_at final_path;
         refuse (bool_decide (raced = None)) ErrIo;;
         verify_blob final_path digest byte_length;;
         refuse (negb (io_remove io)) ErrIo;;
         remove_file stage);;
      refuse (negb (io_sync io)) ErrIo;;
      verify_blob final_path digest byte_length;;
      on_store (commit_blob digest byte_length
        (λ id row, String.eqb id staging_id && String.eqb (sg_expected_hash row) digest) now_us);;
      mret digest
  end.

Definition reference_blob (owner_kind owner_id field digest : string) (now_us : Z) : B unit :=
  on_store (ensure_mutation_allowed false);;
  refuse (negb (is_lower_sha256 digest)) (ErrBlobCorruption "invalid digest");;
  bytes ← read_blob digest;
  on_store (transaction (
    execute (upsert_blob_ref (owner_kind, owner_id, field) digest);;
    refuse_if (i64_max <? str_len bytes) ErrQuotaExceeded;;
    execute (set_retention (set_blob_length digest (str_len bytes)));;
    bump_mutation_epoch now_us)).

(** ** Startup *)

Definition mandatory_blobs (d : Db) : list (string * BlobRow) :=
  select (λ hash _, negb (free_of (λ _ r, String.eqb (br_hash r) hash) (blob_refs d))) (blob_objects (retention d)).

Definition verify_mandatory_blob_refs : B unit :=
  rows ← on_store (query mandatory_blobs);
  each rows (λ row, refuse (bo_byte_length row.2 <? 0) (ErrBlobCorruption row.1);;
                    verify_blob (blob_path row.1) row.1 (bo_byte_length row.2)).

(** The two transactions of recovery leave the mutation epoch alone. *)
Definition settle_staging (staging_id digest : string) (length now_us : Z) : M unit :=
  transaction (
    execute (set_retention (insert_blob_object digest length now_us));;
    execute (set_retention (delete_staging (λ id _, String.eqb id staging_id)))).

Definition recover_staged_blob (io : BlobIo) (now_us : Z) (entry : string * StagingRow) : B unit :=
  let '(staging_id, row) := entry in
  let staged := stage_path (sg_file_name row) in
  let digest := sg_expected_hash row in
  let final_path := blob_path digest in
  refuse (sg_byte_length row <? 0) (ErrBlobCorruption digest);;
  published ← file_at final_path;
  waiting ← file_at staged;
  match published, waiting with
  | Some _, _ =>
      verify_blob final_path digest (sg_byte_length row);;
      on_store (settle_staging staging_id digest (sg_byte_length row) now_us)
  | None, Some _ =>
      verify_blob staged digest (sg_byte_length row);;
      refuse (negb (io_directories io)) ErrIo;;
      moved ← atomic_publish io staged final_path;
      refuse (negb moved) ErrIo;;
      refuse (negb (io_sync io)) ErrIo;;
      on_store (settle_staging staging_id digest (sg_byte_length row) now_us)
  | None, None =>
      on_store (execute (set_retention (delete_staging (λ id _, String.eqb id staging_id))))
  end.

Definition staged_blobs (d : Db) : list (string * StagingRow) :=
  sort_by (λ x y, sg_created_at x.2 <=? sg_created_at y.2) (map_to_list (blob_staging (retention d))).

Definition recover_staged_blobs (io : BlobIo) (now_us : Z) : B unit :=
  rows ← on_store (query staged_blobs);
  each rows (recover_staged_blob io now_us).

(** ** Deletion *)

(** What the caller of [prepare_gc_deletion] does with the plan of a blob. *)
Definition delete_planned (plan : GcDeletionPlan) : B unit :=
  match plan_path plan with
  | BlobPath digest => remove_file (blob_path digest)
  | WorktreePath _ => mret tt
  end.
End operations.
