(* ===== verification/EngineStore.v ===== *)
(** * The durable improvement engine ([storage.rs], [improvement.rs])

    The engine is stored as one JSON snapshot with its digest and revision, and
    projected into the improvement tables; loading it checks the snapshot's digest and
    that every projected row agrees.  A mutation loads the engine, applies a method of
    [Improvement.v] and persists the result in one transaction when the snapshot
    changed.  The derived [Serialize]/[Deserialize] code is generated: it is the class
    [Serde].  The file instantiates the interfaces [ImprovementStore] and
    [ReviewObserver] that the task and review operations use. *)

From S2P Require Import Prelude Domain Externals Protocol Scheduler Improvement Schema StoreMonad.
From S2P Require Import Tables TaskStore Lifecycle InteractionStore Review.

(** [serde_json::to_string] and [from_str] at a type with derived implementations *)
Class Serde (A : Type) := {
  to_json : A → option string;
  from_json : string → option A;
}.

(** A derived deserializer reads back what the derived serializer wrote. *)
Class SerdeOk (A : Type) `{Serde A} :=
  from_to_json : ∀ (a : A) text, to_json a = Some text → from_json text = Some a.

#[export] Instance CaseRow_eq_dec : EqDecision CaseRow.
Proof. solve_decision. Defined.
#[export] Instance CandidateRow_eq_dec : EqDecision CandidateRow.
Proof. solve_decision. Defined.
#[export] Instance ConfigRow_eq_dec : EqDecision ConfigRow.
Proof. solve_decision. Defined.
#[export] Instance CanaryRow_eq_dec : EqDecision CanaryRow.
Proof. solve_decision. Defined.
#[export] Instance ImprovementPolicy_eq_dec : EqDecision ImprovementPolicy.
Proof. solve_decision. Defined.

(** ** The projection *)

Definition state_as_str (self : ImprovementState) : string :=
  match self with
  | Observing => "OBSERVING"
  | Canary => "CANARY"
  | Promoted => "PROMOTED"
  | RolledBack => "ROLLED_BACK"
  | Frozen => "FROZEN"
  end.

(** [DurableCase]: the columns of a case. *)
Definition case_row (case : CaseRecord) : CaseRow :=
  mkCaseRow (k_component case) (state_as_str (k_state case)) (k_created_at_us case)
    (k_candidate_id case) (k_parent_config_version case) (k_canary_started_at_us case)
    (k_rollback_count case).

Record DurableProjection := mkProjection {
  pj_cases : list (string * CaseRow);
  pj_candidates : list CandidateRecord;
  pj_assignments : list CanaryAssignment;
  pj_active_config_versions : list (string * Z);
}.

Definition durable_projection (self : ImprovementEngine) : DurableProjection :=
  mkProjection (map (λ case, (k_case_id case, case_row case)) (btree_values (cases self)))
    (btree_values (candidates self)) (btree_values (assignments self))
    (sort_by (λ x y : string * Z, String.leb x.1 y.1) (map_to_list (active_config_versions self))).

Section store.
Context `{E : Externals}.

(** The columns the storage writes for a candidate, its configuration and an assignment. *)
Definition candidate_row (candidate : CandidateRecord) (now_us : Z) : CandidateRow :=
  mkCandidateRow (d_case_id candidate) (d_component candidate) (knob_as_str (d_knob candidate))
    (json_to_string (d_value candidate)) (d_parent_config_version candidate)
    (d_rollback_config_version candidate) (d_candidate_config_version candidate)
    (d_candidate_config_digest candidate) (d_fixture_gate_passed candidate)
    (d_fixture_hard_failure candidate) now_us.

Definition config_row (candidate : CandidateRecord) (now_us : Z) : ConfigRow :=
  mkConfigRow (d_candidate_config_digest candidate) (d_component candidate)
    (d_parent_config_version candidate) (d_rollback_config_version candidate)
    (d_candidate_id candidate) now_us.

Definition canary_row (assignment : CanaryAssignment) (now_us : Z) : CanaryRow :=
  mkCanaryRow (as_case_id assignment) (as_candidate assignment) (as_config_version assignment)
    (as_config_digest assignment) now_us.

(** The stored row has the record's columns; its own timestamp is not compared. *)
Definition candidate_agrees (stored : option CandidateRow) (candidate : CandidateRecord) : bool :=
  is_some_and (λ row, bool_decide (row = candidate_row candidate (cn_created_at row))) stored.

Definition config_agrees (stored : option ConfigRow) (candidate : CandidateRecord) : bool :=
  is_some_and (λ row, bool_decide (row = config_row candidate (cf_created_at row))) stored.

Definition canary_agrees (stored : option CanaryRow) (assignment : CanaryAssignment) : bool :=
  is_some_and (λ row, bool_decide (row = canary_row assignment (ca_assigned_at row))) stored.

(** ** Verification *)

(** Checks made one after the other: the error of the first that fails. *)
Fixpoint first_failure (checks : list (bool * StorageError)) : StorageError + unit :=
  match checks with
  | [] => inr tt
  | (ok, e) :: checks => if ok then first_failure checks else inl e
  end.

(** [FROM improvement_audit ORDER BY revision DESC LIMIT 1] *)
Definition latest_audit (t : ImprovementTables) : option (Z * ImprovementAuditRow) :=
  head (sort_by (λ x y : Z * ImprovementAuditRow, y.1 <=? x.1) (map_to_list (improvement_audit t))).

Definition projection_checks (t : ImprovementTables) (state : EngineStateRow)
    (projection : DurableProjection) : list (bool * StorageError) :=
  let drift what := ErrQuarantined what in
  (bool_decide ((λ kv, (kv.1, ia_state_digest kv.2, Z.of_nat (size (improvement_audit t))))
                  <$> latest_audit t
                = Some (eng_revision state, eng_state_digest state, eng_revision state)),
   drift "improvement audit revision drift")
  :: (bool_decide (size (improvement_cases t) = length (pj_cases projection)),
      drift "improvement case projection drift")
  :: map (λ case, (bool_decide (improvement_cases t !! case.1 = Some case.2),
                   drift "improvement case projection drift")) (pj_cases projection)
  ++ (bool_decide (size (improvement_candidates t) = length (pj_candidates projection))
      && bool_decide (size (improvement_config_versions t) = size (improvement_candidates t)),
      drift "improvement candidate projection drift")
  :: flat_map (λ candidate,
       [(candidate_agrees (improvement_candidates t !! d_candidate_id candidate) candidate,
         drift "improvement candidate projection drift");
        (config_agrees (improvement_config_versions t !! d_candidate_config_version candidate) candidate,
         drift "improvement config projection drift")]) (pj_candidates projection)
  ++ (bool_decide (size (canary_assignments t) = length (pj_assignments projection)),
      drift "canary assignment projection drift")
  :: map (λ assignment, (canary_agrees (canary_assignments t !! as_task_id assignment) assignment,
                         drift "canary assignment projection drift")) (pj_assignments projection)
  ++ (bool_decide (size (improvement_active_configs t) = length (pj_active_config_versions projection)),
      drift "active improvement config projection drift")
  :: map (λ active, (bool_decide (ac_config_version <$> improvement_active_configs t !! active.1
                                  = Some active.2),
                     drift "active improvement config projection drift"))
       (pj_active_config_versions projection).

Definition verify_improvement_projection (engine : ImprovementEngine) (d : Db) : StorageError + unit :=
  match improvement_engine_state (improvement d) with
  | None => inl ErrSqlNoRows
  | Some state => first_failure (projection_checks (improvement d) state (durable_projection engine))
  end.

Context `{!Serde ImprovementEngine}.

Definition snapshot_json (engine : ImprovementEngine) : M string :=
  some_or (to_json engine) (ErrQuarantined "invalid improvement snapshot").

(** [load_improvement_engine] *)
Definition load_engine (d : Db) : StorageError + option ImprovementEngine :=
  match improvement_engine_state (improvement d) with
  | None => inr None
  | Some row =>
      if (eng_revision row <? 1) || negb (is_lower_sha256 (eng_state_digest row))
         || negb (String.eqb (hash_bytes (eng_state_json row)) (eng_state_digest row))
      then inl (ErrQuarantined "improvement snapshot integrity mismatch")
      else match from_json (eng_state_json row) with
      | None => inl (ErrQuarantined "invalid improvement snapshot")
      | Some engine =>
          match verify_improvement_projection engine d with
          | inl e => inl e
          | inr _ => inr (Some engine)
          end
      end
  end.

#[export] Instance durable_engine : ImprovementStore := load_engine.

(** ** Statements on the improvement tables *)

Definition set_tables (f : ImprovementTables → option ImprovementTables) (d : Db) : option Db :=
  t ← f (improvement d); Some (d <| improvement := t |>).

Definition case_is_active (row : CaseRow) : bool :=
  String.eqb (cs_state row) "OBSERVING" || String.eqb (cs_state row) "CANARY".

(** The unique index [improvement_one_active_component] has room for the row. *)
Definition component_free (case_id : string) (row : CaseRow) (t : ImprovementTables) : bool :=
  negb (case_is_active row)
  || free_of (λ k x, negb (String.eqb k case_id) && String.eqb (cs_component x) (cs_component row)
                     && case_is_active x) (improvement_cases t).

Definition clear_active_cases (t : ImprovementTables) : option ImprovementTables :=
  Some (t <| improvement_cases ::=
               fmap (λ row, if case_is_active row then row <| cs_state := "ROLLED_BACK" |> else row) |>).

(** [INSERT INTO improvement_cases .. ON CONFLICT(case_id) DO UPDATE] *)
Definition upsert_case (case_id : string) (row : CaseRow) (t : ImprovementTables)
  : option ImprovementTables :=
  let row' := match improvement_cases t !! case_id with
              | None => row
              | Some old => old <| cs_state := cs_state row |> <| cs_candidate_id := cs_candidate_id row |>
                                <| cs_canary_started_at := cs_canary_started_at row |>
                                <| cs_rollback_count := cs_rollback_count row |>
              end in
  if (0 <=? cs_parent_config_version row) && (0 <=? cs_rollback_count row)
     && component_free case_id row' t
  then Some (t <| improvement_cases ::= <[case_id := row']> |>) else None.

(** [INSERT OR IGNORE]: a row that violates a key or a check is skipped, a foreign key without
    its parent row is an error. *)
Definition insert_or_ignore {K A} `{Countable K} (allowed parent : bool) (k : K) (a : A)
    (m : gmap K A) : option (gmap K A) :=
  if allowed && negb (has_row m k) then (if parent then Some (<[k := a]> m) else None) else Some m.

Definition insert_candidate (candidate_id : string) (row : CandidateRow) (t : ImprovementTables)
  : option ImprovementTables :=
  m ← insert_or_ignore
        ((0 <=? cn_parent_config_version row) && (0 <=? cn_rollback_config_version row)
         && (1 <=? cn_candidate_config_version row) && (char_count (cn_candidate_config_digest row) =? 64)
         && bool_decide (is_Some (json_from_str (cn_value_json row)))
         && free_of (λ _ x, (cn_candidate_config_version x =? cn_candidate_config_version row)
                            || String.eqb (cn_candidate_config_digest x) (cn_candidate_config_digest row))
                    (improvement_candidates t))
        (has_row (improvement_cases t) (cn_case_id row)) candidate_id row (improvement_candidates t);
  Some (t <| improvement_candidates := m |>).

Definition insert_config (version : Z) (row : ConfigRow) (t : ImprovementTables)
  : option ImprovementTables :=
  m ← insert_or_ignore
        ((1 <=? version) && (char_count (cf_digest row) =? 64) && (0 <=? cf_parent_version row)
         && (0 <=? cf_rollback_version row)
         && free_of (λ _ x, String.eqb (cf_digest x) (cf_digest row)
                            || String.eqb (cf_candidate_id x) (cf_candidate_id row))
                    (improvement_config_versions t))
        (has_row (improvement_candidates t) (cf_candidate_id row)) version row
        (improvement_config_versions t);
  Some (t <| improvement_config_versions := m |>).

Definition insert_canary (task_id : string) (row : CanaryRow) (t : ImprovementTables)
  : option ImprovementTables :=
  m ← insert_or_ignore (0 <=? ca_config_version row) (has_row (improvement_cases t) (ca_case_id row))
        task_id row (canary_assignments t);
  Some (t <| canary_assignments := m |>).

Definition upsert_active_config (component : string) (row : ActiveConfigRow) (t : ImprovementTables)
  : option ImprovementTables :=
  if 0 <=? ac_config_version row
  then Some (t <| improvement_active_configs ::= <[component := row]> |>) else None.

(** The upsert of the singleton row keeps [created_at]. *)
Definition upsert_engine_state (revision : Z) (json digest : string) (now_us : Z)
    (t : ImprovementTables) : option ImprovementTables :=
  if (1 <=? revision) && bool_decide (is_Some (json_from_str json)) && (char_count digest =? 64)
  then Some (t <| improvement_engine_state ::= λ old,
               Some (mkEngineStateRow revision json digest
                       (match old with Some row => eng_created_at row | None => now_us end) now_us) |>)
  else None.

Definition insert_improvement_audit (revision : Z) (row : ImprovementAuditRow) (t : ImprovementTables)
  : option ImprovementTables :=
  if negb (has_row (improvement_audit t) revision) && (1 <=? revision)
     && (char_count (ia_state_digest row) =? 64)
  then Some (t <| improvement_audit ::= <[revision := row]> |>) else None.

(** ** Persisting the engine *)

(** [ImprovementCommandCommit]: what a replayed command answers. *)
Record CommandCommit := mkCommit {
  cc_consumer_id : string;
  cc_method : string;
  cc_command_key : string;
  cc_request_digest : string;
  cc_response_locator : string;
  cc_response_json : string;
}.

Definition store_response (command : CommandCommit) (now_us : Z) : M unit :=
  execute (insert_command (cc_consumer_id command) (cc_method command) (cc_command_key command)
    (mkCommand (cc_request_digest command) (cc_response_locator command) now_us
       (Some (cc_response_json command)) (Some (hash_bytes (cc_response_json command))))).

Definition verify_projection (engine : ImprovementEngine) : M unit :=
  checked ← query (verify_improvement_projection engine);
  match checked with inl e => fail e | inr _ => mret tt end.

Definition persist_candidate (now_us : Z) (candidate : CandidateRecord) : M unit :=
  execute (set_tables (insert_candidate (d_candidate_id candidate) (candidate_row candidate now_us)));;
  stored ← query (λ d, improvement_candidates (improvement d) !! d_candidate_id candidate);
  refuse_if (negb (candidate_agrees stored candidate))
    (ErrQuarantined "immutable improvement candidate drift");;
  execute (set_tables (insert_config (d_candidate_config_version candidate) (config_row candidate now_us)));;
  config ← query (λ d, improvement_config_versions (improvement d) !! d_candidate_config_version candidate);
  refuse_if (negb (config_agrees config candidate)) (ErrQuarantined "immutable improvement config drift").

Definition persist_assignment (now_us : Z) (assignment : CanaryAssignment) : M unit :=
  execute (set_tables (insert_canary (as_task_id assignment) (canary_row assignment now_us)));;
  stored ← query (λ d, canary_assignments (improvement d) !! as_task_id assignment);
  refuse_if (negb (canary_agrees stored assignment)) (ErrQuarantined "immutable canary assignment drift").

Definition persist_improvement_engine (engine : ImprovementEngine) (action : string) (now_us : Z)
    (command : option CommandCommit) : M unit :=
  state_json ← snapshot_json engine;
  let state_digest := hash_bytes state_json in
  let projection := durable_projection engine in
  transaction (
    current ← query (λ d, default 0 (eng_revision <$> improvement_engine_state (improvement d)));
    revision ← some_or (i64_checked (current + 1)) (ErrQuarantined "improvement revision overflow");
    execute (set_tables clear_active_cases);;
    for_each (pj_cases projection) (λ case, execute (set_tables (upsert_case case.1 case.2)));;
    for_each (pj_candidates projection) (persist_candidate now_us);;
    for_each (pj_assignments projection) (persist_assignment now_us);;
    for_each (pj_active_config_versions projection) (λ active,
      execute (set_tables (upsert_active_config active.1 (mkActiveConfigRow active.2 now_us))));;
    execute (set_tables (upsert_engine_state revision state_json state_digest now_us));;
    execute (set_tables (insert_improvement_audit revision
      (mkImprovementAuditRow action state_digest now_us)));;
    match command with Some command => store_response command now_us | None => mret tt end;;
    verify_projection engine;;
    bump_mutation_epoch now_us).

Definition persist_improvement_command_only (engine : ImprovementEngine) (command : CommandCommit)
    (now_us : Z) : M unit :=
  transaction (
    store_response command now_us;;
    verify_projection engine;;
    bump_mutation_epoch now_us).

Definition validate_improvement_time (now_us : Z) : M unit :=
  refuse_if (negb (between 0 now_us MAX_SAFE_TIME_US)) ErrInvalidRequest.

Definition load_optional : M (option ImprovementEngine) :=
  loaded ← query load_engine;
  match loaded with inl e => fail e | inr engine => mret engine end.

Definition load_initialized : M ImprovementEngine :=
  engine ← load_optional;
  some_or engine (ErrQuarantined "improvement engine is not initialized").

Definition mutate_improvement {T} (action : string) (now_us : Z)
    (mutation : ImprovementEngine → T * ImprovementEngine) : M T :=
  validate_improvement_time now_us;;
  ensure_mutation_allowed false;;
  engine ← load_initialized;
  before ← snapshot_json engine;
  let '(result, engine) := mutation engine in
  after ← snapshot_json engine;
  (if String.eqb before after then mret tt
   else persist_improvement_engine engine action now_us None);;
  mret result.
End store.
