(* ===== verification/Startup.v ===== *)
(** * Opening a store ([storage.rs])

    What [open_with_filesystem] does after the migrations: the lease epoch, the emergency
    latch and the startup checks, which verify the evidence behind every request,
    interaction and review before the store is handed out. *)

From S2P Require Import Prelude Domain Externals Protocol Scheduler Improvement Schema StoreMonad.
From S2P Require Import Tables TaskStore Lifecycle InteractionStore Recovery Review Retention Blobs.
From S2P Require Import EngineStore.

Section checks.
Context `{E : Externals}.

(** ** Requests *)

Definition verify_mandatory_request (row : string * Task) : M unit :=
  let '(task_id, t) := row in
  stored ← query (λ d, task_requests d !! task_id);
  r ← some_or stored (ErrQuarantined ("missing canonical task request for " +:+ task_id));
  let mismatch := ErrQuarantined ("canonical task request integrity mismatch for " +:+ task_id) in
  refuse_if ((rq_byte_length r <=? 0) || (MAX_CANONICAL_TASK_REQUEST_BYTES <? rq_byte_length r)) mismatch;;
  refuse_if (negb (String.eqb (rq_request_digest r) (t_request_digest t))
             || negb (rq_byte_length r =? str_len (rq_request_bytes r))
             || negb (String.eqb (sha256_hex (rq_request_bytes r)) (rq_request_digest r))) mismatch.

Definition verify_mandatory_task_requests : M unit :=
  rows ← query (λ d, select (λ _ t, negb (TaskState.is_terminal (t_state t))) (tasks d));
  for_each rows verify_mandatory_request.

(** ** Interactions *)

(** [FROM command_dedup WHERE consumer_id=? AND method=? AND response_locator=?] *)
Definition bindings (d : Db) (consumer_id method locator : string) : list (string * string) :=
  map (λ kv, (kv.1.2, cd_request_digest kv.2))
    (select (λ k c, String.eqb k.1.1 consumer_id && String.eqb k.1.2 method
                    && String.eqb (cd_response_locator c) locator) (command_dedup d)).

Definition response_command (command_key : string) (i : InteractionRow) (interaction_id : string)
    (response : Value) : Value :=
  json_object
    [("version", VNumber (NInt 1)); ("kind", VString "command"); ("action", VString "interaction_response");
     ("command_key", VString command_key); ("task_id", VString (i_task_id i));
     ("interaction_id", VString interaction_id); ("generation", VNumber (NInt (i_generation i)));
     ("operation_digest", VString (i_operation_digest i)); ("policy_digest", VString (i_policy_digest i));
     ("config_digest", VString (i_config_digest i)); ("nonce", VString (i_nonce i)); ("response", response)].

Definition verify_interaction_response_command_binding (evidence : InteractionResponseEvidence) : M unit :=
  let id := ev_interaction_id evidence in
  context ← query (λ d, pending_interactions d !! id);
  i ← some_or context (ErrQuarantined ("answered interaction lacks durable context: " +:+ id));
  bound ← query (λ d, bindings d (ev_consumer_id evidence) "interaction_response" id);
  '(command_key, request_digest) ← match bound with
    | [binding] => mret binding
    | _ => fail (ErrQuarantined ("answered interaction has ambiguous command binding: " +:+ id))
    end;
  refuse_if (negb (is_lower_sha256 request_digest))
    (ErrQuarantined ("answered interaction has invalid command digest: " +:+ id));;
  response ← some_or (json_from_str (ev_bytes evidence))
    (ErrQuarantined ("answered interaction has undecodable response evidence: " +:+ id));
  canonical ← ok_or (canonicalize (response_command command_key i id response))
    (ErrQuarantined ("answered interaction cannot reconstruct canonical command: " +:+ id));
  parsed ← some_or (parse_interaction_response_command canonical)
    (ErrQuarantined ("answered interaction reconstructs an invalid command: " +:+ id));
  refuse_if (negb (bool_decide (rc_response_kind parsed = ev_response_kind evidence))
             || negb (String.eqb (rc_response_bytes parsed) (ev_bytes evidence))
             || negb (String.eqb (hash_bytes canonical) request_digest))
    (ErrQuarantined ("answered interaction command digest disagrees with evidence: " +:+ id)).

(** The interactions joined with their attempts. *)
Definition evidence_rows (d : Db) : list (string * InteractionRow * AttemptRow) :=
  omap (λ kv, a ← attempts d !! i_attempt_id kv.2;
              if String.eqb (a_task_id a) (i_task_id kv.2) && (a_generation a =? i_generation kv.2)
              then Some (kv.1, kv.2, a) else None)
    (map_to_list (pending_interactions d)).

Definition verify_interaction (row : string * InteractionRow * AttemptRow) : M unit :=
  let '(id, i, a) := row in
  validate_interaction_metadata id (i_capability_class i) (i_config_version i) (i_policy_version i)
    (a_adapter_instance_id a);;
  has_response ← query (λ d, has_row (interaction_responses d) id);
  if bool_decide (i_state i = IAnswered) then
    refuse_if (negb has_response)
      (ErrQuarantined ("answered interaction has no response evidence: " +:+ id));;
    evidence ← load_interaction_response_evidence id;
    verify_interaction_response_command_binding evidence
  else
    refuse_if has_response
      (ErrQuarantined ("non-answered interaction has response evidence: " +:+ id)).

Definition verify_interaction_evidence : M unit :=
  rows ← query evidence_rows;
  for_each rows verify_interaction.

(** ** Reviews *)

Definition review_command (command_key task_id result_id ack_token verdict : string)
    (diagnosis : option string) : Value :=
  json_object
    ([("version", VNumber (NInt 1)); ("kind", VString "command"); ("action", VString "review_ack");
      ("command_key", VString command_key); ("task_id", VString task_id); ("result_id", VString result_id);
      ("result_version", VNumber (NInt 1)); ("ack_token", VString ack_token); ("verdict", VString verdict)]
     ++ match diagnosis with Some text => [("diagnosis", VString text)] | None => [] end).

Definition verify_review_command_binding (consumer_id task_id result_id ack_token review_digest verdict : string)
    (diagnosis : option string) : M unit :=
  bound ← query (λ d, bindings d consumer_id "review_ack" result_id);
  '(command_key, request_digest) ← match bound with
    | [binding] => mret binding
    | _ => fail (ErrQuarantined ("review has ambiguous command binding: " +:+ result_id))
    end;
  refuse_if (negb (String.eqb request_digest review_digest) || negb (is_lower_sha256 request_digest))
    (ErrQuarantined ("review command digest is invalid: " +:+ result_id));;
  canonical ← ok_or (canonicalize (review_command command_key task_id result_id ack_token verdict diagnosis))
    (ErrQuarantined ("review cannot reconstruct canonical command: " +:+ result_id));
  parsed ← some_or (parse_review_ack_command canonical)
    (ErrQuarantined ("review reconstructs an invalid command: " +:+ result_id));
  refuse_if (negb (String.eqb (ra_command_key parsed) command_key)
             || negb (String.eqb (ra_task_id parsed) task_id)
             || negb (String.eqb (ra_result_id parsed) result_id)
             || negb (ra_result_version parsed =? 1)
             || negb (constant_time_eq (ra_ack_token parsed) ack_token)
             || negb (String.eqb (ReviewVerdict.as_str (ra_verdict parsed)) verdict)
             || negb (bool_decide (ra_diagnosis parsed = diagnosis))
             || negb (String.eqb (hash_bytes canonical) review_digest))
    (ErrQuarantined ("review command digest disagrees with semantic evidence: " +:+ result_id)).

Definition verify_review (row : (string * string) * OutboxRow) : M unit :=
  let '((consumer_id, task_id), o) := row in
  let result_id := ob_result_id o in
  review ← query (λ d, id ← ob_review_id o; reviews d !! id);
  match ob_acked_at o with
  | None =>
      refuse_if (bool_decide (is_Some (ob_review_id o)) || bool_decide (is_Some review))
        (ErrQuarantined ("unacknowledged result has review evidence: " +:+ result_id))
  | Some _ =>
      review_id ← some_or (ob_review_id o)
        (ErrQuarantined ("acknowledged result has no review id: " +:+ result_id));
      r ← some_or review
        (ErrQuarantined ("acknowledged result has incomplete review evidence: " +:+ result_id));
      refuse_if (negb (String.eqb (rv_consumer_id r) consumer_id) || negb (String.eqb (rv_task_id r) task_id)
                 || String.eqb review_id "" || negb (is_lower_sha256 (rv_review_digest r))
                 || match ReviewVerdict.from_str (rv_verdict r) with inl _ => true | inr _ => false end)
        (ErrQuarantined ("invalid review evidence for result: " +:+ result_id));;
      refuse_if (negb (diagnosis_ok (rv_diagnosis_ref r)))
        (ErrQuarantined ("invalid lossless diagnosis for result: " +:+ result_id));;
      verify_review_command_binding consumer_id task_id result_id (ob_ack_token o) (rv_review_digest r)
        (rv_verdict r) (rv_diagnosis_ref r)
  end.

Definition verify_review_evidence : M unit :=
  rows ← query (λ d, map_to_list (result_outbox d));
  for_each rows verify_review.

(** ** Opening *)

Context `{!Serde ImprovementEngine}.

(** [migrations] is what [verify_migration_checksums] answers, [quick] and [foreign] what
    [PRAGMA quick_check] and [foreign_key_check] do. *)
Definition startup_integrity_check (migrations : StorageError + unit) (quick : string) (foreign : bool)
    (io : BlobIo) (now_us : Z) : B unit :=
  on_store (lift migrations);;
  on_store (integrity_check quick);;
  refuse foreign (ErrQuarantined "foreign-key violation");;
  recover_staged_blobs io now_us;;
  verify_mandatory_blob_refs;;
  on_store verify_mandatory_task_requests;;
  on_store verify_interaction_evidence;;
  on_store verify_review_evidence;;
  on_store load_optional;;
  on_store (replay_projections now_us).

Definition next_lease_epoch (now_us : Z) (d : Db) : option Db :=
  Some (d <| storage_meta ::= λ m, m <| lease_epoch ::= Z.add 1 |> <| meta_updated_at := now_us |> |>).

Definition set_policy (policy : option QuotaPolicy) : M unit := λ s, (inr tt, s <| quota := policy |>).

(** The latch a store is opened with: [reserve] is the length of the reserve file, if there is one. *)
Definition opening_latch (policy : QuotaPolicy) (reserve : option Z) (database_existed created : bool)
  : M EmergencyState :=
  stored ← query (λ d, emergency_state (storage_meta d));
  if bool_decide (reserve = Some (reserve_bytes policy)) && bool_decide (stored = EmNormal) then mret EmNormal
  else if negb database_existed && bool_decide (reserve = None) then
    refuse_if (negb created) ErrIo;; mret EmNormal
  else mret EmLatched.

Definition open_with_filesystem (policy : option QuotaPolicy) (reserve : option Z)
    (database_existed created : bool) (migrations : StorageError + unit) (quick : string) (foreign : bool)
    (io : BlobIo) (now_us : Z) : B unit :=
  on_store (execute (next_lease_epoch now_us));;
  on_store (match policy with
            | Some p =>
                valid ← match validate_quota p with inl e => fail e | inr valid => mret valid end;
                state ← opening_latch valid reserve database_existed created;
                set_policy (Some valid);; set_emergency state
            | None => set_policy None;; set_emergency EmNormal
            end);;
  startup_integrity_check migrations quick foreign io now_us.
End checks.
