(* ===== verification/EngineOperations.v ===== *)
(** * Operations on the durable improvement engine ([storage.rs])

    Initialization, the mutations behind the engine's methods, the two replayable
    commands ([improvement_propose], [improvement_rollback]) and the observation a
    review feeds to the engine. *)

From S2P Require Import Prelude Domain Externals Protocol Scheduler Improvement Schema StoreMonad.
From S2P Require Import Tables TaskStore Lifecycle InteractionStore Review EngineStore.

(** [CaseSnapshot] has the fields of a case record. *)
Record CandidateCommandResult := mkCandidateResult {
  cr_decision : CandidateDecision;
  cr_case : CaseRecord;
  cr_candidate_config_version : option Z;
}.

Record RollbackCommandResult := mkRollbackResult {
  rr_decision : EvaluationDecision;
  rr_case : CaseRecord;
  rr_candidate_config_version : option Z;
}.

Definition case_snapshot (self : ImprovementEngine) (case_id : string) : option CaseRecord :=
  cases self !! case_id.

Section operations.
Context `{E : Externals} `{!Serde ImprovementEngine}.

(** ** Initialization and mutations *)

Definition ensure_improvement_engine (policy_ : ImprovementPolicy) (now_us : Z) : M ImprovementEngine :=
  validate_improvement_time now_us;;
  loaded ← load_optional;
  match loaded with
  | Some engine =>
      refuse_if (negb (bool_decide (policy engine = policy_))) ErrIdempotencyConflict;;
      mret engine
  | None =>
      ensure_mutation_allowed false;;
      persist_improvement_engine (new_engine policy_) "INITIALIZED" now_us None;;
      mret (new_engine policy_)
  end.

Definition ensure_default_improvement_engine (now_us : Z) : M unit :=
  validate_improvement_time now_us;;
  loaded ← load_optional;
  match loaded with
  | Some _ => mret tt
  | None =>
      ensure_mutation_allowed false;;
      persist_improvement_engine (new_engine default_policy) "INITIALIZED" now_us None
  end.

Definition set_improvement_enabled (enabled_ : bool) (now_us : Z) : M unit :=
  mutate_improvement "FEATURE_FLAG_CHANGED" now_us (λ engine, (tt, set_enabled enabled_ engine)).

Definition improvement_observe (input : ObservationInput) : M ObservationDecision :=
  mutate_improvement "OBSERVATION_RECORDED" (o_reviewed_at_us input) (λ engine, observe engine input).

Definition improvement_open_case (input : ObservationInput) (now_us : Z) : M (option string) :=
  mutate_improvement "CASE_OPENED" now_us (λ engine, open_eligible_case engine input now_us).

Definition improvement_propose_candidate (proposal : CandidateProposal) (now_us : Z)
  : M (option CandidateDecision) :=
  mutate_improvement "CANDIDATE_PROPOSED" now_us (λ engine, propose_candidate engine proposal now_us).

Definition improvement_assign_canary (case_id : string) (admission : CanaryAdmission) : M CanaryDecision :=
  mutate_improvement "CANARY_ASSIGNED" (ad_now_us admission)
    (λ engine, assign_canary engine case_id admission).

Definition improvement_evaluate (case_id : string) (now_us : Z) : M EvaluationDecision :=
  mutate_improvement "CANARY_EVALUATED" now_us (λ engine, evaluate engine case_id now_us).

(** ** Replayable commands *)

Definition canonical_command_is (expected : Value) (canonical_command : string) : M unit :=
  match canonicalize expected with
  | inl _ => fail ErrInvalidRequest
  | inr text => refuse_if (negb (String.eqb text canonical_command)) ErrInvalidRequest
  end.

Definition validate_improvement_propose_command (canonical_command command_key : string)
    (proposal : CandidateProposal) : M unit :=
  canonical_command_is (json_object
    [("version", VNumber (NInt 1)); ("kind", VString "command");
     ("action", VString "improvement_propose"); ("command_key", VString command_key);
     ("case_id", VString (pr_case_id proposal)); ("knob", VString (knob_as_str (pr_knob proposal)));
     ("value", pr_value proposal); ("hypothesis", VString (pr_hypothesis proposal));
     ("fixtures", VArray (map (λ fixture, json_object
        [("fixture_id", VString (fixture_id fixture)); ("passed", VBool (passed fixture));
         ("hard_invariant_failures", VNumber (NInt (hard_invariant_failures fixture)))])
        (pr_fixtures proposal)))]) canonical_command.

Definition validate_improvement_rollback_command (canonical_command command_key case_id : string)
    (target_config_version : Z) : M unit :=
  canonical_command_is (json_object
    [("version", VNumber (NInt 1)); ("kind", VString "command");
     ("action", VString "improvement_rollback"); ("command_key", VString command_key);
     ("case_id", VString case_id);
     ("target_config_version", VNumber (NInt target_config_version))]) canonical_command.

Definition improvement_command_replay {T} `{!Serde T} (consumer_id method command_key request_digest
    response_locator : string) : M (option T) :=
  row ← query (λ d, command_dedup d !! (consumer_id, method, command_key));
  match row with
  | None => mret None
  | Some row =>
      refuse_if (negb (String.eqb (cd_request_digest row) request_digest)
                 || negb (String.eqb (cd_response_locator row) response_locator)) ErrIdempotencyConflict;;
      json ← some_or (cd_response_json row)
               (ErrQuarantined "improvement command replay lacks response evidence");
      refuse_if (negb (bool_decide (cd_response_digest row = Some (hash_bytes json))))
        (ErrQuarantined "improvement command response integrity mismatch");;
      value ← some_or (from_json json) (ErrQuarantined "improvement command response is invalid");
      mret (Some value)
  end.

Definition improvement_command {T} `{!Serde T} (consumer_id method command_key canonical_command
    response_locator audit_action : string) (now_us : Z)
    (mutation : ImprovementEngine → (StorageError + T) * ImprovementEngine) : M T :=
  validate_improvement_time now_us;;
  refuse_if (String.eqb canonical_command ""
             || (MAX_CANONICAL_TASK_REQUEST_BYTES <? str_len canonical_command)) ErrInvalidRequest;;
  let request_digest := hash_bytes canonical_command in
  replayed ← improvement_command_replay consumer_id method command_key request_digest response_locator;
  match replayed with
  | Some value => mret value
  | None =>
      ensure_mutation_allowed false;;
      engine ← load_initialized;
      before ← snapshot_json engine;
      let '(outcome, engine) := mutation engine in
      result ← match outcome with inl e => fail e | inr result => mret result end;
      response_json ← some_or (to_json result) (ErrQuarantined "invalid improvement response");
      let command := mkCommit consumer_id method command_key request_digest response_locator
                       response_json in
      after ← snapshot_json engine;
      (if String.eqb before after then persist_improvement_command_only engine command now_us
       else persist_improvement_engine engine audit_action now_us (Some command));;
      mret result
  end.

Definition propose_result (proposal : CandidateProposal) (now_us : Z) (engine : ImprovementEngine)
  : (StorageError + CandidateCommandResult) * ImprovementEngine :=
  let '(decision, engine) := propose_candidate engine proposal now_us in
  (match decision, case_snapshot engine (pr_case_id proposal) with
   | Some decision, Some case =>
       inr (mkCandidateResult decision case (candidate_config_version engine (pr_case_id proposal)))
   | _, _ => inl ErrInvalidRequest
   end, engine).

Definition improvement_propose_command `{!Serde CandidateCommandResult} (consumer_id command_key
    canonical_command : string) (proposal : CandidateProposal) (now_us : Z) : M CandidateCommandResult :=
  validate_improvement_propose_command canonical_command command_key proposal;;
  improvement_command consumer_id "improvement_propose" command_key canonical_command
    (pr_case_id proposal) "CANDIDATE_PROPOSED" now_us (propose_result proposal now_us).

Definition rollback_result (case_id : string) (target_config_version now_us : Z)
    (engine : ImprovementEngine) : (StorageError + RollbackCommandResult) * ImprovementEngine :=
  let '(decision, engine) := request_rollback engine case_id target_config_version now_us in
  (match decision, case_snapshot engine case_id with
   | EWaitingForSamples _ _, _ | _, None => inl ErrInvalidRequest
   | _, Some case => inr (mkRollbackResult decision case (candidate_config_version engine case_id))
   end, engine).

Definition improvement_rollback_command `{!Serde RollbackCommandResult} (consumer_id command_key
    canonical_command case_id : string) (target_config_version now_us : Z) : M RollbackCommandResult :=
  validate_improvement_rollback_command canonical_command command_key case_id target_config_version;;
  improvement_command consumer_id "improvement_rollback" command_key canonical_command case_id
    "ROLLBACK_REQUESTED" now_us (rollback_result case_id target_config_version now_us).

(** ** The observation of a review *)

(** Adds up the token counts of the usage payloads; [None] as soon as one is unreadable or the
    sum overflows. *)
Fixpoint sum_usage (payloads : list string) (total : Z) (count : nat) : option Z :=
  match payloads with
  | [] => if bool_decide (count = 0%nat) then None else Some total
  | payload :: payloads =>
      value ← json_from_str payload;
      object ← as_object value;
      input ← assoc "input_tokens" object ≫= as_u64;
      output ← assoc "output_tokens" object ≫= as_u64;
      total ← u64_checked (total + input);
      total ← u64_checked (total + output);
      sum_usage payloads total (S count)
  end.

Definition usage_token_cost (d : Db) (task_id : string) : option Z :=
  sum_usage (map e_payload (List.filter (λ e, String.eqb (e_kind e) "usage") (events_of d task_id))) 0 0.

Definition count_safety_violations (d : Db) (task_id : string) : Z :=
  Z.of_nat (length (List.filter (λ e, String.eqb (e_kind e) "safety_violation") (events_of d task_id))).

Definition failure_class_of (verdict : ReviewVerdict) (terminal_state : TaskState) : string :=
  match verdict with
  | Rejected => "review_rejected"
  | _ => match terminal_state with
         | Failed => "terminal_failed"
         | Cancelled => "terminal_cancelled"
         | NeedsAttention => "terminal_needs_attention"
         | _ => "terminal_unknown"
         end
  end.

Definition review_signature (verdict : ReviewVerdict) (terminal_state : TaskState)
    (adapter_version : string) (diagnosis : option string) : option FailureSignature :=
  if bool_decide (terminal_state = Succeeded) && bool_decide (verdict = Accepted) then None
  else Some (mkSignature "terminal" (failure_class_of verdict terminal_state)
               ("version-" +:+ sha256_hex adapter_version)
               ("diag-" +:+ sha256_hex (default "" diagnosis))).

(** The observation of the reviewed task's current attempt. *)
Definition review_observation (d : Db) (task_id : string) (t : Task) (a : AttemptRow)
    (verdict : ReviewVerdict) (diagnosis : option string) (safety_violations reviewed_at_us : Z)
  : ObservationInput :=
  let signature := review_signature verdict (t_state t) (a_adapter_version a) diagnosis in
  mkObservation task_id (a_adapter_instance_id a)
    (mkCohort (a_adapter_instance_id a) (a_adapter_version a) (a_config_version a) (a_config_digest a))
    reviewed_at_us (bool_decide (signature = None)) signature
    (ended ← a_ended_at a; latency ← i64_checked (ended - a_created_at a); u64_checked latency)
    (usage_token_cost d task_id) safety_violations.

Definition observe_and_open (input : ObservationInput) (engine : ImprovementEngine)
  : ObservationDecision * ImprovementEngine :=
  let '(decision, engine) := observe engine input in
  match decision with
  | OEligible _ _ _ => (decision, (open_eligible_case engine input (o_reviewed_at_us input)).2)
  | _ => (decision, engine)
  end.

Definition observe_review (delivery : ResultDelivery) (verdict : ReviewVerdict)
    (diagnosis : option string) (reviewed_at_us : Z) : M unit :=
  loaded ← load_optional;
  match loaded with
  | None => mret tt
  | Some engine =>
      if negb (enabled (policy engine)) then mret tt else
      row ← query (λ d, t ← tasks d !! del_task_id delivery;
                        '(_, a) ← head (attempts_at d (del_task_id delivery) (t_generation t));
                        Some (t, a));
      match row with
      | None => mret tt
      | Some (t, a) =>
          if String.eqb (a_adapter_instance_id a) "" || String.eqb (a_config_digest a) "" then mret tt
          else
            violations ← query (λ d, count_safety_violations d (del_task_id delivery));
            violations ← some_or (u32_checked violations) ErrSqlColumn;
            input ← query (λ d, review_observation d (del_task_id delivery) t a verdict diagnosis
                                  violations reviewed_at_us);
            mutate_improvement "OBSERVATION_RECORDED" reviewed_at_us (observe_and_open input);;
            mret tt
      end
  end.

#[export] Instance durable_observer : ReviewObserver := observe_review.
End operations.
