(* ===== verification/SampleSerde.v ===== *)
(** * A concrete instance of the derived serializers

    The witnesses store engines and command results under a concrete encoding: each
    type is mapped to a JSON value and that to the text of [SampleExternals.v].  The
    class [Encoding] carries the round trip; records are encoded as nested pairs. *)

From S2P Require Import Prelude Externals SampleExternals Improvement EngineStore EngineOperations.

Class Encoding (A : Type) := {
  enc : A → Value;
  dec : Value → option A;
  dec_enc : ∀ a, dec (enc a) = Some a;
}.

(** A type whose values can be rebuilt from an encoded type. *)
Definition encoding_via {A B} `{Encoding B} (f : A → B) (g : B → A) (Hgf : ∀ a, g (f a) = a) : Encoding A.
Proof.
  refine {| enc a := enc (f a); dec v := g <$> dec v |}. intros a. rewrite dec_enc. simpl. by rewrite Hgf.
Defined.

#[export] Instance encoding_value : Encoding Value.
Proof.
  refine ({| enc v := v; dec v := Some v |}). done.
Defined.

#[export] Instance encoding_string : Encoding string.
Proof.
  refine ({| enc := VString; dec := Externals.as_str |}). done.
Defined.

#[export] Instance encoding_Z : Encoding Z.
Proof.
  refine ({| enc z := VNumber (NInt z); dec v := match v with VNumber (NInt z) => Some z | _ => None end |}). done.
Defined.

#[export] Instance encoding_bool : Encoding bool.
Proof.
  refine ({| enc := VBool; dec v := match v with VBool b => Some b | _ => None end |}). done.
Defined.

#[export] Instance encoding_pair {A B} `{Encoding A, Encoding B} : Encoding (A * B).
Proof.
  refine ({| enc p := VArray [enc p.1; enc p.2];
     dec v := match v with VArray [x; y] => a ← dec x; b ← dec y; Some (a, b) | _ => None end |}). intros [a b]. simpl. by rewrite !dec_enc.
Defined.

#[export] Instance encoding_option {A} `{Encoding A} : Encoding (option A).
Proof.
  refine ({| enc o := match o with Some a => VArray [enc a] | None => VNull end;
     dec v := match v with VNull => Some None | VArray [x] => Some <$> dec x | _ => None end |}). intros [a|]; simpl; by rewrite ?dec_enc.
Defined.

#[export] Instance encoding_list {A} `{Encoding A} : Encoding (list A).
Proof.
  refine ({| enc l := VArray (map enc l);
     dec v := match v with VArray vs => mapM dec vs | _ => None end |}). intros l. simpl. induction l as [|a l IH]; [done|]. simpl. rewrite dec_enc. simpl. by rewrite IH.
Defined.

#[export] Instance encoding_map {A} `{Encoding A} : Encoding (gmap string A) :=
  encoding_via map_to_list list_to_map (list_to_map_to_list (M := gmap string)).

#[export] Instance encoding_set : Encoding (gset string).
Proof.
  refine (encoding_via elements list_to_set _). intros X. apply set_eq. intros x. by rewrite elem_of_list_to_set, elem_of_elements.
Defined.

(** ** The records of the engine *)

Definition knob_number (k : CandidateKnob) : Z :=
  match k with
  | PromptComposition => 0 | ContextSelection => 1 | SameAgentTransportPriority => 2 | Quality => 3 | Effort => 4
  end.

Definition number_knob (z : Z) : CandidateKnob :=
  match z with 0 => PromptComposition | 1 => ContextSelection | 2 => SameAgentTransportPriority | 3 => Quality
             | _ => Effort end.

Definition state_number (s : ImprovementState) : Z :=
  match s with Observing => 0 | Canary => 1 | Promoted => 2 | RolledBack => 3 | Frozen => 4 end.

Definition number_state (z : Z) : ImprovementState :=
  match z with 0 => Observing | 1 => Canary | 2 => Promoted | 3 => RolledBack | _ => Frozen end.

#[export] Instance encoding_knob : Encoding CandidateKnob.
Proof.
  refine (encoding_via knob_number number_knob _). by intros [].
Defined.

#[export] Instance encoding_state : Encoding ImprovementState.
Proof.
  refine (encoding_via state_number number_state _). by intros [].
Defined.

#[export] Instance encoding_policy : Encoding ImprovementPolicy.
Proof.
  refine (encoding_via
  (λ p, (enabled p, prompt_profiles p, context_profiles p, transport_profiles p, allowed_quality p,
         allowed_effort p))
  (λ '(a, b, c, d, e, f), mkPolicy a b c d e f) _). by intros [].
Defined.

#[export] Instance encoding_signature : Encoding FailureSignature.
Proof.
  refine (encoding_via
  (λ x, (protocol_stage x, failure_class x, version_bucket x, diagnostic_code x))
  (λ '(a, b, c, d), mkSignature a b c d) _). by intros [].
Defined.

#[export] Instance encoding_cohort : Encoding Cohort.
Proof.
  refine (encoding_via
  (λ x, (co_adapter_instance_id x, co_adapter_version x, co_config_version x, co_config_digest x))
  (λ '(a, b, c, d), mkCohort a b c d) _). by intros [].
Defined.

#[export] Instance encoding_observation : Encoding ObservationInput.
Proof.
  refine (encoding_via
  (λ x, (o_task_id x, o_component x, o_cohort x, o_reviewed_at_us x, o_success x, o_failure_signature x,
         o_latency_us x, o_token_cost x, o_safety_violations x))
  (λ '(a, b, c, d, e, f, g, h, i), mkObservation a b c d e f g h i) _). by intros [].
Defined.

#[export] Instance encoding_case : Encoding CaseRecord.
Proof.
  refine (encoding_via
  (λ x, (k_case_id x, k_component x, k_cohort x, k_signature x, k_created_at_us x, k_state x, k_candidate_id x,
         k_parent_config_version x, k_canary_started_at_us x, k_rollback_count x))
  (λ '(a, b, c, d, e, f, g, h, i, j), mkCase a b c d e f g h i j) _). by intros [].
Defined.

#[export] Instance encoding_candidate : Encoding CandidateRecord.
Proof.
  refine (encoding_via
  (λ x, (d_candidate_id x, d_case_id x, d_component x, d_knob x, d_value x, d_parent_config_version x,
         d_rollback_config_version x, d_candidate_config_version x, d_candidate_config_digest x,
         d_fixture_gate_passed x, d_fixture_hard_failure x))
  (λ '(a, b, c, d, e, f, g, h, i, j, k), mkCandidate a b c d e f g h i j k) _). by intros [].
Defined.

#[export] Instance encoding_assignment : Encoding CanaryAssignment.
Proof.
  refine (encoding_via
  (λ x, (as_case_id x, as_task_id x, as_candidate x, as_config_version x, as_config_digest x, as_replayed x))
  (λ '(a, b, c, d, e, f), mkAssignment a b c d e f) _). by intros [].
Defined.

#[export] Instance encoding_engine : Encoding ImprovementEngine.
Proof.
  refine (encoding_via
  (λ x, (policy x, observations x, cases x, candidates x, assignments x, active_config_versions x,
         cooldown_until x, rollback_counts x, next_config_version x))
  (λ '(a, b, c, d, e, f, g, h, i), mkEngine a b c d e f g h i) _). by intros [].
Defined.

(** ** The command results *)

#[export] Instance encoding_candidate_decision : Encoding CandidateDecision.
Proof.
  refine (encoding_via
  (λ x, match x with
        | CFeatureDisabled => (0, 0, "", false)
        | CCanary v d => (1, v, d, false)
        | CFixtureRejected b => (2, 0, "", b)
        end)
  (λ '(tag, v, d, b), match tag with
                      | 0 => CFeatureDisabled
                      | 1 => CCanary v d
                      | _ => CFixtureRejected b
                      end) _). by intros [].
Defined.

#[export] Instance encoding_evaluation_decision : Encoding EvaluationDecision.
Proof.
  refine (encoding_via
  (λ x, match x with
        | EFeatureDisabled => (0, 0, 0)
        | EWaitingForTime => (1, 0, 0)
        | EWaitingForSamples a b => (2, a, b)
        | EMissingMetrics => (3, 0, 0)
        | EPromoted v => (4, v, 0)
        | ERolledBack v n => (5, v, n)
        | EFrozen v n => (6, v, n)
        end)
  (λ '(tag, a, b), match tag with
                   | 0 => EFeatureDisabled
                   | 1 => EWaitingForTime
                   | 2 => EWaitingForSamples a b
                   | 3 => EMissingMetrics
                   | 4 => EPromoted a
                   | 5 => ERolledBack a b
                   | _ => EFrozen a b
                   end) _). by intros [].
Defined.

#[export] Instance encoding_candidate_result : Encoding CandidateCommandResult.
Proof.
  refine (encoding_via
  (λ x, (cr_decision x, cr_case x, cr_candidate_config_version x))
  (λ '(a, b, c), mkCandidateResult a b c) _). by intros [].
Defined.

#[export] Instance encoding_rollback_result : Encoding RollbackCommandResult.
Proof.
  refine (encoding_via
  (λ x, (rr_decision x, rr_case x, rr_candidate_config_version x))
  (λ '(a, b, c), mkRollbackResult a b c) _). by intros [].
Defined.

(** ** The serializers *)

#[export] Instance sample_serde {A} `{Encoding A} : Serde A := {|
  to_json a := Some (value_code (enc a));
  from_json text := sample_from_str text ≫= dec;
|}.

#[export] Instance sample_serde_ok {A} `{Encoding A} : SerdeOk A.
Proof.
  intros a text [= <-]. simpl. unfold sample_from_str.
  pose proof (read_value_code (enc a) "" (String.length (value_code (enc a))) (le_n _)) as Hread.
  rewrite app_nil_r_string in Hread. rewrite Hread. simpl. apply dec_enc.
Qed.
