(* ===== verification/Ledger.v ===== *)
(** * The invariant of the database and its append-only evolution

    [db_ok] is what holds of every database the storage operations can reach;
    [ledger] is what no operation ever undoes.  Both are carried through the
    operations by one preorder, [safe]: from a good database to a good database
    along the ledger. *)

From S2P Require Import Prelude Domain Externals Improvement Schema StoreMonad Tables.

(** ** Evolution *)

(** What a later version of a task row keeps. *)
Record task_evolves (t t' : Task) : Prop := {
  te_request : t_request_digest t' = t_request_digest t;
  te_parent : t_retry_of_task_id t' = t_retry_of_task_id t;
  te_created : t_created_at t' = t_created_at t;
  te_priority : t_priority t' = t_priority t;
  te_generation : t_generation t ≤ t_generation t';
  te_seq : t_last_event_seq t ≤ t_last_event_seq t';
  te_adapter : t_adapter_instance_id t ≠ "" → t_adapter_instance_id t' = t_adapter_instance_id t;
  te_cancel : is_Some (t_cancel_requested_at t) → is_Some (t_cancel_requested_at t');
  te_terminal : TaskState.is_terminal (t_state t) = true →
    t_state t' = t_state t ∧ t_generation t' = t_generation t ∧
    t_terminal_event_seq t' = t_terminal_event_seq t ∧ t_terminal_at t' = t_terminal_at t;
}.

(** What a later version of an attempt row keeps. *)
Record attempt_evolves (a a' : AttemptRow) : Prop := {
  ae_task : a_task_id a' = a_task_id a;
  ae_generation : a_generation a' = a_generation a;
  ae_ordinal : a_ordinal a' = a_ordinal a;
  ae_adapter : a_adapter_instance_id a' = a_adapter_instance_id a;
  ae_config : a_config_version a' = a_config_version a ∧ a_config_digest a' = a_config_digest a;
  ae_profile : a_effect_profile a' = a_effect_profile a;
  ae_phase : DispatchPhase.rank (a_dispatch_phase a) ≤ DispatchPhase.rank (a_dispatch_phase a');
  ae_terminal : AttemptState.is_terminal (a_state a) = true →
    a_state a' = a_state a ∧ a_dispatch_phase a' = a_dispatch_phase a;
}.

(** What a later version of an interaction keeps: a decision is final. *)
Record interaction_evolves (i i' : InteractionRow) : Prop := {
  ie_task : i_task_id i' = i_task_id i;
  ie_generation : i_generation i' = i_generation i;
  ie_nonce : i_nonce i' = i_nonce i;
  ie_digests : i_operation_digest i' = i_operation_digest i ∧ i_policy_digest i' = i_policy_digest i ∧
    i_config_digest i' = i_config_digest i;
  ie_expires : i_expires_at i' = i_expires_at i;
  ie_decided : i_state i ≠ IPending → i_state i' = i_state i;
}.

Record operation_evolves (o o' : OperationRow) : Prop := {
  oe_digest : op_digest o' = op_digest o;
  oe_task : op_task_id o' = op_task_id o;
  oe_generation : op_generation o' = op_generation o;
  oe_kind : op_kind o' = op_kind o;
  oe_locator : op_response_locator o ≠ "pending-result" → op_response_locator o' = op_response_locator o;
}.

Record outbox_evolves (o o' : OutboxRow) : Prop := {
  be_result : ob_result_id o' = ob_result_id o;
  be_token : ob_ack_token o' = ob_ack_token o;
  be_seq : ob_terminal_event_seq o' = ob_terminal_event_seq o;
  be_acked : is_Some (ob_acked_at o) → ob_acked_at o' = ob_acked_at o ∧ ob_review_id o' = ob_review_id o;
}.

(** Every row of the first table is still there, in a later version. *)
Definition table_evolves {K A} `{Countable K} (P : A → A → Prop) (m m' : gmap K A) : Prop :=
  ∀ k a, m !! k = Some a → ∃ a', m' !! k = Some a' ∧ P a a'.

Record ledger (d d' : Db) : Prop := {
  lg_tasks : table_evolves task_evolves (tasks d) (tasks d');
  lg_attempts : table_evolves attempt_evolves (attempts d) (attempts d');
  lg_interactions : table_evolves interaction_evolves (pending_interactions d) (pending_interactions d');
  lg_operations : table_evolves operation_evolves (internal_operations d) (internal_operations d');
  lg_outbox : table_evolves outbox_evolves (result_outbox d) (result_outbox d');
  lg_events : events d `prefix_of` events d';
  lg_commands : command_dedup d ⊆ command_dedup d';
  lg_responses : interaction_responses d ⊆ interaction_responses d';
  lg_results : results d ⊆ results d';
  lg_reviews : reviews d ⊆ reviews d';
  lg_requests : task_requests d ⊆ task_requests d';
}.

#[export] Instance task_evolves_preorder : PreOrder task_evolves.
Proof.
  split; [by intros t; split|]. intros t1 t2 t3 [] []. split; try congruence; try lia; try tauto.
  - intros H. rewrite te_adapter1; rewrite te_adapter0; done.
  - intros H. destruct te_terminal0 as (? & ? & ? & ?); [done|].
    destruct te_terminal1 as (? & ? & ? & ?); [congruence|]. split_and!; congruence.
Qed.

#[export] Instance attempt_evolves_preorder : PreOrder attempt_evolves.
Proof.
  split; [by intros a; split|]. intros a1 a2 a3 [] []. destruct_and?. split; try congruence; try lia.
  - split; congruence.
  - intros Hterm. destruct ae_terminal0 as [? ?]; [done|].
    destruct ae_terminal1 as [? ?]; [congruence|]. split; congruence.
Qed.

#[export] Instance interaction_evolves_preorder : PreOrder interaction_evolves.
Proof.
  split; [by intros i; split|]. intros i1 i2 i3 [] []. destruct_and?. split; try congruence.
  - split_and!; congruence.
  - intros Hdec. rewrite ie_decided1; rewrite ie_decided0; done.
Qed.

#[export] Instance operation_evolves_preorder : PreOrder operation_evolves.
Proof.
  split; [by intros o; split|]. intros o1 o2 o3 [] []. split; try congruence.
  intros H. rewrite oe_locator1; rewrite oe_locator0; done.
Qed.

#[export] Instance outbox_evolves_preorder : PreOrder outbox_evolves.
Proof.
  split; [by intros o; split|]. intros o1 o2 o3 [] []. split; try congruence.
  intros Hack. destruct (be_acked0 Hack) as [Ha ?]. rewrite <-Ha in Hack.
  destruct (be_acked1 Hack). split; congruence.
Qed.

#[export] Instance table_evolves_preorder {K A} `{Countable K} (P : A → A → Prop) :
  PreOrder P → PreOrder (table_evolves (K:=K) P).
Proof.
  intros HP. split.
  - intros m k a Hk. exists a. split; [done|reflexivity].
  - intros m1 m2 m3 H12 H23 k a Hk. destruct (H12 k a Hk) as (a2 & H2 & Ha2).
    destruct (H23 k a2 H2) as (a3 & H3 & Ha3). exists a3. split; [done|by etrans].
Qed.

#[export] Instance ledger_preorder : PreOrder ledger.
Proof.
  split; [by intros d; split|]. intros d1 d2 d3 [] []. split; by etrans.
Qed.

Lemma table_evolves_insert {K A} `{Countable K} (P : A → A → Prop) `{!PreOrder P} (m : gmap K A) k a' :
  (∀ a, m !! k = Some a → P a a') → table_evolves P m (<[k := a']> m).
Proof.
  intros Ha k' a Hk. destruct (decide (k = k')) as [<-|Hne].
  - exists a'. rewrite lookup_insert_eq. split; [done|by apply Ha].
  - exists a. rewrite lookup_insert_ne by done. split; [done|reflexivity].
Qed.

Lemma table_evolves_imap {K A} `{Countable K} (P : A → A → Prop) (m : gmap K A) (f : K → A → A) :
  (∀ k a, m !! k = Some a → P a (f k a)) →
  table_evolves P m (map_imap (λ k a, Some (f k a)) m).
Proof.
  intros Hf k a Hk. exists (f k a). rewrite map_lookup_imap, Hk. split; [done|by apply Hf].
Qed.

(** ** Selections *)

Lemma NoDup_singleton {A} (l : list A) x : NoDup l → x ∈ l → (∀ y, y ∈ l → y = x) → l = [x].
Proof.
  intros Hnd Hx Hall. destruct l as [|y l]; [set_solver|].
  assert (y = x) as -> by (apply Hall; set_solver). f_equal.
  destruct l as [|z l]; [done|]. apply NoDup_cons in Hnd as [Hn _].
  assert (z = x) as -> by (apply Hall; set_solver). set_solver.
Qed.

Lemma select_NoDup {K A} `{Countable K} (p : K → A → bool) (m : gmap K A) : NoDup (select p m).
Proof. apply NoDup_filter, NoDup_map_to_list. Qed.

(** ** The invariant *)

(** The events of a task, in commit order. *)
Definition log_of (d : Db) (task_id : string) : list Event :=
  List.filter (λ e, String.eqb (e_task_id e) task_id) (events d).

(** The terminal tuple of a task: result, outbox row and terminal event agree. *)
Definition terminal_tuple `{Externals} (d : Db) (task_id : string) (t : Task) : Prop :=
  ∃ consumer r o e seq,
    t_terminal_event_seq t = Some seq ∧
    results d !! task_id = Some r ∧ res_terminal_event_seq r = seq ∧
    result_outbox d !! (consumer, task_id) = Some o ∧
    (∀ consumer' o', result_outbox d !! (consumer', task_id) = Some o' → consumer' = consumer) ∧
    ob_result_id o = res_result_id r ∧ ob_terminal_event_seq o = seq ∧
    e ∈ events d ∧ e_task_id e = task_id ∧ e_event_seq e = seq ∧ e_kind e = "terminal" ∧
    e_payload e = terminal_event_payload (TaskState.as_str (t_state t)) (res_result_id r).

Definition no_result (d : Db) (task_id : string) : Prop :=
  results d !! task_id = None ∧ ∀ consumer, result_outbox d !! (consumer, task_id) = None.

(** Lease items belong to a lease, and a resource marked for collection has no reader. *)
Record retention_ok (t : RetentionTables) : Prop := {
  rt_items item : item ∈ reader_lease_items t → is_Some (reader_leases t !! item.1);
  rt_fenced kind id row lease : gc_intents t !! (kind, id) = Some row → gi_state row = GcMarked →
    (lease, (kind, id)) ∉ reader_lease_items t;
}.

Record db_ok `{Externals} (d : Db) : Prop := {
  ok_check id t : tasks d !! id = Some t → task_check t = true;
  ok_log id t : tasks d !! id = Some t →
    map e_event_seq (log_of d id) = seqZ 1 (t_last_event_seq t) ∧
    t_projection_event_seq t = t_last_event_seq t ∧ t_evicted_through_seq t = 0;
  ok_event_task e : e ∈ events d → is_Some (tasks d !! e_task_id e);
  ok_terminal id t : tasks d !! id = Some t → TaskState.is_terminal (t_state t) = true →
    terminal_tuple d id t;
  ok_nonterminal id t : tasks d !! id = Some t → TaskState.is_terminal (t_state t) = false →
    no_result d id;
  ok_result_task id r : results d !! id = Some r → is_Some (tasks d !! id);
  ok_outbox_task c id o : result_outbox d !! (c, id) = Some o → is_Some (results d !! id);
  ok_attempt_task id a : attempts d !! id = Some a → is_Some (tasks d !! a_task_id a);
  ok_attempt_unique i j a b : attempts d !! i = Some a → attempts d !! j = Some b →
    a_task_id a = a_task_id b → a_generation a = a_generation b → i = j;
  ok_retention : retention_ok (retention d);
}.

Definition safe `{Externals} (d d' : Db) : Prop := db_ok d → db_ok d' ∧ ledger d d'.

#[export] Instance safe_preorder `{Externals} : PreOrder safe.
Proof.
  split; [by intros d Hd|]. intros d1 d2 d3 H12 H23 H1.
  destruct (H12 H1) as [H2 L12]. destruct (H23 H2) as [H3 L23]. split; [done|by etrans].
Qed.

Lemma empty_db_ok `{Externals} : db_ok empty_db.
Proof.
  split; try (intros *; simpl; rewrite ?lookup_empty; done).
  intros e He. by apply elem_of_nil in He.
Qed.

(** ** Statements preserve the invariant and the ledger *)

Section statements.
Context `{E : Externals}.

(** A change outside the tables the invariant reads. *)
Lemma safe_core d d' :
  tasks d' = tasks d → events d' = events d → attempts d' = attempts d →
  results d' = results d → result_outbox d' = result_outbox d →
  (retention_ok (retention d) → retention_ok (retention d')) →
  ledger d d' → safe d d'.
Proof.
  intros Ht He Ha Hr Ho Hret Hl [].
  split; [|done].
  split; [..|by apply Hret]; unfold terminal_tuple, no_result, log_of in *; rewrite ?Ht, ?He, ?Ha, ?Hr, ?Ho; done.
Qed.

(** A change of one task row that leaves its log position and stays nonterminal. *)
Lemma safe_task_row d id t t' :
  tasks d !! id = Some t → TaskState.is_terminal (t_state t) = false →
  TaskState.is_terminal (t_state t') = false → task_check t' = true →
  t_last_event_seq t' = t_last_event_seq t → t_projection_event_seq t' = t_projection_event_seq t →
  t_evicted_through_seq t' = t_evicted_through_seq t → task_evolves t t' →
  safe d (d <| tasks ::= <[id := t']> |>).
Proof.
  intros Ht Hnt Hnt' Hc Hl Hp Hev Hevolves [].
  assert (∀ id', is_Some (tasks d !! id') → is_Some (<[id := t']> (tasks d) !! id')) as Hdom.
  { intros id' [x Hx]. destruct (decide (id = id')) as [<-|];
      [rewrite lookup_insert_eq|rewrite lookup_insert_ne by done]; eauto. }
  split.
  - split; simpl.
    + intros id' x [[<- <-]|[_ H]]%lookup_insert_Some; [done|eauto].
    + intros id' x [[<- <-]|[_ H]]%lookup_insert_Some; [|by apply ok_log0].
      destruct (ok_log0 _ _ Ht) as (? & ? & ?). rewrite Hl, Hp, Hev. done.
    + intros e He. by apply Hdom, ok_event_task0.
    + intros id' x [[<- <-]|[_ H]]%lookup_insert_Some; [congruence|by apply ok_terminal0].
    + intros id' x [[<- <-]|[_ H]]%lookup_insert_Some; [intros _; by eapply ok_nonterminal0|].
      by eapply ok_nonterminal0.
    + intros id' r Hr. by eapply Hdom, ok_result_task0.
    + done.
    + intros id' a H. by eapply Hdom, ok_attempt_task0.
    + done.
    + done.
  - split; simpl; try done. apply table_evolves_insert; [apply _|].
    intros a Ha. by simplify_eq.
Qed.

Lemma safe_update_task id (w : Task → bool) (f : Task → Task) d d' :
  (∀ t, tasks d !! id = Some t → w t = true → TaskState.is_terminal (t_state t) = false →
     TaskState.is_terminal (t_state (f t)) = false ∧
     t_last_event_seq (f t) = t_last_event_seq t ∧
     t_projection_event_seq (f t) = t_projection_event_seq t ∧
     t_evicted_through_seq (f t) = t_evicted_through_seq t ∧ task_evolves t (f t)) →
  update_task true id w f d = Some d' → safe d d'.
Proof.
  intros Hf. unfold update_task. destruct (tasks d !! id) as [t|] eqn:Ht; [|by intros [= <-]].
  destruct (w t) eqn:Hw; [|by intros [= <-]].
  destruct (TaskState.is_terminal (t_state t)) eqn:Hterm; simpl; [done|].
  destruct (task_check (f t)) eqn:Hc; simpl; [|done]. intros [= <-].
  destruct (Hf t eq_refl Hw Hterm) as (? & ? & ? & ? & ?). by eapply safe_task_row.
Qed.

Lemma safe_update_attempts (w : string → AttemptRow → bool) (f : AttemptRow → AttemptRow) d d' :
  (∀ k a, attempts d !! k = Some a → w k a = true → AttemptState.is_terminal (a_state a) = false →
     attempt_evolves a (f a)) →
  update_attempts true w f d = Some d' → safe d d'.
Proof.
  intros Hf. unfold update_attempts. destruct (forallb _ _) eqn:Hall; [|done]. intros [= <-] [].
  assert (∀ k a, attempts d !! k = Some a → attempt_evolves a (if w k a then f a else a)) as Hev.
  { intros k a Hk. destruct (w k a) eqn:Hw; [|reflexivity].
    assert (In (k, a) (select w (attempts d))) as Hin by by apply list_elem_of_In, select_elem.
    rewrite forallb_forall in Hall. apply Hall in Hin. simpl in Hin. split_bools.
    by eapply Hf. }
  split.
  - split; simpl; try done.
    + intros id a. rewrite map_lookup_imap, bind_Some. intros (a0 & Ha0 & [= <-]).
      rewrite (ae_task _ _ (Hev _ _ Ha0)). by eapply ok_attempt_task0.
    + intros i j a b. rewrite !map_lookup_imap, !bind_Some.
      intros (a0 & Ha0 & [= <-]) (b0 & Hb0 & [= <-]).
      rewrite (ae_task _ _ (Hev _ _ Ha0)), (ae_task _ _ (Hev _ _ Hb0)).
      rewrite (ae_generation _ _ (Hev _ _ Ha0)), (ae_generation _ _ (Hev _ _ Hb0)).
      by apply ok_attempt_unique0.
  - split; simpl; try done. by apply table_evolves_imap.
Qed.

Lemma free_of_spec {K A} `{Countable K} (p : K → A → bool) (m : gmap K A) k a :
  free_of p m = true → m !! k = Some a → p k a = false.
Proof.
  unfold free_of. destruct (select p m) eqn:Hs; [|done]. intros _.
  by apply (proj1 (select_nil p m) Hs).
Qed.

Lemma has_row_false {K A} `{Countable K} (m : gmap K A) k : has_row m k = false → m !! k = None.
Proof. unfold has_row. rewrite bool_decide_eq_false, eq_None_not_Some. done. Qed.

Lemma has_row_true {K A} `{Countable K} (m : gmap K A) k : has_row m k = true → is_Some (m !! k).
Proof. unfold has_row. by rewrite bool_decide_eq_true. Qed.

Lemma safe_insert_attempt id a d d' : insert_attempt id a d = Some d' → safe d d'.
Proof.
  unfold insert_attempt. destruct (_ && _) eqn:Hg; [|done]. intros [= <-] []. split_bools.
  rename select (has_row (attempts d) id = false) into Hfresh. apply has_row_false in Hfresh.
  rename select (has_row (tasks d) _ = true) into Htask. apply has_row_true in Htask.
  rename select (free_of _ _ = true) into Hfree.
  assert (∀ j b, attempts d !! j = Some b → a_task_id a = a_task_id b →
            a_generation a = a_generation b → False) as Huniq.
  { intros j b Hj Heq Hgen. apply (free_of_spec _ _ _ _ Hfree) in Hj.
    by rewrite Heq, Hgen, String.eqb_refl, Z.eqb_refl in Hj. }
  split.
  - split; simpl; try done.
    + intros id' b [[<- <-]|[_ H]]%lookup_insert_Some; [done|by eapply ok_attempt_task0].
    + intros i j b c [[<- <-]|[_ Hb]]%lookup_insert_Some [[<- <-]|[_ Hc]]%lookup_insert_Some Heq Hgen;
        [done|exfalso; by eapply Huniq|exfalso; by eapply Huniq|by eapply ok_attempt_unique0].
  - split; simpl; try done. apply table_evolves_insert; [apply _|]. intros b Hb. congruence.
Qed.

Lemma safe_insert_task id t d d' :
  TaskState.is_terminal (t_state t) = false → t_last_event_seq t = 0 →
  t_projection_event_seq t = 0 → t_evicted_through_seq t = 0 →
  insert_task id t d = Some d' → safe d d'.
Proof.
  intros Hnt Hl Hp Hev. unfold insert_task. destruct (_ && _) eqn:Hg; [|done].
  intros [= <-] Hok. split_bools.
  rename select (has_row _ _ = false) into Hfresh. apply has_row_false in Hfresh.
  assert (log_of d id = []) as Hlog.
  { unfold log_of. destruct (List.filter _ _) as [|e l] eqn:Hf; [done|].
    assert (In e (e :: l)) as Hin by by left. rewrite <-Hf in Hin. apply filter_In in Hin as [Hin He].
    apply String.eqb_eq in He. apply list_elem_of_In, (ok_event_task _ Hok) in Hin as [x Hx].
    congruence. }
  assert (no_result d id) as Hres.
  { split.
    - destruct (results d !! id) eqn:Hr; [|done]. apply (ok_result_task _ Hok) in Hr as [x Hx]. congruence.
    - intros c. destruct (result_outbox d !! (c, id)) eqn:Ho; [|done].
      apply (ok_outbox_task _ Hok) in Ho as [r Hr]. apply (ok_result_task _ Hok) in Hr as [x Hx].
      congruence. }
  assert (∀ id', is_Some (tasks d !! id') → is_Some (<[id := t]> (tasks d) !! id')) as Hdom.
  { intros id' Hx. destruct (decide (id = id')) as [<-|];
      [rewrite lookup_insert_eq|rewrite lookup_insert_ne by done]; eauto. }
  destruct Hok. split.
  - split; simpl; try done.
    + intros id' x [[<- <-]|[_ H]]%lookup_insert_Some; [done|eauto].
    + intros id' x [[<- <-]|[_ H]]%lookup_insert_Some; [|by apply ok_log0].
      unfold log_of in *. simpl. rewrite Hlog, Hl, Hp, Hev. done.
    + intros e He. by apply Hdom, ok_event_task0.
    + intros id' x [[<- <-]|[_ H]]%lookup_insert_Some; [congruence|by apply ok_terminal0].
    + intros id' x [[<- <-]|[_ H]]%lookup_insert_Some; [done|by eapply ok_nonterminal0].
    + intros id' r Hr. by eapply Hdom, ok_result_task0.
    + intros id' a H. by eapply Hdom, ok_attempt_task0.
  - split; simpl; try done. apply table_evolves_insert; [apply _|]. intros x Hx. congruence.
Qed.

(** ** Appending events *)

Lemma append_event_ok task_id generation kind payload now s seq s' :
  append_event task_id generation kind payload now s = (inr seq, s') →
  ∃ t, tasks (db s) !! task_id = Some t ∧ seq = t_last_event_seq t + 1 ∧
    let t' := t <| t_last_event_seq := seq |> <| t_projection_event_seq := seq |> in
    let e := mkEvent task_id seq (uuid_v4 (entropy s)) generation kind payload now in
    task_check t' = true ∧ 0 ≤ generation ∧
    s' = s <| db := (db s) <| tasks ::= <[task_id := t']> |> <| events ::= λ l, l ++ [e] |> |>
           <| entropy := S (entropy s) |>.
Proof.
  unfold append_event. intros H. inv_ok H.
  rename select (tasks _ !! _ = Some _) into Ht. exists a. split; [done|].
  match goal with H : update_task _ _ _ _ _ = Some _ |- _ => unfold update_task in H; rewrite Ht in H end.
  simpl in *.
  match goal with H : new_v4 _ = _ |- _ => unfold new_v4 in H; injection H as <- <- end.
  destruct (task_check _) eqn:Hcheck; [|discriminate]. simpl in *. simplify_eq. split; [done|].
  match goal with H : insert_event _ _ = Some _ |- _ =>
    unfold insert_event in H; destruct (_ && _) eqn:Hg in H; [|discriminate]; injection H as <- end.
  split_bools. simpl in *. done.
Qed.

Lemma log_of_snoc d e l id :
  events d = l ++ [e] →
  log_of d id = List.filter (λ e, String.eqb (e_task_id e) id) l ++
                (if String.eqb (e_task_id e) id then [e] else []).
Proof.
  intros Hd. unfold log_of. rewrite Hd, List.filter_app. simpl. by destruct (String.eqb _ _).
Qed.

Lemma task_check_seq t : task_check t = true → 0 ≤ t_last_event_seq t.
Proof.
  unfold task_check, between. intros H. split_bools. done.
Qed.

Lemma safe_append_event task_id generation kind payload now :
  moves_ok safe (append_event task_id generation kind payload now).
Proof.
  intros s seq s' H Hok. apply append_event_ok in H as (t & Ht & Hseq & Hcheck & _ & ->). simpl.
  assert (∀ id', is_Some (tasks (db s) !! id') →
    is_Some (<[task_id := t <| t_last_event_seq := seq |> <| t_projection_event_seq := seq |>]>
               (tasks (db s)) !! id')) as Hdom.
  { intros id' Hx. destruct (decide (task_id = id')) as [<-|];
      [rewrite lookup_insert_eq|rewrite lookup_insert_ne by done]; eauto. }
  pose proof (task_check_seq _ (ok_check _ Hok _ _ Ht)) as Hpos.
  destruct Hok. split.
  - split; simpl; try done.
    + intros id x [[<- <-]|[_ H]]%lookup_insert_Some; [done|eauto].
    + intros id x Hx. erewrite log_of_snoc by done. simpl.
      apply lookup_insert_Some in Hx as [[<- <-]|[Hne Hx]].
      * destruct (ok_log0 _ _ Ht) as (Hlog & _ & Hev). rewrite String.eqb_refl, map_app. simpl.
        unfold log_of in Hlog. rewrite Hlog, Hseq. split; [|done].
        rewrite seqZ_app by lia. by rewrite (Z.add_comm 1).
      * destruct (String.eqb_spec task_id id); [done|]. rewrite app_nil_r. by apply ok_log0.
    + intros e [He| ->%list_elem_of_singleton]%elem_of_app; [by apply Hdom, ok_event_task0|].
      simpl. rewrite lookup_insert_eq. eauto.
    + intros id x Hx Hterm.
      assert (∃ x0, tasks (db s) !! id = Some x0 ∧ t_state x = t_state x0 ∧
                t_terminal_event_seq x = t_terminal_event_seq x0) as (x0 & Hx0 & Hst & Hsq).
      { apply lookup_insert_Some in Hx as [[<- <-]|[Hne Hx]]; eauto. }
      rewrite Hst in Hterm. destruct (ok_terminal0 _ _ Hx0 Hterm) as (c & r & o & e & q & H).
      exists c, r, o, e, q. rewrite Hst, Hsq. simpl. rewrite elem_of_app. tauto.
    + intros id x [[<- <-]|[_ H]]%lookup_insert_Some; simpl; by eapply ok_nonterminal0.
    + intros id r Hr. by eapply Hdom, ok_result_task0.
    + intros id a Ha. by eapply Hdom, ok_attempt_task0.
  - split; simpl; try done; [|by apply prefix_app_r].
    apply table_evolves_insert; [apply _|]. intros x Hx. simplify_eq. split; simpl; done || lia.
Qed.
End statements.
