(* ===== verification/Carry.v ===== *)
(** * Carrying [safe] through the operations

    The statements, as steps of [moves_ok safe], and the tactic [carry] that walks an
    operation's body: it splits binds, branches and loops and closes the steps that
    are instances of the statement lemmas.  What is left are the updates that are
    only correct because of a guard the operation checked before. *)

From S2P Require Import Prelude Domain Externals Scheduler Improvement Schema StoreMonad Tables.
From S2P Require Import Ledger TaskStore Lifecycle.

Section statements.
Context `{E : Externals}.

Lemma safe_execute (f : Db → option Db) :
  (∀ d d', f d = Some d' → safe d d') → moves_ok safe (execute f).
Proof. intros Hf. apply moves_moves_ok, moves_execute; [apply _|done]. Qed.

Lemma safe_exec_attempt id a : moves_ok safe (execute (insert_attempt id a)).
Proof. apply safe_execute. intros d d'. apply safe_insert_attempt. Qed.

Lemma ledger_insert_interaction id i d d' : insert_interaction id i d = Some d' → ledger d d'.
Proof.
  unfold insert_interaction. destruct (_ && _) eqn:Hg; [|done]. intros [= <-]. split_bools.
  rename select (has_row _ _ = false) into Hf. apply has_row_false in Hf.
  split; simpl; try done. apply table_evolves_insert; [apply _|]. intros x Hx. congruence.
Qed.

Lemma safe_exec_interaction id i : moves_ok safe (execute (insert_interaction id i)).
Proof.
  apply safe_execute. intros d d' H. pose proof (ledger_insert_interaction _ _ _ _ H) as Hl.
  unfold insert_interaction in H. destruct (_ && _) in H; [|done]. injection H as <-.
  by apply safe_core.
Qed.

Lemma safe_exec_response id r : moves_ok safe (execute (insert_response id r)).
Proof.
  apply safe_execute. intros d d'. unfold insert_response.
  destruct (_ && _) eqn:Hg; [|done]. intros [= <-]. split_bools.
  rename select (has_row _ _ = false) into Hf. apply has_row_false in Hf.
  apply safe_core; try done. split; simpl; try done. by apply insert_subseteq.
Qed.

Lemma safe_exec_command c m k row : moves_ok safe (execute (insert_command c m k row)).
Proof.
  apply safe_execute. intros d d'. unfold insert_command. destruct (negb _) eqn:Hg; [|done].
  intros [= <-]. split_bools. rename select (has_row _ _ = false) into Hf. apply has_row_false in Hf.
  apply safe_core; try done. split; simpl; try done. by apply insert_subseteq.
Qed.

Lemma safe_exec_operation id o : moves_ok safe (execute (insert_operation id o)).
Proof.
  apply safe_execute. intros d d'. unfold insert_operation. destruct (_ && _) eqn:Hg; [|done].
  intros [= <-]. split_bools. rename select (has_row (internal_operations d) _ = false) into Hf.
  apply has_row_false in Hf. apply safe_core; try done. split; simpl; try done.
  apply table_evolves_insert; [apply _|]. intros x Hx. congruence.
Qed.

Lemma safe_exec_request id r : moves_ok safe (execute (insert_request id r)).
Proof.
  apply safe_execute. intros d d'. unfold insert_request. destruct (_ && _) eqn:Hg; [|done].
  intros [= <-]. split_bools. rename select (has_row (task_requests d) _ = false) into Hf.
  apply has_row_false in Hf. apply safe_core; try done. split; simpl; try done.
  by apply insert_subseteq.
Qed.

Lemma safe_exec_audit a : moves_ok safe (execute (insert_audit a)).
Proof. apply safe_execute. intros d d' [= <-]. by apply safe_core. Qed.

Lemma safe_exec_worktrees id f : moves_ok safe (execute (update_worktrees id f)).
Proof. apply safe_execute. intros d d' [= <-]. by apply safe_core. Qed.

Lemma safe_exec_locator id to : moves_ok safe (execute (update_operation_locator id "pending-result" to)).
Proof.
  apply safe_execute. intros d d' [= <-]. apply safe_core; try done. split; simpl; try done.
  intros k o Hk. destruct (decide (id = k)) as [<-|Hne].
  - rewrite lookup_alter_eq, Hk. simpl. eexists. split; [done|].
    destruct (String.eqb_spec (op_response_locator o) "pending-result"); [|reflexivity].
    split; simpl; done || congruence.
  - exists o. rewrite lookup_alter_ne by done. split; [done|reflexivity].
Qed.

Lemma safe_exec_interactions w f :
  (∀ k i, w k i = true → interaction_evolves i (f i)) →
  moves_ok safe (execute (update_interactions w f)).
Proof.
  intros Hf. apply safe_execute. intros d d' [= <-]. apply safe_core; try done.
  split; simpl; try done. apply table_evolves_imap. intros k i _.
  destruct (w k i) eqn:Hw; [eauto|reflexivity].
Qed.

Lemma safe_exec_attempts w f :
  (∀ k a, w k a = true → AttemptState.is_terminal (a_state a) = false → attempt_evolves a (f a)) →
  moves_ok safe (execute (update_attempts true w f)).
Proof.
  intros Hf. apply safe_execute. intros d d'. apply safe_update_attempts. eauto.
Qed.

(** What [safe_update_task] asks of an update. *)
Definition task_update_ok (w : Task → bool) (f : Task → Task) : Prop :=
  ∀ t, w t = true → TaskState.is_terminal (t_state t) = false →
     TaskState.is_terminal (t_state (f t)) = false ∧
     t_last_event_seq (f t) = t_last_event_seq t ∧
     t_projection_event_seq (f t) = t_projection_event_seq t ∧
     t_evicted_through_seq (f t) = t_evicted_through_seq t ∧ task_evolves t (f t).

Lemma safe_exec_task id w f :
  task_update_ok w f → moves_ok safe (execute (update_task true id w f)).
Proof. intros Hf. apply safe_execute. intros d d'. apply safe_update_task. intros t _. apply Hf. Qed.

Lemma safe_exec_new_task id dg parent prio ad now :
  moves_ok safe (execute (insert_task id (new_task dg parent prio ad now))).
Proof. apply safe_execute. intros d d'. by apply safe_insert_task. Qed.

Lemma safe_bump now : moves_ok safe (bump_mutation_epoch now).
Proof. apply safe_execute. intros d d' [= <-]. by apply safe_core. Qed.

Lemma moves_ensure_mutation b : moves safe (ensure_mutation_allowed b).
Proof.
  unfold ensure_mutation_allowed. apply moves_bind; [apply _|moves_leaf|intros s].
  apply moves_bind; [apply _|moves_leaf|intros ?; moves_leaf].
Qed.
End statements.

Create HintDb safe.
#[export] Hint Resolve safe_append_event safe_exec_attempt safe_exec_interaction safe_exec_response
  safe_exec_command safe_exec_operation safe_exec_request safe_exec_audit safe_exec_worktrees
  safe_exec_locator safe_exec_new_task safe_bump : safe.

(** Splits a state-only update's obligation into facts about the new row. *)
Ltac task_update :=
  intros ?t ?Hw ?Hterm; simpl in *; split_bools;
  repeat match goal with H : i64_checked _ = Some _ |- _ => apply i64_checked_Some in H as [-> ?] end;
  split_and!;
  [done || reflexivity|reflexivity|reflexivity|reflexivity
  |split; simpl; intros; done || lia || congruence || eauto].

Ltac row_update :=
  intros; simpl in *; split_bools; split; simpl; intros; done || lia || congruence || eauto.

Ltac carry_step :=
  match goal with
  | |- ∀ _, _ => intros ?
  | |- moves _ (transaction _) => apply moves_transaction; [apply _|]
  | |- moves _ (refuse_if _ _ ≫= _) => apply moves_refuse_if_bind; [apply _|]
  | |- moves _ (_ ≫= _) => apply moves_bind; [apply _| |]
  | |- moves _ (ensure_mutation_allowed _) => apply moves_ensure_mutation
  | |- moves _ (match ?x with _ => _ end) => destruct x eqn:?
  | |- moves _ _ => moves_leaf
  | |- moves_ok _ (some_or _ _ ≫= _) => apply moves_ok_some_or
  | |- moves_ok _ (refuse_if _ _ ≫= _) => apply moves_ok_refuse_if
  | |- moves_ok _ (_ ≫= _) => apply moves_ok_bind; [apply _| |]
  | |- moves_ok _ (for_each _ _) => apply moves_ok_for_each; [apply _|]
  | |- moves_ok _ (match ?x with _ => _ end) => destruct x eqn:?
  | |- moves_ok _ (store_command _ _ _ _ _ _) => apply safe_exec_command
  | |- moves_ok _ (store_operation _ _ _ _ _ _ _) => apply safe_exec_operation
  | |- moves_ok _ (execute (update_task _ _ _ _)) => apply safe_exec_task; solve [task_update]
  | |- moves_ok _ (execute (update_attempts _ _ _)) => apply safe_exec_attempts; solve [row_update]
  | |- moves_ok _ (execute (update_interactions _ _)) => apply safe_exec_interactions; solve [row_update]
  | |- moves_ok _ _ => solve [auto with safe]
  | |- moves_ok _ _ => apply moves_moves_ok; moves_leaf
  end.

Ltac carry := repeat carry_step.
