(* ===== verification/TaskProofs.v ===== *)
(** * The task operations preserve the invariant and the ledger *)

From S2P Require Import Prelude Domain Externals Scheduler Improvement Schema StoreMonad Tables.
From S2P Require Import Ledger TaskStore Lifecycle Carry.

Section proofs.
Context `{E : Externals} `{Store : ImprovementStore}.

Lemma safe_verify_request id digest bytes : moves safe (verify_task_request id digest bytes).
Proof. unfold verify_task_request. carry. Qed.

Lemma safe_load_attempt id : moves safe (load_attempt id).
Proof. unfold load_attempt. carry. Qed.

Lemma safe_verify_existing id spec : moves safe (verify_existing_attempt_config id spec).
Proof. unfold verify_existing_attempt_config. carry. Qed.

Lemma safe_verify_assignment id spec : moves safe (verify_attempt_assignment id spec).
Proof. unfold verify_attempt_assignment. carry. Qed.

Lemma safe_load_delivery c id : moves safe (load_delivery c id).
Proof. unfold load_delivery. carry. Qed.

Lemma safe_command_replay c m k d : moves safe (command_replay c m k d).
Proof. unfold command_replay. carry. Qed.

Lemma safe_operation_replay id d : moves safe (internal_operation_replay id d).
Proof. unfold internal_operation_replay. carry. Qed.

Lemma safe_read_occupancy : moves safe read_occupancy.
Proof. unfold read_occupancy. carry. Qed.

Lemma safe_ensure_capacity n : moves safe (ensure_capacity n).
Proof. unfold ensure_capacity. carry. Qed.

Lemma safe_replayed_attempt l spec : moves safe (replayed_attempt l spec).
Proof.
  unfold replayed_attempt. apply moves_bind; [apply _|apply safe_load_attempt|intros a].
  apply moves_bind; [apply _|apply safe_verify_existing|intros ?; moves_leaf].
Qed.

Lemma safe_claim_arguments id spec l now : moves safe (claim_arguments_ok id spec l now).
Proof. unfold claim_arguments_ok. carry. Qed.
End proofs.

(** ** The helpers only read *)

Section reads.
Context `{E : Externals} `{Store : ImprovementStore}.

Lemma reads_ensure_mutation b : reads (ensure_mutation_allowed b).
Proof. unfold ensure_mutation_allowed. repeat reads_step. Qed.

Lemma reads_ensure_capacity n : reads (ensure_capacity n).
Proof. unfold ensure_capacity. repeat reads_step. Qed.

Lemma reads_verify_request id digest bytes : reads (verify_task_request id digest bytes).
Proof. unfold verify_task_request. repeat reads_step. Qed.

Lemma reads_load_attempt id : reads (load_attempt id).
Proof. unfold load_attempt. repeat reads_step. Qed.

Lemma reads_verify_existing id spec : reads (verify_existing_attempt_config id spec).
Proof. unfold verify_existing_attempt_config. repeat reads_step. Qed.

Lemma reads_verify_assignment id spec : reads (verify_attempt_assignment id spec).
Proof. unfold verify_attempt_assignment. repeat reads_step. Qed.

Lemma reads_load_delivery c id : reads (load_delivery c id).
Proof. unfold load_delivery. repeat reads_step. Qed.

Lemma reads_command_replay c m k d : reads (command_replay c m k d).
Proof. unfold command_replay. repeat reads_step. Qed.

Lemma reads_operation_replay id d : reads (internal_operation_replay id d).
Proof. unfold internal_operation_replay. repeat reads_step. Qed.

Lemma reads_read_occupancy : reads read_occupancy.
Proof. unfold read_occupancy. repeat reads_step. Qed.

Lemma reads_claim_arguments id spec l now : reads (claim_arguments_ok id spec l now).
Proof. unfold claim_arguments_ok. repeat reads_step. Qed.

Lemma reads_replayed_attempt l spec : reads (replayed_attempt l spec).
Proof.
  unfold replayed_attempt. apply reads_bind; [apply reads_load_attempt|intros a].
  apply reads_bind; [apply reads_verify_existing|done].
Qed.
End reads.

Create HintDb reads.
#[export] Hint Resolve reads_ensure_mutation reads_ensure_capacity reads_verify_request
  reads_load_attempt reads_verify_existing reads_verify_assignment reads_load_delivery
  reads_command_replay reads_operation_replay reads_read_occupancy reads_claim_arguments
  reads_replayed_attempt reads_ret reads_fail reads_query reads_get reads_refuse_if reads_some_or
  reads_ok_or reads_query_row : reads.

(** The read-only helpers, as leaves of [carry]. *)
Ltac read_only :=
  first [ apply safe_verify_request | apply safe_load_attempt | apply safe_verify_existing
        | apply safe_verify_assignment | apply safe_load_delivery | apply safe_command_replay
        | apply safe_operation_replay | apply safe_read_occupancy | apply safe_ensure_capacity
        | apply safe_replayed_attempt | apply safe_claim_arguments ].

Ltac carry_all :=
  repeat first [ carry_step | read_only | apply moves_moves_ok; read_only ].

(** Splits an operation into the reads before its transaction and the transaction. *)
Ltac atomic_step :=
  match goal with
  | |- ∀ _, _ => intros ?
  | |- atomic (transaction _) => apply atomic_transaction
  | |- atomic (_ ≫= _) => apply atomic_bind; [solve [auto with reads]|]
  | |- atomic _ => apply reads_atomic; solve [auto with reads]
  | |- atomic (match ?x with _ => _ end) => destruct x
  end.

Section operations.
Context `{E : Externals} `{Store : ImprovementStore}.

Lemma safe_submit_inner c m k dg cr decl id retry prio ad now :
  moves safe (submit_inner c m k dg cr decl id retry prio ad now).
Proof. unfold submit_inner. carry_all. Qed.

Lemma safe_begin_attempt c k dg id g spec now :
  moves safe (begin_attempt_with_spec c k dg id g spec now).
Proof. unfold begin_attempt_with_spec. carry_all. Qed.

Lemma safe_record_adapter_event op id g kind payload now :
  moves safe (record_adapter_event op id g kind payload now).
Proof. unfold record_adapter_event. carry_all. Qed.

Lemma safe_record_resumable_session id g s c now :
  moves safe (record_resumable_session id g s c now).
Proof. unfold record_resumable_session. carry_all. Qed.

Lemma safe_request_cancel c k dg id now : moves safe (request_cancel c k dg id now).
Proof. unfold request_cancel. carry_all. Qed.

Lemma safe_schedule_safe_retry op id g at_ now : moves safe (schedule_safe_retry op id g at_ now).
Proof. unfold schedule_safe_retry. carry_all. Qed.

Lemma safe_transition op id g from to now : moves safe (transition op id g from to now).
Proof. unfold transition. carry_all. Qed.

(** A failed claim changes nothing: it is reads followed by one transaction. *)
Lemma claim_atomic op id g spec l now : atomic (claim_dispatch_slot op id g spec l now).
Proof. unfold claim_dispatch_slot. repeat atomic_step. Qed.

(** ** What a successful claim did *)

Lemma operation_replay_ok id dg s r s' :
  internal_operation_replay id dg s = (inr r, s') →
  s' = s ∧ match r with
           | Some locator => ∃ o, internal_operations (db s) !! id = Some o ∧ op_digest o = dg ∧
                                  op_response_locator o = locator
           | None => internal_operations (db s) !! id = None
           end.
Proof.
  unfold internal_operation_replay. rewrite bind_ok. intros (o & s1 & H1 & H2).
  apply query_ok in H1 as [-> ->]. destruct (internal_operations (db s) !! id) as [o|] eqn:Ho.
  - destruct (String.eqb_spec (op_digest o) dg); [|by apply fail_ok in H2].
    apply ret_ok in H2 as [<- <-]. eauto 6.
  - by apply ret_ok in H2 as [<- <-].
Qed.

Lemma command_replay_ok c m k dg s r s' :
  command_replay c m k dg s = (inr r, s') →
  s' = s ∧ match r with
           | Some locator => ∃ row, command_dedup (db s) !! (c, m, k) = Some row ∧
                                  cd_request_digest row = dg ∧ cd_response_locator row = locator
           | None => command_dedup (db s) !! (c, m, k) = None
           end.
Proof.
  unfold command_replay. rewrite bind_ok. intros (o & s1 & H1 & H2).
  apply query_ok in H1 as [-> ->]. destruct (command_dedup (db s) !! _) as [o|] eqn:Ho.
  - destruct (String.eqb_spec (cd_request_digest o) dg); [|by apply fail_ok in H2].
    apply ret_ok in H2 as [<- <-]. eauto 6.
  - by apply ret_ok in H2 as [<- <-].
Qed.

(** Skips a read at the head of a successful sequence. *)
Lemma bind_reads_ok {A B} (m : M A) (f : A → M B) s b s' :
  reads m → (m ≫= f) s = (inr b, s') → ∃ a, m s = (inr a, s) ∧ f a s = (inr b, s').
Proof.
  intros Hm (a & s1 & H1 & H2)%bind_ok. apply (reads_ok m) in H1 as Hs; [|done]. subst. eauto.
Qed.

(** What a refusal to dispatch reports is true of the database. *)
Definition justified (id : string) (spec : AttemptSpec) (l : SchedulerLimits) (now : Z) (s : Storage)
    (b : DispatchBlocked) : Prop :=
  match bl_reason b with
  | RetryTimerPending => ∃ t at_, tasks (db s) !! id = Some t ∧ t_state t = RetryWait ∧
      t_retry_at t = Some at_ ∧ now < at_
  | GlobalLimit => ∃ occ, read_occupancy s = (inr occ, s) ∧ l_global l ≤ occ_global occ ∧
      bl_global_occupied b = occ_global occ
  | AdapterLimit => ∃ occ, read_occupancy s = (inr occ, s) ∧ occ_global occ < l_global l ∧
      l_per_adapter l ≤ occupied occ (adapter_instance_id spec) ∧
      bl_adapter_occupied b = occupied occ (adapter_instance_id spec)
  | AdapterUnassigned => False
  end.

(** The three ways a claim succeeds: an earlier claim is replayed, the claim is blocked,
    or a slot was free and is reserved. *)
Inductive claim_result (op id : string) (g : Z) (spec : AttemptSpec) (l : SchedulerLimits) (now : Z)
    (s s' : Storage) : DispatchOutcome → Prop :=
  | claim_replayed o a :
      internal_operations (db s) !! op = Some o → op_digest o = claim_digest id g spec →
      attempts (db s) !! op_response_locator o = Some a → s' = s →
      claim_result op id g spec l now s s'
        (Dispatched (mkAttempt (op_response_locator o) (a_task_id a) (a_generation a) (a_ordinal a)))
  | claim_blocked b : internal_operations (db s) !! op = None → s' = s → justified id spec l now s b →
      claim_result op id g spec l now s s' (Blocked b)
  | claim_reserved t occ out :
      internal_operations (db s) !! op = None →
      tasks (db s) !! id = Some t → t_generation t = g → claim_ready t now = true →
      (t_adapter_instance_id t = "" ∨ t_adapter_instance_id t = adapter_instance_id spec) →
      read_occupancy s = (inr occ, s) → occ_global occ < l_global l →
      occupied occ (adapter_instance_id spec) < l_per_adapter l →
      reserve_slot op (claim_digest id g spec) id g spec now s = (inr out, s') →
      claim_result op id g spec l now s s' out.

Lemma claim_ok op id g spec l now s out s' :
  claim_dispatch_slot op id g spec l now s = (inr out, s') → claim_result op id g spec l now s s' out.
Proof.
  unfold claim_dispatch_slot. cbv zeta. intros H.
  apply bind_reads_ok in H as ([] & _ & H); [|auto with reads].
  apply bind_reads_ok in H as ([] & _ & H); [|auto with reads].
  rewrite transaction_ok in H.
  apply bind_reads_ok in H as ([] & _ & H); [|auto with reads].
  apply bind_reads_ok in H as (r & Hr & H); [|auto with reads].
  apply operation_replay_ok in Hr as [_ Hr]. destruct r as [locator|].
  { destruct Hr as (o & Ho & Hdg & <-). unfold replayed_attempt, load_attempt in H.
    inv_ok H. rename select (verify_existing_attempt_config _ _ _ = _) into Hv.
    apply reads_ok in Hv as ->; [|auto with reads]. by eapply claim_replayed. }
  apply bind_reads_ok in H as (row & Hrow & H); [|auto with reads].
  apply query_ok in Hrow as [-> _].
  apply bind_reads_ok in H as (t & Ht & H); [|auto with reads]. apply some_or_ok in Ht as [Ht _].
  apply bind_reads_ok in H as ([] & Hg & H); [|auto with reads]. apply refuse_if_ok in Hg as [Hg _].
  destruct (negb (claim_ready t now)) eqn:Hready.
  { destruct (bool_decide (t_state t = RetryWait)) eqn:Hst; [|by apply fail_ok in H].
    apply bool_decide_eq_true in Hst.
    apply ret_ok in H as [<- <-]. apply claim_blocked; [done..|].
    apply negb_true_iff in Hready. unfold claim_ready in Hready. rewrite Hst in Hready.
    unfold justified. simpl. destruct (t_retry_at t) as [at_|] eqn:Hat; [|done]. simpl in Hready.
    exists t, at_. split_and!; try done. lia. }
  apply bind_reads_ok in H as ([] & Ha & H); [|auto with reads]. apply refuse_if_ok in Ha as [Ha _].
  apply bind_reads_ok in H as (occ & Hocc & H); [|auto with reads].
  destruct (Z.leb_spec (l_global l) (occ_global occ)).
  { apply ret_ok in H as [<- <-]. apply claim_blocked; [done..|]. by exists occ. }
  destruct (Z.leb_spec (l_per_adapter l) (occupied occ (adapter_instance_id spec))).
  { apply ret_ok in H as [<- <-]. apply claim_blocked; [done..|]. by exists occ. }
  split_bools. eapply claim_reserved; try done.
  apply andb_false_iff in Ha. rewrite !negb_false_iff, !String.eqb_eq in Ha. tauto.
Qed.

Lemma new_v4_ok s x s' : new_v4 s = (inr x, s') ↔ x = uuid_v4 (entropy s) ∧ s' = s <| entropy ::= S |>.
Proof. unfold new_v4. naive_solver. Qed.

(** What the reservation leaves: the new attempt, and the task in [PREPARING] with the
    claimed adapter. *)
Lemma reserve_ok op dg id g spec now s out s' t :
  tasks (db s) !! id = Some t → t_generation t = g → claim_ready t now = true →
  reserve_slot op dg id g spec now s = (inr out, s') →
  ∃ attempt_id ordinal t',
    out = Dispatched (mkAttempt attempt_id id g ordinal) ∧
    attempts (db s) !! attempt_id = None ∧
    attempts (db s') = <[attempt_id := new_attempt_row id g ordinal spec now]> (attempts (db s)) ∧
    tasks (db s') = <[id := t']> (tasks (db s)) ∧
    t_state t' = Preparing ∧ t_generation t' = g ∧
    t_adapter_instance_id t' = adapter_instance_id spec ∧
    (∃ o, internal_operations (db s') !! op = Some o ∧ op_digest o = dg ∧
          op_response_locator o = attempt_id).
Proof.
  intros Ht Hg Hready H. unfold reserve_slot in H.
  apply bind_reads_ok in H as (ordinal & _ & H); [|auto with reads].
  rewrite bind_ok in H. destruct H as (aid & s1 & Hid & H). apply new_v4_ok in Hid as [_ ->].
  rewrite bind_ok in H. destruct H as ([] & s2 & Hins & H). rewrite execute_ok in Hins.
  destruct Hins as (d2 & Hins & ->). unfold insert_attempt in Hins.
  destruct (_ && _) eqn:Hchk in Hins; [|discriminate]. injection Hins as <-. split_bools.
  rename select (has_row (attempts _) _ = false) into Hfresh. apply has_row_false in Hfresh.
  rewrite bind_ok in H. destruct H as ([] & s3 & Hupd & H). rewrite execute_ok in Hupd.
  destruct Hupd as (d3 & Hupd & ->). unfold update_task in Hupd. simpl in Hupd. rewrite Ht, Hg, Z.eqb_refl in Hupd.
  assert (bool_decide (t_state t ∈ [Queued; RetryWait]) = true) as Hst.
  { apply bool_decide_eq_true. unfold claim_ready in Hready. destruct (t_state t); set_solver. }
  rewrite Hst in Hupd. simpl in Hupd. destruct (_ || _) in Hupd; [discriminate|]. injection Hupd as <-.
  rewrite bind_ok in H. destruct H as (seq & s4 & Hev & H).
  apply append_event_ok in Hev as (t1 & Ht1 & _ & _ & _ & ->). simpl in Ht1.
  rewrite lookup_insert_eq in Ht1. injection Ht1 as <-.
  rewrite bind_ok in H. destruct H as ([] & s5 & Hop & H). unfold store_operation in Hop.
  rewrite execute_ok in Hop. destruct Hop as (d5 & Hop & ->). unfold insert_operation in Hop.
  destruct (_ && _) in Hop; [|discriminate]. injection Hop as <-.
  rewrite bind_ok in H. destruct H as ([] & s6 & Hb & H). unfold bump_mutation_epoch in Hb.
  rewrite execute_ok in Hb. destruct Hb as (d6 & [= <-] & ->). apply ret_ok in H as [<- <-].
  simpl. eexists aid, ordinal, _.
  split_and!; [done|done|done|by rewrite insert_insert_eq|done|done|done|].
  eexists. rewrite lookup_insert_eq. done.
Qed.

Lemma safe_reserve op dg id g spec now s out s' t :
  tasks (db s) !! id = Some t → t_generation t = g →
  (t_adapter_instance_id t = "" ∨ t_adapter_instance_id t = adapter_instance_id spec) →
  reserve_slot op dg id g spec now s = (inr out, s') → safe (db s) (db s').
Proof.
  intros Ht Hg Had H. unfold reserve_slot in H.
  apply bind_reads_ok in H as (ordinal & _ & H); [|auto with reads].
  rewrite bind_ok in H. destruct H as (aid & s1 & Hid & H). apply new_v4_ok in Hid as [_ ->].
  rewrite bind_ok in H. destruct H as ([] & s2 & Hins & H).
  assert (tasks (db s2) !! id = Some t) as Ht2.
  { rewrite execute_ok in Hins. destruct Hins as (d2 & Hins & ->). unfold insert_attempt in Hins.
    destruct (_ && _) in Hins; [|discriminate]. by injection Hins as <-. }
  apply safe_exec_attempt in Hins. simpl in Hins. etrans; [exact Hins|]. clear Hins.
  rewrite bind_ok in H. destruct H as ([] & s3 & Hupd & H).
  assert (safe (db s2) (db s3)) as Hu.
  { rewrite execute_ok in Hupd. destruct Hupd as (d3 & Hupd & ->).
    eapply safe_update_task; [|exact Hupd]. intros t0 Ht0 Hw Hterm. simpl.
    rewrite Ht2 in Ht0. injection Ht0 as <-. split_and!; try done.
    split; simpl; try (intros; done || lia || congruence). intros Hne. destruct Had; congruence. }
  etrans; [exact Hu|]. clear Hu Hupd.
  assert (moves_ok safe (append_event id g "attempt_started" (attempt_started_payload aid ordinal) now ≫=
     λ _, store_operation op dg id g "claim_dispatch_slot" aid now;;
          bump_mutation_epoch now;; mret (Dispatched (mkAttempt aid id g ordinal)))) as Hrest by carry.
  by eapply Hrest.
Qed.

Lemma safe_claim op id g spec l now : moves safe (claim_dispatch_slot op id g spec l now).
Proof.
  apply moves_atomic; [apply _|apply claim_atomic|].
  intros s out s' H. apply claim_ok in H. destruct H; subst; [reflexivity..|]. by eapply safe_reserve.
Qed.

Lemma safe_move id g from afrom to ato now :
  TaskState.is_terminal to = false → AttemptState.is_terminal ato = false →
  moves_ok safe (move_task_and_attempts id g from afrom to ato now).
Proof. intros Ht Ha. unfold move_task_and_attempts. carry. Qed.

Lemma safe_reclaim op id g spec l now :
  moves safe (reclaim_preflight_dispatch_slot op id g spec l now).
Proof.
  unfold reclaim_preflight_dispatch_slot. cbv zeta.
  repeat first [ carry_step | read_only | apply moves_moves_ok; read_only
               | apply safe_move; reflexivity ].
Qed.

(** ** Dispatch phases *)

Lemma live_attempt_ok id g states d aid a :
  live_attempt id g states d = Some (aid, a) →
  attempts d !! aid = Some a ∧ a_task_id a = id ∧ a_generation a = g ∧
  ∃ t, tasks d !! id = Some t ∧ t_generation t = g ∧ t_state t ∈ states.
Proof.
  unfold live_attempt. intros (t & Ht & H)%bind_Some.
  destruct (_ && _) eqn:Hg; [|done]. split_bools.
  assert ((aid, a) ∈ attempts_at d id g) as Hin.
  { destruct (attempts_at d id g); simpl in H; [done|]. injection H as ->. set_solver. }
  apply attempts_at_elem in Hin as (? & ? & ?). eauto 10.
Qed.

Lemma phase_atomic op id g phase receipt now : atomic (record_dispatch_phase op id g phase receipt now).
Proof. unfold record_dispatch_phase. repeat atomic_step. Qed.

Lemma safe_record_dispatch_phase op id g phase receipt now :
  moves safe (record_dispatch_phase op id g phase receipt now).
Proof.
  apply moves_atomic; [apply _|apply phase_atomic|]. intros s b s' H.
  unfold record_dispatch_phase in H. cbv zeta in H.
  apply bind_reads_ok in H as ([] & _ & H); [|auto with reads]. rewrite transaction_ok in H.
  apply bind_reads_ok in H as (r & _ & H); [|auto with reads].
  destruct r; [by apply ret_ok in H as [_ <-]|].
  apply bind_reads_ok in H as (row & Hrow & H); [|auto with reads]. apply query_ok in Hrow as [-> _].
  apply bind_reads_ok in H as ([aid a] & Ha & H); [|auto with reads]. apply some_or_ok in Ha as [Ha _].
  apply live_attempt_ok in Ha as (Ha & Hat & Hag & _).
  apply bind_reads_ok in H as ([] & Hadv & H); [|auto with reads]. apply refuse_if_ok in Hadv as [Hadv _].
  apply negb_false_iff, can_advance_rank, Z.lt_le_incl in Hadv.
  apply bind_reads_ok in H as (d & Hd & H); [|auto with reads]. apply query_ok in Hd as [-> _].
  intros Hok. revert H. simpl. set (target := phase_target id g (db s)). intros H.
  rewrite bind_ok in H. destruct H as ([] & s2 & Hupd & H).
  assert (safe (db s) (db s2)) as Hs2.
  { rewrite execute_ok in Hupd. destruct Hupd as (d2 & Hupd & ->).
    eapply safe_update_attempts; [|exact Hupd]. intros k x Hk Hw Hterm.
    unfold target, phase_target, attempt_is in Hw. split_bools.
    assert (k = aid) as -> by (eapply (ok_attempt_unique _ Hok); [exact Hk|exact Ha|congruence..]).
    simplify_eq. split; simpl; try done. intros Hx. congruence. }
  assert (moves_ok safe
    (refuse_if (negb (Z.of_nat (length (select target (attempts (db s)))) =? 1)) ErrStaleGeneration;;
     (if process_phase phase then
        execute (update_task true id
          (λ t, (t_generation t =? g) && bool_decide (t_state t = Preparing))
          (λ t, t <| t_state := Running |> <| t_updated_at := now |>))
      else mret tt);;
     append_event id g "dispatch_phase"
       (json_to_string (json_object [("phase", VString (DispatchPhase.as_str phase))])) now;;
     store_operation op (phase_digest id g phase receipt) id g "dispatch_phase" "" now;;
     bump_mutation_epoch now;; mret false)) as Hrest by carry.
  assert (safe (db s) (db s')) as Hall; [|by apply Hall].
  etrans; [exact Hs2|]. by eapply Hrest.
Qed.

(** ** Finalization *)

Ltac read_back Hd4 Hd3 Hd2 Hs4 Hs3 Hs2 Hs1 :=
  rewrite Hs4; rec_simpl; rewrite <-Hd4; rec_simpl; rewrite Hs3; rec_simpl; rewrite <-Hd3; rec_simpl;
  rewrite Hs2; rec_simpl; rewrite <-Hd2; rec_simpl; rewrite Hs1; rec_simpl; reflexivity.

(** The terminal tuple the statements of [write_terminal_tuple] leave behind. *)
Lemma terminal_tuple_ok c id g terminal rd rid tok now s del s' t :
  tasks (db s) !! id = Some t → t_generation t = g →
  write_terminal_tuple c id g terminal rd rid tok now s = (inr del, s') →
  ∃ seq t' e,
    seq = t_last_event_seq t + 1 ∧
    del = mkDelivery id rid 1 tok seq (TaskState.as_str terminal) ∧
    TaskState.is_terminal (t_state t) = false ∧ task_check t' = true ∧
    t' = t <| t_last_event_seq := seq |> <| t_projection_event_seq := seq |>
           <| t_state := terminal |> <| t_result_version := Some 1 |>
           <| t_terminal_event_seq := Some seq |> <| t_terminal_at := Some now |>
           <| t_updated_at := now |> ∧
    e = mkEvent id seq (uuid_v4 (entropy s)) g "terminal"
          (terminal_event_payload (TaskState.as_str terminal) rid) now ∧
    results (db s) !! id = None ∧ result_outbox (db s) !! (c, id) = None ∧
    tasks (db s') = <[id := t']> (tasks (db s)) ∧ events (db s') = events (db s) ++ [e] ∧
    results (db s') = <[id := mkResultRow rid seq rd now]> (results (db s)) ∧
    result_outbox (db s') =
      <[(c, id) := mkOutboxRow rid tok seq now None None]> (result_outbox (db s)) ∧
    attempts (db s') = attempts (db s) ∧
    pending_interactions (db s') = pending_interactions (db s) ∧
    internal_operations (db s') = internal_operations (db s) ∧
    command_dedup (db s') = command_dedup (db s) ∧
    interaction_responses (db s') = interaction_responses (db s) ∧
    task_requests (db s') = task_requests (db s) ∧ reviews (db s') = reviews (db s) ∧
    retention (db s') = retention (db s) ∧
    (∀ t' o, result_outbox (db s) !! (c, t') = Some o → ob_result_id o ≠ rid).
Proof.
  intros Ht Hg H. unfold write_terminal_tuple in H.
  rewrite bind_ok in H. destruct H as (seq & s1 & Hev & H).
  apply append_event_ok in Hev as (t0 & Ht0 & Hseq & _ & _ & Hs1). rewrite Ht in Ht0. injection Ht0 as <-.
  rewrite bind_ok in H. destruct H as ([] & s2 & Hres & H). rewrite execute_ok in Hres.
  destruct Hres as (d2 & Hres & Hs2). unfold insert_result in Hres.
  destruct (_ && _) eqn:Hr in Hres; [|discriminate]. injection Hres as Hd2. split_bools.
  rename select (has_row (results _) _ = false) into Hnr. apply has_row_false in Hnr.
  rewrite bind_ok in H. destruct H as ([] & s3 & Hout & H). rewrite execute_ok in Hout.
  destruct Hout as (d3 & Hout & Hs3). unfold insert_outbox in Hout.
  destruct (_ && _) eqn:Ho in Hout; [|discriminate]. injection Hout as Hd3. split_bools.
  rename select (has_row (result_outbox _) _ = false) into Hno. apply has_row_false in Hno.
  rename select (free_of _ (result_outbox _) = true) into Hfree.
  rewrite bind_ok in H. destruct H as ([] & s4 & Hupd & H). rewrite execute_ok in Hupd.
  destruct Hupd as (d4 & Hupd & Hs4). apply ret_ok in H as [<- <-].
  assert (tasks (db s3) = <[id := t <| t_last_event_seq := seq |> <| t_projection_event_seq := seq |>]>
            (tasks (db s))) as Ht3.
  { rewrite Hs3. rec_simpl. rewrite <-Hd3. rec_simpl. rewrite Hs2. rec_simpl. rewrite <-Hd2. rec_simpl.
    rewrite Hs1. by rec_simpl. }
  unfold update_task in Hupd. rewrite Ht3, lookup_insert_eq in Hupd. cbv beta in Hupd.
  rec_simpl_in Hupd. rewrite Hg, Z.eqb_refl in Hupd.
  destruct (TaskState.is_terminal (t_state t)) eqn:Hterm; [discriminate|].
  destruct (task_check _) eqn:Hcheck in Hupd; [|discriminate]. injection Hupd as Hd4.
  rewrite Hs1 in Hnr. rec_simpl_in Hnr. rewrite Hs2 in Hno. rec_simpl_in Hno.
  rewrite <-Hd2 in Hno. rec_simpl_in Hno. rewrite Hs1 in Hno. rec_simpl_in Hno.
  rewrite Hs2 in Hfree. rec_simpl_in Hfree.
  rewrite <-Hd2 in Hfree. rec_simpl_in Hfree. rewrite Hs1 in Hfree. rec_simpl_in Hfree.
  exists seq, (t <| t_last_event_seq := seq |> <| t_projection_event_seq := seq |>
           <| t_state := terminal |> <| t_result_version := Some 1 |>
           <| t_terminal_event_seq := Some seq |> <| t_terminal_at := Some now |>
           <| t_updated_at := now |>),
    (mkEvent id seq (uuid_v4 (entropy s)) g "terminal"
          (terminal_event_payload (TaskState.as_str terminal) rid) now).
  split; [exact Hseq|]. split; [done|]. split; [done|]. split; [exact Hcheck|].
  split; [done|]. split; [done|]. split; [done|]. split; [done|].
  split_and!; [| |..|by intros t' o Ho Heq; apply (free_of_spec _ _ _ _ Hfree) in Ho; simpl in Ho;
    rewrite Heq, !String.eqb_refl in Ho]; [|read_back Hd4 Hd3 Hd2 Hs4 Hs3 Hs2 Hs1..].
  rewrite Hs4. rec_simpl. rewrite <-Hd4. rec_simpl. by rewrite Ht3, insert_insert_eq.
Qed.

Lemma safe_terminal_tuple c id g terminal rd rid tok now s del s' t :
  tasks (db s) !! id = Some t → t_generation t = g → TaskState.is_terminal terminal = true →
  write_terminal_tuple c id g terminal rd rid tok now s = (inr del, s') → safe (db s) (db s').
Proof.
  intros Ht Hg Hterm H Hok.
  destruct (terminal_tuple_ok _ _ _ _ _ _ _ _ _ _ _ _ Ht Hg H)
    as (seq & t' & e & Hseq & _ & Hnt & Hcheck & Ht' & He & Hnr & Hno & Dt & De & Dr & Do & Da &
        Di & Dop & Dc & Drs & Drq & Drv & Dret & _).
  pose proof (task_check_seq _ (ok_check _ Hok _ _ Ht)) as Hpos.
  assert (∀ id', is_Some (tasks (db s) !! id') → is_Some (<[id := t']> (tasks (db s)) !! id')) as Hdom.
  { intros id' Hx. destruct (decide (id = id')) as [<-|];
      [rewrite lookup_insert_eq|rewrite lookup_insert_ne by done]; eauto. }
  destruct (ok_nonterminal _ Hok _ _ Ht Hnt) as [_ Hnout].
  destruct Hok as [Kcheck Klog Kevent Kterm Knon Kres Kout Katt Kuniq Kret]. split.
  - split; rewrite ?Dt, ?De, ?Dr, ?Do, ?Da, ?Dret; try done.
    + intros id' x [[<- <-]|[_ Hx]]%lookup_insert_Some; [done|eauto].
    + intros id' x Hx. rewrite (log_of_snoc _ e _ _ De). subst e. simpl.
      apply lookup_insert_Some in Hx as [[<- <-]|[Hne Hx]].
      * destruct (Klog _ _ Ht) as (Hlog & _ & Hev). rewrite String.eqb_refl, map_app, Ht', Hseq. simpl.
        unfold log_of in Hlog. rewrite Hlog. split; [|done].
        rewrite seqZ_app by lia. by rewrite (Z.add_comm 1).
      * destruct (String.eqb_spec id id'); [done|]. rewrite app_nil_r. by apply Klog.
    + intros x [Hx| ->%list_elem_of_singleton]%elem_of_app; [by apply Hdom, Kevent|].
      subst e. simpl. rewrite lookup_insert_eq. eauto.
    + intros id' x Hx Hterm'. apply lookup_insert_Some in Hx as [[<- <-]|[Hne Hx]].
      * unfold terminal_tuple. rewrite De, Dr, Do.
        exists c, (mkResultRow rid seq rd now), (mkOutboxRow rid tok seq now None None), e, seq.
        subst t' e. simpl. rewrite !lookup_insert_eq. split_and!; try done.
        -- intros c' o' [[[= <-] <-]|[_ Ho']]%lookup_insert_Some; [done|].
           by rewrite Hnout in Ho'.
        -- apply elem_of_app. right. by apply list_elem_of_singleton.
      * destruct (Kterm _ _ Hx Hterm') as (c1 & r & o & e1 & q & Htuple).
        unfold terminal_tuple. rewrite De, Dr, Do. exists c1, r, o, e1, q. destruct_and! Htuple.
        rewrite !lookup_insert_ne, elem_of_app by congruence. split_and!; try done; [|by left].
        intros c' o' [[[= <- ?] <-]|[_ Ho']]%lookup_insert_Some; [done|eauto].
    + intros id' x [[<- <-]|[Hne Hx]]%lookup_insert_Some Hnt'; [subst t'; simpl in *; congruence|].
      destruct (Knon _ _ Hx Hnt') as [Hr0 Ho0]. split; rewrite ?Dr, ?Do.
      * by rewrite lookup_insert_ne.
      * intros c'. rewrite lookup_insert_ne by congruence. apply Ho0.
    + intros id' r [[<- <-]|[_ Hr]]%lookup_insert_Some; [rewrite lookup_insert_eq; eauto|].
      by eapply Hdom, Kres.
    + intros c' id' o [[[= <- <-] <-]|[_ Ho]]%lookup_insert_Some; [rewrite lookup_insert_eq; eauto|].
      apply Kout in Ho as [r Hr]. destruct (decide (id = id')) as [<-|];
        [rewrite lookup_insert_eq|rewrite lookup_insert_ne by done]; eauto.
    + intros id' a Ha. by eapply Hdom, Katt.
  - split; rewrite ?Dt, ?De, ?Dr, ?Do, ?Da, ?Di, ?Dop, ?Dc, ?Drs, ?Drq, ?Drv; try done;
      [| |by apply prefix_app_r|by apply insert_subseteq].
    + apply table_evolves_insert; [apply _|]. intros x Hx. simplify_eq.
      split; simpl; try (intros; done || lia || congruence).
    + apply table_evolves_insert; [apply _|]. intros x Hx. congruence.
Qed.
End operations.
