(* ===== verification/Finalize.v ===== *)
(** * Finalization: what it commits and that it is safe

    [finalize] appends one [interaction_decided] event per pending interaction, writes
    the terminal tuple and closes the generation's attempts and interactions.
    [finalize_ok] is what its successful runs do; [safe_finalize] carries the
    invariant and the ledger through it. *)

From S2P Require Import Prelude Domain Externals Scheduler Improvement Schema StoreMonad Tables.
From S2P Require Import Ledger TaskStore Lifecycle Carry TaskProofs.

(** Reads a table of the last of a chain of states back through the statements. *)
Ltac unwind :=
  rec_simpl;
  repeat (match goal with
          | H : ?s = set _ _ _ |- context [db ?s] => is_var s; rewrite H
          | H : _ = ?d |- context [?d] =>
              match type of d with Db => is_var d; rewrite <-H end
          end; rec_simpl).

(** ** The statements around the terminal tuple *)

(** The task rows keep state, generation and cancellation; the result tables and the
    records of commands and operations are untouched. *)
Record appends_only (d d' : Db) : Prop := {
  ao_task id t : tasks d !! id = Some t → ∃ t', tasks d' !! id = Some t' ∧
    t_state t' = t_state t ∧ t_generation t' = t_generation t ∧
    t_cancel_requested_at t' = t_cancel_requested_at t;
  ao_results : results d' = results d;
  ao_outbox : result_outbox d' = result_outbox d;
  ao_commands : command_dedup d' = command_dedup d;
  ao_attempts : attempts d' = attempts d;
  ao_interactions : pending_interactions d' = pending_interactions d;
}.

#[export] Instance appends_only_preorder : PreOrder appends_only.
Proof.
  split; [intros d; split; eauto|]. intros d1 d2 d3 H1 H2. split; try (destruct H1, H2; congruence).
  intros id t Ht. destruct (ao_task _ _ H1 _ _ Ht) as (t1 & Ht1 & ? & ? & ?).
  destruct (ao_task _ _ H2 _ _ Ht1) as (t2 & Ht2 & ? & ? & ?). exists t2. split_and!; congruence.
Qed.

(** After the tuple: neither the tasks nor the events nor the results change. *)
Record closes_only (d d' : Db) : Prop := {
  co_tasks : tasks d' = tasks d;
  co_events : events d' = events d;
  co_results : results d' = results d;
  co_outbox : result_outbox d' = result_outbox d;
}.

#[export] Instance closes_only_preorder : PreOrder closes_only.
Proof. split; [by intros d; split|]. intros d1 d2 d3 [] []. split; congruence. Qed.

Section finalize.
Context `{E : Externals} `{Store : ImprovementStore}.

Lemma append_event_appends id g kind payload now :
  moves_ok appends_only (append_event id g kind payload now).
Proof.
  intros s seq s' H. apply append_event_ok in H as (t & Ht & _ & _ & _ & ->). simpl.
  split; simpl; try done. intros id' x Hx. destruct (decide (id = id')) as [<-|Hne].
  - rewrite lookup_insert_eq. eexists. split; [done|]. simpl. by simplify_eq.
  - rewrite lookup_insert_ne by done. eauto.
Qed.

(** The events that announce the end of the pending interactions. *)
Definition announce_pending (id : string) (g now : Z) (pending : list (string * InteractionRow)) : M unit :=
  for_each pending (λ kv,
    append_event id g "interaction_decided"
      (interaction_decided_event_payload kv.1
         (if i_expires_at kv.2 <=? now then "EXPIRED" else "CANCELLED") None) now;;
    mret tt).

Lemma announce_appends id g now pending : moves_ok appends_only (announce_pending id g now pending).
Proof.
  unfold announce_pending. apply moves_ok_for_each; [apply _|]. intros kv.
  apply moves_ok_bind; [apply _|apply append_event_appends|]. intros ?. apply moves_moves_ok. moves_leaf.
Qed.

Lemma safe_announce id g now pending : moves_ok safe (announce_pending id g now pending).
Proof. unfold announce_pending. carry. Qed.

(** The statements after the terminal tuple. *)
Definition close_generation (c k dg id : string) (g : Z) (terminal : TaskState) (terminal_state rid : string)
    (now : Z) (delivery : ResultDelivery) : M ResultDelivery :=
  execute (update_attempts true (attempt_is id g)
    (λ a, a <| a_state := terminal_attempt_state terminal |> <| a_ended_at := Some now |>
            <| a_updated_at := now |>));;
  execute (update_interactions
    (λ _ i, String.eqb (i_task_id i) id && (i_generation i =? g) && bool_decide (i_state i = IPending))
    (λ i, i <| i_state := if i_expires_at i <=? now then IExpired else ICancelled |>
            <| i_updated_at := now |>));;
  execute (update_worktrees id (λ w, w <| w_terminal_state := Some terminal_state |>
    <| w_terminal_at := Some now |> <| w_state := "RETAINED" |>));;
  store_command c "finalize" k dg rid now;;
  bump_mutation_epoch now;;
  mret delivery.

Lemma safe_close c k dg id g terminal ts rid now del :
  moves_ok safe (close_generation c k dg id g terminal ts rid now del).
Proof. unfold close_generation. carry. Qed.

Lemma close_ok c k dg id g terminal ts rid now del s r s' :
  close_generation c k dg id g terminal ts rid now del s = (inr r, s') →
  r = del ∧ closes_only (db s) (db s') ∧
  (∀ aid a, attempts (db s') !! aid = Some a → a_task_id a = id → a_generation a = g →
     a_state a = terminal_attempt_state terminal ∧ a_ended_at a = Some now) ∧
  (∀ iid i, pending_interactions (db s') !! iid = Some i → i_task_id i = id → i_generation i = g →
     i_state i ≠ IPending) ∧
  command_dedup (db s) !! (c, "finalize", k) = None ∧
  command_dedup (db s') !! (c, "finalize", k) = Some (mkCommandRow dg rid now).
Proof.
  unfold close_generation. intros H.
  rewrite bind_ok in H. destruct H as ([] & s1 & H1 & H). rewrite execute_ok in H1.
  destruct H1 as (d1 & H1 & Hs1). unfold update_attempts in H1. destruct (forallb _ _); [|discriminate].
  injection H1 as Hd1.
  rewrite bind_ok in H. destruct H as ([] & s2 & H2 & H). rewrite execute_ok in H2.
  destruct H2 as (d2 & [= Hd2] & Hs2).
  rewrite bind_ok in H. destruct H as ([] & s3 & H3 & H). rewrite execute_ok in H3.
  destruct H3 as (d3 & [= Hd3] & Hs3).
  rewrite bind_ok in H. destruct H as ([] & s4 & H4 & H). unfold store_command in H4.
  rewrite execute_ok in H4. destruct H4 as (d4 & H4 & Hs4). unfold insert_command in H4.
  destruct (negb _) eqn:Hc in H4; [|discriminate]. injection H4 as Hd4.
  apply negb_true_iff, has_row_false in Hc.
  rewrite bind_ok in H. destruct H as ([] & s5 & H5 & H). unfold bump_mutation_epoch in H5.
  rewrite execute_ok in H5. destruct H5 as (d5 & [= Hd5] & Hs5). apply ret_ok in H as [-> <-].
  split; [done|]. split; [split; unwind; reflexivity|]. split_and!.
  - intros aid a Ha Hid Hg. revert Ha. unwind. rewrite map_lookup_imap, bind_Some.
    intros (a0 & _ & Ha). destruct (attempt_is id g aid a0) eqn:Hat; injection Ha as <-; [done|].
    unfold attempt_is in Hat. by rewrite Hid, Hg, String.eqb_refl, Z.eqb_refl in Hat.
  - intros iid i Hi Hid Hg. revert Hi. unwind. rewrite map_lookup_imap, bind_Some.
    intros (i0 & _ & Hi). destruct (_ && _) eqn:Hw in Hi; injection Hi as <-; simpl.
    + by destruct (_ <=? _).
    + rewrite Hid, Hg, String.eqb_refl, Z.eqb_refl in Hw. simpl in Hw. by apply bool_decide_eq_false in Hw.
  - revert Hc. by unwind.
  - unwind. apply lookup_insert_eq.
Qed.

(** ** What a successful finalization did *)

Record finalized (c k dg id : string) (g : Z) (terminal : TaskState) (rd : string) (now : Z)
    (s s' : Storage) (del : ResultDelivery) : Prop := {
  fin_fresh : command_dedup (db s) !! (c, "finalize", k) = None;
  fin_source : ∃ t, tasks (db s) !! id = Some t ∧ t_generation t = g ∧
    TaskState.allows (t_state t) terminal = true ∧
    (is_Some (t_cancel_requested_at t) → terminal = Cancelled);
  fin_task : ∃ t', tasks (db s') !! id = Some t' ∧ t_state t' = terminal ∧ t_generation t' = g ∧
    t_result_version t' = Some 1 ∧ t_terminal_event_seq t' = Some (del_terminal_event_seq del) ∧
    t_terminal_at t' = Some now ∧ t_last_event_seq t' = del_terminal_event_seq del;
  fin_result : results (db s) !! id = None ∧
    results (db s') !! id = Some (mkResultRow (del_result_id del) (del_terminal_event_seq del) rd now);
  fin_outbox : result_outbox (db s) !! (c, id) = None ∧
    result_outbox (db s') = <[(c, id) := mkOutboxRow (del_result_id del) (del_ack_token del)
       (del_terminal_event_seq del) now None None]> (result_outbox (db s)) ∧
    (∀ id' o, result_outbox (db s) !! (c, id') = Some o → ob_result_id o ≠ del_result_id del);
  fin_event : ∃ before event_id, events (db s') = before ++
    [mkEvent id (del_terminal_event_seq del) event_id g "terminal"
       (terminal_event_payload (TaskState.as_str terminal) (del_result_id del)) now];
  fin_delivery : del_task_id del = id ∧ del_result_version del = 1 ∧
    del_terminal_state del = TaskState.as_str terminal;
  fin_attempts aid a : attempts (db s') !! aid = Some a → a_task_id a = id → a_generation a = g →
    a_state a = terminal_attempt_state terminal ∧ a_ended_at a = Some now;
  fin_interactions iid i : pending_interactions (db s') !! iid = Some i → i_task_id i = id →
    i_generation i = g → i_state i ≠ IPending;
  fin_command : command_dedup (db s') !! (c, "finalize", k) = Some (mkCommandRow dg (del_result_id del) now);
  fin_safe : safe (db s) (db s');
}.

Inductive finalize_result (c k dg id : string) (g : Z) (terminal : TaskState) (rd : string) (now : Z)
    (s s' : Storage) (del : ResultDelivery) : Prop :=
  | finalize_replayed row :
      command_dedup (db s) !! (c, "finalize", k) = Some row → cd_request_digest row = dg →
      s' = s → load_delivery c (cd_response_locator row) s = (inr del, s) →
      finalize_result c k dg id g terminal rd now s s' del
  | finalize_committed :
      finalized c k dg id g terminal rd now s s' del →
      finalize_result c k dg id g terminal rd now s s' del.

Lemma finalize_ok c k dg id g ts rd now s del s' :
  finalize c k dg id g ts rd now s = (inr del, s') →
  ∃ terminal, TaskState.from_str ts = inr terminal ∧ TaskState.is_terminal terminal = true ∧
    finalize_result c k dg id g terminal rd now s s' del.
Proof.
  unfold finalize. intros H.
  apply bind_reads_ok in H as ([] & _ & H); [|auto with reads].
  apply bind_reads_ok in H as (terminal & Hterm & H); [|auto with reads].
  unfold ok_or in Hterm. destruct (TaskState.from_str ts) as [|x] eqn:Hts; [by apply fail_ok in Hterm|].
  apply ret_ok in Hterm as [-> _].
  apply bind_reads_ok in H as ([] & Ht & H); [|auto with reads]. apply refuse_if_ok in Ht as [Ht _].
  apply negb_false_iff in Ht. exists terminal. split; [done|]. split; [done|].
  rewrite transaction_ok in H.
  apply bind_reads_ok in H as (r & Hr & H); [|auto with reads].
  apply command_replay_ok in Hr as [_ Hr]. destruct r as [locator|].
  { destruct Hr as (row & Hrow & Hdg & <-). apply reads_ok in H as Hs; [|auto with reads]. subst s'.
    by eapply finalize_replayed. }
  apply finalize_committed.
  apply bind_reads_ok in H as (row & Hrow & H); [|auto with reads]. apply query_ok in Hrow as [-> _].
  apply bind_reads_ok in H as (t & Htask & H); [|auto with reads]. apply some_or_ok in Htask as [Htask _].
  unfold task_at in Htask. cbv zeta in H.
  apply bind_reads_ok in H as ([] & Hnt & H); [|auto with reads]. apply refuse_if_ok in Hnt as [Hnt _].
  apply bind_reads_ok in H as ([] & Hal & H); [|auto with reads]. apply refuse_if_ok in Hal as [Hal _].
  apply bind_reads_ok in H as ([] & Hcan & H); [|auto with reads]. apply refuse_if_ok in Hcan as [Hcan _].
  rewrite bind_ok in H. destruct H as (rid & s1 & Hrid & H). apply new_v4_ok in Hrid as [_ Hs1].
  rewrite bind_ok in H. destruct H as (tok & s2 & Htok & H). injection Htok as _ Hs2.
  apply bind_reads_ok in H as (pending & _ & H); [|auto with reads].
  apply bind_Some in Htask as (t0 & Htask & Hg). destruct (Z.eqb_spec (t_generation t0) g) as [Hgen|]; [|done].
  injection Hg as ->.
  assert (db s2 = db s) as Hd by (subst s2 s1; done). clear Hs1 Hs2.
  rewrite bind_ok in H. destruct H as ([] & s3 & Hann & H).
  assert (safe (db s) (db s3)) as Hsafe1 by (rewrite <-Hd; by eapply safe_announce).
  apply announce_appends in Hann as [Htasks Hres Hout Hcmd _ _]. rewrite Hd in *.
  destruct (Htasks _ _ Htask) as (t1 & Ht1 & Hst1 & Hg1 & _).
  rewrite bind_ok in H. destruct H as (del' & s4 & Htup & H).
  assert (safe (db s3) (db s4)) as Hsafe2 by (eapply safe_terminal_tuple; [exact Ht1| |done|exact Htup]; congruence).
  eapply terminal_tuple_ok in Htup as (seq & t' & e & Hseq & Hdel & _ & _ & Ht' & He & Hnr & Hno & Dt & De
     & Dr & Do & _ & _ & _ & Dc & _ & _ & _ & _ & Hfree); [|exact Ht1|congruence].
  assert (safe (db s4) (db s')) as Hsafe3 by (eapply safe_close; exact H).
  apply close_ok in H as (-> & [Ct Ce Cr Co] & Hat & Hin & Hc & Hc').
  apply negb_false_iff in Hal.
  split.
  - congruence.
  - exists t. split_and!; [done|done|done|]. intros Hx. apply andb_false_iff in Hcan as [Hcan|Hcan].
    + by apply bool_decide_eq_false in Hcan.
    + by apply negb_false_iff, bool_decide_eq_true in Hcan.
  - exists t'. rewrite Ct, Dt, lookup_insert_eq. subst t' del'. simpl. split_and!; try done. congruence.
  - rewrite Cr, Dr, lookup_insert_eq, <-Hres. subst del'. done.
  - rewrite Co, Do, <-Hout. subst del'. simpl. done.
  - exists (events (db s3)). subst e del'. rewrite Ce, De. eauto.
  - by subst del'.
  - done.
  - done.
  - by subst del'.
  - etrans; [exact Hsafe1|]. by etrans.
Qed.

Lemma finalize_atomic c k dg id g ts rd now : atomic (finalize c k dg id g ts rd now).
Proof. unfold finalize. repeat atomic_step. Qed.

Lemma safe_finalize c k dg id g ts rd now : moves safe (finalize c k dg id g ts rd now).
Proof.
  apply moves_atomic; [apply _|apply finalize_atomic|]. intros s del s' H.
  apply finalize_ok in H as (terminal & _ & _ & [row _ _ -> _|H]); [reflexivity|apply (fin_safe _ _ _ _ _ _ _ _ _ _ _ H)].
Qed.
End finalize.
