(* ===== verification/InteractionProofs.v ===== *)
(** * Interactions preserve the invariant, and a response is accepted once *)

From S2P Require Import Prelude Domain Externals Protocol Scheduler Improvement Schema StoreMonad.
From S2P Require Import Tables Ledger TaskStore Lifecycle Carry TaskProofs Finalize.
From S2P Require Import InteractionStore.

Section helpers.
Context `{E : Externals}.

Lemma reads_load_evidence e id : reads (load_evidence e id).
Proof.
  unfold load_evidence, validate_interaction_response_metadata, build_interaction_response_evidence.
  repeat reads_step.
Qed.

Lemma reads_verify_replay id c command : reads (verify_interaction_response_replay_tx id c command).
Proof.
  unfold verify_interaction_response_replay_tx.
  apply reads_bind; [apply reads_load_evidence|]. repeat reads_step.
Qed.

Lemma reads_load_interaction id : reads (load_interaction id).
Proof. unfold load_interaction, validate_interaction_metadata. repeat reads_step. Qed.

Lemma reads_metadata_ok id i : reads (interaction_metadata_ok id i).
Proof. unfold interaction_metadata_ok. repeat reads_step. Qed.

Lemma reads_latest_answered id g : reads (latest_answered_response_kind id g).
Proof. unfold latest_answered_response_kind. repeat reads_step. Qed.

(** An operation that only reads moves the database nowhere. *)
Lemma reads_moves {A} (m : M A) : reads m → moves safe m.
Proof. intros Hm s. rewrite (Hm s). reflexivity. Qed.
End helpers.

#[export] Hint Resolve reads_load_evidence reads_verify_replay reads_load_interaction
  reads_metadata_ok reads_latest_answered : reads.

Ltac carry_reads :=
  repeat first [ carry_step
               | apply reads_moves; solve [auto with reads]
               | apply moves_moves_ok, reads_moves; solve [auto with reads] ].

Section safety.
Context `{E : Externals} `{Store : ImprovementStore}.

Lemma safe_open op id aid g od pd cd cap cv pv ex now :
  moves safe (open_interaction op id aid g od pd cd cap cv pv ex now).
Proof. unfold open_interaction. carry_reads. Qed.

Lemma safe_answer c k dg iid i rk rb now : moves_ok safe (answer_interaction c k dg iid i rk rb now).
Proof. unfold answer_interaction. cbv zeta. carry_reads. Qed.

Lemma safe_respond c k bytes iid nonce g od pd cd rk rb now :
  moves safe (respond_interaction c k bytes iid nonce g od pd cd rk rb now).
Proof.
  unfold respond_interaction. cbv zeta.
  repeat first [ apply safe_answer | carry_step | apply reads_moves; solve [auto with reads]
               | apply moves_moves_ok, reads_moves; solve [auto with reads] ].
Qed.

Lemma respond_atomic c k bytes iid nonce g od pd cd rk rb now :
  atomic (respond_interaction c k bytes iid nonce g od pd cd rk rb now).
Proof. unfold respond_interaction. repeat atomic_step. Qed.

(** ** Expiry *)

Lemma expirable_ok pre iid g now d id :
  expirable pre iid g now d = Some id →
  ∃ i t, pending_interactions d !! iid = Some i ∧ i_task_id i = id ∧ i_generation i = g ∧
    i_state i = IPending ∧ i_expires_at i ≤ now ∧
    tasks d !! id = Some t ∧ t_generation t = g ∧ t_state t = WaitingApproval ∧
    (pre = true → ∃ aid a, attempts d !! aid = Some a ∧ a_task_id a = id ∧ a_generation a = g ∧
       (a_dispatch_phase a = PreDispatch ∨ a_dispatch_phase a = SpawnPrepared)).
Proof.
  unfold expirable. intros (i & Hi & H)%bind_Some. apply bind_Some in H as (t & Ht & H).
  destruct (_ && _) eqn:Hg in H; [|done]. injection H as <-. split_bools.
  rename select (negb pre || _ = true) into Hpre.
  exists i, t. split_and!; try done. intros ->. simpl in Hpre.
  apply existsb_exists in Hpre as ([aid a] & Hin & Hph). apply list_elem_of_In, attempts_at_elem in Hin
    as (? & ? & ?). apply bool_decide_eq_true in Hph. simpl in Hph.
  exists aid, a. split_and!; try done; [congruence|set_solver].
Qed.

Lemma expire_begin_atomic x op iid g now : atomic (expire_begin x op iid g now).
Proof. unfold expire_begin. repeat atomic_step. Qed.

Lemma safe_expire_begin x op iid g now : moves safe (expire_begin x op iid g now).
Proof.
  apply moves_atomic; [apply _|apply expire_begin_atomic|]. intros s r s' H.
  unfold expire_begin in H. cbv zeta in H. rewrite transaction_ok in H.
  apply bind_reads_ok in H as (o & _ & H); [|auto with reads].
  destruct o as [locator|].
  { apply bind_reads_ok in H as (? & _ & H); [|auto with reads]. apply ret_ok in H as [_ <-]. reflexivity. }
  apply bind_reads_ok in H as (row & Hrow & H); [|auto with reads]. apply query_ok in Hrow as [-> _].
  apply bind_reads_ok in H as (id & Hid & H); [|auto with reads]. apply some_or_ok in Hid as [Hid _].
  apply expirable_ok in Hid as (i & t & Hi & Hit & Hig & Hpend & _ & Ht & Htg & Hst & _).
  rewrite bind_ok in H. destruct H as (seq & s1 & Hev & H).
  apply append_event_appends in Hev as Hao. pose proof (ao_interactions _ _ Hao) as Hints.
  apply safe_append_event in Hev. etrans; [exact Hev|]. clear Hev Hao.
  rewrite bind_ok in H. destruct H as ([] & s2 & Hupd & H).
  assert (safe (db s1) (db s2)) as Hs2.
  { rewrite execute_ok in Hupd. destruct Hupd as (d & [= <-] & ->). simpl. apply safe_core; try done.
    split; simpl; try done. apply table_evolves_imap. intros k i' Hk.
    destruct (String.eqb_spec k iid) as [->|]; [|reflexivity].
    rewrite Hints, Hi in Hk. injection Hk as <-. split; simpl; done || congruence. }
  etrans; [exact Hs2|]. revert H. generalize (digest_fields ([iid; pretty g] ++ ex_digest_fields x)).
  intros dg H.
  assert (moves_ok safe (
    execute (update_attempts true (attempt_is id g)
          (λ a, a <| a_state := AFinalizing |> <| a_updated_at := now |>));;
    execute (update_task true id (λ t, t_generation t =? g)
          (λ t, t <| t_state := Finalizing |> <| t_updated_at := now |>));;
    store_operation op dg id g (ex_kind x) "pending-result" now;;
    bump_mutation_epoch now;;
    mret (id, None : option string))) as Hrest by carry.
  by eapply Hrest.
Qed.

Lemma safe_expire_finish x c op iid id g now : moves safe (expire_finish x c op iid id g now).
Proof.
  unfold expire_finish. apply moves_bind; [apply _|apply safe_finalize|]. intros del.
  apply moves_bind; [apply _| |intros ?; moves_leaf].
  apply moves_atomic; [apply _| |apply safe_exec_locator].
  intros s e s'. unfold execute. simpl. discriminate.
Qed.

Lemma safe_expire x c op iid g now : moves safe (expire_with x c op iid g now).
Proof.
  unfold expire_with. apply moves_bind; [apply _|apply moves_ensure_mutation|]. intros _.
  apply moves_bind; [apply _|apply safe_expire_begin|]. intros [id locator].
  destruct locator as [locator|]; [|apply safe_expire_finish].
  destruct (negb _); [|apply safe_expire_finish]. apply moves_transaction; [apply _|].
  apply moves_moves_ok, safe_load_delivery.
Qed.
End safety.
