(* ===== verification/RecoveryProofs.v ===== *)
(** * Reopening a store is safe *)

From S2P Require Import Prelude Domain Externals Scheduler Improvement Schema StoreMonad Tables.
From S2P Require Import Ledger TaskStore Lifecycle Carry TaskProofs Finalize InteractionStore.
From S2P Require Import InteractionProofs Recovery.

(** The tasks keep their place in the event log. *)
Definition keeps_last (d d' : Db) : Prop :=
  ∀ id t, tasks d !! id = Some t →
    ∃ t', tasks d' !! id = Some t' ∧ t_last_event_seq t' = t_last_event_seq t.

#[export] Instance keeps_last_preorder : PreOrder keeps_last.
Proof.
  split; [intros d id t; eauto|]. intros d1 d2 d3 H1 H2 id t Ht.
  destruct (H1 _ _ Ht) as (t1 & Ht1 & ?). destruct (H2 _ _ Ht1) as (t2 & Ht2 & ?).
  exists t2. split; congruence.
Qed.

Section proofs.
Context `{E : Externals} `{Store : ImprovementStore}.

Lemma moves_lift R `{!PreOrder R} {A} (r : StorageError + A) : moves R (lift r).
Proof. intros s. destruct r; reflexivity. Qed.

Lemma keeps_replay now row : moves keeps_last (replay_projection now row).
Proof.
  destruct row as [id t]. unfold replay_projection. destruct (negb _); [moves_leaf|].
  apply moves_bind; [apply _|moves_leaf|]. intros derived.
  apply moves_bind; [apply _|apply moves_lift; apply _|]. intros [[state g] last].
  apply moves_refuse_if_bind; [apply _|]. intros _. destruct (_ && _); [moves_leaf|].
  apply moves_refuse_if_bind; [apply _|]. intros _. apply moves_bind; [apply _| |intros _].
  - apply moves_execute; [apply _|]. intros d d'. unfold update_task.
    destruct (tasks d !! id) as [x|] eqn:Hx; [|by intros [= <-]].
    destruct (_ || _); [done|]. intros [= <-] id' y Hy. simpl.
    destruct (decide (id = id')) as [<-|].
    + rewrite lookup_insert_eq. eexists. split; [done|]. simpl. congruence.
    + rewrite lookup_insert_ne by done. eauto.
  - apply moves_execute; [apply _|]. intros d d' [= <-] id' y Hy. eauto.
Qed.

(** Every row of the list is still in the database, at the same place in its log. *)
Definition in_place (rows : list (string * Task)) (d : Db) : Prop :=
  ∀ id t, (id, t) ∈ rows → ∃ x, tasks d !! id = Some x ∧ t_last_event_seq x = t_last_event_seq t.

(** [safe], for databases where the task is at a given place in its log. *)
Definition safe_at (id : string) (last : Z) (d d' : Db) : Prop :=
  (∃ x, tasks d !! id = Some x ∧ t_last_event_seq x = last) →
  (∃ x, tasks d' !! id = Some x ∧ t_last_event_seq x = last) ∧ safe d d'.

#[local] Instance safe_at_preorder id last : PreOrder (safe_at id last).
Proof.
  split; [intros d Hd; split; [done|reflexivity]|]. intros d1 d2 d3 H1 H2 Hd.
  destruct (H1 Hd) as [Hd2 ?]. destruct (H2 Hd2) as [? ?]. split; [done|by etrans].
Qed.

Lemma safe_replay_row now id t : moves (safe_at id (t_last_event_seq t)) (replay_projection now (id, t)).
Proof.
  unfold replay_projection. destruct (negb _); [moves_leaf|].
  apply moves_bind; [apply _|moves_leaf|]. intros derived.
  apply moves_bind; [apply _|apply moves_lift; apply _|]. intros [[state g] last].
  apply moves_refuse_if_bind; [apply _|]. intros _. destruct (_ && _); [moves_leaf|].
  apply moves_refuse_if_bind; [apply _|]. intros Hst. split_bools.
  apply moves_bind; [apply _| |intros _]; apply moves_execute; try apply _.
  - intros d d' Hup [x [Hx Hl]]. split.
    + unfold update_task in Hup. rewrite Hx in Hup. destruct (_ || _) in Hup; [done|]. injection Hup as <-.
      simpl. rewrite lookup_insert_eq. eexists. split; [done|]. done.
    + intros Hok. eapply safe_update_task in Hup; [by apply Hup|]. intros y Hy _ Hterm. simplify_eq.
      destruct (ok_log _ Hok _ _ Hx) as (_ & Hproj & _).
      split_and!; try done; [simpl; congruence|].
      split; simpl; try (intros; done || lia || congruence).
  - intros d d' [= <-] Hx. split; [done|]. by apply safe_core.
Qed.

Lemma safe_replay_rows now rows s :
  in_place rows (db s) → safe (db s) (db (for_each rows (replay_projection now) s).2).
Proof.
  revert s. induction rows as [|[id t] rows IH]; intros s Hin; [reflexivity|].
  cbn [for_each]. unfold mbind, M_bind.
  assert (in_place [(id, t)] (db s)) as Hin1 by (intros ?? ?%list_elem_of_singleton; apply Hin; set_solver).
  destruct (safe_replay_row now id t s) as [_ Hs]; [apply Hin1; set_solver|]. pose proof (keeps_replay now (id, t) s) as Hk.
  destruct (replay_projection now (id, t) s) as [[e|[]] s1] eqn:Hr; [done|]. simpl in Hs, Hk.
  etrans; [exact Hs|]. apply IH. intros id' t' Hin'. destruct (Hin id' t') as (x & Hx & Hl); [set_solver|].
  destruct (Hk _ _ Hx) as (x' & Hx' & Hl'). exists x'. split; [done|congruence].
Qed.

Lemma safe_replay_projections now : moves safe (replay_projections now).
Proof.
  intros s. unfold replay_projections. cbn [mbind M_bind query]. apply safe_replay_rows.
  intros id t. unfold projected_tasks. rewrite select_elem. intros [Ht _]. eauto.
Qed.

(** ** Reconciliation *)

Lemma safe_resume_session id g now : moves safe (resume_session id g now).
Proof. unfold resume_session. cbv zeta. carry_reads. Qed.

Lemma safe_carry_out c id t decision now : moves safe (carry_out c id t decision now).
Proof.
  assert (∀ target, moves safe (finalize c ("recovery-result:" +:+ (id +:+ ":" +:+ pretty (t_generation t)))
    (digest_fields [id; pretty (t_generation t); TaskState.as_str target]) id (t_generation t)
    (TaskState.as_str target) (digest_fields ["minimal-recovery-result"; TaskState.as_str target]) now;;
    mret tt)) as Hfin.
  { intros target. apply moves_bind; [apply _|apply safe_finalize|intros ?; moves_leaf]. }
  unfold carry_out. cbv zeta.
  destruct decision;
    [apply moves_bind; [apply _|apply safe_schedule_safe_retry|intros ?; moves_leaf]
    |apply safe_resume_session|..];
    (apply moves_bind; [apply _| |intros ?; apply Hfin]; destruct (negb _); [|moves_leaf];
     apply moves_bind; [apply _|apply safe_transition|intros ?; moves_leaf]).
Qed.

Lemma safe_reconcile_rows c rows now : moves safe (reconcile_rows c rows now).
Proof.
  induction rows as [|[[id t] a] rows IH]; [cbn; moves_leaf|]. cbn [reconcile_rows].
  apply moves_bind; [apply _|apply reads_moves, reads_latest_answered|]. intros kind.
  destruct (recovery_decision t a kind) as [decision|]; [|apply IH].
  apply moves_bind; [apply _|apply safe_carry_out|]. intros _.
  apply moves_bind; [apply _|apply IH|intros ?; moves_leaf].
Qed.

Lemma safe_reconcile c now : moves safe (reconcile_nonterminal c now).
Proof.
  unfold reconcile_nonterminal. apply moves_bind; [apply _|apply moves_ensure_mutation|]. intros _.
  apply moves_bind; [apply _|moves_leaf|]. intros rows. apply safe_reconcile_rows.
Qed.
End proofs.
