(* ===== verification/ReviewProofs.v ===== *)
(** * A result is reviewed once *)

From S2P Require Import Prelude Domain Externals Protocol Scheduler Improvement Schema StoreMonad.
From S2P Require Import Tables Ledger TaskStore Lifecycle Carry TaskProofs Finalize.
From S2P Require Import InteractionStore InteractionProofs Review.

Section proofs.
Context `{E : Externals}.

Lemma reads_verify_review c del dg v diag : reads (verify_review_replay_tx c del dg v diag).
Proof. unfold verify_review_replay_tx. repeat reads_step. Qed.

Lemma safe_insert_review id r d d' : insert_review id r d = Some d' → safe d d'.
Proof.
  unfold insert_review. destruct (_ && _) eqn:Hg; [|done]. intros [= <-]. split_bools.
  rename select (has_row (reviews d) id = false) into Hf. apply has_row_false in Hf.
  apply safe_core; try done. split; simpl; try done. by apply insert_subseteq.
Qed.

(** Acknowledging an unacknowledged outbox row. *)
Lemma safe_update_outbox c id now rid d d' o :
  result_outbox d !! (c, id) = Some o → ob_acked_at o = None →
  update_outbox c id now rid d = Some d' → safe d d'.
Proof.
  intros Ho Hack. unfold update_outbox. rewrite Ho. destruct (_ && _); [|done]. intros [= <-] Hok.
  set (o' := o <| ob_acked_at := Some now |> <| ob_review_id := Some rid |>).
  assert (∀ k x, <[(c, id) := o']> (result_outbox d) !! k = Some x →
            ∃ y, result_outbox d !! k = Some y ∧ ob_result_id x = ob_result_id y ∧
                 ob_terminal_event_seq x = ob_terminal_event_seq y) as Hback.
  { intros k x [[<- <-]|[_ Hx]]%lookup_insert_Some; eauto. }
  assert (∀ k y, result_outbox d !! k = Some y →
            ∃ x, <[(c, id) := o']> (result_outbox d) !! k = Some x ∧ ob_result_id x = ob_result_id y ∧
                 ob_terminal_event_seq x = ob_terminal_event_seq y) as Hforth.
  { intros k y Hy. destruct (decide ((c, id) = k)) as [<-|].
    - rewrite lookup_insert_eq. simplify_eq. eauto.
    - rewrite lookup_insert_ne by done. eauto. }
  destruct Hok as [Kcheck Klog Kevent Kterm Knon Kres Kout Katt Kuniq]. split.
  - split; simpl; try done.
    + intros id' t Ht Hterm. destruct (Kterm _ _ Ht Hterm) as (c1 & r & o1 & e & q & Htuple).
      destruct_and! Htuple. rename select (result_outbox d !! (c1, id') = Some o1) into Ho1.
      destruct (Hforth _ _ Ho1) as (x & Hx & ? & ?).
      exists c1, r, x, e, q. simpl. split_and!; try done; try congruence.
      intros c2 x2 (y2 & Hy2 & _)%Hback. eauto.
    + intros id' t Ht Hnt. destruct (Knon _ _ Ht Hnt) as [Hr Hn]. split; [done|]. simpl.
      intros c1. destruct (<[(c, id) := o']> (result_outbox d) !! (c1, id')) eqn:Hx; [|done].
      apply Hback in Hx as (y & Hy & _). by rewrite Hn in Hy.
    + intros c1 id' x (y & Hy & _)%Hback. eauto.
  - split; simpl; try done. apply table_evolves_insert; [apply _|]. intros x Hx.
    rewrite Ho in Hx. injection Hx as <-. split; simpl; try done. rewrite Hack. by intros [].
Qed.

Lemma safe_exec_blob_refs owners at_ : moves_ok safe (execute (update_blob_refs owners at_)).
Proof. apply safe_execute. intros d d' [= <-]. by apply safe_core. Qed.

(** What the statements of a first review leave. *)
Lemma record_review_ok c del dg v diag now s s' o :
  result_outbox (db s) !! (c, del_task_id del) = Some o → ob_acked_at o = None →
  record_review c del dg v diag now s = (inr tt, s') →
  safe (db s) (db s') ∧ ∃ review_id,
    reviews (db s) !! review_id = None ∧
    reviews (db s') = <[review_id := mkReviewRow c (del_task_id del) dg (ReviewVerdict.as_str v) diag now]>
                        (reviews (db s)) ∧
    result_outbox (db s') = <[(c, del_task_id del) :=
      o <| ob_acked_at := Some now |> <| ob_review_id := Some review_id |>]> (result_outbox (db s)) ∧
    tasks (db s') = tasks (db s).
Proof.
  intros Ho Hack H. unfold record_review in H. cbv zeta in H.
  rewrite bind_ok in H. destruct H as (rid & s0 & Hid & H). apply new_v4_ok in Hid as [_ Hs0].
  rewrite bind_ok in H. destruct H as ([] & s1 & Hrun1 & H). rewrite execute_ok in Hrun1.
  destruct Hrun1 as (d1 & Hrun1 & Hs1). pose proof (safe_insert_review _ _ _ _ Hrun1) as Hsafe1.
  unfold insert_review in Hrun1. destruct (_ && _) eqn:Hg in Hrun1; [|discriminate]. injection Hrun1 as Hd1.
  split_bools. rename select (has_row (reviews _) rid = false) into Hf. apply has_row_false in Hf.
  rewrite bind_ok in H. destruct H as ([] & s2 & Hrun2 & H). rewrite execute_ok in Hrun2.
  destruct Hrun2 as (d2 & Hrun2 & Hs2).
  assert (result_outbox (db s1) !! (c, del_task_id del) = Some o) as Ho1 by (unwind; exact Ho).
  pose proof (safe_update_outbox _ _ _ _ _ _ _ Ho1 Hack Hrun2) as Hsafe2.
  unfold update_outbox in Hrun2. rewrite Ho1 in Hrun2. destruct (_ && _) in Hrun2; [|discriminate]. injection Hrun2 as Hd2.
  apply bind_reads_ok in H as (t & _ & H); [|auto with reads].
  apply bind_reads_ok in H as (at_ & _ & H); [|auto with reads].
  assert (safe (db s2) (db s')) as Hsafe3.
  { assert (moves_ok safe (
      execute (update_blob_refs [del_task_id del; del_result_id del]
        (Z.max (i64_saturating_add at_ (14 * DAY_US)) (i64_saturating_add now (7 * DAY_US))));;
      execute (update_worktrees (del_task_id del) (λ w, w <| w_acked_at := Some now |>
        <| w_state ::= λ state, if String.eqb state "ACTIVE" then "RETAINED" else state |>)))) as Hm.
    { apply moves_ok_bind; [apply _|apply safe_exec_blob_refs|]. intros _. carry. }
    by eapply Hm. }
  rewrite bind_ok in H. destruct H as ([] & s3 & Hrun3 & H). rewrite execute_ok in Hrun3.
  destruct Hrun3 as (d3 & [= Hd3] & Hs3). rewrite execute_ok in H. destruct H as (d4 & [= Hd4] & Hs4).
  split.
  { etrans; [|etrans; [|exact Hsafe3]]; [|by rewrite Hs2; rec_simpl]. by rewrite Hs1; rec_simpl; rewrite Hs0 in Hsafe1. }
  exists rid. split_and!.
  - revert Hf. by unwind.
  - by unwind.
  - by unwind.
  - by unwind.
Qed.
End proofs.

#[export] Hint Resolve reads_verify_review : reads.

(** What the storage relies on: the observation of a review, like every operation, keeps the
    invariant and the ledger. *)
Class ReviewObserverOk `{Externals} (Observer : ReviewObserver) :=
  observer_safe : ∀ del v diag now, moves safe (record_review_observation del v diag now).

Section operations.
Context `{E : Externals}.

(** The result was the delivery's and was unreviewed: this review is now its review. *)
Inductive reviewed (c k dg : string) (del : ResultDelivery) (v : ReviewVerdict) (diag : option string)
    (now : Z) (s s' : Storage) : bool → Prop :=
  | review_replayed row :
      command_dedup (db s) !! (c, "review_ack", k) = Some row → cd_request_digest row = dg →
      cd_response_locator row = del_result_id del → s' = s →
      verify_review_replay_tx c del dg v diag s = (inr tt, s) →
      reviewed c k dg del v diag now s s' true
  | review_recorded row :
      command_dedup (db s) !! (c, "review_ack", k) = None →
      ack_row (db s) c del = Some row → delivery_matches row del = true →
      command_dedup (db s') !! (c, "review_ack", k) = Some (mkCommandRow dg (del_result_id del) now) →
      tasks (db s') = tasks (db s) →
      (if bool_decide (is_Some (ob_acked_at (ar_outbox row))) then
         same_review row dg v diag = true ∧ reviews (db s') = reviews (db s) ∧
         result_outbox (db s') = result_outbox (db s)
       else ∃ review_id,
         reviews (db s) !! review_id = None ∧
         reviews (db s') = <[review_id := mkReviewRow c (del_task_id del) dg (ReviewVerdict.as_str v) diag now]>
                             (reviews (db s)) ∧
         result_outbox (db s') = <[(c, del_task_id del) :=
           (ar_outbox row) <| ob_acked_at := Some now |> <| ob_review_id := Some review_id |>]>
           (result_outbox (db s))) →
      safe (db s) (db s') →
      reviewed c k dg del v diag now s s' false.

Lemma ack_row_ok d c del row :
  ack_row d c del = Some row → del_result_version del = 1 ∧
  result_outbox d !! (c, del_task_id del) = Some (ar_outbox row) ∧
  (∃ t, tasks d !! del_task_id del = Some t ∧ t_state t = ar_state row) ∧
  ar_review row = (id ← ob_review_id (ar_outbox row); reviews d !! id).
Proof.
  unfold ack_row. destruct (Z.eqb_spec (del_result_version del) 1) as [Hv|]; simpl; [|done].
  intros (o & Ho & H)%bind_Some. apply bind_Some in H as (t & Ht & [= <-]). simpl. split_and!; eauto.
Qed.

(** The statements every first run of a review command ends with. *)
Lemma review_close_ok c k dg del now s r s' :
  (store_command c "review_ack" k dg (del_result_id del) now;;
   generation ← query (λ d, t_generation <$> tasks d !! del_task_id del);
   match generation with
   | Some generation => execute (insert_audit (mkAuditRow "RESULT_ACKED" (Some (del_task_id del))
                                   (Some generation) dg now))
   | None => mret tt
   end;;
   bump_mutation_epoch now;;
   mret false) s = (inr r, s') →
  r = false ∧ safe (db s) (db s') ∧ tasks (db s') = tasks (db s) ∧ reviews (db s') = reviews (db s) ∧
  result_outbox (db s') = result_outbox (db s) ∧
  command_dedup (db s') !! (c, "review_ack", k) = Some (mkCommandRow dg (del_result_id del) now).
Proof.
  intros H.
  assert (safe (db s) (db s')) as Hsafe.
  { revert H. generalize dependent s'. revert r s.
    match goal with |- ∀ r s s', ?m s = _ → _ => assert (moves_ok safe m) as Hm by carry end.
    intros r s s' H. by eapply Hm. }
  rewrite bind_ok in H. destruct H as ([] & s1 & H1 & H). unfold store_command in H1.
  rewrite execute_ok in H1. destruct H1 as (d1 & H1 & Hs1). unfold insert_command in H1.
  destruct (negb _) in H1; [|discriminate]. injection H1 as Hd1.
  apply bind_reads_ok in H as (g & _ & H); [|auto with reads].
  rewrite bind_ok in H. destruct H as ([] & s2 & H2 & H).
  assert (tasks (db s2) = tasks (db s1) ∧ reviews (db s2) = reviews (db s1) ∧
          result_outbox (db s2) = result_outbox (db s1) ∧ command_dedup (db s2) = command_dedup (db s1))
    as (Ht2 & Hr2 & Ho2 & Hc2).
  { destruct g as [g|]; [|by apply ret_ok in H2 as [_ <-]].
    rewrite execute_ok in H2. by destruct H2 as (d2 & [= <-] & ->). }
  rewrite bind_ok in H. destruct H as ([] & s3 & H3 & H). unfold bump_mutation_epoch in H3.
  rewrite execute_ok in H3. destruct H3 as (d3 & [= Hd3] & Hs3). apply ret_ok in H as [<- <-].
  split; [done|]. split; [done|]. split_and!; unwind; rewrite ?Ht2, ?Hr2, ?Ho2, ?Hc2; unwind; try done.
  apply lookup_insert_eq.
Qed.

Lemma review_transaction_ok c k dg del v diag now s r s' :
  review_transaction c k dg del v diag now s = (inr r, s') → reviewed c k dg del v diag now s s' r.
Proof.
  unfold review_transaction. rewrite transaction_ok. intros H.
  apply bind_reads_ok in H as (o & Ho & H); [|auto with reads]. apply command_replay_ok in Ho as [_ Ho].
  destruct o as [locator|].
  { destruct Ho as (row & Hrow & Hdg & <-).
    apply bind_reads_ok in H as ([] & Hl & H); [|auto with reads]. apply refuse_if_ok in Hl as [Hl _].
    apply negb_false_iff, String.eqb_eq in Hl.
    apply bind_reads_ok in H as ([] & Hv & H); [|auto with reads]. apply ret_ok in H as [<- <-].
    by eapply review_replayed. }
  apply bind_reads_ok in H as (found & Hfound & H); [|auto with reads]. apply query_ok in Hfound as [-> _].
  apply bind_reads_ok in H as (row & Hrow & H); [|auto with reads]. apply some_or_ok in Hrow as [Hrow _].
  apply bind_reads_ok in H as ([] & Hm & H); [|auto with reads]. apply refuse_if_ok in Hm as [Hm _].
  apply negb_false_iff in Hm.
  pose proof (ack_row_ok _ _ _ _ Hrow) as (_ & Hout & _ & _).
  rewrite bind_ok in H. destruct H as ([] & s1 & H1 & H).
  apply review_close_ok in H as (-> & Hsafe & Ht & Hr & Hob & Hc).
  destruct (bool_decide (is_Some (ob_acked_at (ar_outbox row)))) eqn:Hack.
  - apply refuse_if_ok in H1 as [Hsame ->]. apply negb_false_iff in Hsame.
    eapply review_recorded; try done. by rewrite Hack.
  - eapply record_review_ok in H1 as (Hsafe1 & rid & Hf & Hr1 & Ho1 & Ht1); [|done|].
    + eapply review_recorded; try done; [congruence| |by etrans]. rewrite Hack. exists rid.
      split_and!; congruence.
    + apply bool_decide_eq_false in Hack. by apply eq_None_not_Some.
Qed.

Lemma review_transaction_atomic c k dg del v diag now : atomic (review_transaction c k dg del v diag now).
Proof. apply atomic_transaction. Qed.

Lemma safe_review_transaction c k dg del v diag now : moves safe (review_transaction c k dg del v diag now).
Proof.
  apply moves_atomic; [apply _|apply review_transaction_atomic|]. intros s r s' H.
  apply review_transaction_ok in H. by destruct H as [? ? ? ? -> ?|]; [reflexivity|].
Qed.

Lemma safe_review `{Observer : ReviewObserver, !ReviewObserverOk Observer} c k bytes del v diag now :
  moves safe (review_and_ack c k bytes del v diag now).
Proof.
  unfold review_and_ack. apply moves_bind; [apply _|apply moves_ensure_mutation|]. intros _.
  apply moves_bind; [apply _|moves_leaf|]. intros command.
  apply moves_refuse_if_bind; [apply _|]. intros _.
  apply moves_bind; [apply _|apply safe_review_transaction|]. intros r.
  apply moves_bind; [apply _|apply observer_safe|intros ?; moves_leaf].
Qed.
End operations.
