(* ===== verification/EngineProofs.v ===== *)
(** * The durable improvement engine keeps its promises

    The implementation of the interfaces [ImprovementStore] and [ReviewObserver]
    satisfies their laws: the engine is read from its own tables, and every improvement
    operation keeps the invariant and the ledger of the task tables.  A persisted
    engine is the engine that is loaded. *)

From S2P Require Import Prelude Domain Externals Protocol Scheduler Improvement Schema StoreMonad.
From S2P Require Import Tables Ledger TaskStore Lifecycle Carry TaskProofs Finalize.
From S2P Require Import InteractionStore Review ReviewProofs EngineStore EngineOperations.

Section safety.
Context `{E : Externals} `{!Serde ImprovementEngine}.

#[export] Instance durable_engine_ok : ImprovementStoreOk durable_engine.
Proof.
  intros d d' H. unfold load_improvement_engine, durable_engine, load_engine, verify_improvement_projection.
  by rewrite H.
Qed.

Lemma set_tables_ok f d d' : set_tables f d = Some d' →
  ∃ t, f (improvement d) = Some t ∧ d' = d <| improvement := t |>.
Proof. unfold set_tables. intros (t & Ht & [= <-])%bind_Some. eauto. Qed.

Lemma safe_exec_tables f : moves_ok safe (execute (set_tables f)).
Proof.
  apply safe_execute. intros d d' (t & _ & ->)%set_tables_ok. by apply safe_core.
Qed.

Hint Resolve safe_exec_tables safe_exec_command : safe.

Lemma safe_verify_projection engine : moves_ok safe (verify_projection engine).
Proof. unfold verify_projection. carry. Qed.

Hint Resolve safe_verify_projection : safe.

Lemma safe_persist engine action now command :
  moves safe (persist_improvement_engine engine action now command).
Proof.
  unfold persist_improvement_engine, snapshot_json, persist_candidate, persist_assignment, store_response.
  carry.
Qed.

Lemma safe_persist_command engine command now :
  moves safe (persist_improvement_command_only engine command now).
Proof. unfold persist_improvement_command_only, store_response. carry. Qed.

Lemma safe_load_optional : moves safe load_optional.
Proof. unfold load_optional. carry. Qed.

Lemma safe_load_initialized : moves safe load_initialized.
Proof. unfold load_initialized. apply moves_bind; [apply _|apply safe_load_optional|]. carry. Qed.

Lemma safe_mutate {T} action now (f : ImprovementEngine → T * ImprovementEngine) :
  moves safe (mutate_improvement action now f).
Proof.
  unfold mutate_improvement, validate_improvement_time, snapshot_json.
  apply moves_refuse_if_bind; [apply _|]. intros _.
  apply moves_bind; [apply _|apply moves_ensure_mutation|]. intros _.
  apply moves_bind; [apply _|apply safe_load_initialized|]. intros engine.
  apply moves_bind; [apply _|moves_leaf|]. intros before. destruct (f engine) as [result engine'].
  apply moves_bind; [apply _|moves_leaf|]. intros after.
  apply moves_bind; [apply _| |intros ?; moves_leaf].
  destruct (String.eqb before after); [moves_leaf|apply safe_persist].
Qed.

Lemma safe_ensure_engine policy now : moves safe (ensure_improvement_engine policy now).
Proof.
  unfold ensure_improvement_engine, validate_improvement_time. apply moves_refuse_if_bind; [apply _|]. intros _.
  apply moves_bind; [apply _|apply safe_load_optional|]. intros [engine|]; [carry|].
  apply moves_bind; [apply _|apply moves_ensure_mutation|]. intros _.
  apply moves_bind; [apply _|apply safe_persist|intros ?; moves_leaf].
Qed.

Lemma safe_ensure_default_engine now : moves safe (ensure_default_improvement_engine now).
Proof.
  unfold ensure_default_improvement_engine, validate_improvement_time.
  apply moves_refuse_if_bind; [apply _|]. intros _.
  apply moves_bind; [apply _|apply safe_load_optional|]. intros [engine|]; [moves_leaf|].
  apply moves_bind; [apply _|apply moves_ensure_mutation|]. intros _. apply safe_persist.
Qed.

Lemma reads_response_replay {T} `{!Serde T} c m k dg loc :
  reads (improvement_command_replay (T:=T) c m k dg loc).
Proof. unfold improvement_command_replay. repeat reads_step. Qed.

Lemma safe_command {T} `{!Serde T} c m k bytes loc action now
    (f : ImprovementEngine → (StorageError + T) * ImprovementEngine) :
  moves safe (improvement_command c m k bytes loc action now f).
Proof.
  unfold improvement_command, validate_improvement_time, snapshot_json.
  do 2 (apply moves_refuse_if_bind; [apply _|]; intros _). cbv zeta.
  apply moves_bind; [apply _|intros s; rewrite reads_response_replay; reflexivity|].
  intros [value|]; [moves_leaf|].
  apply moves_bind; [apply _|apply moves_ensure_mutation|]. intros _.
  apply moves_bind; [apply _|apply safe_load_initialized|]. intros engine.
  apply moves_bind; [apply _|moves_leaf|]. intros before. destruct (f engine) as [outcome engine'].
  apply moves_bind; [apply _|destruct outcome; moves_leaf|]. intros result.
  do 2 (apply moves_bind; [apply _|moves_leaf|]; intros ?). cbv zeta.
  apply moves_bind; [apply _| |intros ?; moves_leaf].
  destruct (String.eqb _ _); [apply safe_persist_command|apply safe_persist].
Qed.

Lemma safe_canonical_command v bytes : moves safe (canonical_command_is v bytes).
Proof. unfold canonical_command_is. carry. Qed.

Lemma safe_propose_command `{!Serde CandidateCommandResult} c k bytes proposal now :
  moves safe (improvement_propose_command c k bytes proposal now).
Proof.
  unfold improvement_propose_command, validate_improvement_propose_command.
  apply moves_bind; [apply _|apply safe_canonical_command|intros ?; apply safe_command].
Qed.

Lemma safe_rollback_command `{!Serde RollbackCommandResult} c k bytes id target now :
  moves safe (improvement_rollback_command c k bytes id target now).
Proof.
  unfold improvement_rollback_command, validate_improvement_rollback_command.
  apply moves_bind; [apply _|apply safe_canonical_command|intros ?; apply safe_command].
Qed.

#[export] Instance durable_observer_ok : ReviewObserverOk durable_observer.
Proof.
  intros del v diag now. unfold record_review_observation, durable_observer, observe_review.
  apply moves_bind; [apply _|apply safe_load_optional|]. intros [engine|]; [|moves_leaf].
  destruct (negb _); [moves_leaf|]. apply moves_bind; [apply _|moves_leaf|]. intros [[t a]|]; [|moves_leaf].
  destruct (_ || _); [moves_leaf|].
  do 3 (apply moves_bind; [apply _|moves_leaf|]; intros ?).
  apply moves_bind; [apply _|apply safe_mutate|intros ?; moves_leaf].
Qed.
End safety.

(** ** Atomicity *)

Section atomicity.
Context `{E : Externals} `{!Serde ImprovementEngine}.

Lemma reads_snapshot_json engine : reads (snapshot_json engine).
Proof. unfold snapshot_json. auto with reads. Qed.

Lemma load_optional_ok s o s' : load_optional s = (inr o, s') → load_engine (db s) = inr o ∧ s' = s.
Proof.
  unfold load_optional. intros H. apply bind_reads_ok in H as (l & Hl & H); [|auto with reads].
  apply query_ok in Hl as [-> _]. destruct (load_engine (db s)) as [e|x].
  - by apply fail_ok in H.
  - by apply ret_ok in H as [-> ->].
Qed.

Lemma reads_load_optional : reads load_optional.
Proof. unfold load_optional. repeat reads_step. Qed.

Lemma load_initialized_ok s engine s' :
  load_initialized s = (inr engine, s') → load_engine (db s) = inr (Some engine) ∧ s' = s.
Proof.
  unfold load_initialized. intros H. apply bind_reads_ok in H as (o & Ho & H); [|apply reads_load_optional].
  apply load_optional_ok in Ho as [Ho _]. apply some_or_ok in H as [-> ->]. done.
Qed.

Lemma reads_load_initialized : reads load_initialized.
Proof. unfold load_initialized. apply reads_bind; [apply reads_load_optional|auto with reads]. Qed.

Lemma persist_atomic engine action now command : atomic (persist_improvement_engine engine action now command).
Proof.
  unfold persist_improvement_engine. apply atomic_bind; [apply reads_snapshot_json|].
  intros text. apply atomic_transaction.
Qed.

Lemma atomic_then {A B} (m : M A) (g : A → B) : atomic m → atomic (a ← m; mret (g a)).
Proof.
  intros Hm s e s'. unfold mbind, M_bind. destruct (m s) as [[e1|a] s1] eqn:Heq; [|done].
  intros [= -> ->]. by eapply Hm.
Qed.

Lemma mutate_atomic {T} action now (f : ImprovementEngine → T * ImprovementEngine) :
  atomic (mutate_improvement action now f).
Proof.
  unfold mutate_improvement, validate_improvement_time. apply atomic_bind; [auto with reads|]. intros _.
  apply atomic_bind; [apply reads_ensure_mutation|]. intros _.
  apply atomic_bind; [apply reads_load_initialized|]. intros engine.
  apply atomic_bind; [apply reads_snapshot_json|]. intros before. destruct (f engine) as [result engine'].
  apply atomic_bind; [apply reads_snapshot_json|]. intros after.
  apply (atomic_then _ (λ _, result)). destruct (String.eqb before after); [|apply persist_atomic].
  apply reads_atomic. auto with reads.
Qed.

Lemma ensure_engine_atomic policy now : atomic (ensure_improvement_engine policy now).
Proof.
  unfold ensure_improvement_engine, validate_improvement_time. apply atomic_bind; [auto with reads|]. intros _.
  apply atomic_bind; [apply reads_load_optional|]. intros [engine|].
  - apply reads_atomic. repeat reads_step.
  - apply atomic_bind; [apply reads_ensure_mutation|]. intros _.
    apply (atomic_then _ (λ _, new_engine policy)). apply persist_atomic.
Qed.

Lemma ensure_default_engine_atomic now : atomic (ensure_default_improvement_engine now).
Proof.
  unfold ensure_default_improvement_engine, validate_improvement_time.
  apply atomic_bind; [auto with reads|]. intros _.
  apply atomic_bind; [apply reads_load_optional|]. intros [engine|]; [apply reads_atomic; auto with reads|].
  apply atomic_bind; [apply reads_ensure_mutation|]. intros _. apply persist_atomic.
Qed.

Lemma command_atomic {T} `{!Serde T} c m k bytes loc action now
    (f : ImprovementEngine → (StorageError + T) * ImprovementEngine) :
  atomic (improvement_command c m k bytes loc action now f).
Proof.
  unfold improvement_command, validate_improvement_time.
  do 2 (apply atomic_bind; [auto with reads|]; intros _). cbv zeta.
  apply atomic_bind; [apply reads_response_replay|]. intros [value|]; [apply reads_atomic; auto with reads|].
  apply atomic_bind; [apply reads_ensure_mutation|]. intros _.
  apply atomic_bind; [apply reads_load_initialized|]. intros engine.
  apply atomic_bind; [apply reads_snapshot_json|]. intros before. destruct (f engine) as [outcome engine'].
  apply atomic_bind; [destruct outcome; auto with reads|]. intros result.
  apply atomic_bind; [auto with reads|]. intros json.
  apply atomic_bind; [apply reads_snapshot_json|]. intros after.
  apply (atomic_then _ (λ _, result)).
  destruct (String.eqb before after); [apply atomic_transaction|apply persist_atomic].
Qed.

Lemma reads_canonical_command v bytes : reads (canonical_command_is v bytes).
Proof. unfold canonical_command_is. repeat reads_step. Qed.

Lemma propose_command_atomic `{!Serde CandidateCommandResult} c k bytes proposal now :
  atomic (improvement_propose_command c k bytes proposal now).
Proof. apply atomic_bind; [apply reads_canonical_command|intros ?; apply command_atomic]. Qed.

Lemma rollback_command_atomic `{!Serde RollbackCommandResult} c k bytes id target now :
  atomic (improvement_rollback_command c k bytes id target now).
Proof. apply atomic_bind; [apply reads_canonical_command|intros ?; apply command_atomic]. Qed.
End atomicity.

(** ** Loading what was persisted *)

Section persistence.
Context `{E : Externals} `{!ExternalsOk E} `{!Serde ImprovementEngine} `{!SerdeOk ImprovementEngine}.

Lemma snapshot_json_ok engine s text s' :
  snapshot_json engine s = (inr text, s') → to_json engine = Some text ∧ s' = s.
Proof. unfold snapshot_json. intros H. apply some_or_ok in H as [H ->]. done. Qed.

Lemma to_json_inj (a b : ImprovementEngine) text : to_json a = Some text → to_json b = Some text → a = b.
Proof. intros Ha%from_to_json Hb%from_to_json. congruence. Qed.

(** A row with the engine's snapshot and a projection that agrees is the durable engine. *)
Lemma load_engine_ok d engine text digest revision created updated :
  improvement_engine_state (improvement d) = Some (mkEngineStateRow revision text digest created updated) →
  1 ≤ revision → to_json engine = Some text → digest = hash_bytes text →
  verify_improvement_projection engine d = inr tt → load_engine d = inr (Some engine).
Proof.
  intros Hrow Hrev Hjson -> Hv. unfold load_engine. rewrite Hrow. simpl.
  assert (hash_bytes text = sha256_hex text) as -> by done. rewrite sha256_hex_is_lower, String.eqb_refl.
  destruct (Z.ltb_spec revision 1); [lia|]. simpl. by rewrite (from_to_json _ _ Hjson), Hv.
Qed.

Lemma verify_projection_ok engine s s' :
  verify_projection engine s = (inr tt, s') → s' = s ∧ verify_improvement_projection engine (db s) = inr tt.
Proof.
  unfold verify_projection. intros H. apply bind_reads_ok in H as (checked & Hc & H); [|auto with reads].
  apply query_ok in Hc as [-> _]. destruct (verify_improvement_projection engine (db s)) as [e|[]].
  - by apply fail_ok in H.
  - by apply ret_ok in H as [_ ->].
Qed.

Lemma store_response_ok command now s s' :
  store_response command now s = (inr tt, s') →
  improvement (db s') = improvement (db s) ∧
  command_dedup (db s') !! (cc_consumer_id command, cc_method command, cc_command_key command)
    = Some (mkCommand (cc_request_digest command) (cc_response_locator command) now
              (Some (cc_response_json command)) (Some (hash_bytes (cc_response_json command)))).
Proof.
  unfold store_response. rewrite execute_ok. intros (d & H & ->). unfold insert_command in H.
  destruct (negb _); [|done]. injection H as <-. split; [done|]. apply lookup_insert_eq.
Qed.

(** What a transaction that ends with the verification and the epoch has established. *)
Lemma verified_ok engine now s s' :
  (verify_projection engine;; bump_mutation_epoch now) s = (inr tt, s') →
  improvement (db s') = improvement (db s) ∧ command_dedup (db s') = command_dedup (db s) ∧
  verify_improvement_projection engine (db s') = inr tt.
Proof.
  intros H. apply bind_ok in H as ([] & s1 & H1 & H). apply verify_projection_ok in H1 as [-> Hv].
  unfold bump_mutation_epoch in H. apply execute_ok in H as (d & [= <-] & ->). done.
Qed.

(** The commands of a transaction, stored or not. *)
Definition stored (command : option CommandCommit) (now : Z) (d : Db) : Prop :=
  match command with
  | None => True
  | Some command =>
      command_dedup d !! (cc_consumer_id command, cc_method command, cc_command_key command)
      = Some (mkCommand (cc_request_digest command) (cc_response_locator command) now
                (Some (cc_response_json command)) (Some (hash_bytes (cc_response_json command))))
  end.

Lemma persist_ok engine action now command s s' :
  persist_improvement_engine engine action now command s = (inr tt, s') →
  load_engine (db s') = inr (Some engine) ∧ stored command now (db s').
Proof.
  unfold persist_improvement_engine. intros H.
  apply bind_reads_ok in H as (text & Ht & H); [|apply reads_snapshot_json].
  apply snapshot_json_ok in Ht as [Ht _]. cbv zeta in H. rewrite transaction_ok in H.
  apply bind_reads_ok in H as (current & _ & H); [|auto with reads].
  apply bind_reads_ok in H as (revision & _ & H); [|auto with reads].
  do 5 (apply bind_ok in H as ([] & ? & _ & H)).
  apply bind_ok in H as ([] & s1 & H1 & H). apply bind_ok in H as ([] & s2 & H2 & H).
  apply bind_ok in H as ([] & s3 & H3 & H). apply verified_ok in H as (Hi & Hc & Hv).
  apply execute_ok in H1 as (d1 & (t1 & Hu & ->)%set_tables_ok & ->).
  apply execute_ok in H2 as (d2 & (t2 & Hu2 & ->)%set_tables_ok & ->).
  assert (improvement (db s3) = t2 ∧ stored command now (db s3)) as [Hi3 Hst].
  { destruct command as [command|]; [|by apply ret_ok in H3 as [_ <-]].
    apply store_response_ok in H3 as [Hi3 Hst]. done. }
  split; [|destruct command; [|done]; simpl in *; by rewrite Hc].
  simpl in Hu2. unfold insert_improvement_audit in Hu2. destruct (_ && _) in Hu2; [|done]. injection Hu2 as <-.
  unfold upsert_engine_state in Hu. destruct (_ && _) eqn:Hg in Hu; [|done]. injection Hu as <-.
  split_bools. eapply load_engine_ok; [rewrite Hi, Hi3; simpl; reflexivity|lia|done|done|done].
Qed.
End persistence.
