(* ===== verification/Samples.v ===== *)
(** * A concrete run of the storage

    The witnesses of the storage properties start from the states of one small run:
    a task is submitted, a slot is claimed for it, an interaction is opened and
    answered, the task is finalized. *)

From S2P Require Import Prelude Domain Externals SampleExternals Protocol Scheduler Improvement.
From S2P Require Import Schema StoreMonad Tables TaskStore Lifecycle InteractionStore Review.
From S2P Require Import EngineStore EngineOperations SampleSerde.

Definition sample_start : Storage :=
  mkStorage empty_db None EmNormal (mkFsView (Some 0) (Some 0) (Some 1000000000)) 0.

Definition sample_adapter : string := "claude:a:default:" +:+ hash_bytes "adapter".

Definition sample_spec : AttemptSpec :=
  mkSpec "READ_ONLY" "ENFORCED" "SAFE_PRE_DISPATCH" sample_adapter "1.0" 1 (hash_bytes "config") None.

Definition sample_limits : SchedulerLimits := mkSchedulerLimits 2 1.

(** The state after a run that succeeds; the start state when it does not. *)
Definition after {A} (m : M A) (s : Storage) : Storage := (m s).2.

Lemma run_after {A} (m : M A) s r : (m s).1 = r → m s = (r, after m s).
Proof. unfold after. intros <-. by destruct (m s). Qed.

Definition sample_queued : Storage :=
  after (submit_with_request "consumer" "submit" "k1" "{}" "t1" None 5 (Some sample_adapter) 1000) sample_start.

Definition sample_preparing : Storage :=
  after (claim_dispatch_slot "claim-1" "t1" 0 sample_spec sample_limits 2000) sample_queued.

Definition sample_attempt : string := "uuid-1".

Definition sample_waiting : Storage :=
  after (open_interaction "open-1" "t1" sample_attempt 0 (hash_bytes "op") (hash_bytes "policy")
           (hash_bytes "config") Approval 1 1 9000 3000) sample_preparing.

(** The canonical bytes of a JSON value under the sample encoding. *)
Definition canonical_bytes (v : Value) : string :=
  match canonicalize v with inr text => text | inl _ => "" end.

Definition sample_interaction_id : string := "uuid-3".

Definition sample_nonce : string :=
  match pending_interactions (db sample_waiting) !! sample_interaction_id with
  | Some i => i_nonce i
  | None => ""
  end.

Definition sample_response : string := canonical_bytes (json_object [("kind", VString "approve")]).

Definition sample_command (command_key : string) : string :=
  canonical_bytes (json_object
    [("version", VNumber (NInt 1)); ("kind", VString "command");
     ("action", VString "interaction_response"); ("command_key", VString command_key);
     ("task_id", VString "t1"); ("interaction_id", VString sample_interaction_id);
     ("generation", VNumber (NInt 0)); ("operation_digest", VString (hash_bytes "op"));
     ("policy_digest", VString (hash_bytes "policy")); ("config_digest", VString (hash_bytes "config"));
     ("nonce", VString sample_nonce); ("response", json_object [("kind", VString "approve")])]).

Definition sample_respond (command_key : string) (now : Z) : M bool :=
  respond_interaction "consumer" command_key (sample_command command_key) sample_interaction_id
    sample_nonce 0 (hash_bytes "op") (hash_bytes "policy") (hash_bytes "config") Approve sample_response now.

Definition sample_answered : Storage := after (sample_respond "r1" 4000) sample_waiting.

(** The task is handed to finalization and finalized. *)
Definition sample_finalizing : Storage :=
  after (transition "finalizing-1" "t1" 0 ["PREPARING"] "FINALIZING" 5000) sample_preparing.

Notation sample_finalize now :=
  (finalize "consumer" "f1" (hash_bytes "finalize") "t1" 0 "SUCCEEDED" (hash_bytes "result") now).

Definition sample_done : Storage := after (sample_finalize 6000) sample_finalizing.

Definition sample_delivery : ResultDelivery :=
  match (sample_finalize 6000 sample_finalizing).1 with
  | inr delivery => delivery
  | inl _ => mkDelivery "" "" 0 "" 0 ""
  end.

Definition sample_review_command (command_key : string) : string :=
  canonical_bytes (json_object
    [("version", VNumber (NInt 1)); ("kind", VString "command"); ("action", VString "review_ack");
     ("command_key", VString command_key); ("task_id", VString "t1");
     ("result_id", VString (del_result_id sample_delivery)); ("result_version", VNumber (NInt 1));
     ("ack_token", VString (del_ack_token sample_delivery)); ("verdict", VString (ReviewVerdict.as_str Accepted))]).

(** A second task in the queue while the first occupies a slot. *)
Definition sample_two_tasks : Storage :=
  after (submit_with_request "consumer" "submit" "k2" "[]" "t2" None 5 (Some sample_adapter) 2500) sample_preparing.

Definition sample_blocked_claim : M DispatchOutcome :=
  claim_dispatch_slot "claim-2" "t2" 0 sample_spec sample_limits 3000.

(** ** The run *)

Lemma sample_submit_runs :
  submit_with_request "consumer" "submit" "k1" "{}" "t1" None 5 (Some sample_adapter) 1000 sample_start =
  (inr (mkSubmission "t1" false), sample_queued).
Proof. unfold sample_queued. refine (run_after _ _ (inr _) _). vm_compute. reflexivity. Qed.

Lemma sample_claim_runs :
  claim_dispatch_slot "claim-1" "t1" 0 sample_spec sample_limits 2000 sample_queued =
  (inr (Dispatched (mkAttempt sample_attempt "t1" 0 1)), sample_preparing).
Proof. unfold sample_preparing. refine (run_after _ _ (inr _) _). vm_compute. reflexivity. Qed.

Lemma sample_blocked_runs :
  sample_blocked_claim sample_two_tasks =
  (inr (Blocked (mkBlocked AdapterLimit 2 1 1 1 sample_adapter)),
   after sample_blocked_claim sample_two_tasks).
Proof. refine (run_after _ _ (inr _) _). vm_compute. reflexivity. Qed.

Lemma sample_respond_runs : sample_respond "r1" 4000 sample_waiting = (inr false, sample_answered).
Proof. unfold sample_answered. refine (run_after _ _ (inr _) _). vm_compute. reflexivity. Qed.

Lemma sample_finalize_runs :
  sample_finalize 6000 sample_finalizing = (inr sample_delivery, sample_done).
Proof. unfold sample_done. refine (run_after _ _ (inr _) _). vm_compute. reflexivity. Qed.
