(* ===== verification/Slots.v ===== *)
(** * Dispatch slots

    How many attempts hold a slot, that [read_occupancy] counts them, and that a
    claim takes exactly one within the limits. *)

From S2P Require Import Prelude Domain Externals SampleExternals Protocol Scheduler Improvement.
From S2P Require Import Schema StoreMonad Tables TaskStore Lifecycle InteractionStore Review.
From S2P Require Import EngineStore EngineOperations SampleSerde Ledger Carry TaskProofs.
From S2P Require Import ReviewProofs EngineProofs Samples.

(** The slots taken, in total and of one adapter. *)
Definition slots (d : Db) : Z := Z.of_nat (length (occupying d)).

Definition slots_of (adapter : string) (d : Db) : Z :=
  Z.of_nat (length (List.filter (λ kv, String.eqb (a_adapter_instance_id kv.2) adapter) (occupying d))).

(** ** Counting *)

Definition total (m : gmap string Z) : Z := List.fold_left Z.add (map_to_list m).*2 0.

Lemma fold_add_perm l l' z : l ≡ₚ l' → List.fold_left Z.add l z = List.fold_left Z.add l' z.
Proof.
  intros Hp. revert z. induction Hp as [|x l l' _ IH|x y l|l1 l2 l3 _ IH1 _ IH2]; intros z; simpl.
  - done.
  - apply IH.
  - f_equal. lia.
  - by rewrite IH1.
Qed.

Lemma fold_add_start l z : List.fold_left Z.add l z = z + List.fold_left Z.add l 0.
Proof.
  revert z. induction l as [|x l IH]; intros z; cbn [List.fold_left]; [lia|].
  rewrite (IH (z + x)), (IH (0 + x)). lia.
Qed.

Lemma total_insert_fresh m k v : m !! k = None → total (<[k := v]> m) = v + total m.
Proof.
  intros Hk. unfold total. rewrite (fold_add_perm _ ((k, v) :: map_to_list m).*2).
  - simpl. by rewrite fold_add_start.
  - by rewrite map_to_list_insert.
Qed.

Definition increment (counts : gmap string Z) (k : string) : gmap string Z :=
  partial_alter (λ n, Some (default 0 n + 1)) k counts.

Lemma increment_insert m k : increment m k = <[k := default 0 (m !! k) + 1]> m.
Proof.
  apply map_eq. intros i. unfold increment. destruct (decide (k = i)) as [<-|].
  - by rewrite lookup_partial_alter_eq, lookup_insert_eq.
  - by rewrite lookup_partial_alter_ne, lookup_insert_ne.
Qed.

Lemma total_increment m k : total (increment m k) = total m + 1.
Proof.
  rewrite increment_insert. destruct (m !! k) as [n|] eqn:Hk; simpl.
  - rewrite <-insert_delete_eq, total_insert_fresh by apply lookup_delete_eq.
    rewrite <-(insert_delete_id m k n Hk) at 2. rewrite total_insert_fresh by apply lookup_delete_eq. lia.
  - rewrite total_insert_fresh by done. lia.
Qed.

Definition count_of (k : string) (l : list string) : Z := Z.of_nat (length (List.filter (String.eqb k) l)).

Lemma counts_spec l m :
  total (List.fold_left increment l m) = total m + Z.of_nat (length l) ∧
  ∀ k, default 0 (List.fold_left increment l m !! k) = default 0 (m !! k) + count_of k l.
Proof.
  revert m. induction l as [|x l IH]; intros m; simpl.
  - split; [lia|]. intros k. unfold count_of. simpl. lia.
  - destruct (IH (increment m x)) as [Ht Hk]. split; [rewrite Ht, total_increment; lia|].
    intros k. rewrite Hk, increment_insert. unfold count_of. simpl.
    destruct (String.eqb_spec k x) as [->|Hne]; simpl.
    + rewrite lookup_insert_eq. simpl. lia.
    + rewrite lookup_insert_ne by done. done.
Qed.

Lemma fold_left_map {A B C} (f : C → B → C) (g : A → B) l c :
  List.fold_left (λ c x, f c (g x)) l c = List.fold_left f (map g l) c.
Proof. revert c. induction l as [|x l IH]; intros c; simpl; [done|apply IH]. Qed.

Lemma count_of_map {A} (g : A → string) k l :
  count_of k (map g l) = Z.of_nat (length (List.filter (λ x, String.eqb (g x) k) l)).
Proof.
  unfold count_of. f_equal. induction l as [|x l IH]; simpl; [done|].
  rewrite (String.eqb_sym k). destruct (String.eqb (g x) k); simpl; by rewrite IH.
Qed.

Lemma read_occupancy_ok s occ s' :
  read_occupancy s = (inr occ, s') →
  s' = s ∧ occ_global occ = slots (db s) ∧ ∀ a, occupied occ a = slots_of a (db s).
Proof.
  unfold read_occupancy. intros H.
  apply bind_reads_ok in H as (rows & Hrows & H); [|auto with reads]. apply query_ok in Hrows as [-> _].
  apply bind_reads_ok in H as ([] & _ & H); [|auto with reads]. cbv zeta in H.
  apply bind_reads_ok in H as ([] & _ & H); [|auto with reads]. apply ret_ok in H as [<- ->].
  split; [done|]. simpl. unfold occupancy_rows. fold (total (List.fold_left
    (λ counts kv, partial_alter (λ n, Some (default 0 n + 1)) (a_adapter_instance_id kv.2) counts)
    (occupying (db s')) ∅)).
  rewrite (fold_left_map increment (λ kv : string * AttemptRow, a_adapter_instance_id kv.2)).
  destruct (counts_spec (map (λ kv, a_adapter_instance_id kv.2) (occupying (db s'))) ∅) as [Ht Hk].
  split.
  - rewrite Ht, length_map. unfold slots. unfold total. by rewrite map_to_list_empty.
  - intros a. unfold occupied. simpl. rewrite Hk, lookup_empty, count_of_map. simpl. unfold slots_of. lia.
Qed.

(** ** A claim takes one slot *)

Section claims.
Context `{E : Externals} `{Store : ImprovementStore}.

Lemma select_insert {K A} `{Countable K} (p q : K → A → bool) (m : gmap K A) k a :
  m !! k = None → (∀ i x, m !! i = Some x → q i x = p i x) →
  select q (<[k := a]> m) ≡ₚ (if q k a then [(k, a)] else []) ++ select p m.
Proof.
  intros Hk Hpq. unfold select. rewrite map_to_list_insert, filter_cons by done. simpl.
  assert (filter (λ kv, q kv.1 kv.2 = true) (map_to_list m) =
          filter (λ kv, p kv.1 kv.2 = true) (map_to_list m)) as ->.
  { assert (∀ kv, kv ∈ map_to_list m → q kv.1 kv.2 = p kv.1 kv.2) as Hin.
    { intros [i x] Hx%elem_of_map_to_list. by apply Hpq. }
    revert Hin. generalize (map_to_list m). intros l Hin.
    induction l as [|kv l IH]; [done|]. rewrite !filter_cons.
    rewrite (Hin kv) by set_solver. rewrite IH by set_solver. by destruct (decide _). }
  destruct (decide _) as [->|Hn]; [done|]. apply not_true_iff_false in Hn. by rewrite Hn.
Qed.

Lemma filter_length_perm {A} (p : A → bool) l l' :
  l ≡ₚ l' → length (List.filter p l) = length (List.filter p l').
Proof.
  induction 1 as [|x l l' _ IH|x y l|l1 l2 l3 _ IH1 _ IH2]; simpl; try done.
  - destruct (p x); simpl; congruence.
  - by destruct (p x), (p y).
  - congruence.
Qed.

(** The reservation adds the new attempt to the occupying ones, and nothing else. *)
Lemma reserve_occupying op dg id g spec now s out s' t :
  db_ok (db s) → tasks (db s) !! id = Some t → t_generation t = g → claim_ready t now = true →
  (t_adapter_instance_id t = "" ∨ t_adapter_instance_id t = adapter_instance_id spec) →
  reserve_slot op dg id g spec now s = (inr out, s') →
  ∃ aid ordinal, out = Dispatched (mkAttempt aid id g ordinal) ∧
    attempts (db s) !! aid = None ∧
    attempts (db s') !! aid = Some (new_attempt_row id g ordinal spec now) ∧
    occupying (db s') ≡ₚ (aid, new_attempt_row id g ordinal spec now) :: occupying (db s).
Proof.
  intros Hok Ht Hg Hready Had H.
  pose proof (safe_reserve _ _ _ _ _ _ _ _ _ _ Ht Hg Had H Hok) as [Hok' _].
  apply (reserve_ok _ _ _ _ _ _ _ _ _ t) in H
    as (aid & ordinal & t' & -> & Hfresh & Hatt & Htask & Hst & Hg' & _); [|done..].
  exists aid, ordinal. split; [done|]. split; [done|]. split; [by rewrite Hatt, lookup_insert_eq|].
  unfold occupying. rewrite Hatt. rewrite (select_insert (λ _ a, holds_slot (db s) a)); [|done|].
  - unfold holds_slot at 1. simpl. rewrite Htask, lookup_insert_eq, Hg', Z.eqb_refl, Hst.
    by rewrite bool_decide_true by set_solver.
  - intros k a Ha. unfold holds_slot. rewrite Htask.
    destruct (decide (id = a_task_id a)) as [Heq|Hne]; [|by rewrite lookup_insert_ne].
    rewrite <-Heq, lookup_insert_eq, Ht, Hg'.
    assert (bool_decide (t_state t ∈ [Preparing; Running; Finalizing; CancelRequested]) = false ∧
            bool_decide (t_state t = WaitingApproval) = false) as [-> ->].
    { unfold claim_ready in Hready. by destruct (t_state t). }
    rewrite andb_false_r. destruct (Z.eqb_spec g (a_generation a)) as [Hga|]; [|done]. exfalso.
    assert (k = aid); [|congruence].
    eapply (ok_attempt_unique _ Hok'); [rewrite Hatt| |..].
    + rewrite lookup_insert_ne; [exact Ha|congruence].
    + rewrite Hatt. apply lookup_insert_eq.
    + done.
    + done.
Qed.

Lemma slots_cons d d' aid a : occupying d' ≡ₚ (aid, a) :: occupying d →
  slots d' = slots d + 1 ∧
  ∀ adapter, slots_of adapter d' =
    slots_of adapter d + (if String.eqb (a_adapter_instance_id a) adapter then 1 else 0).
Proof.
  intros Hp. unfold slots, slots_of. split; [rewrite Hp; simpl; lia|]. intros adapter.
  rewrite (filter_length_perm _ _ _ Hp). simpl. destruct (String.eqb _ _); simpl; lia.
Qed.
End claims.

Lemma after_safe `{Externals} {A} (m : M A) s :
  moves safe m → db_ok (db s) → db_ok (db (after m s)) ∧ ledger (db s) (db (after m s)).
Proof. intros Hm Hok. exact (Hm s Hok). Qed.

Lemma sample_start_ok : db_ok (db sample_start).
Proof. exact empty_db_ok. Qed.

Lemma sample_queued_ok : db_ok (db sample_queued).
Proof.
  refine (proj1 (after_safe _ sample_start _ sample_start_ok)).
  unfold submit_with_request. apply moves_refuse_if_bind; [apply _|]. intros _. apply safe_submit_inner.
Qed.

Lemma sample_claim_later : ledger (db sample_queued) (db sample_preparing).
Proof. exact (proj2 (after_safe _ sample_queued (safe_claim _ _ _ _ _ _) sample_queued_ok)). Qed.
