(* ===== verification/Integrity.v ===== *)
(** * The integrity check accepts exactly the sound stores *)

From S2P Require Import Prelude Domain Externals SampleExternals Protocol Scheduler Improvement.
From S2P Require Import Schema StoreMonad Tables TaskStore Lifecycle InteractionStore Recovery.
From S2P Require Import Ledger Carry TaskProofs.

Section integrity.
Context `{E : Externals}.

(** What the check establishes of one terminal task: exactly one result, one outbox row and
    one terminal event, and the three name each other. *)
Record tuple_sound (d : Db) (id : string) (t : Task) : Prop := {
  ts_result : ∃ r, results d !! id = Some r ∧ Some (res_terminal_event_seq r) = t_terminal_event_seq t ∧
    (∃ c o, outbox_of d id = [((c, id), o)] ∧ ob_result_id o = res_result_id r ∧
       ob_terminal_event_seq o = res_terminal_event_seq r) ∧
    (∃ e value object, events_at d id (t_terminal_event_seq t) = [e] ∧ e_kind e = "terminal" ∧
       json_from_str (e_payload e) = Some value ∧ as_object value = Some object ∧ length object = 2%nat ∧
       (assoc "state" object ≫= as_str) = Some (TaskState.as_str (t_state t)) ∧
       (assoc "result_id" object ≫= as_str) = Some (res_result_id r));
}.

Lemma outbox_of_key d id k o : (k, o) ∈ outbox_of d id → k.2 = id ∧ result_outbox d !! k = Some o.
Proof. unfold outbox_of. rewrite select_elem, String.eqb_eq. tauto. Qed.

Lemma for_each_ok {A} (l : list A) (body : A → M unit) s :
  (∀ x, x ∈ l → body x s = (inr tt, s)) → for_each l body s = (inr tt, s).
Proof.
  induction l as [|x l IH]; intros Hl; [done|]. cbn [for_each].
  erewrite run_bind by (apply Hl; set_solver). apply IH. intros y Hy. apply Hl. set_solver.
Qed.

Lemma for_each_reads {A} (l : list A) (body : A → M unit) s s' x :
  (∀ y, reads (body y)) → for_each l body s = (inr tt, s') → x ∈ l → body x s = (inr tt, s).
Proof.
  intros Hb. induction l as [|y l IH]; intros H Hx; [set_solver|]. cbn [for_each] in H.
  apply bind_reads_ok in H as ([] & Hy & H); [|done].
  apply elem_of_cons in Hx as [->|Hx]; [done|by apply IH].
Qed.

Lemma reads_verify_row row : reads (verify_terminal_row row).
Proof. destruct row as [[[[id t] r] o] e]. unfold verify_terminal_row. repeat reads_step. Qed.

Lemma reads_integrity_check quick : reads (integrity_check quick).
Proof. unfold integrity_check. repeat reads_step. apply reads_verify_row. Qed.

Lemma terminal_tasks_elem d id t :
  (id, t) ∈ terminal_tasks d ↔ tasks d !! id = Some t ∧ TaskState.is_terminal (t_state t) = true.
Proof. apply select_elem. Qed.

Lemma terminal_rows_elem d id t r o e :
  (id, t, r, o, e) ∈ terminal_rows d ↔
  (id, t) ∈ terminal_tasks d ∧ results d !! id = Some r ∧ (∃ k, (k, o) ∈ outbox_of d id) ∧
  e ∈ events_at d id (t_terminal_event_seq t).
Proof.
  unfold terminal_rows. rewrite list_elem_of_bind. split.
  - intros ([id' t'] & Hin & Ht). destruct (results d !! id') as [r'|] eqn:Hr; [|set_solver].
    apply list_elem_of_bind in Hin as ([k o'] & Hin & Ho). apply list_elem_of_bind in Hin as (e' & Hin & He).
    apply list_elem_of_singleton in Hin. simplify_eq. eauto 10.
  - intros (Ht & Hr & [k Ho] & He). exists (id, t). split; [|done]. cbv beta iota. rewrite Hr.
    apply list_elem_of_bind. exists (k, o). split; [|done]. cbv beta iota.
    apply list_elem_of_bind. exists e. split; [|done]. by apply list_elem_of_singleton.
Qed.

Lemma verify_row_ok id t r o e s s' :
  verify_terminal_row (id, t, r, o, e) s = (inr tt, s') ↔
  s' = s ∧ ∃ value object, json_from_str (e_payload e) = Some value ∧ as_object value = Some object ∧
    e_kind e = "terminal" ∧ length object = 2%nat ∧
    (assoc "state" object ≫= as_str) = Some (TaskState.as_str (t_state t)) ∧
    (assoc "result_id" object ≫= as_str) = Some (res_result_id r) ∧
    Some (res_terminal_event_seq r) = t_terminal_event_seq t ∧
    Some (ob_terminal_event_seq o) = t_terminal_event_seq t ∧ ob_result_id o = res_result_id r.
Proof.
  unfold verify_terminal_row. split.
  - intros H. apply bind_reads_ok in H as (value & Hv & H); [|auto with reads].
    apply some_or_ok in Hv as [Hv _].
    apply bind_reads_ok in H as (object & Ho & H); [|auto with reads]. apply some_or_ok in Ho as [Ho _].
    apply refuse_if_ok in H as [H ->]. split_bools.
    rename select (Nat.eqb _ _ = true) into Hl. apply Nat.eqb_eq in Hl.
    split; [done|]. exists value, object. done.
  - intros (-> & value & object & Hv & Ho & Hk & Hl & Hs & Hr & Hrs & Hos & Hor).
    erewrite run_some_or by exact Hv. erewrite run_some_or by exact Ho.
    apply refuse_if_ok. split; [|done].
    rewrite !orb_false_iff, !negb_false_iff, !bool_decide_eq_true, !String.eqb_eq, Nat.eqb_eq. done.
Qed.

Lemma tuple_complete_true d id t :
  tuple_complete d (id, t) = true ↔ is_Some (results d !! id) ∧
    (∃ k o, outbox_of d id = [(k, o)]) ∧ (∃ e, events_at d id (t_terminal_event_seq t) = [e]).
Proof.
  unfold tuple_complete, has_row. simpl. rewrite !andb_true_iff, !Nat.eqb_eq, bool_decide_eq_true.
  split.
  - intros [[Hr Ho] He]. split; [done|]. split.
    + destruct (outbox_of d id) as [|[k o] [|]]; [done| |done]. eauto.
    + destruct (events_at d id _) as [|e [|]]; [done| |done]. eauto.
  - intros (Hr & (k & o & Ho) & (e & He)). by rewrite Ho, He.
Qed.

Lemma integrity_check_ok s s' :
  integrity_check "ok" s = (inr tt, s') ↔
  s' = s ∧ ∀ id t, tasks (db s) !! id = Some t → TaskState.is_terminal (t_state t) = true →
             tuple_sound (db s) id t.
Proof.
  unfold integrity_check. split.
  - intros H. apply bind_reads_ok in H as ([] & _ & H); [|auto with reads].
    apply bind_reads_ok in H as (d & Hd & H); [|auto with reads]. apply query_ok in Hd as [-> _].
    apply bind_reads_ok in H as ([] & Hfind & H); [|intros ?; by destruct (List.find _ _) as [[? ?]|]].
    assert (s' = s) as ->.
    { eapply reads_ok; [|exact H]. apply reads_for_each, reads_verify_row. }
    split; [done|]. intros id t Ht Hterm.
    assert (tuple_complete (db s) (id, t) = true) as Hc.
    { destruct (List.find _ _) as [[? ?]|] eqn:Hf in Hfind; [by apply fail_ok in Hfind|].
      apply negb_false_iff. apply (List.find_none _ _ Hf (id, t)). by apply list_elem_of_In, terminal_tasks_elem. }
    apply tuple_complete_true in Hc as ([r Hr] & ([c id'] & o & Ho) & (e & He)).
    assert (id' = id) as -> by (apply (outbox_of_key (db s) id (c, id') o); rewrite Ho; set_solver).
    assert ((id, t, r, o, e) ∈ terminal_rows (db s)) as Hin.
    { apply terminal_rows_elem. rewrite terminal_tasks_elem, Ho, He. split_and!; [done|done|done| |set_solver].
      exists (c, id). set_solver. }
    eapply for_each_reads in H; [|apply reads_verify_row|exact Hin].
    apply verify_row_ok in H as (_ & value & object & ? & ? & ? & ? & ? & ? & Hrs & Hos & ?).
    split. exists r. split_and!; try done.
    + exists c, o. split_and!; try done. congruence.
    + exists e, value, object. done.
  - intros [-> Hall].
    rewrite run_refuse_if by done. erewrite run_query by done.
    assert (∀ row, row ∈ terminal_tasks (db s) → tuple_complete (db s) row = true) as Hcomplete.
    { intros [id t] [Ht Hterm]%terminal_tasks_elem.
      destruct (Hall _ _ Ht Hterm) as [(r & Hr & _ & (c & o & Ho & _) & (e & ? & ? & He & _))].
      apply tuple_complete_true. rewrite Hr, Ho, He. split_and!; eauto. }
    destruct (List.find _ _) as [[id t]|] eqn:Hf.
    { apply List.find_some in Hf as [Hin Hn]. apply list_elem_of_In, Hcomplete in Hin.
      change (Datatypes.id (db s)) with (db s) in *. by rewrite Hin in Hn. }
    erewrite run_bind by done. apply for_each_ok. intros [[[[id t] r] o] e] Hin.
    apply terminal_rows_elem in Hin as ([Ht Hterm]%terminal_tasks_elem & Hr & [k Ho] & He).
    destruct (Hall _ _ Ht Hterm) as [(r' & Hr' & Hrs & (c & o' & Ho' & ? & Hos) & (e' & value & object & He' & ? & ? & ? & ? & ? & ?))].
    change (Datatypes.id (db s)) with (db s) in *. rewrite Ho' in Ho. rewrite He' in He. rewrite Hr' in Hr.
    apply list_elem_of_singleton in Ho, He. simplify_eq.
    apply verify_row_ok. split; [done|]. exists value, object. split_and!; congruence.
Qed.

(** ** Reachable stores are sound *)

Lemma filter_all_false {A} (p : A → bool) (l : list A) :
  (∀ y, y ∈ l → p y = false) → List.filter p l = [].
Proof.
  induction l as [|y l IH]; intros Hl; [done|]. simpl. rewrite Hl by set_solver.
  apply IH. intros z Hz. apply Hl. set_solver.
Qed.

Lemma filter_unique {A} (f : A → Z) (l : list A) x :
  NoDup (map f l) → x ∈ l → List.filter (λ y, bool_decide (Some (f x) = Some (f y))) l = [x].
Proof.
  intros Hnd Hx. induction l as [|y l IH]; [set_solver|]. simpl in *. apply NoDup_cons in Hnd as [Hy Hnd].
  apply elem_of_cons in Hx as [->|Hx].
  - rewrite bool_decide_true by done. f_equal. apply filter_all_false. intros z Hz.
    apply bool_decide_eq_false. intros [= Heq]. apply Hy. rewrite Heq. apply list_elem_of_fmap. eauto.
  - rewrite bool_decide_false; [by apply IH|]. intros [= Heq]. apply Hy. rewrite <-Heq.
    apply list_elem_of_fmap. eauto.
Qed.

Lemma filter_filter {A} (p q : A → bool) (l : list A) :
  List.filter (λ x, p x && q x) l = List.filter q (List.filter p l).
Proof.
  induction l as [|x l IH]; [done|]. simpl. destruct (p x); simpl; [destruct (q x)|]; by rewrite IH.
Qed.

Lemma terminal_payload_parses `{!ExternalsOk E} state rid :
  json_from_str (terminal_event_payload state rid) =
  Some (VObject [("result_id", VString rid); ("state", VString state)]).
Proof. unfold terminal_event_payload. by rewrite json_from_to. Qed.

Lemma db_ok_sound `{!ExternalsOk E} d id t :
  db_ok d → tasks d !! id = Some t → TaskState.is_terminal (t_state t) = true → tuple_sound d id t.
Proof.
  intros Hok Ht Hterm. destruct (ok_log _ Hok _ _ Ht) as (Hlog & _ & _).
  destruct (ok_terminal _ Hok _ _ Ht Hterm)
    as (c & r & o & e & seq & Hseq & Hr & Hrs & Ho & Huniq & Hres & Hos & He & Hid & Heseq & Hkind & Hpay).
  split. exists r. rewrite Hseq, Hrs. split_and!; [done|done|..].
  - exists c, o. split_and!; [|done|congruence]. apply NoDup_singleton; [apply select_NoDup|..].
    + apply select_elem. simpl. by rewrite String.eqb_refl.
    + intros [[c' id'] o'] [Hid' Ho']%outbox_of_key. simpl in Hid'. subst id'.
      assert (c' = c) as -> by eauto. congruence.
  - exists e, (VObject [("result_id", VString (res_result_id r)); ("state", VString (TaskState.as_str (t_state t)))]),
      [("result_id", VString (res_result_id r)); ("state", VString (TaskState.as_str (t_state t)))].
    split_and!; try done; [|by rewrite Hpay, terminal_payload_parses].
    unfold events_at. rewrite filter_filter, <-Heseq. apply filter_unique.
    + fold (log_of d id). rewrite Hlog. apply NoDup_seqZ.
    + apply list_elem_of_In, filter_In. rewrite Hid, String.eqb_refl. by rewrite <-list_elem_of_In.
Qed.
End integrity.
