(* ===== verification/RetentionProofs.v ===== *)
(** * Retention: safety of the operations

    Leases, marking and deletion keep the invariant; compaction is the one operation
    that removes rows, and its net effect on the database is stated once
    ([removes], [case_file]).  [file_evolves] is what everything else does to a task's file. *)

From S2P Require Import Prelude Domain Externals Improvement Schema StoreMonad Tables TaskStore.
From S2P Require Import Lifecycle Recovery Ledger Carry TaskProofs Integrity Retention.

Lemma set_retention_ok f d d' :
  set_retention f d = Some d' ↔ ∃ t, f (retention d) = Some t ∧ d' = d <| retention := t |>.
Proof. unfold set_retention. rewrite bind_Some. naive_solver. Qed.

(** ** What the statements on the retention tables keep *)

Section tables.
Implicit Types t : RetentionTables.

Lemma delete_leases_ok p t t' : delete_leases p t = Some t' → retention_ok t → retention_ok t'.
Proof.
  intros [= <-] [Hitems Hfence]. split; simpl.
  - intros item [Hk _]%elem_of_filter. done.
  - intros kind id row lease Hr Hm [_ Hin]%elem_of_filter. by eapply Hfence.
Qed.

Lemma update_intent_ok kind id token f t t' :
  (∀ row, gi_state (f row) ≠ GcMarked) →
  update_intent kind id token f t = Some t' → retention_ok t → retention_ok t'.
Proof.
  intros Hf [= <-] [Hitems Hfence]. split; simpl; [done|].
  intros k i row lease Hr Hm. rewrite map_lookup_imap, bind_Some in Hr. destruct Hr as (row0 & Hr0 & [= <-]).
  destruct (_ && _) in Hm; [by apply Hf in Hm|by eapply Hfence].
Qed.

Lemma insert_intent_ok kind id row t t' :
  (∀ lease, (lease, (kind, id)) ∉ reader_lease_items t) →
  insert_intent kind id row t = Some t' → retention_ok t → retention_ok t'.
Proof.
  unfold insert_intent. destruct (_ && _); [|done]. intros Hno [= <-] [Hitems Hfence].
  split; simpl; [done|]. intros k i row' lease [[[= <- <-] _]|[_ Hr]]%lookup_insert_Some Hm; eauto.
Qed.

Lemma hold_lease_ok lease kind id epoch now expires t t1 t2 :
  (∀ row, gc_intents t !! (kind, id) = Some row → gi_state row ≠ GcMarked) →
  upsert_lease lease epoch now expires t = Some t1 → insert_lease_item lease kind id t1 = Some t2 →
  retention_ok t → retention_ok t2.
Proof.
  intros Hno [= <-]. unfold insert_lease_item. case_match eqn:Hrow; [|done]. intros [= <-] [Hitems Hfence].
  split; simpl in *.
  - intros item [->%elem_of_singleton|Hin]%elem_of_union; [by rewrite lookup_insert_eq|].
    destruct (decide (lease = item.1)) as [->|]; [by rewrite lookup_insert_eq|].
    rewrite lookup_insert_ne by done. by apply Hitems.
  - intros k i row l Hr Hm [[= -> -> ->]%elem_of_singleton|Hin]%elem_of_union; [by eapply Hno|by eapply Hfence].
Qed.
End tables.

Lemma db_set s d : db (s <| db := d |>) = d.
Proof. done. Qed.

Section operations.
Context `{E : Externals}.

Lemma safe_retention f :
  (∀ t t', f t = Some t' → retention_ok t → retention_ok t') → moves_ok safe (execute (set_retention f)).
Proof.
  intros Hf. apply safe_execute. intros d d' (t & Ht & ->)%set_retention_ok. apply safe_core; try done.
  simpl. by eapply Hf.
Qed.

(** Statements on tables the invariant does not read. *)
Lemma safe_insert_worktree id w : moves_ok safe (execute (insert_worktree id w)).
Proof.
  apply safe_execute. unfold insert_worktree. intros d d'. destruct (_ && _); [|done]. intros [= <-].
  by apply safe_core.
Qed.

Lemma safe_worktree_state id p st : moves_ok safe (execute (set_worktree_state id p st)).
Proof. apply safe_execute. intros d d' [= <-]. by apply safe_core. Qed.

Lemma safe_delete_refs_to h : moves_ok safe (execute (delete_refs_to h)).
Proof. apply safe_execute. intros d d' [= <-]. by apply safe_core. Qed.

Lemma safe_delete_object h : moves_ok safe (execute (delete_blob_object h)).
Proof.
  apply safe_execute. unfold delete_blob_object. intros d d'. destruct (free_of _ _); [|done].
  intros (t & [= <-] & ->)%set_retention_ok. apply safe_core; try done. by intros [].
Qed.

Lemma safe_record_emergency e now : moves_ok safe (execute (record_emergency e now)).
Proof. apply safe_execute. intros d d' [= <-]. by apply safe_core. Qed.

Lemma safe_delete_leases p : moves_ok safe (execute (set_retention (delete_leases p))).
Proof. apply safe_retention. intros t t'. apply delete_leases_ok. Qed.

Lemma safe_set_emergency e : moves_ok safe (set_emergency e).
Proof. intros s a s' [= <- <-]. reflexivity. Qed.

#[local] Hint Resolve safe_insert_worktree safe_worktree_state safe_delete_refs_to safe_delete_object
  safe_record_emergency safe_delete_leases safe_set_emergency : safe.

(** ** The operations *)

Lemma safe_register_worktree id task canonical inside now :
  moves safe (register_worktree id task canonical inside now).
Proof. unfold register_worktree. carry. Qed.

Lemma marked_None d kind id row :
  marked d kind id = None → gc_intents (retention d) !! (kind, id) = Some row → gi_state row ≠ GcMarked.
Proof. unfold marked. intros H Hr. rewrite Hr in H. simpl in H. by case_bool_decide. Qed.

Lemma safe_acquire_lease lease kind id epoch now : moves safe (acquire_lease lease kind id epoch now).
Proof.
  unfold acquire_lease, current_lease_epoch. apply moves_bind; [apply _|apply moves_ensure_mutation|]. intros _.
  apply moves_transaction; [apply _|]. intros s [] s' H. inv_ok H.
  repeat match goal with H : set_retention _ _ = Some _ |- _ => apply set_retention_ok in H as (? & ? & ->) end.
  rename select (bool_decide (is_Some _) = false) into Hfence. apply bool_decide_eq_false in Hfence.
  apply safe_core; try done. simpl in *. intros Hok. eapply hold_lease_ok; [|eassumption..].
  intros row. apply marked_None, eq_None_not_Some. done.
Qed.

Lemma safe_release_lease lease epoch : moves safe (release_lease lease epoch).
Proof.
  unfold release_lease. apply moves_bind; [apply _|apply moves_ensure_mutation|]. intros _.
  apply moves_bind; [apply _|moves_leaf|]. intros held. apply moves_bind; [apply _| |intros; moves_leaf].
  apply moves_atomic; [apply _| |apply safe_delete_leases].
  intros s e s'. unfold execute. by destruct (set_retention _ _); intros [= _ <-].
Qed.

Lemma safe_finish_intent kind id token f :
  (∀ row, gi_state (f row) ≠ GcMarked) →
  moves_ok safe (execute (set_retention (update_intent kind id token f))).
Proof. intros Hf. apply safe_retention. intros t t'. by apply update_intent_ok. Qed.

Lemma safe_finish_gc c success err now : moves safe (finish_gc_deletion c success err now).
Proof. unfold finish_gc_deletion. carry; by apply safe_finish_intent. Qed.

(** A single statement either takes effect or changes nothing. *)
Lemma moves_of_execute f : moves_ok safe (execute f) → moves safe (execute f).
Proof.
  apply moves_atomic; [apply _|]. intros s e s'. unfold execute. by destruct (f (db s)); intros [= _ <-].
Qed.

Lemma moves_set_emergency e : moves safe (set_emergency e).
Proof. intros s. reflexivity. Qed.

Lemma moves_exec_audit a : moves safe (execute (insert_audit a)).
Proof. apply moves_of_execute, safe_exec_audit. Qed.

Lemma moves_record_emergency e now : moves safe (execute (record_emergency e now)).
Proof. apply moves_of_execute, safe_record_emergency. Qed.

Ltac carry_emergency :=
  repeat first [apply moves_set_emergency|apply moves_exec_audit|apply moves_record_emergency|carry_step].

Lemma safe_latch_emergency released now : moves safe (latch_emergency released now).
Proof. unfold latch_emergency. carry_emergency. Qed.

Lemma safe_recover_emergency quick checkpointed created now :
  moves safe (recover_emergency quick checkpointed created now).
Proof.
  unfold recover_emergency. apply moves_bind; [apply _|moves_leaf|]. intros s. destruct (quota s); [|carry_emergency].
  apply moves_bind; [apply _| |carry_emergency]. intros s0. rewrite reads_integrity_check. reflexivity.
Qed.

(** ** Compaction *)

(** Everything the database holds on one task. *)
Record CaseFile := mkCaseFile {
  f_task : option Task;
  f_events : list Event;
  f_attempts : gmap string AttemptRow;
  f_interactions : gmap string InteractionRow;
  f_responses : gmap string ResponseRow;
  f_result : option ResultRow;
  f_outbox : gmap (string * string) OutboxRow;
  f_reviews : gmap string ReviewRow;
  f_operations : gmap string OperationRow;
  f_request : option RequestRow;
}.

Definition empty_file : CaseFile := mkCaseFile None [] ∅ ∅ ∅ None ∅ ∅ ∅ None.

Definition case_file (d : Db) (id : string) : CaseFile :=
  mkCaseFile (tasks d !! id) (log_of d id) (filter (λ kv, a_task_id kv.2 = id) (attempts d))
    (interactions_of d id) (filter (λ kv, is_Some (interactions_of d id !! kv.1)) (interaction_responses d))
    (results d !! id) (filter (λ kv, kv.1.2 = id) (result_outbox d))
    (filter (λ kv, rv_task_id kv.2 = id) (reviews d)) (filter (λ kv, op_task_id kv.2 = id) (internal_operations d))
    (task_requests d !! id).

(** ** How a file evolves *)

(** Nothing recorded on the task is rewritten or lost: its rows stay in a later version, its log
    grows at its end, and answers, result, reviews and request are as they were. *)
Record file_evolves (c c' : CaseFile) : Prop := {
  fe_task t : f_task c = Some t → ∃ t', f_task c' = Some t' ∧ task_evolves t t';
  fe_events : f_events c `prefix_of` f_events c';
  fe_attempts : table_evolves attempt_evolves (f_attempts c) (f_attempts c');
  fe_interactions : table_evolves interaction_evolves (f_interactions c) (f_interactions c');
  fe_responses : f_responses c ⊆ f_responses c';
  fe_result r : f_result c = Some r → f_result c' = Some r;
  fe_outbox : table_evolves outbox_evolves (f_outbox c) (f_outbox c');
  fe_reviews : f_reviews c ⊆ f_reviews c';
  fe_operations : table_evolves operation_evolves (f_operations c) (f_operations c');
  fe_request r : f_request c = Some r → f_request c' = Some r;
}.

#[export] Instance file_evolves_preorder : PreOrder file_evolves.
Proof.
  split; [by intros c; split; try done; intros t Ht; exists t|].
  intros c1 c2 c3 [] []. split; [|by etrans|by etrans|by etrans|by etrans|by eauto|by etrans|by etrans|by etrans|by eauto].
  intros t Ht. destruct (fe_task0 _ Ht) as (t2 & Ht2 & H12). destruct (fe_task1 _ Ht2) as (t3 & Ht3 & H23).
  exists t3. split; [done|by etrans].
Qed.

Lemma table_evolves_filter {K A} `{Countable K} (P : A → A → Prop) (Q Q' : K * A → Prop)
    `{!∀ x, Decision (Q x), !∀ x, Decision (Q' x)} (m m' : gmap K A) :
  (∀ k a a', P a a' → Q (k, a) → Q' (k, a')) → table_evolves P m m' → table_evolves P (filter Q m) (filter Q' m').
Proof.
  intros HQ Hm k a [Hk Ha]%map_lookup_filter_Some. destruct (Hm _ _ Hk) as (a' & Hk' & HP).
  exists a'. split; [|done]. apply map_lookup_filter_Some. eauto.
Qed.

Lemma filter_subseteq_mono {K A} `{Countable K} (Q Q' : K * A → Prop)
    `{!∀ x, Decision (Q x), !∀ x, Decision (Q' x)} (m m' : gmap K A) :
  (∀ k a, Q (k, a) → Q' (k, a)) → m ⊆ m' → filter Q m ⊆ filter Q' m'.
Proof.
  intros HQ Hm. apply map_subseteq_spec. intros k a [Hk Ha]%map_lookup_filter_Some.
  apply map_lookup_filter_Some. split; [by eapply lookup_weaken|by apply HQ].
Qed.

(** The ledger of the database is that of each task's file. *)
Lemma ledger_file d d' id : ledger d d' → file_evolves (case_file d id) (case_file d' id).
Proof.
  intros [Ht Ha Hi Ho Hb [k He] _ Hs Hr Hv Hq].
  assert (table_evolves interaction_evolves (interactions_of d id) (interactions_of d' id)) as Hints.
  { apply table_evolves_filter; [|done]. intros n i i' []; simpl. congruence. }
  split; unfold case_file; simpl.
  - intros t. apply Ht.
  - unfold log_of. rewrite He, List.filter_app. by exists (List.filter (λ e, String.eqb (e_task_id e) id) k).
  - apply table_evolves_filter; [|done]. intros n a a' []; simpl. congruence.
  - done.
  - apply filter_subseteq_mono; [|done]. intros n r [i Hn]. simpl in *. destruct (Hints _ _ Hn) as (i' & Hn' & _). eauto.
  - intros r Hres. by eapply lookup_weaken.
  - by apply table_evolves_filter.
  - by apply filter_subseteq_mono.
  - apply table_evolves_filter; [|done]. intros n o o' []; simpl. congruence.
  - intros r Hreq. by eapply lookup_weaken.
Qed.

(** ** Compaction of one task *)

(** The net effect of compacting one task. *)
Record removes (now : Z) (id : string) (t : Task) (d d' : Db) : Prop := {
  rm_tasks : tasks d' = delete id (tasks d);
  rm_events : events d' = List.filter (λ e, negb (String.eqb (e_task_id e) id)) (events d);
  rm_attempts : attempts d' = filter (λ kv, a_task_id kv.2 ≠ id) (attempts d);
  rm_interactions : pending_interactions d' = filter (λ kv, i_task_id kv.2 ≠ id) (pending_interactions d);
  rm_responses : interaction_responses d' =
    filter (λ kv, interactions_of d id !! kv.1 = None) (interaction_responses d);
  rm_results : results d' = delete id (results d);
  rm_outbox : result_outbox d' = filter (λ kv, kv.1.2 ≠ id) (result_outbox d);
  rm_reviews : reviews d' = filter (λ kv, rv_task_id kv.2 ≠ id) (reviews d);
  rm_operations : internal_operations d' = filter (λ kv, op_task_id kv.2 ≠ id) (internal_operations d);
  rm_requests : task_requests d' = delete id (task_requests d);
  rm_tombstone : task_tombstones d' =
    (if has_row (task_tombstones d) id then task_tombstones d
     else <[id := tombstone_of t (results d !! id) now]> (task_tombstones d));
  rm_commands : command_dedup d' = command_dedup d;
  rm_retention : retention d' = retention d;
}.

Lemma compact_task_ok now id t s s' :
  compact_task now (id, t) s = (inr tt, s') → removes now id t (db s) (db s').
Proof.
  unfold compact_task. intros H. rewrite bind_ok in H. destruct H as (r & s0 & [-> ->]%query_ok & H).
  inv_ok H. rewrite ?db_set in *.
  assert (∃ h, delete_blob_refs h a2 = Some (db s0) ∨ db s0 = a2) as (h & Hrefs).
  { destruct (results (db s) !! id) as [r|]; inv_ok H0; rewrite ?db_set in *;
      [by exists (res_result_id r); left|by exists id; right]. }
  assert (∃ refs, db s0 = a2 <| blob_refs := refs |>) as (refs & Hs0).
  { destruct Hrefs as [[= <-]| ->]; [eauto|]. exists (blob_refs a2). by destruct a2. }
  rewrite Hs0 in *. clear Hrefs H0 Hs0.
  unfold delete_reviews, delete_results, delete_events, delete_interactions, delete_task in *. cbv zeta in *.
  repeat match goal with H : (if ?b then Some _ else None) = Some _ |- _ => destruct b; [|discriminate H] end.
  unfold insert_tombstone, delete_blob_refs, delete_requests, delete_operations, delete_outbox, delete_responses,
    delete_attempts, delete_worktrees, insert_audit in *.
  repeat match goal with H : Some _ = Some _ |- _ => injection H as <- end.
  destruct (has_row (task_tombstones (db s)) id) eqn:Htomb; split; rewrite ?Htomb; reflexivity.
Qed.

Lemma filter_opposite {K A} `{Countable K} (P Q : K * A → Prop) `{!∀ x, Decision (P x), !∀ x, Decision (Q x)}
    (m : gmap K A) :
  (∀ x, P x → ¬ Q x) → filter P (filter Q m) = ∅.
Proof.
  intros Hpq. apply map_empty. intros k. apply map_lookup_filter_None. right. intros a Ha Hp.
  apply map_lookup_filter_Some in Ha as [_ Hq]. by eapply Hpq.
Qed.

Lemma filter_implied {K A} `{Countable K} (P Q : K * A → Prop) `{!∀ x, Decision (P x), !∀ x, Decision (Q x)}
    (m : gmap K A) :
  (∀ x, P x → Q x) → filter P (filter Q m) = filter P m.
Proof.
  intros Hpq. apply map_filter_strong_ext. intros k a. rewrite map_lookup_filter_Some. naive_solver.
Qed.

Lemma list_filter_opposite {A} (p q : A → bool) l :
  (∀ x, p x = true → q x = false) → List.filter p (List.filter q l) = [].
Proof.
  intros Hpq. induction l as [|x l IH]; simpl; [done|]. destruct (q x) eqn:Hq; simpl; [|done].
  destruct (p x) eqn:Hp; [apply Hpq in Hp; congruence|done].
Qed.

Lemma list_filter_implied {A} (p q : A → bool) l :
  (∀ x, p x = true → q x = true) → List.filter p (List.filter q l) = List.filter p l.
Proof.
  intros Hpq. induction l as [|x l IH]; simpl; [done|]. destruct (q x) eqn:Hq; simpl; [by rewrite IH|].
  destruct (p x) eqn:Hp; [apply Hpq in Hp; congruence|done].
Qed.

(** Compaction empties the file of its task ... *)
Lemma removes_file now id t d d' : removes now id t d d' → case_file d' id = empty_file.
Proof.
  intros [Ht He Ha Hi Hs Hr Ho Hv Hop Hq _ _ _]. unfold case_file, empty_file, log_of, interactions_of.
  rewrite Ht, He, Ha, Hi, Hs, Hr, Ho, Hv, Hop, Hq, !lookup_delete_eq.
  rewrite list_filter_opposite by (intros e ->; done). f_equal; try (apply filter_opposite; naive_solver).
  apply filter_opposite. intros [k r] [i Hk]. simpl in *. by rewrite filter_opposite in Hk by naive_solver.
Qed.

(** ... and leaves every other file as it was. *)
Lemma removes_other now id t d d' id' : removes now id t d d' → id' ≠ id → case_file d' id' = case_file d id'.
Proof.
  intros [Ht He Ha Hi Hs Hr Ho Hv Hop Hq _ _ _] Hne. unfold case_file, log_of.
  assert (interactions_of d' id' = interactions_of d id') as Hint.
  { unfold interactions_of. rewrite Hi. apply filter_implied. intros [k i]; simpl; congruence. }
  rewrite Hint, Ht, He, Ha, Hs, Hr, Ho, Hv, Hop, Hq, !lookup_delete_ne by done.
  rewrite list_filter_implied by
    (intros e He'; apply String.eqb_eq in He'; apply negb_true_iff, String.eqb_neq; congruence).
  f_equal; try (apply filter_implied; intros [k x]; simpl; congruence).
  apply filter_implied. intros [k r] [i Hk]. simpl in *. unfold interactions_of in *.
  apply map_lookup_filter_Some in Hk as [Hk Hi']. simpl in Hi'.
  apply map_lookup_filter_None. right. intros i2 Hi2. simplify_eq. simpl. congruence.
Qed.

Lemma removes_log now id t d d' id' : removes now id t d d' → id' ≠ id → log_of d' id' = log_of d id'.
Proof. intros Hrm Hne. exact (f_equal f_events (removes_other _ _ _ _ _ _ Hrm Hne)). Qed.

(** A sound database stays sound: every row the invariant ties to the task goes with it. *)
Lemma removes_ok now id t d d' : removes now id t d d' → db_ok d → db_ok d'.
Proof.
  intros Hrm Hok. pose proof Hrm as [Ht He Ha _ _ Hr Ho _ _ _ _ _ Hret].
  assert (∀ id' x, tasks d' !! id' = Some x → id' ≠ id ∧ tasks d !! id' = Some x) as Htask.
  { intros id' x. rewrite Ht, lookup_delete_Some. naive_solver. }
  assert (∀ id', id' ≠ id → is_Some (tasks d !! id') → is_Some (tasks d' !! id')) as Hdom.
  { intros id' Hne. by rewrite Ht, lookup_delete_ne. }
  split.
  - intros id' x [_ Hx]%Htask. by eapply ok_check.
  - intros id' x [Hne Hx]%Htask. rewrite (removes_log _ _ _ _ _ _ Hrm Hne). by eapply ok_log.
  - intros e. rewrite He. intros [Hin Hne]%list_elem_of_In%filter_In.
    apply negb_true_iff, String.eqb_neq in Hne. apply Hdom; [done|]. by apply ok_event_task, list_elem_of_In.
  - intros id' x [Hne Hx]%Htask Hterm.
    destruct (ok_terminal _ Hok _ _ Hx Hterm) as (c & r & o & e & seq & Htuple). destruct_and! Htuple.
    exists c, r, o, e, seq. rewrite Hr, Ho, He, lookup_delete_ne by done. split_and!; try done.
    + by apply map_lookup_filter_Some.
    + intros c' o' [Ho' _]%map_lookup_filter_Some. eauto.
    + apply list_elem_of_In, filter_In. split; [by apply list_elem_of_In|].
      apply negb_true_iff, String.eqb_neq. congruence.
  - intros id' x [Hne Hx]%Htask Hnt. destruct (ok_nonterminal _ Hok _ _ Hx Hnt) as [Hnr Hno]. split.
    + by rewrite Hr, lookup_delete_ne.
    + intros c. rewrite Ho. apply map_lookup_filter_None. by left.
  - intros id' r. rewrite Hr. intros [Hne Hres]%lookup_delete_Some. apply Hdom; [done|]. by eapply ok_result_task.
  - intros c id' o. rewrite Ho. intros [Hout Hne]%map_lookup_filter_Some. simpl in Hne.
    rewrite Hr, lookup_delete_ne by done. by eapply ok_outbox_task.
  - intros id' a. rewrite Ha. intros [Hatt Hne]%map_lookup_filter_Some. apply Hdom; [done|].
    by eapply ok_attempt_task.
  - intros i j a b. rewrite Ha. intros [Hi _]%map_lookup_filter_Some [Hj _]%map_lookup_filter_Some.
    by eapply ok_attempt_unique.
  - rewrite Hret. by apply ok_retention.
Qed.
End operations.
