(* ===== verification/BlobProofs.v ===== *)
(** * The blob store: what its files hold

    Content addressing as an invariant of the world, what a publication leaves when it stops
    and when it ends, and the statements the recovery ends with. *)

From S2P Require Import Prelude Domain Externals Scheduler Improvement Schema StoreMonad Tables.
From S2P Require Import TaskStore Lifecycle Recovery Ledger Carry TaskProofs Retention RetentionProofs Blobs.

(** ** The monad *)

Section monad.
Context {A C : Type}.

Lemma b_bind_ok (m : B A) (f : A → B C) w b w' :
  (m ≫= f) w = (inr b, w') ↔ ∃ a w1, m w = (inr a, w1) ∧ f a w1 = (inr b, w').
Proof. unfold mbind, B_bind. destruct (m w) as [[e|a] w1]; naive_solver. Qed.

Lemma b_bind_run (m : B A) (f : A → B C) w a w1 : m w = (inr a, w1) → (m ≫= f) w = f a w1.
Proof. unfold mbind, B_bind. by intros ->. Qed.

Lemma b_bind_error (m : B A) (f : A → B C) w e w' :
  (m ≫= f) w = (inl e, w') → m w = (inl e, w') ∨ ∃ a w1, m w = (inr a, w1) ∧ f a w1 = (inl e, w').
Proof. unfold mbind, B_bind. destruct (m w) as [[e'|a] w1]; naive_solver. Qed.

Lemma b_ret_ok (a b : A) w w' : (mret a : B A) w = (inr b, w') ↔ a = b ∧ w = w'.
Proof. unfold mret, B_ret. naive_solver. Qed.

Lemma on_store_ok (m : M A) w a w' :
  on_store m w = (inr a, w') ↔ ∃ s, m (store w) = (inr a, s) ∧ w' = w <| store := s |>.
Proof. unfold on_store. destruct (m (store w)) as [[e|x] s]; naive_solver. Qed.

Lemma on_store_reads (m : M A) w a w' :
  reads m → on_store m w = (inr a, w') ↔ (m (store w)).1 = inr a ∧ w' = w.
Proof.
  intros Hm. unfold on_store. rewrite Hm. destruct w as [s fs]. simpl. split; [intros [= -> <-]|intros [-> ->]]; done.
Qed.
End monad.

Lemma refuse_ok b e w w' : refuse b e w = (inr tt, w') ↔ b = false ∧ w' = w.
Proof. unfold refuse. rewrite on_store_reads by auto with reads. destruct b; naive_solver. Qed.

Lemma file_at_ok path o w w' : file_at path w = (inr o, w') ↔ o = files w !! path ∧ w' = w.
Proof. unfold file_at. naive_solver. Qed.

Lemma run_file_at {C} path (f : option string → B C) w : (file_at path ≫= f) w = f (files w !! path) w.
Proof. done. Qed.

Lemma run_refuse {C} b e (f : unit → B C) w : b = false → (refuse b e ≫= f) w = f tt w.
Proof. intros ->. by destruct w. Qed.

Lemma run_store_reads {A C} (m : M A) (f : A → B C) w a :
  reads m → (m (store w)).1 = inr a → (on_store m ≫= f) w = f a w.
Proof. intros Hm Ha. apply b_bind_run. by apply on_store_reads. Qed.

(** Whatever the operation answers, it moves the world along [R]. *)
Definition drives {A} (R : relation World) (m : B A) : Prop := ∀ w, R w (m w).2.

Section drives.
Context (R : relation World) `{!PreOrder R}.

Lemma drives_ret {A} (a : A) : drives R (mret a).
Proof. intros w. reflexivity. Qed.

Lemma drives_bind {A C} (m : B A) (f : A → B C) : drives R m → (∀ a, drives R (f a)) → drives R (m ≫= f).
Proof.
  intros Hm Hf w. unfold mbind, B_bind. specialize (Hm w). destruct (m w) as [[e|a] w1]; [done|].
  etrans; [exact Hm|apply Hf].
Qed.

Lemma drives_file_at path : drives R (file_at path).
Proof. intros w. reflexivity. Qed.

Lemma drives_reads {A} (m : M A) : reads m → drives R (on_store m).
Proof. intros Hm w. unfold on_store. rewrite Hm. by destruct w. Qed.

Lemma drives_each {A} (l : list A) body : (∀ x, drives R (body x)) → drives R (each l body).
Proof. intros Hb. induction l as [|x l IH]; simpl; [apply drives_ret|by apply drives_bind]. Qed.
End drives.

(** ** Paths *)

Section paths.
Context `{E : Externals}.

Lemma substring_zero (s : string) : String.substring 0 0 s = "".
Proof. by destruct s. Qed.

Lemma blob_path_inj x y :
  is_lower_sha256 x = true → is_lower_sha256 y = true → blob_path x = blob_path y → x = y.
Proof.
  intros Hx Hy. unfold blob_path. rewrite Hx, Hy. clear E.
  unfold is_lower_sha256 in *. split_bools. unfold str_len in *.
  destruct x as [|x1 [|x2 [|x3 [|x4 x]]]]; try (simpl in *; lia).
  destruct y as [|y1 [|y2 [|y3 [|y4 y]]]]; try (simpl in *; lia).
  cbn [String.substring]. rewrite !substring_zero. simpl. intros Hp. injection Hp. intros. subst. done.
Qed.

Lemma blob_path_valid x y : is_lower_sha256 x = true → blob_path x = blob_path y → x = y.
Proof.
  intros Hx Hp. destruct (is_lower_sha256 y) eqn:Hy; [by apply blob_path_inj|].
  unfold blob_path in Hp. rewrite Hx, Hy in Hp. discriminate.
Qed.

Lemma stage_path_not_blob name digest : stage_path name ≠ blob_path digest.
Proof. unfold stage_path, blob_path. destruct (is_lower_sha256 digest); discriminate. Qed.
End paths.

(** ** Content addressing *)

(** Every file of the blob store holds the content its name is the digest of. *)
Definition content_addressed `{Externals} (w : World) : Prop :=
  ∀ digest bytes, is_lower_sha256 digest = true → files w !! blob_path digest = Some bytes →
    sha256_hex bytes = digest.

Definition world_ok `{Externals} (w : World) : Prop := db_ok (db (store w)) ∧ content_addressed w.

Definition sound `{Externals} (w w' : World) : Prop := world_ok w → world_ok w'.

#[export] Instance sound_preorder `{Externals} : PreOrder sound.
Proof. split; [by intros w Hw|]. intros w1 w2 w3 H12 H23 H1. by apply H23, H12. Qed.

Section operations.
Context `{E : Externals}.

(** What a successful verification says. *)
Lemma verify_blob_ok path digest n w w' :
  verify_blob path digest n w = (inr tt, w') ↔
  w' = w ∧ ∃ bytes, files w !! path = Some bytes ∧ str_len bytes = n ∧ sha256_hex bytes = digest.
Proof.
  unfold verify_blob. split.
  - intros H. apply b_bind_ok in H as (o & w1 & [-> ->]%file_at_ok & H).
    apply b_bind_ok in H as (bytes & w2 & Hb & H). apply on_store_reads in Hb as [Hb ->]; [|auto with reads].
    apply refuse_ok in H as [Hc ->]. split; [done|]. exists bytes.
    destruct (files w !! path); [|done]. injection Hb as ->. by split_bools.
  - intros (-> & bytes & Hf & Hn & Hd). rewrite run_file_at, Hf.
    erewrite run_store_reads by (auto with reads || done). apply refuse_ok. split; [|done].
    by rewrite (proj2 (Z.eqb_eq _ _) Hn), (proj2 (String.eqb_eq _ _) Hd).
Qed.

Lemma drives_verify_blob R `{!PreOrder R} path digest n : drives R (verify_blob path digest n).
Proof.
  unfold verify_blob. apply drives_bind; [done|by apply drives_file_at|]. intros o.
  apply drives_bind; [done|apply drives_reads; auto with reads|]. intros bytes. apply drives_reads; auto with reads.
Qed.

(** ** Soundness of the operations *)

(** Lifting a storage operation, and the writes of files that are not blobs. *)
Lemma sound_on_store {A} (m : M A) : moves safe m → drives sound (on_store m).
Proof. intros Hm w [Hok Haddr]. split; [exact (proj1 (Hm (store w) Hok))|exact Haddr]. Qed.

Lemma sound_set_stage name bytes : drives sound (set_file (stage_path name) bytes).
Proof.
  intros w [Hok Haddr]. split; [done|]. intros digest b Hd. simpl.
  rewrite lookup_insert_ne by apply stage_path_not_blob. by apply Haddr.
Qed.

Lemma sound_remove path : drives sound (remove_file path).
Proof. intros w [Hok Haddr]. split; [done|]. intros digest b Hd. simpl. intros [_ Hb]%lookup_delete_Some. by apply Haddr. Qed.

Lemma safe_blob_object h n now : moves_ok safe (execute (set_retention (insert_blob_object h n now))).
Proof.
  apply safe_retention. unfold insert_blob_object. intros t t'.
  destruct (has_row _ _); [by intros [= <-]|]. destruct (_ && _); intros [= <-]; [by intros []|done].
Qed.

Lemma safe_delete_staging p : moves_ok safe (execute (set_retention (delete_staging p))).
Proof. apply safe_retention. intros t t' [= <-] []. by split. Qed.

Lemma safe_insert_staging id row : moves safe (execute (set_retention (insert_staging id row))).
Proof.
  apply moves_of_execute, safe_retention. unfold insert_staging. intros t t'. destruct (_ && _); [|done].
  intros [= <-] []. by split.
Qed.

Lemma safe_blob_ref key h : moves_ok safe (execute (upsert_blob_ref key h)).
Proof.
  apply safe_execute. unfold upsert_blob_ref. intros d d'. destruct (has_row _ _); [|done]. intros [= <-].
  by apply safe_core.
Qed.

Lemma safe_blob_length h n : moves_ok safe (execute (set_retention (set_blob_length h n))).
Proof. apply safe_retention. intros t t' [= <-] []. by split. Qed.

#[local] Hint Resolve safe_blob_object safe_delete_staging safe_blob_ref safe_blob_length : safe.

Lemma safe_commit_blob h n p now : moves safe (commit_blob h n p now).
Proof. unfold commit_blob. carry. Qed.

Lemma safe_settle id h n now : moves safe (settle_staging id h n now).
Proof. unfold settle_staging. carry. Qed.

(** A file moved into the blob store after its content was verified. *)
Lemma sound_verified_publish {C} io stage digest n (k : bool → B C) :
  (∀ b, drives sound (k b)) →
  drives sound (verify_blob stage digest n;; moved ← atomic_publish io stage (blob_path digest); k moved).
Proof.
  intros Hk w Hw. unfold mbind at 1, B_bind.
  destruct (verify_blob stage digest n w) as [[e|[]] w1] eqn:Hv.
  { pose proof (drives_verify_blob sound stage digest n w) as Hd. rewrite Hv in Hd. by apply Hd. }
  apply verify_blob_ok in Hv as (-> & bytes & Hf & _ & Hsha).
  unfold mbind, B_bind, atomic_publish at 1. rewrite run_file_at, Hf.
  destruct (io_publish io); [|exact (Hk false w Hw)]. simpl. apply (Hk true). destruct Hw as [Hok Haddr].
  split; [done|]. intros digest' b Hd'. simpl.
  intros [[Hp <-]|[_ [_ Hb]%lookup_delete_Some]]%lookup_insert_Some; [|by apply Haddr].
  apply eq_sym, blob_path_valid in Hp; [|done]. congruence.
Qed.

Lemma sound_checked_publish {C} io stage digest n b e (k : bool → B C) :
  (∀ b, drives sound (k b)) →
  drives sound (verify_blob stage digest n;; refuse b e;;
                moved ← atomic_publish io stage (blob_path digest); k moved).
Proof.
  intros Hk w. destruct b.
  - refine (drives_bind sound _ _ _ _ w); [apply drives_verify_blob; apply _|]. intros [] w1. by destruct w1.
  - pose proof (sound_verified_publish io stage digest n k Hk w) as H. unfold mbind, B_bind in *.
    destruct (verify_blob stage digest n w) as [[e'|[]] w1]; [done|]. by destruct w1.
Qed.

Ltac drive_step :=
  match goal with
  | |- ∀ _, _ => intros ?
  | |- drives _ (mret _) => apply drives_ret; apply _
  | |- drives _ (verify_blob _ _ _) => apply drives_verify_blob; apply _
  | |- drives _ (file_at _) => apply drives_file_at; apply _
  | |- drives _ (refuse _ _) => refine (drives_reads sound _ _); auto with reads
  | |- drives _ (on_store (commit_blob _ _ _ _)) => apply sound_on_store, safe_commit_blob
  | |- drives _ (on_store (settle_staging _ _ _ _)) => apply sound_on_store, safe_settle
  | |- drives _ (on_store (transaction _)) => apply sound_on_store; solve [carry]
  | |- drives _ (on_store (execute (set_retention (insert_staging _ _)))) =>
      apply sound_on_store, safe_insert_staging
  | |- drives _ (on_store (execute (set_retention (delete_staging _)))) =>
      apply sound_on_store, moves_of_execute, safe_delete_staging
  | |- drives _ (on_store new_v4) => apply sound_on_store; moves_leaf
  | |- drives _ (on_store _) => refine (drives_reads sound _ _); solve [auto with reads]
  | |- drives _ (set_file (stage_path _) _) => apply sound_set_stage
  | |- drives _ (remove_file _) => apply sound_remove
  | |- drives _ (verify_blob _ _ _ ≫= λ _, atomic_publish _ _ _ ≫= _) => apply sound_verified_publish
  | |- drives _ (verify_blob _ _ _ ≫= λ _, refuse _ _ ≫= λ _, atomic_publish _ _ _ ≫= _) =>
      apply sound_checked_publish
  | |- drives _ (_ ≫= _) => refine (drives_bind sound _ _ _ _)
  | |- drives _ (each _ _) => refine (drives_each sound _ _ _)
  | |- drives _ (match ?x with _ => _ end) => destruct x
  end.

Lemma sound_write_stage io name bytes : drives sound (write_stage io (stage_path name) bytes).
Proof. unfold write_stage. repeat drive_step. Qed.

Lemma sound_publish_blob io bytes now : drives sound (publish_blob io bytes now).
Proof. unfold publish_blob. cbv zeta. repeat (drive_step || apply sound_write_stage). Qed.

Lemma sound_reference_blob kind id field digest now : drives sound (reference_blob kind id field digest now).
Proof. unfold reference_blob, read_blob. cbv zeta. repeat drive_step. Qed.

Lemma sound_recover_one io now entry : drives sound (recover_staged_blob io now entry).
Proof.
  destruct entry as [staging_id row]. unfold recover_staged_blob. cbv zeta.
  refine (drives_bind sound _ _ _ _); [drive_step|intros _].
  refine (drives_bind sound _ _ _ _); [drive_step|intros published].
  refine (drives_bind sound _ _ _ _); [drive_step|intros waiting].
  destruct published, waiting; repeat drive_step.
Qed.

Lemma sound_recover io now : drives sound (recover_staged_blobs io now).
Proof.
  unfold recover_staged_blobs. refine (drives_bind sound _ _ _ _); [drive_step|intros rows].
  refine (drives_each sound _ _ _). apply sound_recover_one.
Qed.

(** ** Publication and reading back *)

Definition staging_of (w : World) : gmap string StagingRow := blob_staging (retention (db (store w))).

Definition blobs_of (w : World) : gmap string BlobRow := blob_objects (retention (db (store w))).

Lemma lower_hex_ascii a : is_lower_hex a = true → byte_code a < 128.
Proof. destruct a as [[] [] [] [] [] [] [] []]; vm_compute; done. Qed.

Lemma char_count_lower h : is_lower_sha256 h = true → char_count h = 64.
Proof.
  unfold is_lower_sha256, str_len. intros H. split_bools. rename select (Z.of_nat _ = 64) into Hlen.
  rewrite <-Hlen. rename select (all_bytes _ _ = true) into Hall. clear Hlen.
  induction h as [|a h IH]; [done|]. cbn [all_bytes] in Hall. split_bools. cbn [char_count String.length].
  rewrite IH by done. rename select (is_lower_hex a = true) into Ha. apply lower_hex_ascii in Ha.
  rewrite (proj2 (Z.leb_gt 128 _)) by lia. simpl. lia.
Qed.

Lemma blob_object_row h n now t t' :
  is_lower_sha256 h = true → 0 ≤ n → insert_blob_object h n now t = Some t' → is_Some (blob_objects t' !! h).
Proof.
  unfold insert_blob_object. intros Hh Hn. destruct (has_row _ _) eqn:Hrow.
  - intros [= <-]. by apply has_row_true.
  - rewrite (char_count_lower _ Hh), Z.eqb_refl, (proj2 (Z.leb_le 0 n) Hn). simpl. intros [= <-]. simpl.
    by rewrite lookup_insert_eq.
Qed.

Lemma insert_blob_object_staging h n now t t' :
  insert_blob_object h n now t = Some t' → blob_staging t' = blob_staging t.
Proof. unfold insert_blob_object. destruct (has_row _ _); [by intros [= <-]|]. by destruct (_ && _); intros [= <-]. Qed.

(** Recorded blobs stay recorded. *)
Lemma insert_blob_object_keeps h n now t t' k :
  insert_blob_object h n now t = Some t' → is_Some (blob_objects t !! k) → is_Some (blob_objects t' !! k).
Proof.
  unfold insert_blob_object. destruct (has_row _ _); [by intros [= <-]|]. destruct (_ && _); intros [= <-]; [|done].
  simpl. intros Hk. destruct (decide (h = k)) as [->|Hne]; [by rewrite lookup_insert_eq|by rewrite lookup_insert_ne].
Qed.

Lemma read_blob_run digest bytes w :
  files w !! blob_path digest = Some bytes → sha256_hex bytes = digest → read_blob digest w = (inr bytes, w).
Proof.
  intros Hf Hd. unfold read_blob. cbv zeta. rewrite run_file_at, Hf.
  erewrite run_store_reads by (auto with reads || done).
  erewrite b_bind_run; [done|]. apply verify_blob_ok. eauto.
Qed.

(** Every run that commits leaves a verified file and its row. *)
Lemma commit_row h n p now w w' :
  is_lower_sha256 h = true → 0 ≤ n → on_store (commit_blob h n p now) w = (inr tt, w') →
  files w' = files w ∧ is_Some (blob_objects (retention (db (store w'))) !! h) ∧
  staging_of w' = filter (λ kv, p kv.1 kv.2 = false) (staging_of w).
Proof.
  intros Hh Hn (s & Hrun & ->)%on_store_ok. split; [done|]. unfold commit_blob in Hrun.
  rewrite transaction_ok in Hrun. apply bind_ok in Hrun as ([] & s1 & H1 & Hrun).
  apply execute_ok in H1 as (d1 & (t & Ht & ->)%set_retention_ok & ->).
  pose proof (insert_blob_object_staging _ _ _ _ _ Ht) as Hst. apply blob_object_row in Ht; [|done..].
  apply bind_ok in Hrun as ([] & s2 & H2 & H3). apply execute_ok in H2 as (d2 & (t2 & [= <-] & ->)%set_retention_ok & ->).
  unfold bump_mutation_epoch in H3. apply execute_ok in H3 as (d3 & [= <-] & ->).
  split; [done|]. unfold staging_of. simpl. by rewrite Hst.
Qed.

(** What a successful publication leaves, whether or not the file was there. *)
Lemma publish_blob_ok `{!ExternalsOk E} io bytes now w digest w' :
  publish_blob io bytes now w = (inr digest, w') →
  digest = sha256_hex bytes ∧
  is_Some (blob_objects (retention (db (store w'))) !! digest) ∧
  ∃ content, files w' !! blob_path digest = Some content ∧ sha256_hex content = digest ∧
    str_len content = str_len bytes.
Proof.
  unfold publish_blob. cbv zeta. intros H.
  do 3 (apply b_bind_ok in H as (? & ? & _ & H)). apply b_bind_ok in H as (o & w1 & [-> ->]%file_at_ok & H).
  pose proof (sha256_hex_is_lower bytes) as Hlow. assert (0 ≤ str_len bytes) as Hn by (unfold str_len; lia).
  destruct (files _ !! blob_path (sha256_hex bytes)) as [old|] eqn:Hold.
  - apply b_bind_ok in H as ([] & w2 & (-> & content & Hf & Hl & Hd)%verify_blob_ok & H).
    apply b_bind_ok in H as ([] & w3 & Hrun & H). apply b_ret_ok in H as [<- <-].
    apply on_store_ok in Hrun as (s & Hrun & ->). rewrite transaction_ok in Hrun.
    apply bind_ok in Hrun as ([] & s1 & H1 & H2).
    apply execute_ok in H1 as (d1 & (t & Ht & ->)%set_retention_ok & ->). apply blob_object_row in Ht; [|done..].
    unfold bump_mutation_epoch in H2. apply execute_ok in H2 as (d3 & [= <-] & ->). split; [done|]. split; [done|]. by exists content.
  - do 6 (apply b_bind_ok in H as (? & ? & _ & H)). apply b_bind_ok in H as ([] & w2 & _ & H).
    apply b_bind_ok in H as ([] & w3 & _ & H).
    apply b_bind_ok in H as ([] & w4 & (-> & content & Hf & Hl & Hd)%verify_blob_ok & H).
    apply b_bind_ok in H as ([] & w5 & Hrun & H). apply b_ret_ok in H as [<- <-].
    apply commit_row in Hrun as (Hfiles & Hrow & _); [|done..]. split; [done|]. split; [done|]. exists content. by rewrite Hfiles.
Qed.

(** ** Interrupted publication *)

(** What a publication may leave when it stops early: nothing, or one staging row, under an unused
    identity and file name, whose file is absent, complete in the staging directory, or already in
    place. *)
Definition left_behind (bytes : string) (now : Z) (w w' : World) : Prop :=
  (staging_of w' = staging_of w ∧ files w' = files w) ∨
  ∃ id name, let row := mkStagingRow name (sha256_hex bytes) (str_len bytes) now in
    staging_of w !! id = None ∧ (∀ other r, staging_of w !! other = Some r → sg_file_name r ≠ name) ∧
    staging_of w' = <[id := row]> (staging_of w) ∧ files w !! stage_path name = None ∧
    files w !! blob_path (sha256_hex bytes) = None ∧
    (files w' = files w ∨ files w' = <[stage_path name := bytes]> (files w) ∨
     files w' = <[blob_path (sha256_hex bytes) := bytes]> (files w)).

Lemma on_store_error {A} (m : M A) w e w' :
  reads m → on_store m w = (inl e, w') → w' = w.
Proof. intros Hm. unfold on_store. rewrite Hm. destruct w. by intros [= _ <-]. Qed.

Lemma check_error {A C} (m : M A) (f : A → B C) w e w' :
  reads m → (on_store m ≫= f) w = (inl e, w') → w' = w ∨ ∃ a, f a w = (inl e, w').
Proof.
  intros Hm [H|(a & w1 & H1 & H)]%b_bind_error; [left; by eapply on_store_error|].
  apply on_store_reads in H1 as [_ ->]; [|done]. eauto.
Qed.

Lemma verify_blob_error path digest n w e w' : verify_blob path digest n w = (inl e, w') → w' = w.
Proof.
  unfold verify_blob. rewrite run_file_at. intros [H|(b & w1 & H1 & H2)]%b_bind_error.
  - by eapply on_store_error; [|exact H]; auto with reads.
  - apply on_store_reads in H1 as [_ ->]; [|auto with reads]. by eapply on_store_error; [|exact H2]; auto with reads.
Qed.

Lemma transaction_store_error {A} (m : M A) w e w' :
  on_store (transaction m) w = (inl e, w') → db (store w') = db (store w) ∧ files w' = files w.
Proof.
  unfold on_store. intros H. injection H as H <-. split; [|done]. simpl.
  eapply transaction_error. by rewrite <-H, <-surjective_pairing.
Qed.

Lemma atomic_publish_run io stage final w bytes :
  files w !! stage = Some bytes →
  atomic_publish io stage final w =
  (inr (io_publish io), if io_publish io then w <| files := <[final := bytes]> (delete stage (files w)) |> else w).
Proof. intros Hf. unfold atomic_publish. rewrite run_file_at, Hf. by destruct (io_publish io), w. Qed.

(** The last steps change neither the database nor the files when they stop. *)
Lemma publish_settled io digest n done_ now w e w' :
  (refuse (negb (io_sync io)) ErrIo;;
   verify_blob (blob_path digest) digest n;;
   on_store (commit_blob digest n done_ now);;
   mret digest) w = (inl e, w') → staging_of w' = staging_of w ∧ files w' = files w.
Proof.
  intros [H|([] & w1 & [_ ->]%refuse_ok & H)]%b_bind_error.
  { by apply on_store_error in H as ->; [|auto with reads]. }
  apply b_bind_error in H as [->%verify_blob_error|([] & w1 & [-> _]%verify_blob_ok & H)]; [done|].
  apply b_bind_error in H as [[Hd Hf]%transaction_store_error|(? & ? & _ & [=])].
  unfold staging_of. by rewrite Hd.
Qed.

(** A new staging row takes an identity and a file name that are free. *)
Lemma insert_staging_ok id row t t' :
  insert_staging id row t = Some t' →
  blob_staging t !! id = None ∧ (∀ other r, blob_staging t !! other = Some r → sg_file_name r ≠ sg_file_name row) ∧
  t' = t <| blob_staging ::= <[id := row]> |>.
Proof.
  unfold insert_staging. destruct (_ && _) eqn:Hc; [|done]. intros [= <-]. split_bools.
  rename select (has_row _ _ = false) into Hrow. apply has_row_false in Hrow. split; [done|]. split; [|done].
  intros other r Hr. rename select (free_of _ _ = true) into Hfree. apply (free_of_spec _ _ _ _ Hfree) in Hr.
  by apply String.eqb_neq in Hr.
Qed.

(** From the staging row on: the only ways to stop are those of the filesystem. *)
Lemma publish_staged io stage bytes digest now done_ w e w' :
  files w !! stage = None → files w !! blob_path digest = None → stage ≠ blob_path digest →
  digest = sha256_hex bytes → io_written io = None →
  (write_stage io stage bytes;;
   verify_blob stage digest (str_len bytes);;
   moved ← atomic_publish io stage (blob_path digest);
   (if moved : bool then mret tt
    else
      raced ← file_at (blob_path digest);
      refuse (bool_decide (raced = None)) ErrIo;;
      verify_blob (blob_path digest) digest (str_len bytes);;
      refuse (negb (io_remove io)) ErrIo;;
      remove_file stage);;
   refuse (negb (io_sync io)) ErrIo;;
   verify_blob (blob_path digest) digest (str_len bytes);;
   on_store (commit_blob digest (str_len bytes) done_ now);;
   mret digest) w = (inl e, w') →
  staging_of w' = staging_of w ∧
  (files w' = files w ∨ files w' = <[stage := bytes]> (files w) ∨
   files w' = <[blob_path digest := bytes]> (files w)).
Proof.
  intros Hfresh Hfinal Hne Hd Hio H.
  apply b_bind_error in H as [H|([] & w1 & Hw & H)].
  { unfold write_stage in H. rewrite run_file_at, Hfresh, Hio in H. apply b_bind_error in H as [H|(? & ? & _ & [=])].
    apply on_store_error in H as ->; [|auto with reads]. split; [done|by left]. }
  assert (w1 = w <| files ::= <[stage := bytes]> |>) as ->.
  { unfold write_stage in Hw. rewrite run_file_at, Hfresh, Hio in Hw. apply b_bind_ok in Hw as ([] & w2 & Hr & Hw).
    apply refuse_ok in Hr as [_ ->]. by injection Hw. }
  assert (∀ w0, files w0 !! stage = Some bytes → verify_blob stage digest (str_len bytes) w0 = (inr tt, w0)) as Hv.
  { intros w0 H0. apply verify_blob_ok. split; [done|]. by exists bytes. }
  erewrite b_bind_run in H by (apply Hv, lookup_insert_eq).
  erewrite b_bind_run in H by (apply atomic_publish_run, lookup_insert_eq).
  destruct (io_publish io).
  - erewrite b_bind_run in H by done. apply publish_settled in H as [Hs Hf]. split; [done|]. right; right.
    rewrite Hf. simpl. by rewrite delete_insert_id.
  - apply b_bind_error in H as [H|(? & ? & H & _)]; rewrite run_file_at in H; simpl in H;
      rewrite lookup_insert_ne, Hfinal in H by done.
    + apply b_bind_error in H as [H|([] & ? & [[=] _]%refuse_ok & _)].
      apply on_store_error in H as ->; [|auto with reads]. split; [done|]. by right; left.
    + apply b_bind_ok in H as ([] & ? & [[=] _]%refuse_ok & _).
Qed.

Lemma publish_interrupted io bytes now w e w' :
  io_written io = None →
  files w !! stage_path (uuid_v4 (entropy (store w)) +:+ ".part") = None →
  publish_blob io bytes now w = (inl e, w') → left_behind bytes now w w'.
Proof.
  intros Hio Hfresh. unfold publish_blob. cbv zeta. intros H.
  apply check_error in H as [->|[[] H]]; [by left| |auto with reads].
  apply check_error in H as [->|[[] H]]; [by left| |auto with reads].
  apply check_error in H as [->|[[] H]]; [by left| |auto with reads].
  rewrite run_file_at in H. destruct (files w !! blob_path _) as [old|] eqn:Hold.
  { left. apply b_bind_error in H as [->%verify_blob_error|([] & w1 & [-> _]%verify_blob_ok & H)]; [done|].
    apply b_bind_error in H as [[Hd Hf]%transaction_store_error|(? & ? & _ & [=])].
    unfold staging_of. by rewrite Hd. }
  apply check_error in H as [->|[[] H]]; [by left| |auto with reads].
  apply b_bind_error in H as [[=]|(id & w1 & [= <- <-] & H)].
  apply b_bind_error in H as [H|([] & w1 & (s1 & Hins & ->)%on_store_ok & H)].
  { left. unfold on_store, execute in H. simpl in H. destruct (set_retention _ _); simpl in H; [discriminate|]. by injection H as _ <-. }
  apply execute_ok in Hins as (d & (t & Hins & ->)%set_retention_ok & ->).
  apply insert_staging_ok in Hins as (Hid & Hname & ->).
  apply publish_staged in H as [Hs Hf]; [|done|done|apply stage_path_not_blob|done|done].
  right. exists (uuid_v4 (entropy (store w))), (uuid_v4 (entropy (store w)) +:+ ".part"). done.
Qed.

(** What a publication that succeeds has done to the rows and the files. *)
Lemma publish_finished `{!ExternalsOk E} io bytes now w digest w' :
  io_written io = None →
  files w !! stage_path (uuid_v4 (entropy (store w)) +:+ ".part") = None →
  publish_blob io bytes now w = (inr digest, w') →
  staging_of w' = staging_of w ∧
  (files w' = files w ∨
   files w !! blob_path (sha256_hex bytes) = None ∧ files w' = <[blob_path (sha256_hex bytes) := bytes]> (files w)).
Proof.
  intros Hio Hfresh. unfold publish_blob. cbv zeta. intros H.
  do 3 (apply b_bind_ok in H as ([] & ? & [_ ->]%on_store_reads & H); [|auto with reads]).
  rewrite run_file_at in H. destruct (files w !! blob_path _) as [old|] eqn:Hold.
  { apply b_bind_ok in H as ([] & w1 & (-> & _)%verify_blob_ok & H).
    apply b_bind_ok in H as ([] & w3 & Hrun & H). apply b_ret_ok in H as [<- <-].
    apply on_store_ok in Hrun as (s & Hrun & ->). rewrite transaction_ok in Hrun.
    apply bind_ok in Hrun as ([] & s1 & H1 & H2).
    apply execute_ok in H1 as (d1 & (t & Ht & ->)%set_retention_ok & ->). apply insert_blob_object_staging in Ht.
    unfold bump_mutation_epoch in H2. apply execute_ok in H2 as (d3 & [= <-] & ->). split; [done|by left]. }
  apply b_bind_ok in H as ([] & w1 & [_ ->]%refuse_ok & H).
  apply b_bind_ok in H as (id & w1 & [= <- <-] & H).
  apply b_bind_ok in H as ([] & w1 & (s1 & Hins & ->)%on_store_ok & H).
  apply execute_ok in Hins as (d & (t & Hins & ->)%set_retention_ok & ->).
  apply insert_staging_ok in Hins as (Hid & Hname & ->).
  pose proof (stage_path_not_blob (uuid_v4 (entropy (store w)) +:+ ".part") (sha256_hex bytes)) as Hne.
  apply b_bind_ok in H as ([] & w1 & Hw & H). unfold write_stage in Hw. rewrite run_file_at in Hw. simpl in Hw.
  rewrite Hfresh, Hio in Hw. apply b_bind_ok in Hw as ([] & w2 & [_ ->]%refuse_ok & [= <-]).
  apply b_bind_ok in H as ([] & w2 & (-> & _)%verify_blob_ok & H).
  erewrite b_bind_run in H by (apply atomic_publish_run, lookup_insert_eq).
  destruct (io_publish io); [|exfalso].
  2:{ apply b_bind_ok in H as ([] & w2 & H & _). rewrite run_file_at in H. simpl in H.
      rewrite lookup_insert_ne, Hold in H by done. by apply b_bind_ok in H as ([] & w3 & [[=] _]%refuse_ok & _). }
  apply b_bind_ok in H as ([] & w2 & [_ <-]%b_ret_ok & H).
  apply b_bind_ok in H as ([] & w2 & [_ ->]%refuse_ok & H).
  apply b_bind_ok in H as ([] & w2 & (-> & _)%verify_blob_ok & H).
  apply b_bind_ok in H as ([] & w2 & Hrun & H). apply b_ret_ok in H as [_ <-].
  apply commit_row in Hrun as (Hf & _ & Hs); [|apply sha256_hex_is_lower|unfold str_len; lia]. split.
  - rewrite Hs. unfold staging_of. simpl. rewrite map_filter_insert_False by (simpl; by rewrite !String.eqb_refl).
    rewrite delete_id by done. apply map_filter_id. intros k r Hk. simpl.
    destruct (String.eqb_spec k (uuid_v4 (entropy (store w)))) as [Hx|]; [|done]. rewrite Hx in Hk.
    cbn in Hid, Hk. unfold staging_of in Hk. congruence.
  - right. split; [done|]. rewrite Hf. simpl. by rewrite delete_insert_id.
Qed.

(** ** Recovery *)

Lemma filter_row_delete {A} (id : string) (m : gmap string A) :
  filter (λ kv, String.eqb kv.1 id = false) m = delete id m.
Proof.
  apply map_eq. intros k. destruct (decide (k = id)) as [->|Hne].
  - rewrite lookup_delete_eq. apply map_lookup_filter_None. right. intros a _. simpl. by rewrite String.eqb_refl.
  - rewrite lookup_delete_ne by done. apply option_eq. intros a. rewrite map_lookup_filter_Some. simpl.
    apply String.eqb_neq in Hne. naive_solver.
Qed.

(** The two statements recovery ends with succeed, remove the row and record the blob. *)
Lemma settle_run id digest n now w :
  ∃ w', on_store (settle_staging id digest n now) w = (inr tt, w') ∧
    files w' = files w ∧ staging_of w' = delete id (staging_of w) ∧
    (is_lower_sha256 digest = true → 0 ≤ n → is_Some (blobs_of w' !! digest)) ∧
    (∀ k, is_Some (blobs_of w !! k) → is_Some (blobs_of w' !! k)).
Proof.
  assert (∃ t, insert_blob_object digest n now (retention (db (store w))) = Some t) as (t & Ht).
  { unfold insert_blob_object. destruct (has_row _ _); [eauto|]. destruct (_ && _); eauto. }
  eexists. split.
  - apply on_store_ok. eexists. split; [|done]. unfold settle_staging. rewrite transaction_ok. apply bind_ok.
    exists tt. eexists. split; [apply execute_ok; eexists; split; [apply set_retention_ok; eauto|done]|].
    apply execute_ok. eexists. split; [apply set_retention_ok; eexists; split; done|done].
  - split; [done|]. unfold staging_of, blobs_of. simpl. rewrite filter_row_delete, (insert_blob_object_staging _ _ _ _ _ Ht).
    split; [done|]. split; [by intros; eapply blob_object_row|]. intros k. by apply (insert_blob_object_keeps _ _ _ _ _ _ Ht).
Qed.
End operations.
