(* ===== verification/Staging.v ===== *)
(** * Interrupted publications: the staging rows and files of a whole run

    What the publications of a run leave for the next start, and what the recovery makes of
    it: an invariant of the staging rows, kept by publications that stop anywhere, by
    recoverings that stop anywhere and by the loss of files, and the run of the recovery on every
    world that has it. *)

From S2P Require Import Prelude Domain Externals Scheduler Improvement Schema StoreMonad Tables.
From S2P Require Import TaskStore Lifecycle Recovery Ledger Carry TaskProofs Retention RetentionProofs Blobs.
From S2P Require Import BlobProofs.

Section staging.
Context `{E : Externals}.

Definition final_of (row : StagingRow) : string := blob_path (sg_expected_hash row).
Definition staged_of (row : StagingRow) : string := stage_path (sg_file_name row).

(** One step of a run: a publication of one of the given contents, whose writes are whole, under a
    staging name that is not in use, and that may fail at any of its other filesystem calls; a
    recovery, which may stop at any of its own; the loss or deletion of a file; anything that
    touches neither staging rows nor files. *)
Inductive publishing (contents : string → Prop) : World → World → Prop :=
  | publishing_blob io bytes now w :
      contents bytes → io_written io = None →
      files w !! stage_path (uuid_v4 (entropy (store w)) +:+ ".part") = None →
      publishing contents w (publish_blob io bytes now w).2
  | publishing_recovery io now w : publishing contents w (recover_staged_blobs io now w).2
  | publishing_removal path w : publishing contents w (w <| files ::= delete path |>)
  | publishing_other w w' : staging_of w' = staging_of w → files w' = files w → publishing contents w w'.

(** No two of these contents have one digest. *)
Definition collision_free (contents : string → Prop) : Prop :=
  ∀ x y, contents x → contents y → sha256_hex x = sha256_hex y → x = y.

Context (contents : string → Prop).

(** The content a staging row stands for. *)
Definition content_of (row : StagingRow) (bytes : string) : Prop :=
  contents bytes ∧ sha256_hex bytes = sg_expected_hash row ∧ str_len bytes = sg_byte_length row.

Record row_ok (w : World) (row : StagingRow) : Prop := {
  ro_bytes : ∃ bytes, content_of row bytes;
  ro_final bytes : files w !! final_of row = Some bytes → content_of row bytes;
  ro_staged bytes : files w !! staged_of row = Some bytes → content_of row bytes;
}.

Record staged_ok (w : World) : Prop := {
  so_rows id row : staging_of w !! id = Some row → row_ok w row;
  so_names i j r s : staging_of w !! i = Some r → staging_of w !! j = Some s →
    sg_file_name r = sg_file_name s → i = j;
}.

Lemma staged_path_inj x y : stage_path x = stage_path y → x = y.
Proof. unfold stage_path. simpl. intros H. by injection H. Qed.

Lemma row_lower `{!ExternalsOk E} w row : row_ok w row → is_lower_sha256 (sg_expected_hash row) = true.
Proof. intros [(b & _ & <- & _) _ _]. apply sha256_hex_is_lower. Qed.

(** The rows of a digest stand for one content. *)
Lemma same_content w row bytes :
  collision_free contents → row_ok w row → contents bytes → sg_expected_hash row = sha256_hex bytes →
  content_of row bytes.
Proof.
  intros Hfree [(b & Hb & Hd & Hl) _ _] Hc Hh. assert (b = bytes) as -> by (apply Hfree; congruence). done.
Qed.

(** Rows may go, and files may go or appear in place as the content their name is the digest of. *)
Lemma staged_ok_shrinks `{!ExternalsOk E} w w' :
  collision_free contents → staged_ok w → staging_of w' ⊆ staging_of w →
  (∀ path bytes, files w' !! path = Some bytes →
     files w !! path = Some bytes ∨ path = blob_path (sha256_hex bytes) ∧ contents bytes) →
  staged_ok w'.
Proof.
  intros Hfree [Hrows Hnames] Hsub Hfiles. split.
  - intros id row Hrow. apply (lookup_weaken _ _ _ _ Hrow) in Hsub. pose proof (Hrows _ _ Hsub) as Hok.
    split; [apply (ro_bytes _ _ Hok)| |].
    + intros bytes [H|[Hp Hc]]%Hfiles; [by apply (ro_final _ _ Hok)|].
      apply (same_content w); [done..|]. apply blob_path_valid; [by eapply row_lower|done].
    + intros bytes [H|[Hp _]]%Hfiles; [by apply (ro_staged _ _ Hok)|]. by apply stage_path_not_blob in Hp.
  - intros i j r s Hi Hj. apply Hnames; by eapply lookup_weaken.
Qed.

(** A publication that stops early. *)
Lemma staged_ok_left_behind `{!ExternalsOk E} bytes now w w' :
  collision_free contents → contents bytes → staged_ok w → left_behind bytes now w w' → staged_ok w'.
Proof.
  intros Hfree Hbytes Hok [[Hs Hf]|(id & name & Hid & Hname & Hs & Hstage & Hfinal & Hf)].
  { apply (staged_ok_shrinks w); [done..|by rewrite Hs|]. intros path b. rewrite Hf. by left. }
  destruct Hok as [Hrows Hnames].
  assert (∀ path b, files w' !! path = Some b →
    files w !! path = Some b ∨ (path = stage_path name ∨ path = blob_path (sha256_hex bytes)) ∧ b = bytes) as Hfiles.
  { intros path b. destruct Hf as [-> | [-> | ->]]; [by left|..]; rewrite lookup_insert_Some; naive_solver. }
  split.
  - rewrite Hs. intros k row [[<- <-]|[Hne Hrow]]%lookup_insert_Some; [split|].
    + by exists bytes.
    + intros b [H|[_ ->]]%Hfiles; [|by split]. unfold final_of in H. simpl in H. congruence.
    + intros b [H|[_ ->]]%Hfiles; [|by split]. unfold staged_of in H. simpl in H. congruence.
    + pose proof (Hrows _ _ Hrow) as Hok. split; [apply (ro_bytes _ _ Hok)|..].
      * intros b [H|[[Hp|Hp] ->]]%Hfiles; [by apply (ro_final _ _ Hok)|by apply eq_sym, stage_path_not_blob in Hp|].
        apply (same_content w); [done..|]. apply blob_path_valid; [by eapply row_lower|done].
      * intros b [H|[[Hp|Hp] ->]]%Hfiles; [by apply (ro_staged _ _ Hok)| |by apply stage_path_not_blob in Hp].
        apply staged_path_inj in Hp. by destruct (Hname _ _ Hrow).
  - rewrite Hs. intros i j r s [[<- <-]|[Hi Hr]]%lookup_insert_Some [[<- <-]|[Hj Hs']]%lookup_insert_Some Heq; try done.
    + simpl in Heq. by destruct (Hname _ _ Hs').
    + simpl in Heq. by destruct (Hname _ _ Hr).
    + by apply (Hnames i j r s).
Qed.

(** ** One row of the recovery *)

(** The staged file, when the blob is not in place yet, is moved there. *)
Definition moved (row : StagingRow) (w w' : World) : Prop :=
  files w' = files w ∨
  ∃ bytes, files w !! final_of row = None ∧ files w !! staged_of row = Some bytes ∧
    files w' = <[final_of row := bytes]> (delete (staged_of row) (files w)).

Lemma verify_blob_cases path digest n w :
  (verify_blob path digest n w = (inr tt, w) ∧
   ∃ bytes, files w !! path = Some bytes ∧ str_len bytes = n ∧ sha256_hex bytes = digest) ∨
  ∃ e, verify_blob path digest n w = (inl e, w).
Proof.
  destruct (verify_blob path digest n w) as [[e|[]] w'] eqn:H.
  - right. exists e. by rewrite (verify_blob_error _ _ _ _ _ _ H).
  - left. apply verify_blob_ok in H as [-> H]. done.
Qed.

Lemma refuse_true e w : refuse true e w = (inl e, w).
Proof. by destruct w. Qed.

Lemma b_bind_left {A C} (m : B A) (f : A → B C) w e w1 : m w = (inl e, w1) → (m ≫= f) w = (inl e, w1).
Proof. unfold mbind, B_bind. by intros ->. Qed.

(** Whatever the filesystem answers, and for any row. *)
Lemma recover_moves io now id row w :
  let w' := (recover_staged_blob io now (id, row) w).2 in
  (staging_of w' = staging_of w ∨ staging_of w' = delete id (staging_of w)) ∧ moved row w w'.
Proof.
  cbv zeta. unfold recover_staged_blob. cbv zeta. fold (final_of row) (staged_of row).
  destruct (sg_byte_length row <? 0) eqn:Hn.
  { erewrite b_bind_left by apply refuse_true. split; by left. }
  rewrite run_refuse by done. rewrite !run_file_at.
  destruct (settle_run id (sg_expected_hash row) (sg_byte_length row) now w) as (ws & Hws & Hf & Hs & _).
  destruct (files w !! final_of row) as [old|] eqn:Hfinal; [|destruct (files w !! staged_of row) as [b|] eqn:Hstaged].
  - destruct (verify_blob_cases (final_of row) (sg_expected_hash row) (sg_byte_length row) w) as [[Hv _]|[e Hv]].
    + erewrite b_bind_run by done. rewrite Hws. simpl. rewrite Hs. split; [by right|by left].
    + erewrite b_bind_left by done. split; by left.
  - destruct (verify_blob_cases (staged_of row) (sg_expected_hash row) (sg_byte_length row) w) as [[Hv _]|[e Hv]].
    2:{ erewrite b_bind_left by done. split; by left. }
    erewrite b_bind_run by done. destruct (negb (io_directories io)) eqn:Hdir.
    { erewrite b_bind_left by apply refuse_true. split; by left. }
    rewrite run_refuse by done. erewrite b_bind_run by (by apply atomic_publish_run). destruct (io_publish io).
    2:{ erewrite b_bind_left by apply refuse_true. split; by left. }
    rewrite run_refuse by done.
    assert (moved row w (w <| files := <[final_of row := b]> (delete (staged_of row) (files w)) |>)) as Hmoved.
    { right. exists b. done. }
    destruct (negb (io_sync io)) eqn:Hsync.
    { erewrite b_bind_left by apply refuse_true. split; [by left|done]. }
    rewrite run_refuse by done.
    destruct (settle_run id (sg_expected_hash row) (sg_byte_length row) now
      (w <| files := <[final_of row := b]> (delete (staged_of row) (files w)) |>)) as (w2 & Hw2 & Hf2 & Hs2 & _).
    rewrite Hw2. simpl. rewrite Hs2. split; [by right|]. unfold moved. by rewrite Hf2.
  - unfold on_store, execute. simpl. unfold staging_of. simpl. rewrite filter_row_delete.
    split; [by right|by left].
Qed.

(** The step the recovery makes of a row, when the filesystem works. *)
Record recovers (id : string) (row : StagingRow) (w w' : World) : Prop := {
  rv_rows : staging_of w' = delete id (staging_of w);
  rv_moved : moved row w w';
  rv_blobs digest : is_Some (blobs_of w !! digest) → is_Some (blobs_of w' !! digest);
  rv_settled : is_Some (files w !! final_of row) ∨ is_Some (files w !! staged_of row) →
    ∃ bytes, files w' !! final_of row = Some bytes ∧ content_of row bytes ∧
      is_Some (blobs_of w' !! sg_expected_hash row);
}.

Lemma recover_run `{!ExternalsOk E} now id row w :
  row_ok w row → ∃ w', recover_staged_blob io_fine now (id, row) w = (inr tt, w') ∧ recovers id row w w'.
Proof.
  intros [(b0 & _ & Hd0 & Hl0) Hfin Hstg]. unfold recover_staged_blob. cbv zeta. fold (final_of row) (staged_of row).
  assert (0 ≤ sg_byte_length row) as Hn by (rewrite <-Hl0; unfold str_len; lia).
  assert (is_lower_sha256 (sg_expected_hash row) = true) as Hlow by (rewrite <-Hd0; apply sha256_hex_is_lower).
  rewrite run_refuse by (by apply Z.ltb_ge). rewrite !run_file_at.
  assert (∀ w0 path b, files w0 !! path = Some b → content_of row b →
    verify_blob path (sg_expected_hash row) (sg_byte_length row) w0 = (inr tt, w0)) as Hv.
  { intros w0 path b Hb (_ & Hd & Hl). apply verify_blob_ok. split; [done|]. by exists b. }
  destruct (files w !! final_of row) as [old|] eqn:Hfinal; [|destruct (files w !! staged_of row) as [b|] eqn:Hstaged].
  - erewrite b_bind_run by (eapply Hv; eauto).
    destruct (settle_run id (sg_expected_hash row) (sg_byte_length row) now w) as (w' & Hrun & Hf & Hs & Hrow & Hk).
    exists w'. split; [exact Hrun|]. split; [done|by left|done|]. intros _. exists old. rewrite Hf. eauto.
  - erewrite b_bind_run by (eapply Hv; eauto). rewrite run_refuse by done.
    erewrite b_bind_run by (by apply atomic_publish_run). simpl negb. rewrite !run_refuse by done.
    destruct (settle_run id (sg_expected_hash row) (sg_byte_length row) now
      (w <| files := <[final_of row := b]> (delete (staged_of row) (files w)) |>)) as (w' & Hrun & Hf & Hs & Hrow & Hk).
    exists w'. split; [exact Hrun|]. split; [done| |done|].
    + right. exists b. by rewrite Hf.
    + intros _. exists b. rewrite Hf. simpl. rewrite lookup_insert_eq. eauto.
  - eexists. split.
    { apply on_store_ok. eexists. split; [|done]. apply execute_ok. eexists.
      split; [apply set_retention_ok; eexists; split; done|done]. }
    split; [|by left|done|intros [[] | []]; congruence]. unfold staging_of. simpl. apply filter_row_delete.
Qed.

(** ** The invariant *)

Lemma moved_ok `{!ExternalsOk E} row w w' :
  collision_free contents → staged_ok w → row_ok w row → staging_of w' ⊆ staging_of w → moved row w w' → staged_ok w'.
Proof.
  intros Hfree Hok Hrow Hsub [Hf|(bytes & _ & Hstaged & Hf)].
  { apply (staged_ok_shrinks w); [done..|]. intros path b. rewrite Hf. by left. }
  apply (ro_staged _ _ Hrow) in Hstaged as (Hc & Hd & _).
  apply (staged_ok_shrinks w); [done..|]. intros path b. rewrite Hf.
  intros [[<- <-]|[_ [_ Hb]%lookup_delete_Some]]%lookup_insert_Some; [right|by left].
  split; [by unfold final_of; rewrite Hd|done].
Qed.

(** The rows of a table, each once. *)
Definition listed (rows : list (string * StagingRow)) (w : World) : Prop :=
  NoDup rows.*1 ∧ ∀ id row, (id, row) ∈ rows → staging_of w !! id = Some row.

Lemma listed_cons id row rows w w1 :
  listed ((id, row) :: rows) w → staging_of w1 = staging_of w ∨ staging_of w1 = delete id (staging_of w) →
  staging_of w !! id = Some row ∧ (∀ k r, (k, r) ∈ rows → k ≠ id ∧ staging_of w !! k = Some r) ∧ listed rows w1.
Proof.
  intros [[Hid Hnd]%NoDup_cons Hin] Hs.
  assert (∀ k r, (k, r) ∈ rows → k ≠ id ∧ staging_of w !! k = Some r) as Hrest.
  { intros k r Hk. split; [|apply Hin; by right]. intros ->. apply Hid, list_elem_of_fmap. by exists (id, r). }
  split; [apply Hin; by left|]. split; [done|]. split; [done|]. intros k r Hk. destruct (Hrest _ _ Hk) as [Hne Hk'].
  destruct Hs as [-> | ->]; [done|by rewrite lookup_delete_ne].
Qed.

Lemma staged_blobs_elem w id row : (id, row) ∈ staged_blobs (db (store w)) ↔ staging_of w !! id = Some row.
Proof. unfold staged_blobs. rewrite sort_by_perm. apply elem_of_map_to_list. Qed.

Lemma staged_blobs_listed w : listed (staged_blobs (db (store w))) w.
Proof.
  split; [|intros id row; apply staged_blobs_elem].
  assert (staged_blobs (db (store w)) ≡ₚ map_to_list (staging_of w)) as -> by apply sort_by_perm.
  apply NoDup_fst_map_to_list.
Qed.

Lemma keeps_rows `{!ExternalsOk E} io now rows w :
  collision_free contents → staged_ok w → listed rows w → staged_ok (each rows (recover_staged_blob io now) w).2.
Proof.
  intros Hfree. revert w. induction rows as [|[id row] rows IH]; intros w Hok Hlisted; [done|]. cbn [each].
  destruct (recover_moves io now id row w) as [Hs Hmoved]. destruct (listed_cons _ _ _ _ _ Hlisted Hs) as (Hrow & _ & Hrest).
  assert (staged_ok (recover_staged_blob io now (id, row) w).2) as Hok1.
  { apply (moved_ok row w); [done|done|by apply (so_rows _ Hok id)| |done]. destruct Hs as [-> | ->]; [done|apply delete_subseteq]. }
  unfold mbind, B_bind. destruct (recover_staged_blob io now (id, row) w) as [[e|[]] w1]; [done|]. by apply IH.
Qed.

Lemma keeps_recovery `{!ExternalsOk E} io now w :
  collision_free contents → staged_ok w → staged_ok (recover_staged_blobs io now w).2.
Proof.
  intros Hfree Hok. unfold recover_staged_blobs. erewrite run_store_reads by (auto with reads || done).
  apply keeps_rows; [done..|apply staged_blobs_listed].
Qed.

Lemma keeps_publication `{!ExternalsOk E} io bytes now w :
  collision_free contents → contents bytes → io_written io = None →
  files w !! stage_path (uuid_v4 (entropy (store w)) +:+ ".part") = None →
  staged_ok w → staged_ok (publish_blob io bytes now w).2.
Proof.
  intros Hfree Hbytes Hio Hfresh Hok. destruct (publish_blob io bytes now w) as [[e|digest] w'] eqn:Hrun; simpl.
  - apply publish_interrupted in Hrun; [|done..]. by apply staged_ok_left_behind in Hrun.
  - apply publish_finished in Hrun as [Hs Hf]; [|done..].
    apply (staged_ok_shrinks w); [done..|by rewrite Hs|]. intros path b.
    destruct Hf as [-> |[_ ->]]; [by left|]. intros [[<- <-]|[_ H]]%lookup_insert_Some; [by right|by left].
Qed.

(** Every run from a world without staging rows has the invariant. *)
Lemma publishing_ok `{!ExternalsOk E} w0 w :
  collision_free contents → staging_of w0 = ∅ → rtc (publishing contents) w0 w → staged_ok w.
Proof.
  intros Hfree Hw0 Hrun. assert (staged_ok w0) as Hok.
  { split; [|intros i j r s]; intros; rewrite Hw0, lookup_empty in *; done. }
  clear Hw0. induction Hrun as [w|w w1 w2 Hstep _ IH]; [done|]. apply IH. clear IH.
  destruct Hstep as [io bytes now w Hbytes Hio Hfresh|io now w|path w|w w' Hs Hf].
  - by apply keeps_publication.
  - by apply keeps_recovery.
  - apply (staged_ok_shrinks w); [done..|]. intros p b. simpl. intros [_ H]%lookup_delete_Some. by left.
  - apply (staged_ok_shrinks w); [done..|by rewrite Hs|]. intros p b. rewrite Hf. by left.
Qed.

(** ** The run of the recovery *)

(** What recovering these rows makes of the world: their rows are gone, nothing that was in place is
    lost, whatever was published or completely staged is in place and recorded, and nothing else
    appears. *)
Record recovered (rows : list (string * StagingRow)) (w w' : World) : Prop := {
  rc_rows id r : staging_of w' !! id = Some r → staging_of w !! id = Some r ∧ id ∉ rows.*1;
  rc_kept digest bytes : files w !! blob_path digest = Some bytes → files w' !! blob_path digest = Some bytes;
  rc_blobs digest : is_Some (blobs_of w !! digest) → is_Some (blobs_of w' !! digest);
  rc_staged name : (∀ id row, (id, row) ∈ rows → sg_file_name row ≠ name) →
    files w' !! stage_path name = files w !! stage_path name;
  rc_new path bytes : files w' !! path = Some bytes → files w !! path = Some bytes ∨
    ∃ id row, (id, row) ∈ rows ∧ path = final_of row ∧ files w !! staged_of row = Some bytes;
  rc_settled id row : (id, row) ∈ rows →
    is_Some (files w !! final_of row) ∨ is_Some (files w !! staged_of row) →
    ∃ bytes, files w' !! final_of row = Some bytes ∧ content_of row bytes ∧
      is_Some (blobs_of w' !! sg_expected_hash row);
}.

Lemma recovers_files id row w w' :
  recovers id row w w' →
  (∀ digest bytes, files w !! blob_path digest = Some bytes → files w' !! blob_path digest = Some bytes) ∧
  (∀ name, sg_file_name row ≠ name → files w' !! stage_path name = files w !! stage_path name) ∧
  (∀ path bytes, files w' !! path = Some bytes → files w !! path = Some bytes ∨
     path = final_of row ∧ files w !! staged_of row = Some bytes).
Proof.
  intros [_ [Hf|(b & Hfin & Hstg & Hf)] _ _]; rewrite Hf; [by split_and!; [..|by left]|]. split_and!.
  - intros digest bytes Hb. rewrite lookup_insert_ne by congruence.
    rewrite lookup_delete_ne by apply stage_path_not_blob. done.
  - intros name Hne. rewrite lookup_insert_ne by (intros H; by apply eq_sym, stage_path_not_blob in H).
    rewrite lookup_delete_ne; [done|]. intros H. by apply staged_path_inj in H.
  - intros path bytes [[<- <-]|[_ [_ H]%lookup_delete_Some]]%lookup_insert_Some; [by right|by left].
Qed.

Lemma recovered_nil w : recovered [] w w.
Proof. split; try done; [intros; split; [done|set_solver]|by left|set_solver]. Qed.

Lemma recovered_cons id row rows w w1 w2 :
  recovers id row w w1 → recovered rows w1 w2 → (∀ k r, (k, r) ∈ rows → sg_file_name r ≠ sg_file_name row) →
  recovered ((id, row) :: rows) w w2.
Proof.
  intros Hone [Hrows Hkept Hblobs Hstaged Hnew Hsettled] Hnames.
  pose proof (recovers_files _ _ _ _ Hone) as (Hkept1 & Hstaged1 & Hnew1). destruct Hone as [Hrows1 _ Hblobs1 Hsettled1].
  split.
  - intros k r [Hk Hin]%Hrows. rewrite Hrows1 in Hk. apply lookup_delete_Some in Hk as [Hne Hk].
    split; [done|]. simpl. set_solver.
  - intros digest bytes Hb. by apply Hkept, Hkept1.
  - intros digest Hb. by apply Hblobs, Hblobs1.
  - intros name Hname. rewrite Hstaged by (intros k r Hin; apply (Hname k); by right).
    apply Hstaged1, (Hname id). by left.
  - intros path bytes [[H|[-> H]]%Hnew1|(k & r & Hin & -> & H)]%Hnew; [by left| |].
    + right. exists id, row. split; [by left|done].
    + right. exists k, r. split; [by right|]. split; [done|]. unfold staged_of in *. rewrite Hstaged1 in H; [done|].
      intros Heq. by apply (Hnames k r).
  - intros k r [[= -> ->]|Hin]%elem_of_cons Hpresent.
    + destruct (Hsettled1 Hpresent) as (bytes & Hf & Hc & Hb). exists bytes. split; [by apply Hkept|]. split; [done|by apply Hblobs].
    + apply (Hsettled k); [done|]. destruct Hpresent as [[b Hb]|Hb].
      * left. exists b. by apply Hkept1.
      * right. unfold staged_of in *. rewrite Hstaged1; [done|]. intros Heq. by apply (Hnames k r).
Qed.

Lemma recover_rows `{!ExternalsOk E} now rows w :
  collision_free contents → staged_ok w → listed rows w →
  ∃ w', each rows (recover_staged_blob io_fine now) w = (inr tt, w') ∧ recovered rows w w'.
Proof.
  intros Hfree. revert w. induction rows as [|[id row] rows IH]; intros w Hok Hlisted.
  { exists w. split; [done|apply recovered_nil]. }
  assert (row_ok w row) as Hrow by (apply (so_rows _ Hok id), Hlisted; by left).
  destruct (recover_run now id row w Hrow) as (w1 & Hrun & Hone). pose proof (rv_rows _ _ _ _ Hone) as Hs.
  destruct (listed_cons _ _ _ _ w1 Hlisted) as (Hid & Hrest & Hlisted1); [by right|].
  assert (staged_ok w1) as Hok1.
  { apply (moved_ok row w); [done..|rewrite Hs; apply delete_subseteq|apply (rv_moved _ _ _ _ Hone)]. }
  destruct (IH w1 Hok1 Hlisted1) as (w2 & Hrun2 & Hrec).
  exists w2. split; [cbn [each]; by erewrite b_bind_run|]. apply (recovered_cons id row rows w w1 w2); [done..|].
  intros k r Hk Heq. destruct (Hrest _ _ Hk) as [Hne Hk']. apply Hne. by apply (so_names _ Hok k id r row).
Qed.

(** The recovery of everything that is staged. *)
Lemma recover_all `{!ExternalsOk E} now w :
  collision_free contents → staged_ok w →
  ∃ w', recover_staged_blobs io_fine now w = (inr tt, w') ∧ staging_of w' = ∅ ∧
    recovered (staged_blobs (db (store w))) w w'.
Proof.
  intros Hfree Hok.
  destruct (recover_rows now (staged_blobs (db (store w))) w Hfree Hok) as (w' & Hrun & Hrec); [apply staged_blobs_listed|].
  exists w'. split; [unfold recover_staged_blobs; by erewrite run_store_reads by (auto with reads || done)|].
  split; [|done]. apply map_empty. intros id. destruct (staging_of w' !! id) as [r|] eqn:Hr; [|done].
  apply (rc_rows _ _ _ Hrec) in Hr as [Hr Hnot]. destruct Hnot. apply list_elem_of_fmap. exists (id, r).
  split; [done|by apply staged_blobs_elem].
Qed.
End staging.
