(* ===== verification/StartupProofs.v ===== *)
(** * Opening a store: soundness and what the checks establish *)

From S2P Require Import Prelude Domain Externals Protocol Scheduler Improvement Schema StoreMonad.
From S2P Require Import Tables TaskStore Lifecycle InteractionStore Recovery Review EngineStore.
From S2P Require Import Ledger Carry TaskProofs RecoveryProofs EngineProofs Integrity.
From S2P Require Import Retention RetentionProofs Blobs BlobProofs Startup.

Section checks.
Context `{E : Externals}.

Lemma reads_verify_request_row row : reads (verify_mandatory_request row).
Proof. destruct row as [id t]. unfold verify_mandatory_request. repeat reads_step. Qed.

Lemma evidence_load_reads missing id : reads (load_evidence missing id).
Proof.
  unfold load_evidence, validate_interaction_response_metadata, build_interaction_response_evidence.
  repeat reads_step.
Qed.

Lemma reads_response_binding ev : reads (verify_interaction_response_command_binding ev).
Proof. unfold verify_interaction_response_command_binding. repeat reads_step. Qed.

Lemma reads_verify_interaction row : reads (verify_interaction row).
Proof.
  destruct row as [[id i] a]. unfold verify_interaction, validate_interaction_metadata.
  repeat first [apply evidence_load_reads|apply reads_response_binding|reads_step].
Qed.

Lemma review_check_reads row : reads (verify_review row).
Proof. destruct row as [[c id] o]. unfold verify_review, verify_review_command_binding. repeat reads_step. Qed.

Lemma reads_request_check : reads verify_mandatory_task_requests.
Proof. unfold verify_mandatory_task_requests. repeat (apply reads_verify_request_row || reads_step). Qed.

Lemma reads_interaction_check : reads verify_interaction_evidence.
Proof. unfold verify_interaction_evidence. repeat (apply reads_verify_interaction || reads_step). Qed.

Lemma reads_review_check : reads verify_review_evidence.
Proof. unfold verify_review_evidence. repeat (apply review_check_reads || reads_step). Qed.

Context `{!Serde ImprovementEngine}.

Lemma sound_reads {A} (m : M A) : reads m → drives sound (on_store m).
Proof. apply drives_reads; apply _. Qed.

Lemma sound_mandatory_blobs : drives sound verify_mandatory_blob_refs.
Proof.
  unfold verify_mandatory_blob_refs. refine (drives_bind sound _ _ _ _); [apply sound_reads; auto with reads|].
  intros rows. refine (drives_each sound _ _ _). intros row.
  refine (drives_bind sound _ _ _ _); [apply sound_reads; auto with reads|]. intros _.
  apply drives_verify_blob; apply _.
Qed.

Lemma sound_startup migrations quick foreign io now : drives sound (startup_integrity_check migrations quick foreign io now).
Proof.
  unfold startup_integrity_check.
  repeat (refine (drives_bind sound _ _ _ _); [|intros _]).
  - apply sound_reads. destruct migrations; auto with reads.
  - apply sound_reads, reads_integrity_check.
  - apply sound_reads; auto with reads.
  - apply sound_recover.
  - apply sound_mandatory_blobs.
  - apply sound_reads, reads_request_check.
  - apply sound_reads, reads_interaction_check.
  - apply sound_reads, reads_review_check.
  - apply sound_reads, reads_load_optional.
  - apply sound_on_store, safe_replay_projections.
Qed.

Lemma safe_lease_epoch now : moves safe (execute (next_lease_epoch now)).
Proof. apply moves_of_execute, safe_execute. intros d d' [= <-]. by apply safe_core. Qed.

(** The settings of the process are no part of the database. *)
Lemma moves_set_policy p : moves safe (set_policy p).
Proof. intros s. reflexivity. Qed.

Lemma sound_open policy reserve existed created migrations quick foreign io now :
  drives sound (open_with_filesystem policy reserve existed created migrations quick foreign io now).
Proof.
  unfold open_with_filesystem. refine (drives_bind sound _ _ _ _); [apply sound_on_store, safe_lease_epoch|intros _].
  refine (drives_bind sound _ _ _ _); [|intros _; apply sound_startup]. apply sound_on_store.
  destruct policy as [p|]; unfold opening_latch;
    repeat first [apply moves_set_policy|apply moves_set_emergency|carry_step].
Qed.

(** ** What the checks establish *)

Definition request_bound (d : Db) (id : string) (t : Task) : Prop :=
  ∃ r, task_requests d !! id = Some r ∧ rq_request_digest r = t_request_digest t ∧
    sha256_hex (rq_request_bytes r) = t_request_digest t ∧ rq_byte_length r = str_len (rq_request_bytes r) ∧
    0 < str_len (rq_request_bytes r) ≤ MAX_CANONICAL_TASK_REQUEST_BYTES.

Lemma request_check_ok s s' id t :
  verify_mandatory_task_requests s = (inr tt, s') → tasks (db s) !! id = Some t →
  TaskState.is_terminal (t_state t) = false → request_bound (db s) id t.
Proof.
  unfold verify_mandatory_task_requests. intros H Ht Hnt.
  apply bind_reads_ok in H as (rows & [-> _]%query_ok & H); [|auto with reads].
  apply (for_each_reads _ _ _ _ (id, t)) in H; [|apply reads_verify_request_row|by apply select_elem; rewrite Hnt].
  unfold verify_mandatory_request in H. apply bind_reads_ok in H as (o & [-> _]%query_ok & H); [|auto with reads].
  apply bind_reads_ok in H as (r & [Hr _]%some_or_ok & H); [|auto with reads]. cbv zeta in H.
  apply bind_reads_ok in H as ([] & [Hl _]%refuse_if_ok & H); [|auto with reads].
  apply refuse_if_ok in H as [Hd _]. split_bools. exists r. split_and!; [done|done|congruence|lia|lia|lia].
Qed.

(** The class, the versions and the adapter an interaction was opened with. *)
Definition interaction_metadata (i : InteractionRow) (a : AttemptRow) : Prop :=
  (∃ text class, i_capability_class i = Some text ∧ InteractionCapabilityClass.from_str text = inr class) ∧
  (∃ version, i_config_version i = Some version ∧ 0 < version) ∧
  (∃ version, i_policy_version i = Some version ∧ 0 < version) ∧ a_adapter_instance_id a ≠ "".

(** The stored response is canonical, intact and of the recorded kind, and it is the response of
    the one recorded command about the interaction: that command, put together from the durable
    rows, has the digest under which it was accepted. *)
Definition response_evidence (d : Db) (id : string) (i : InteractionRow) (r : ResponseRow) : Prop :=
  ∃ text kind bytes key response canonical parsed,
    r_consumer_id r ≠ "" ∧
    r_response_kind r = Some text ∧ InteractionResponseKind.from_str text = inr kind ∧
    r_response_bytes r = Some bytes ∧ r_byte_length r = Some (str_len bytes) ∧
    1 ≤ str_len bytes ≤ MAX_INTERACTION_RESPONSE_BYTES ∧
    r_response_digest r = Some (hash_bytes bytes) ∧ r_decision_digest r = hash_bytes bytes ∧
    parse_canonical_interaction_response bytes = Some kind ∧ json_from_str bytes = Some response ∧
    canonicalize (response_command key i id response) = inr canonical ∧
    parse_interaction_response_command canonical = Some parsed ∧
    rc_response_kind parsed = kind ∧ rc_response_bytes parsed = bytes ∧
    bindings d (r_consumer_id r) "interaction_response" id = [(key, hash_bytes canonical)].

Definition interaction_bound (d : Db) (id : string) (i : InteractionRow) (a : AttemptRow) : Prop :=
  interaction_metadata i a ∧
  if decide (i_state i = IAnswered)
  then ∃ r, interaction_responses d !! id = Some r ∧ response_evidence d id i r
  else interaction_responses d !! id = None.

Lemma metadata_check_ok id i a s s' :
  validate_interaction_metadata id (i_capability_class i) (i_config_version i) (i_policy_version i)
    (a_adapter_instance_id a) s = (inr tt, s') → interaction_metadata i a.
Proof.
  unfold validate_interaction_metadata. intros [H _]%refuse_if_ok. split_bools. unfold interaction_metadata, is_none_or in *.
  destruct (i_capability_class i) as [text|]; [|done].
  destruct (InteractionCapabilityClass.from_str text) as [|class] eqn:Hclass; [done|].
  destruct (i_config_version i) as [v|]; [|done]. destruct (i_policy_version i) as [w|]; [|done].
  split_and!; [by exists text, class|exists v; split; [done|lia]|exists w; split; [done|lia]|done].
Qed.

(** What a loaded response has been checked for. *)
Lemma load_evidence_ok missing id s ev s' :
  load_evidence missing id s = (inr ev, s') →
  ∃ r text, interaction_responses (db s) !! id = Some r ∧ ev_interaction_id ev = id ∧
    ev_consumer_id ev = r_consumer_id r ∧ r_consumer_id r ≠ "" ∧
    r_response_kind r = Some text ∧ InteractionResponseKind.from_str text = inr (ev_response_kind ev) ∧
    r_response_bytes r = Some (ev_bytes ev) ∧ r_byte_length r = Some (str_len (ev_bytes ev)) ∧
    1 ≤ str_len (ev_bytes ev) ≤ MAX_INTERACTION_RESPONSE_BYTES ∧
    r_response_digest r = Some (hash_bytes (ev_bytes ev)) ∧ r_decision_digest r = hash_bytes (ev_bytes ev) ∧
    parse_canonical_interaction_response (ev_bytes ev) = Some (ev_response_kind ev).
Proof.
  unfold load_evidence. intros H. apply bind_reads_ok in H as (row & [-> _]%query_ok & H); [|auto with reads].
  apply bind_reads_ok in H as ([state response] & [Hrow _]%some_or_ok & H); [|auto with reads].
  unfold response_metadata in Hrow. apply bind_Some in Hrow as (i & Hi & [= <- <-]).
  cbv beta iota in H. apply bind_reads_ok in H as ([[[consumer kind] len] digest] & Hmeta & H);
    [|unfold validate_interaction_response_metadata; repeat reads_step].
  cbv beta iota in H. apply bind_reads_ok in H as (obytes & [-> _]%query_ok & H); [|auto with reads].
  unfold validate_interaction_response_metadata in Hmeta.
  apply bind_reads_ok in Hmeta as ([] & _ & Hmeta); [|auto with reads].
  apply bind_reads_ok in Hmeta as ([[[r text] len'] digest'] & [Hr _]%some_or_ok & Hmeta); [|auto with reads].
  apply bind_Some in Hr as (r' & Hr & H1). apply bind_Some in H1 as (k' & Hk & H1).
  apply bind_Some in H1 as (l' & Hl & H1). apply bind_Some in H1 as (d' & Hd & [= -> -> -> ->]).
  cbv beta iota in Hmeta. apply bind_reads_ok in Hmeta as ([] & [Hlen _]%refuse_if_ok & Hmeta); [|auto with reads].
  apply bind_reads_ok in Hmeta as (kind' & Hkind & Hmeta); [|auto with reads].
  apply bind_reads_ok in Hmeta as ([] & [Hdec _]%refuse_if_ok & Hmeta); [|auto with reads].
  apply ret_ok in Hmeta as [[= <- <- <- <-] _].
  unfold build_interaction_response_evidence in H.
  apply bind_reads_ok in H as (bytes & [Hbytes _]%some_or_ok & H); [|auto with reads].
  apply bind_reads_ok in H as ([] & [Hint _]%refuse_if_ok & H); [|auto with reads].
  apply bind_reads_ok in H as (decoded & [Hdecoded _]%some_or_ok & H); [|auto with reads].
  apply bind_reads_ok in H as ([] & [Hsame _]%refuse_if_ok & H); [|auto with reads]. apply ret_ok in H as [<- _].
  rewrite Hr in Hbytes. simpl in *. unfold between in Hlen. split_bools.
  destruct (InteractionResponseKind.from_str text) as [|k] eqn:Hfrom in Hkind; [by apply fail_ok in Hkind|].
  apply ret_ok in Hkind as [-> _]. exists r, text. subst.
  split_and!; try done; try congruence; try lia.
Qed.

Lemma response_binding_ok ev s s' :
  verify_interaction_response_command_binding ev s = (inr tt, s') →
  ∃ i key response canonical parsed, pending_interactions (db s) !! ev_interaction_id ev = Some i ∧
    json_from_str (ev_bytes ev) = Some response ∧
    canonicalize (response_command key i (ev_interaction_id ev) response) = inr canonical ∧
    parse_interaction_response_command canonical = Some parsed ∧
    rc_response_kind parsed = ev_response_kind ev ∧ rc_response_bytes parsed = ev_bytes ev ∧
    bindings (db s) (ev_consumer_id ev) "interaction_response" (ev_interaction_id ev) = [(key, hash_bytes canonical)].
Proof.
  unfold verify_interaction_response_command_binding. cbv zeta. intros H.
  apply bind_reads_ok in H as (o & [-> _]%query_ok & H); [|auto with reads].
  apply bind_reads_ok in H as (i & [Hi _]%some_or_ok & H); [|auto with reads].
  apply bind_reads_ok in H as (bound & [-> _]%query_ok & H); [|auto with reads].
  destruct (bindings _ _ _ _) as [|[key digest] [|]] eqn:Hb in H; try by inv_ok H.
  apply bind_ok in H as (p & s1 & [<- <-]%ret_ok & H). cbv beta iota in H.
  apply bind_reads_ok in H as ([] & _ & H); [|auto with reads].
  apply bind_reads_ok in H as (response & [Hresponse _]%some_or_ok & H); [|auto with reads].
  apply bind_reads_ok in H as (canonical & Hcan & H); [|auto with reads].
  destruct (canonicalize _) as [|canonical'] eqn:Hcanon in Hcan; [by apply fail_ok in Hcan|].
  apply ret_ok in Hcan as [-> _]. apply bind_reads_ok in H as (parsed & [Hparsed _]%some_or_ok & H); [|auto with reads].
  apply refuse_if_ok in H as [Hp _]. split_bools. subst digest.
  exists i, key, response, canonical, parsed. done.
Qed.

Lemma evidence_rows_elem d id i a : (id, i, a) ∈ evidence_rows d → pending_interactions d !! id = Some i.
Proof.
  unfold evidence_rows. intros ([k x] & Hk%elem_of_map_to_list & H)%list_elem_of_omap. simpl in H.
  apply bind_Some in H as (b & _ & H). by case_match; simplify_eq.
Qed.

Lemma interaction_check_ok s s' id i a :
  verify_interaction_evidence s = (inr tt, s') → (id, i, a) ∈ evidence_rows (db s) →
  interaction_bound (db s) id i a.
Proof.
  unfold verify_interaction_evidence. intros H Hin. pose proof (evidence_rows_elem _ _ _ _ Hin) as Hi.
  apply bind_reads_ok in H as (rows & [-> _]%query_ok & H); [|auto with reads].
  apply (for_each_reads _ _ _ _ (id, i, a)) in H; [|apply reads_verify_interaction|done].
  unfold verify_interaction in H. apply bind_reads_ok in H as ([] & Hmeta & H);
    [|unfold validate_interaction_metadata; auto with reads].
  apply bind_reads_ok in H as (b & [-> _]%query_ok & H); [|auto with reads].
  split; [by eapply metadata_check_ok|]. unfold has_row in H. case_bool_decide as Hst; case_decide; try done.
  - apply bind_reads_ok in H as ([] & _ & H); [|auto with reads].
    apply bind_reads_ok in H as (ev & Hev & H); [|apply evidence_load_reads].
    apply load_evidence_ok in Hev as (r & text & Hr & Hid & Hc & ? & ? & ? & ? & ? & ? & ? & ? & ?).
    apply response_binding_ok in H as (i' & key & response & canonical & parsed & Hi' & ? & ? & ? & ? & ? & ?).
    rewrite Hid, Hc in *. assert (i' = i) as -> by congruence. exists r. split; [done|].
    exists text, (ev_response_kind ev), (ev_bytes ev), key, response, canonical, parsed. done.
  - apply refuse_if_ok in H as [Hb _]. apply bool_decide_eq_false in Hb. by apply eq_None_not_Some.
Qed.

Definition review_bound (d : Db) (consumer id : string) (o : OutboxRow) : Prop :=
  match ob_acked_at o with
  | None => ob_review_id o = None
  | Some _ =>
      ∃ review_id r key canonical parsed,
        ob_review_id o = Some review_id ∧ review_id ≠ "" ∧ reviews d !! review_id = Some r ∧
        rv_consumer_id r = consumer ∧ rv_task_id r = id ∧ diagnosis_ok (rv_diagnosis_ref r) = true ∧
        canonicalize (review_command key id (ob_result_id o) (ob_ack_token o) (rv_verdict r)
          (rv_diagnosis_ref r)) = inr canonical ∧ hash_bytes canonical = rv_review_digest r ∧
        parse_review_ack_command canonical = Some parsed ∧ ra_command_key parsed = key ∧
        ra_task_id parsed = id ∧ ra_result_id parsed = ob_result_id o ∧ ra_result_version parsed = 1 ∧
        ra_ack_token parsed = ob_ack_token o ∧ rv_verdict r = ReviewVerdict.as_str (ra_verdict parsed) ∧
        ra_diagnosis parsed = rv_diagnosis_ref r ∧
        bindings d consumer "review_ack" (ob_result_id o) = [(key, rv_review_digest r)]
  end.

Lemma review_check_ok s s' consumer id o :
  verify_review_evidence s = (inr tt, s') → result_outbox (db s) !! (consumer, id) = Some o →
  review_bound (db s) consumer id o.
Proof.
  unfold verify_review_evidence. intros H Ho.
  apply bind_reads_ok in H as (rows & [-> _]%query_ok & H); [|auto with reads].
  apply (for_each_reads _ _ _ _ ((consumer, id), o)) in H; [|apply review_check_reads|by apply elem_of_map_to_list].
  unfold verify_review in H. cbv zeta in H. apply bind_reads_ok in H as (rv & [-> _]%query_ok & H); [|auto with reads].
  unfold review_bound. destruct (ob_acked_at o) as [at_|].
  2:{ apply refuse_if_ok in H as [Hb _]. split_bools. by apply eq_None_not_Some. }
  apply bind_reads_ok in H as (review_id & [Hid _]%some_or_ok & H); [|auto with reads].
  apply bind_reads_ok in H as (r & [Hr _]%some_or_ok & H); [|auto with reads]. rewrite Hid in Hr. simpl in Hr.
  apply bind_reads_ok in H as ([] & [Hc _]%refuse_if_ok & H); [|auto with reads].
  apply bind_reads_ok in H as ([] & [Hdiag _]%refuse_if_ok & H); [|auto with reads].
  unfold verify_review_command_binding in H. apply bind_reads_ok in H as (bound & [-> _]%query_ok & H); [|auto with reads].
  destruct (bindings _ _ _ _) as [|[key digest] [|]] eqn:Hb in H; try by inv_ok H.
  apply bind_ok in H as (p & s1 & [<- <-]%ret_ok & H). cbv beta iota in H.
  apply bind_reads_ok in H as ([] & [Hdg _]%refuse_if_ok & H); [|auto with reads].
  apply bind_reads_ok in H as (canonical & Hcan & H); [|auto with reads].
  destruct (canonicalize _) as [|canonical'] eqn:Hcanon in Hcan; [by apply fail_ok in Hcan|].
  apply ret_ok in Hcan as [-> _]. apply bind_reads_ok in H as (parsed & [Hparsed _]%some_or_ok & H); [|auto with reads].
  apply refuse_if_ok in H as [Hp _]. split_bools.
  assert (ra_ack_token parsed = ob_ack_token o) as Htoken by by apply constant_time_eq_true.
  exists review_id, r, key, canonical, parsed.
  assert (diagnosis_ok (rv_diagnosis_ref r) = true) as Hd by by destruct (diagnosis_ok _).
  split_and!; try done; congruence.
Qed.

(** ** Replaying the projections keeps the evidence *)

(** Only task rows change, and none of them is created, decided or reopened. *)
Record replayed (d d' : Db) : Prop := {
  rp_tasks id t' : tasks d' !! id = Some t' → ∃ t, tasks d !! id = Some t ∧
    t_request_digest t' = t_request_digest t ∧
    TaskState.is_terminal (t_state t') = TaskState.is_terminal (t_state t);
  rp_requests : task_requests d' = task_requests d;
  rp_attempts : attempts d' = attempts d;
  rp_interactions : pending_interactions d' = pending_interactions d;
  rp_responses : interaction_responses d' = interaction_responses d;
  rp_outbox : result_outbox d' = result_outbox d;
  rp_reviews : reviews d' = reviews d;
  rp_commands : command_dedup d' = command_dedup d;
  rp_blobs : blob_refs d' = blob_refs d;
  rp_retention : retention d' = retention d;
}.

#[export] Instance replayed_preorder : PreOrder replayed.
Proof.
  split; [intros d; split; eauto|]. intros d1 d2 d3 [H1] [H2]. split; try congruence. intros id t3 H3.
  destruct (H2 _ _ H3) as (t2 & Ht2 & Hd2 & Hs2). destruct (H1 _ _ Ht2) as (t1 & Ht1 & Hd1 & Hs1).
  exists t1. split_and!; congruence.
Qed.

Lemma replayed_update id state n now d d' :
  TaskState.is_terminal state = false →
  update_task true id (λ _, true) (λ x, x <| t_state := state |> <| t_projection_event_seq := n |>
    <| t_updated_at := now |>) d = Some d' → replayed d d'.
Proof.
  intros Hst. unfold update_task. destruct (tasks d !! id) as [t|] eqn:Ht; [|by intros [= <-]].
  destruct (TaskState.is_terminal (t_state t)) eqn:Hterm; simpl; [done|].
  destruct (task_check _); simpl; [|done]. intros [= <-]. split; try done. simpl. intros id' t'.
  intros [[<- <-]|[_ Hx]]%lookup_insert_Some; [|eauto]. exists t. simpl. rewrite Hst, Hterm. done.
Qed.

Lemma replayed_projections now : moves_ok replayed (replay_projections now).
Proof.
  unfold replay_projections. apply moves_ok_bind; try apply _; [apply moves_moves_ok; moves_leaf|]. intros rows.
  apply moves_ok_for_each; try apply _. intros [id t]. unfold replay_projection.
  destruct (negb _); [apply moves_moves_ok; moves_leaf|].
  apply moves_ok_bind; try apply _; [apply moves_moves_ok; moves_leaf|]. intros derived.
  apply moves_ok_bind; try apply _; [apply moves_moves_ok; unfold lift; destruct derived; moves_leaf|].
  intros [[state g] last]. apply moves_ok_refuse_if; try apply _. intros _.
  destruct (_ && _); [apply moves_moves_ok; moves_leaf|]. apply moves_ok_refuse_if; try apply _. intros Hnt.
  apply orb_false_iff in Hnt as [_ Hnt]. apply moves_ok_bind; try apply _; [|intros _].
  - apply moves_moves_ok, moves_execute; try apply _. intros d d'. by apply replayed_update.
  - apply moves_moves_ok, moves_execute; try apply _. intros d d' [= <-]. by split; eauto.
Qed.

(** ** The files of the mandatory blobs *)

Definition blob_present (w : World) (hash : string) (row : BlobRow) : Prop :=
  ∃ bytes, files w !! blob_path hash = Some bytes ∧ sha256_hex bytes = hash ∧ str_len bytes = bo_byte_length row.

Lemma mandatory_blobs_ok w w' :
  verify_mandatory_blob_refs w = (inr tt, w') →
  w' = w ∧ ∀ hash row, (hash, row) ∈ mandatory_blobs (db (store w)) → blob_present w hash row.
Proof.
  unfold verify_mandatory_blob_refs. intros H. apply b_bind_ok in H as (rows & w1 & Hq & H).
  apply on_store_reads in Hq as [[= <-] ->]; [|auto with reads].
  generalize dependent (mandatory_blobs (db (store w))). intros rows H. clear -H.
  revert H. induction rows as [|[hash row] rows IH]; cbn [each]; intros H.
  { apply b_ret_ok in H as [_ <-]. split; [done|]. set_solver. }
  apply b_bind_ok in H as ([] & w1 & Hv & H). apply b_bind_ok in Hv as ([] & w2 & [_ ->]%refuse_ok & Hv).
  apply verify_blob_ok in Hv as (-> & bytes & Hf & Hl & Hd). apply IH in H as [-> Hrows]. split; [done|].
  intros hash' row' [[= -> ->]|Hin]%elem_of_cons; [by exists bytes|by apply Hrows].
Qed.

(** A successful check was run on the world it leaves behind. *)
Lemma checked {A C} (m : M A) (f : A → B C) w c w' :
  reads m → (on_store m ≫= f) w = (inr c, w') → ∃ a, m (store w) = (inr a, store w) ∧ f a w = (inr c, w').
Proof.
  intros Hm (a & w1 & H1 & H)%b_bind_ok. apply on_store_reads in H1 as [Ha ->]; [|done]. exists a. split; [|done].
  destruct (m (store w)) as [r s] eqn:Heq. simpl in Ha. subst r. by rewrite (reads_ok _ _ _ _ Hm Heq).
Qed.

Lemma startup_ok migrations quick foreign io now w w' :
  startup_integrity_check migrations quick foreign io now w = (inr tt, w') →
  ∃ w1, verify_mandatory_task_requests (store w1) = (inr tt, store w1) ∧
    verify_interaction_evidence (store w1) = (inr tt, store w1) ∧
    verify_review_evidence (store w1) = (inr tt, store w1) ∧
    (∀ hash row, (hash, row) ∈ mandatory_blobs (db (store w1)) → blob_present w1 hash row) ∧
    files w' = files w1 ∧ replayed (db (store w1)) (db (store w')).
Proof.
  unfold startup_integrity_check. intros H. do 2 (apply b_bind_ok in H as (? & ? & _ & H)).
  apply b_bind_ok in H as (? & ? & _ & H). apply b_bind_ok in H as (? & w1 & _ & H).
  apply b_bind_ok in H as ([] & w2 & [-> Hblobs]%mandatory_blobs_ok & H).
  apply checked in H as ([] & Hreq & H); [|apply reads_request_check].
  apply checked in H as ([] & Hint & H); [|apply reads_interaction_check].
  apply checked in H as ([] & Hrev & H); [|apply reads_review_check].
  apply checked in H as (engine & _ & H); [|apply reads_load_optional].
  apply on_store_ok in H as (s & Hrep & ->). exists w1. split_and!; try done. simpl.
  by eapply replayed_projections.
Qed.
End checks.
