(* ===== verification/Compaction.v ===== *)
(** * Collection: what marking garbage may forget and mark

    The loop over the compactable tasks, the batch of candidates and their marks, put
    together into the effect of [mark_retention_gc] on the whole database. *)

From S2P Require Import Prelude Domain Externals Improvement Schema StoreMonad Tables TaskStore.
From S2P Require Import Lifecycle Recovery Ledger Carry TaskProofs Integrity Retention RetentionProofs.

(** ** Files kept *)

(** Nothing recorded on any task changed. *)
Record keeps_files (d d' : Db) : Prop := {
  kf_files id : case_file d' id = case_file d id;
  kf_tombstones : task_tombstones d' = task_tombstones d;
  kf_commands : command_dedup d' = command_dedup d;
}.

#[export] Instance keeps_files_preorder : PreOrder keeps_files.
Proof.
  split; [done|]. intros d1 d2 d3 [Hf1 Ht1 Hc1] [Hf2 Ht2 Hc2].
  split; [intros id; by rewrite Hf2, Hf1|congruence..].
Qed.

(** The rows of a compaction: their files are emptied and replaced by tombstones, no other changes. *)
Record compacted (now : Z) (rows : list (string * Task)) (d d' : Db) : Prop := {
  cp_kept id : id ∉ rows.*1 →
    case_file d' id = case_file d id ∧ task_tombstones d' !! id = task_tombstones d !! id;
  cp_gone id t : (id, t) ∈ rows →
    case_file d' id = empty_file ∧
    task_tombstones d' !! id =
      Some (default (tombstone_of t (results d !! id) now) (task_tombstones d !! id));
  cp_commands : command_dedup d' = command_dedup d;
  cp_retention : retention d' = retention d;
}.

Section compaction.
Context `{E : Externals}.

Lemma removes_tombstone now id t d d' id' :
  removes now id t d d' →
  task_tombstones d' !! id' =
    (if decide (id' = id) then Some (default (tombstone_of t (results d !! id) now) (task_tombstones d !! id))
     else task_tombstones d !! id').
Proof.
  intros Hrm. rewrite (rm_tombstone _ _ _ _ _ Hrm). unfold has_row.
  case_bool_decide as Hs; destruct (decide _) as [->|Hne]; try done.
  - by destruct Hs as [x ->].
  - apply eq_None_not_Some in Hs. by rewrite lookup_insert_eq, Hs.
  - by rewrite lookup_insert_ne.
Qed.

Lemma compact_rows_ok now rows s s' :
  for_each rows (compact_task now) s = (inr tt, s') →
  (∀ id t t', (id, t) ∈ rows → (id, t') ∈ rows → t = t') →
  (db_ok (db s) → db_ok (db s')) ∧ compacted now rows (db s) (db s').
Proof.
  revert s. induction rows as [|[id0 t0] rows IH]; intros s H Hsame; cbn [for_each] in H.
  { apply ret_ok in H as [_ <-]. split; [done|]. split; set_solver. }
  apply bind_ok in H as ([] & s1 & Hrm%compact_task_ok & H).
  apply IH in H as [Hok [Hkept Hgone Hcmd Hret]]; [|set_solver]. split.
  { intros H0. by apply Hok, (removes_ok _ _ _ _ _ Hrm). }
  assert (∀ id, id ∉ rows.*1 ∨ ∃ t, (id, t) ∈ rows) as Hcase.
  { intros id. destruct (decide (id ∈ rows.*1)) as [Hin|]; [right|by left].
    apply list_elem_of_fmap in Hin as ([id' t'] & -> & Hin). eauto. }
  split; [..|by rewrite Hcmd, (rm_commands _ _ _ _ _ Hrm)|by rewrite Hret, (rm_retention _ _ _ _ _ Hrm)].
  - intros id Hin. cbn in Hin. apply not_elem_of_cons in Hin as [Hne Hin].
    destruct (Hkept id Hin) as [-> ->]. rewrite (removes_tombstone _ _ _ _ _ _ Hrm).
    destruct (decide _); [done|]. split; [by eapply removes_other|done].
  - intros id t Hin. destruct (decide (id = id0)) as [->|Hne].
    + assert (t = t0) as -> by (eapply Hsame; [exact Hin|by left]).
      destruct (Hcase id0) as [Hnot|[t' Ht']].
      * destruct (Hkept id0 Hnot) as [-> ->]. rewrite (removes_tombstone _ _ _ _ _ _ Hrm).
        rewrite decide_True by done. split; [by eapply removes_file|done].
      * destruct (Hgone id0 t' Ht') as [-> ->]. rewrite (removes_tombstone _ _ _ _ _ _ Hrm).
        by rewrite decide_True by done.
    + apply elem_of_cons in Hin as [[= -> _]|Hin]; [done|]. destruct (Hgone id t Hin) as [-> ->].
      rewrite (removes_tombstone _ _ _ _ _ _ Hrm), decide_False by done.
      by rewrite (rm_results _ _ _ _ _ Hrm), lookup_delete_ne.
Qed.

(** ** What is compacted *)

(** The condition under which a task may be forgotten. *)
Record expired (d : Db) (now : Z) (id : string) (t : Task) : Prop := {
  ex_task : tasks d !! id = Some t;
  ex_terminal : TaskState.is_terminal (t_state t) = true;
  ex_acked : ∃ consumer o, result_outbox d !! (consumer, id) = Some o ∧ is_Some (ob_acked_at o);
  ex_age : ∃ at_, t_terminal_at t = Some at_ ∧ at_ ≤ i64_saturating_sub now (90 * DAY_US);
  ex_unread : leased d "task" id now = false;
  ex_worktrees : worktrees_deleted d id = true;
}.

Lemma compactable_expired d now id t :
  db_ok d → (id, t) ∈ compactable d now → expired d now id t.
Proof.
  intros Hok Hin. unfold compactable in Hin. apply elem_of_take in Hin as (i & Hin & _).
  apply list_elem_of_lookup_2 in Hin. rewrite sort_by_perm in Hin.
  apply list_elem_of_omap in Hin as ([[c id'] o] & Hrow & Hsel). apply elem_of_map_to_list in Hrow.
  cbv beta iota in Hsel. destruct (tasks d !! id') as [t'|] eqn:Ht; [|done]. simpl in Hsel.
  destruct (_ && _) eqn:Hc in Hsel; [|done]. injection Hsel as <- <-. split_bools.
  rename select (is_some_and _ _ = true) into Hage. unfold is_some_and in Hage.
  destruct (t_terminal_at t') as [at_|] eqn:Hat; [|done].
  split; eauto; [|by exists at_; split; [|lia]].
  pose proof (ok_check _ Hok _ _ Ht) as Hcheck. unfold task_check, terminal_tuple_check in Hcheck. split_bools.
  destruct (TaskState.is_terminal (t_state t')); [done|]. rewrite Hat in *. split_bools. done.
Qed.

(** ** Leases *)

Lemma leased_spec d kind id now :
  leased d kind id now = true ↔
  ∃ lease l, (lease, (kind, id)) ∈ reader_lease_items (retention d) ∧
    reader_leases (retention d) !! lease = Some l ∧ now < ls_expires_at l.
Proof.
  unfold leased. rewrite existsb_exists. split.
  - intros ([lease res] & Hin & Hc). split_bools. simpl in *. subst. apply list_elem_of_In, elem_of_elements in Hin.
    destruct (reader_leases (retention d) !! lease) as [l|] eqn:Hl; [|done]. simpl in *. exists lease, l. split_and!; try done. lia.
  - intros (lease & l & Hin & Hl & Hx). exists (lease, (kind, id)). split; [by apply list_elem_of_In, elem_of_elements|].
    simpl. rewrite bool_decide_true, Hl by done. simpl. lia.
Qed.

(** Dropping the expired leases changes nobody's hold, ... *)
Lemma expire_leases_leased now d d' kind id :
  retention_ok (retention d) →
  set_retention (delete_leases (λ _ l, ls_expires_at l <=? now)) d = Some d' →
  leased d' kind id now = leased d kind id now.
Proof.
  intros Hret (t & [= <-] & ->)%set_retention_ok. apply eq_true_iff_eq. rewrite !leased_spec. simpl. split.
  - intros (lease & l & [_ Hin]%elem_of_filter & [Hl _]%map_lookup_filter_Some & Hx). eauto.
  - intros (lease & l & Hin & Hl & Hx). exists lease, l.
    assert (filter (λ kv : string * LeaseRow, (ls_expires_at kv.2 <=? now) = false) (reader_leases (retention d))
              !! lease = Some l) as Hl' by (apply map_lookup_filter_Some; simpl; split; [done|lia]).
    split_and!; [|done|done]. apply elem_of_filter. simpl. by rewrite Hl'.
Qed.

(** ... and afterwards a resource that is not held is in no lease at all. *)
Lemma unleased_items now d d' d1 kind id lease :
  set_retention (delete_leases (λ _ l, ls_expires_at l <=? now)) d = Some d' → retention d1 = retention d' →
  leased d1 kind id now = false → (lease, (kind, id)) ∉ reader_lease_items (retention d1).
Proof.
  intros (t & [= <-] & ->)%set_retention_ok Hret Hno Hin.
  apply not_true_iff_false in Hno. apply Hno, leased_spec. rewrite Hret in Hin |- *. simpl in *.
  apply elem_of_filter in Hin as [[l Hl] Hin]. exists lease, l. simpl in Hl. split_and!.
  - apply elem_of_filter. simpl. rewrite Hl. eauto.
  - done.
  - apply map_lookup_filter_Some in Hl as [_ Hl]. simpl in Hl. lia.
Qed.

(** ** The batch *)

Definition total_bytes (candidates : list GcCandidate) : Z :=
  List.fold_right Z.add 0 (map gc_byte_length candidates).

Lemma total_bytes_snoc cs c : total_bytes (cs ++ [c]) = total_bytes cs + gc_byte_length c.
Proof. unfold total_bytes. induction cs as [|x cs IH]; simpl in *; [lia|]. rewrite IH. lia. Qed.

(** The batch is within its bytes, or holds a single blob larger than them. *)
Definition batch_fits (cs : list GcCandidate) : Prop :=
  total_bytes cs ≤ GC_BATCH_BYTES ∨ (length cs ≤ 1)%nat.

Lemma draw_blobs_ok rows cs bytes s out s' :
  draw_blobs rows cs bytes s = (inr out, s') →
  0 ≤ total_bytes cs → bytes = u64_saturate (total_bytes cs) → batch_fits cs →
  db s' = db s ∧ 0 ≤ total_bytes out ∧ batch_fits out ∧ (length out ≤ length cs + length rows)%nat ∧
  ∀ c, c ∈ out → c ∈ cs ∨
    (gc_resource_kind c = "blob" ∧ ∃ b, (gc_resource_id c, b) ∈ rows ∧ gc_byte_length c = bo_byte_length b).
Proof.
  revert cs bytes s. induction rows as [|[id b] rows IH]; intros cs bytes s H Hpos Hb Hfit; cbn [draw_blobs] in H.
  { apply ret_ok in H as [<- <-]. split_and!; try done; [simpl; lia|]. by left. }
  apply bind_reads_ok in H as ([] & Hlen & H); [|auto with reads]. apply refuse_if_ok in Hlen as [Hlen _].
  destruct (bool_decide (cs ≠ []) && _) eqn:Hstop.
  { apply ret_ok in H as [<- <-]. split_and!; try done; [simpl; lia|]. by left. }
  apply bind_ok in H as (token & s1 & Htok & H). injection Htok as <- <-.
  apply IH in H as (-> & Hpos' & Hfit' & Hn & Hall).
  - split_and!; try done.
    + rewrite length_app in Hn. simpl in *. lia.
    + intros c Hc. destruct (Hall c Hc) as [[Hin| ->%list_elem_of_singleton]%elem_of_app|(Hk & b' & Hin & Hl)].
      * by left.
      * right. split; [done|]. exists b. split; [by left|done].
      * right. split; [done|]. exists b'. split; [by right|done].
  - rewrite total_bytes_snoc. simpl. lia.
  - rewrite total_bytes_snoc, Hb. simpl. unfold u64_saturating_add, u64_saturate, u64_max. lia.
  - unfold batch_fits. rewrite total_bytes_snoc, length_app. simpl.
    destruct (decide (cs = [])) as [->|Hne]; [right; simpl; lia|left].
    rewrite bool_decide_true in Hstop by done. simpl in Hstop. revert Hstop. rewrite Hb.
    unfold u64_saturating_add, u64_saturate, u64_max, GC_BATCH_BYTES. lia.
Qed.

Definition is_blob (c : GcCandidate) : bool := String.eqb (gc_resource_kind c) "blob".

Lemma draw_worktrees_ok rows cs s out s' :
  draw_worktrees rows cs s = (inr out, s') →
  db s' = db s ∧ total_bytes out = total_bytes cs ∧ length out = (length cs + length rows)%nat ∧
  List.filter is_blob out = List.filter is_blob cs ∧
  ∀ c, c ∈ out → c ∈ cs ∨ (gc_resource_kind c = "worktree" ∧ gc_resource_id c ∈ rows.*1).
Proof.
  revert cs s. induction rows as [|[id w] rows IH]; intros cs s H; cbn [draw_worktrees] in H.
  { apply ret_ok in H as [<- <-]. split_and!; [done|done|simpl; lia|done|by left]. }
  apply bind_ok in H as (token & s1 & Htok & H). injection Htok as <- <-.
  apply IH in H as (-> & Ht & Hn & Hf & Hall). rewrite total_bytes_snoc in Ht. rewrite length_app in Hn.
  rewrite List.filter_app, app_nil_r in Hf. simpl in *. split_and!; [done|lia|lia|done|]. intros c Hc.
  destruct (Hall c Hc) as [[Hin| ->%list_elem_of_singleton]%elem_of_app|[Hk Hin]]; [by left|right..].
  - split; [done|]. simpl. by left.
  - split; [done|]. by right.
Qed.

(** ** Marks *)

Definition mark_of (now : Z) (c : GcCandidate) : IntentRow :=
  mkIntentRow GcMarked (gc_byte_length c) (gc_fence_token c) 0 now None None.

(** The marks of a batch: each candidate had no intent and has a fresh one, nothing else changes. *)
Record marks (now : Z) (cs : list GcCandidate) (d d' : Db) : Prop := {
  mk_files : keeps_files d d';
  mk_leases : reader_leases (retention d') = reader_leases (retention d);
  mk_items : reader_lease_items (retention d') = reader_lease_items (retention d);
  mk_old k row : gc_intents (retention d) !! k = Some row → gc_intents (retention d') !! k = Some row;
  mk_new c : c ∈ cs →
    gc_intents (retention d) !! (gc_resource_kind c, gc_resource_id c) = None ∧
    gc_intents (retention d') !! (gc_resource_kind c, gc_resource_id c) = Some (mark_of now c);
  mk_safe : (∀ c lease, c ∈ cs → (lease, (gc_resource_kind c, gc_resource_id c)) ∉
              reader_lease_items (retention d)) → safe d d';
}.

Lemma mark_candidate_ok now c s s' :
  mark_candidate now c s = (inr tt, s') → marks now [c] (db s) (db s').
Proof.
  unfold mark_candidate. intros H. apply bind_reads_ok in H as ([] & _ & H); [|auto with reads].
  apply bind_ok in H as ([] & s1 & H1 & H). apply execute_ok in H1 as (d1 & H1 & ->).
  apply set_retention_ok in H1 as (t1 & Hint & ->).
  apply bind_ok in H as ([] & s2 & H2 & H). apply execute_ok in H2 as (d2 & [= <-] & ->).
  pose proof Hint as Hok. unfold insert_intent in Hint. destruct (_ && _) eqn:Hg in Hint; [|done].
  injection Hint as <-. split_bools. rename select (has_row _ _ = false) into Hfresh.
  apply has_row_false in Hfresh.
  assert (∃ trees, db s' = (db s) <| retention ::= λ t, t <| gc_intents ::=
            <[(gc_resource_kind c, gc_resource_id c) := mark_of now c]> |> |> <| audit_log ::= λ l, l ++
            [mkAuditRow "GC_MARKED" None None (digest_fields [gc_resource_kind c; gc_resource_id c]) now] |>
            <| worktrees := trees |>) as [trees ->].
  { destruct (String.eqb _ "worktree").
    - apply execute_ok in H as (d3 & [= <-] & ->). by eexists.
    - apply ret_ok in H as [_ <-]. exists (worktrees (db s)). done. }
  split; simpl; try done.
  - intros k row Hk. rewrite lookup_insert_ne by congruence. done.
  - intros c' ->%list_elem_of_singleton. by rewrite lookup_insert_eq.
  - intros Hno. apply safe_core; try done. simpl. intros Hret. eapply insert_intent_ok; [|exact Hok|done].
    intros lease. apply Hno. by left.
Qed.

Lemma mark_loop_ok now cs s s' :
  for_each cs (mark_candidate now) s = (inr tt, s') → marks now cs (db s) (db s').
Proof.
  revert s. induction cs as [|c cs IH]; intros s H; cbn [for_each] in H.
  { apply ret_ok in H as [_ <-]. split; done || (intros; by set_solver). }
  apply bind_ok in H as ([] & s1 & H1%mark_candidate_ok & H%IH). destruct H1, H.
  split; [by etrans|congruence|congruence|by eauto| |].
  - intros c' [->|Hin]%elem_of_cons.
    + destruct (mk_new0 c) as [Hnone Hnew]; [by left|]. split; [done|by apply mk_old1].
    + destruct (mk_new1 c' Hin) as [Hnone Hnew]. split; [|done].
      destruct (gc_intents (retention (db s)) !! _) eqn:Hk; [|done]. apply mk_old0 in Hk. congruence.
  - intros Hno. etrans; [apply mk_safe0|apply mk_safe1].
    + intros c' lease ->%list_elem_of_singleton. apply Hno. by left.
    + intros c' lease Hin. rewrite mk_items0. apply Hno. by right.
Qed.

(** ** The whole pass *)

Record collected (now : Z) (cs : list GcCandidate) (d d' : Db) : Prop := {
  co_ok : db_ok d';
  co_files id :
    (case_file d' id = case_file d id ∧ task_tombstones d' !! id = task_tombstones d !! id) ∨
    (∃ t, expired d now id t ∧ case_file d' id = empty_file ∧
       task_tombstones d' !! id =
         Some (default (tombstone_of t (results d !! id) now) (task_tombstones d !! id)));
  co_commands : command_dedup d' = command_dedup d;
  co_marks c : c ∈ cs →
    leased d (gc_resource_kind c) (gc_resource_id c) now = false ∧
    gc_intents (retention d') !! (gc_resource_kind c, gc_resource_id c) = Some (mark_of now c);
  co_rows : (length cs ≤ GC_BATCH_ROWS)%nat;
  co_bytes : total_bytes cs ≤ GC_BATCH_BYTES ∨ (length (List.filter is_blob cs) ≤ 1)%nat;
}.

Lemma eligible_blobs_unleased d now id b : (id, b) ∈ eligible_blobs d now → leased d "blob" id now = false.
Proof.
  unfold eligible_blobs. intros (i & Hin & _)%elem_of_take. apply list_elem_of_lookup_2 in Hin.
  rewrite sort_by_perm in Hin. apply select_elem in Hin as [_ He]. unfold blob_eligible in He. by split_bools.
Qed.

Lemma eligible_worktrees_unleased d now limit id w :
  (id, w) ∈ eligible_worktrees d now limit → leased d "worktree" id now = false.
Proof.
  unfold eligible_worktrees. intros (i & Hin & _)%elem_of_take. apply list_elem_of_lookup_2 in Hin.
  rewrite sort_by_perm in Hin. apply select_elem in Hin as [_ He]. unfold worktree_eligible in He. by split_bools.
Qed.

(** The candidates of a pass: within the batch, and none of them held by a reader. *)
Lemma candidates_ok now s cs s' :
  (blobs ← query (λ d, eligible_blobs d now);
   candidates ← draw_blobs blobs [] 0;
   if (length candidates <? GC_BATCH_ROWS)%nat
   then trees ← query (λ d, eligible_worktrees d now (GC_BATCH_ROWS - length candidates));
        draw_worktrees trees candidates
   else mret candidates) s = (inr cs, s') →
  db s' = db s ∧ (length cs ≤ GC_BATCH_ROWS)%nat ∧
  (total_bytes cs ≤ GC_BATCH_BYTES ∨ (length (List.filter is_blob cs) ≤ 1)%nat) ∧
  ∀ c, c ∈ cs → leased (db s) (gc_resource_kind c) (gc_resource_id c) now = false.
Proof.
  intros H. apply bind_reads_ok in H as (blobs & [-> _]%query_ok & H); [|auto with reads].
  apply bind_ok in H as (bs & s1 & Hdraw & H).
  apply draw_blobs_ok in Hdraw as (Hd1 & Hpos & Hfit & Hn & Hblobs); [|done..|by right; simpl; lia].
  assert (length (eligible_blobs (db s) now) ≤ GC_BATCH_ROWS)%nat as Hlen
    by (unfold eligible_blobs; rewrite length_take; lia).
  assert (∀ c, c ∈ bs → leased (db s) (gc_resource_kind c) (gc_resource_id c) now = false) as Hfree.
  { intros c Hc. destruct (Hblobs c Hc) as [Hin|(-> & b & Hin & _)]; [set_solver|].
    by eapply eligible_blobs_unleased. }
  assert (total_bytes bs ≤ GC_BATCH_BYTES ∨ (length (List.filter is_blob bs) ≤ 1)%nat) as Hbytes.
  { destruct Hfit as [|Hone]; [by left|right]. etrans; [apply List.filter_length_le|done]. }
  destruct (_ <? _)%nat eqn:Hroom.
  - apply bind_reads_ok in H as (trees & [-> _]%query_ok & H); [|auto with reads].
    apply draw_worktrees_ok in H as (-> & Ht & Hn' & Hf & Hall). rewrite Hd1 in *. split_and!; [done| | |].
    + apply Nat.ltb_lt in Hroom. unfold eligible_worktrees in Hn'. rewrite length_take in Hn'. lia.
    + by rewrite Ht, Hf.
    + intros c Hc. destruct (Hall c Hc) as [Hin|[-> Hin]]; [by apply Hfree|].
      apply list_elem_of_fmap in Hin as ([id w] & -> & Hin). by eapply eligible_worktrees_unleased.
  - apply ret_ok in H as [<- <-]. split_and!; [done|simpl in *; lia|done|done].
Qed.

(** What the first half of a pass, the expiry of leases and the compaction, leaves behind. *)
Record compaction_done (now : Z) (d d' : Db) : Prop := {
  cd_ok : db_ok d';
  cd_files id :
    (case_file d' id = case_file d id ∧ task_tombstones d' !! id = task_tombstones d !! id) ∨
    (∃ t, expired d now id t ∧ case_file d' id = empty_file ∧
       task_tombstones d' !! id =
         Some (default (tombstone_of t (results d !! id) now) (task_tombstones d !! id)));
  cd_commands : command_dedup d' = command_dedup d;
  cd_leased kind id : leased d' kind id now = leased d kind id now;
  cd_unread kind id lease : leased d' kind id now = false →
    (lease, (kind, id)) ∉ reader_lease_items (retention d');
}.

Lemma compaction_phase now s s0 s' :
  execute (set_retention (delete_leases (λ _ l, ls_expires_at l <=? now))) s = (inr tt, s0) →
  compact_eligible_tasks now s0 = (inr tt, s') → db_ok (db s) → compaction_done now (db s) (db s').
Proof.
  intros H0 H1 Hok. pose proof (safe_delete_leases _ _ _ _ H0 Hok) as [Hok0 _].
  apply execute_ok in H0 as (d0 & H0 & ->). unfold compact_eligible_tasks in H1.
  apply bind_reads_ok in H1 as (rows & [-> _]%query_ok & H1); [|auto with reads]. rewrite db_set in *.
  assert (∀ kind id, leased d0 kind id now = leased (db s) kind id now) as Hsame
    by (intros; by eapply expire_leases_leased; [apply ok_retention|]).
  assert (∀ id t, (id, t) ∈ compactable d0 now → expired (db s) now id t) as Hexp.
  { intros id t Hin. destruct (compactable_expired _ _ _ _ Hok0 Hin) as [Ht Hterm Hack Hage Hun Hw].
    apply set_retention_ok in H0 as (r & _ & ->). rewrite Hsame in Hun. by split. }
  apply compact_rows_ok in H1 as [Hok1 [Hkept Hgone Hcmd Hret]]; rewrite ?db_set in *.
  2:{ intros id t t' Ht Ht'. apply Hexp, ex_task in Ht. apply Hexp, ex_task in Ht'. congruence. }
  split; [by apply Hok1| | | |].
  - intros id. destruct (decide (id ∈ (compactable d0 now).*1)) as [Hin|Hnot].
    + right. apply list_elem_of_fmap in Hin as ([id' t] & -> & Hin). exists t. split; [by apply Hexp|].
      apply set_retention_ok in H0 as (r & _ & ->). by apply Hgone.
    + left. apply set_retention_ok in H0 as (r & _ & ->). by apply Hkept.
  - apply set_retention_ok in H0 as (r & _ & ->). done.
  - intros kind id. rewrite <-Hsame. unfold leased. by rewrite Hret.
  - intros kind id lease. by eapply unleased_items.
Qed.

Lemma mark_retention_gc_ok now s cs s' :
  mark_retention_gc now s = (inr cs, s') → db_ok (db s) → collected now cs (db s) (db s').
Proof.
  unfold mark_retention_gc. intros H Hok. apply bind_reads_ok in H as ([] & _ & H); [|auto with reads].
  rewrite transaction_ok in H.
  apply bind_ok in H as ([] & s0 & H0 & H). apply bind_ok in H as ([] & s1 & H1 & H).
  destruct (compaction_phase _ _ _ _ H0 H1 Hok) as [Hok1 Hfiles Hcmd Hleased Hunread]. clear H0 H1.
  apply bind_ok in H as (blobs & s2 & H2 & H). apply bind_ok in H as (bs & s3 & H3 & H).
  apply bind_ok in H as (cs' & s4 & H4 & H).
  destruct (candidates_ok now s1 cs' s4) as (Hd4 & Hrows & Hbytes & Hfree).
  { apply bind_ok. exists blobs, s2. split; [exact H2|]. apply bind_ok. by exists bs, s3. }
  clear H2 H3 H4. apply bind_ok in H as ([] & s5 & H5%mark_loop_ok & H). rewrite Hd4 in H5.
  apply bind_ok in H as ([] & s6 & H6 & H). apply ret_ok in H as [-> ->].
  destruct H5 as [[Hkept Htomb Hcmd'] _ _ _ Hnew Hsafe].
  assert (db_ok (db s5)) as Hok5 by (apply Hsafe; [intros; by apply Hunread, Hfree|done]).
  pose proof (safe_bump _ _ _ _ H6 Hok5) as [Hok6 _].
  unfold bump_mutation_epoch in H6. apply execute_ok in H6 as (d6 & [= <-] & ->).
  split; [done| | | |done|done].
  - intros id. rewrite <-Htomb in Hfiles. specialize (Hfiles id). rewrite <-Hkept in Hfiles. exact Hfiles.
  - simpl. congruence.
  - intros c Hc. rewrite <-Hleased. split; [by apply Hfree|]. by apply Hnew.
Qed.
End compaction.
