(* ===== verification/Config.v ===== *)
(** * The configuration bootstrap ([storage.rs], [ensure_empty_config_v1])

    The one configuration version a fresh store is given; existing evidence is never repaired. *)

From S2P Require Import Prelude Domain Externals Schema StoreMonad Tables TaskStore Ledger Carry TaskProofs.

Definition EMPTY_CONFIG_V1_DIGEST : string :=
  "22a01f7ccf852d7b2032c4c2c0f25df516d9f07e81d0107a3b2036055cfff16b".

Definition insert_config_version (version : Z) (row : ConfigVersionRow) (d : Db) : option Db :=
  if has_row (config_versions d) version then None
  else Some (d <| config_versions ::= insert version row |>).

Definition ensure_empty_config_v1 (now_us : Z) : M unit :=
  refuse_if (negb (between 0 now_us MAX_SAFE_TIME_US)) ErrInvalidRequest;;
  ensure_mutation_allowed false;;
  transaction (
    rows ← query (λ d, map_to_list (config_versions d));
    match rows with
    | [] =>
        execute (insert_config_version 1 (mkConfigVersionRow EMPTY_CONFIG_V1_DIGEST now_us));;
        bump_mutation_epoch now_us
    | [(version, row)] =>
        refuse_if (negb (version =? 1) || negb (String.eqb (cv_config_digest row) EMPTY_CONFIG_V1_DIGEST)
                   || negb (between 0 (cv_created_at row) MAX_SAFE_TIME_US))
                  (ErrQuarantined "invalid empty config v1 evidence")
    | _ => fail (ErrQuarantined "ambiguous empty config v1 evidence")
    end).

Section proofs.
Context `{E : Externals}.

Lemma safe_insert_config version row : moves_ok safe (execute (insert_config_version version row)).
Proof.
  apply safe_execute. unfold insert_config_version. intros d d'. destruct (has_row _ _); [done|].
  intros [= <-]. by apply safe_core.
Qed.
#[local] Hint Resolve safe_insert_config : safe.

Lemma safe_ensure_config now : moves safe (ensure_empty_config_v1 now).
Proof. unfold ensure_empty_config_v1. carry. Qed.

Lemma ensure_config_atomic now : atomic (ensure_empty_config_v1 now).
Proof. unfold ensure_empty_config_v1. repeat atomic_step. Qed.

(** The bootstrap leaves exactly the one configuration, and keeps a valid one untouched. *)
Lemma ensure_config_exact now s s' :
  ensure_empty_config_v1 now s = (inr tt, s') →
  ∃ row, config_versions (db s') = {[1 := row]} ∧ cv_config_digest row = EMPTY_CONFIG_V1_DIGEST ∧
    between 0 (cv_created_at row) MAX_SAFE_TIME_US = true ∧ (config_versions (db s) = ∅ ∨ s' = s).
Proof.
  unfold ensure_empty_config_v1. intros H.
  apply bind_reads_ok in H as ([] & Ht & H); [|auto with reads]. apply refuse_if_ok in Ht as [Ht _].
  apply bind_reads_ok in H as ([] & _ & H); [|auto with reads]. rewrite transaction_ok in H.
  apply bind_reads_ok in H as (rows & Hrows & H); [|auto with reads]. injection Hrows as Hrows.
  destruct rows as [|[version row] [|]].
  - rewrite bind_ok in H. destruct H as ([] & s1 & H1 & H). rewrite execute_ok in H1. destruct H1 as (d1 & H1 & ->).
    unfold insert_config_version in H1. destruct (has_row _ _); [done|]. injection H1 as <-.
    unfold bump_mutation_epoch in H. rewrite execute_ok in H. destruct H as (d2 & [= <-] & ->).
    apply map_to_list_empty_iff in Hrows. exists (mkConfigVersionRow EMPTY_CONFIG_V1_DIGEST now). rec_simpl.
    rewrite Hrows. split; [done|]. split; [done|]. split; [by apply negb_false_iff|by left].
  - apply refuse_if_ok in H as [H ->]. split_bools. apply (f_equal (list_to_map (M:=gmap Z ConfigVersionRow))) in Hrows.
    rewrite list_to_map_to_list in Hrows. subst version. exists row. rewrite Hrows. split; [done|]. by eauto.
  - done.
Qed.
End proofs.
