(* ===== verification/Reachable.v ===== *)
(** * Every reachable database

    The calls the daemon makes on its storage, as one data type with its interpreter,
    and what holds after any sequence of them: the invariant, the append-only ledger, what a
    run with collections keeps of each task, and that a failed call changes nothing. *)

From S2P Require Import Prelude Domain Externals Protocol Scheduler Improvement Schema StoreMonad.
From S2P Require Import Tables Ledger TaskStore Lifecycle Carry TaskProofs Finalize.
From S2P Require Import InteractionStore InteractionProofs Recovery RecoveryProofs Review.
From S2P Require Import ReviewProofs EngineStore EngineOperations EngineProofs Integrity.
From S2P Require Import Retention RetentionProofs Compaction Config.

Inductive Call :=
  | CSubmit (consumer method key request task : string) (parent : option string) (priority : Z)
      (adapter : option string) (now : Z)
  | CBeginAttempt (consumer key digest task : string) (generation : Z) (spec : AttemptSpec) (now : Z)
  | CClaim (operation task : string) (generation : Z) (spec : AttemptSpec) (limits : SchedulerLimits) (now : Z)
  | CReclaim (operation task : string) (generation : Z) (spec : AttemptSpec) (limits : SchedulerLimits) (now : Z)
  | CPhase (operation task : string) (generation : Z) (phase : DispatchPhase) (receipt : option string) (now : Z)
  | CAdapterEvent (operation task : string) (generation : Z) (kind : string) (payload : Value) (now : Z)
  | CSession (task : string) (generation : Z) (session capability : string) (now : Z)
  | CCancel (consumer key digest task : string) (now : Z)
  | CRetry (operation task : string) (generation retry_at now : Z)
  | CTransition (operation task : string) (generation : Z) (from : list string) (to : string) (now : Z)
  | CFinalize (consumer key digest task : string) (generation : Z) (terminal result_digest : string) (now : Z)
  | COpenInteraction (operation task attempt : string) (generation : Z)
      (operation_digest policy_digest config_digest : string) (class : InteractionCapabilityClass)
      (config_version policy_version expires_at now : Z)
  | CRespond (consumer key command interaction nonce : string) (generation : Z)
      (operation_digest policy_digest config_digest : string) (kind : InteractionResponseKind)
      (response : string) (now : Z)
  | CExpire (consumer operation interaction : string) (generation now : Z)
  | CExpirePreflight (consumer operation interaction : string) (generation now : Z)
  | CReview (consumer key command : string) (delivery : ResultDelivery) (verdict : ReviewVerdict)
      (diagnosis : option string) (now : Z)
  | CEnsureEngine (policy : ImprovementPolicy) (now : Z)
  | CEnsureDefaultEngine (now : Z)
  | CSetImprovement (enabled : bool) (now : Z)
  | CObserve (input : ObservationInput)
  | COpenCase (input : ObservationInput) (now : Z)
  | CProposeCandidate (proposal : CandidateProposal) (now : Z)
  | CAssignCanary (case : string) (admission : CanaryAdmission)
  | CEvaluate (case : string) (now : Z)
  | CProposeCommand (consumer key command : string) (proposal : CandidateProposal) (now : Z)
  | CRollbackCommand (consumer key command case : string) (target now : Z)
  | CReplayProjections (now : Z)
  | CReconcile (consumer : string) (now : Z)
  | CEnsureConfig (now : Z)
  | CRegisterWorktree (worktree task : string) (canonical : option string) (inside : bool) (now : Z)
  | CAcquireLease (lease kind resource : string) (epoch now : Z)
  | CReleaseLease (lease : string) (epoch : Z)
  | CMarkGc (now : Z)
  | CFinishGc (candidate : GcCandidate) (success : bool) (error : option string) (now : Z)
  | CLatchEmergency (released : bool) (now : Z)
  | CRecoverEmergency (quick : string) (checkpointed created : bool) (now : Z)
  (** what happens around the storage: a restart with another quota and latch, and the filesystem *)
  | CEnvironment (q : option QuotaPolicy) (e : EmergencyState) (view : FsView).

Section calls.
Context `{E : Externals} `{!Serde ImprovementEngine} `{!Serde CandidateCommandResult}
  `{!Serde RollbackCommandResult}.

Definition ignore {A} (m : M A) : M unit := m;; mret tt.

Definition invoke (call : Call) : M unit :=
  match call with
  | CSubmit c m k r t p prio ad now => ignore (submit_with_request c m k r t p prio ad now)
  | CBeginAttempt c k d t g spec now => ignore (begin_attempt_with_spec c k d t g spec now)
  | CClaim op t g spec l now => ignore (claim_dispatch_slot op t g spec l now)
  | CReclaim op t g spec l now => ignore (reclaim_preflight_dispatch_slot op t g spec l now)
  | CPhase op t g phase r now => ignore (record_dispatch_phase op t g phase r now)
  | CAdapterEvent op t g kind payload now => ignore (record_adapter_event op t g kind payload now)
  | CSession t g session cap now => record_resumable_session t g session cap now
  | CCancel c k d t now => ignore (request_cancel c k d t now)
  | CRetry op t g at_ now => ignore (schedule_safe_retry op t g at_ now)
  | CTransition op t g from to now => ignore (transition op t g from to now)
  | CFinalize c k d t g terminal rd now => ignore (finalize c k d t g terminal rd now)
  | COpenInteraction op t a g od pd cd cl cv pv ex now =>
      ignore (open_interaction op t a g od pd cd cl cv pv ex now)
  | CRespond c k cmd i n g od pd cd kind r now => ignore (respond_interaction c k cmd i n g od pd cd kind r now)
  | CExpire c op i g now => ignore (expire_interaction c op i g now)
  | CExpirePreflight c op i g now => ignore (expire_preflight_interaction c op i g now)
  | CReview c k cmd del v diag now => ignore (review_and_ack c k cmd del v diag now)
  | CEnsureEngine policy now => ignore (ensure_improvement_engine policy now)
  | CEnsureDefaultEngine now => ensure_default_improvement_engine now
  | CSetImprovement b now => set_improvement_enabled b now
  | CObserve input => ignore (improvement_observe input)
  | COpenCase input now => ignore (improvement_open_case input now)
  | CProposeCandidate proposal now => ignore (improvement_propose_candidate proposal now)
  | CAssignCanary case admission => ignore (improvement_assign_canary case admission)
  | CEvaluate case now => ignore (improvement_evaluate case now)
  | CProposeCommand c k cmd proposal now => ignore (improvement_propose_command c k cmd proposal now)
  | CRollbackCommand c k cmd case target now => ignore (improvement_rollback_command c k cmd case target now)
  | CReplayProjections now => replay_projections now
  | CReconcile c now => ignore (reconcile_nonterminal c now)
  | CEnsureConfig now => ensure_empty_config_v1 now
  | CRegisterWorktree w t canonical inside now => register_worktree w t canonical inside now
  | CAcquireLease l kind r epoch now => acquire_lease l kind r epoch now
  | CReleaseLease l epoch => ignore (release_lease l epoch)
  | CMarkGc now => ignore (mark_retention_gc now)
  | CFinishGc c ok err now => finish_gc_deletion c ok err now
  | CLatchEmergency released now => ignore (latch_emergency released now)
  | CRecoverEmergency quick cp cr now => recover_emergency quick cp cr now
  | CEnvironment q e view => λ s, (inr tt, s <| quota := q |> <| emergency := e |> <| fs := view |>)
  end.

(** The storage after a sequence of calls, whatever each of them answered. *)
Definition run_calls (calls : list Call) (s : Storage) : Storage :=
  List.fold_left (λ s call, (invoke call s).2) calls s.

(** The calls that are one transaction: the others commit in several steps. *)
Definition one_transaction (call : Call) : bool :=
  match call with
  | CExpire _ _ _ _ _ | CExpirePreflight _ _ _ _ _ | CReview _ _ _ _ _ _ _
  | CReplayProjections _ | CReconcile _ _ | CLatchEmergency _ _ | CRecoverEmergency _ _ _ _ => false
  | _ => true
  end.

(** The calls that only add: collection is the one that forgets. *)
Definition keeps_history (call : Call) : bool :=
  match call with CMarkGc _ => false | _ => true end.

Lemma moves_ignore {A} (m : M A) : moves safe m → moves safe (ignore m).
Proof. intros Hm. apply moves_bind; [apply _|done|intros ?; moves_leaf]. Qed.

Lemma safe_submit c m k r t p prio ad now : moves safe (submit_with_request c m k r t p prio ad now).
Proof.
  unfold submit_with_request. apply moves_refuse_if_bind; [apply _|]. intros _. apply safe_submit_inner.
Qed.

Lemma safe_invoke call : keeps_history call = true → moves safe (invoke call).
Proof.
  destruct call; simpl; intros Hkeeps; try discriminate;
    first [ apply safe_record_resumable_session | apply safe_replay_projections | apply safe_ensure_default_engine
          | apply safe_mutate | apply moves_ignore; apply safe_mutate | apply moves_ignore | idtac ].
  - apply safe_submit.
  - apply safe_begin_attempt.
  - apply safe_claim.
  - apply safe_reclaim.
  - apply safe_record_dispatch_phase.
  - apply safe_record_adapter_event.
  - apply safe_request_cancel.
  - apply safe_schedule_safe_retry.
  - apply safe_transition.
  - apply safe_finalize.
  - apply safe_open.
  - apply safe_respond.
  - apply safe_expire.
  - apply safe_expire.
  - apply safe_review.
  - apply safe_ensure_engine.
  - apply safe_propose_command.
  - apply safe_rollback_command.
  - apply safe_reconcile.
  - apply safe_ensure_config.
  - apply safe_register_worktree.
  - apply safe_acquire_lease.
  - apply safe_release_lease.
  - apply safe_finish_gc.
  - apply safe_latch_emergency.
  - apply safe_recover_emergency.
  - intros s. reflexivity.
Qed.

Lemma safe_run_calls calls s :
  forallb keeps_history calls = true → safe (db s) (db (run_calls calls s)).
Proof.
  revert s. induction calls as [|call calls IH]; intros s Hall; [reflexivity|].
  apply andb_true_iff in Hall as [Hcall Hall]. etrans; [by apply (safe_invoke call)|by apply IH].
Qed.

Lemma mark_gc_atomic now : atomic (mark_retention_gc now).
Proof. unfold mark_retention_gc. repeat atomic_step. Qed.

(** Whatever the call answers, a sound database stays sound. *)
Lemma invoke_ok call s : db_ok (db s) → db_ok (db (invoke call s).2).
Proof.
  intros Hok. destruct (keeps_history call) eqn:Hkeeps; [exact (proj1 (safe_invoke _ Hkeeps s Hok))|].
  destruct call; try discriminate. simpl. unfold ignore, mbind, M_bind.
  destruct (mark_retention_gc now s) as [[e|cs] s1] eqn:Hrun; simpl.
  - by rewrite (mark_gc_atomic _ _ _ _ Hrun).
  - by apply mark_retention_gc_ok in Hrun as [].
Qed.

Lemma run_calls_ok calls s : db_ok (db s) → db_ok (db (run_calls calls s)).
Proof.
  revert s. induction calls as [|call calls IH]; intros s Hok; [done|]. by apply IH, invoke_ok.
Qed.

(** ** What a run keeps of a task *)

(** At this call of a run the task is collected: until then its file has evolved, it may be forgotten,
    and its whole file is gone at once, with a tombstone in its place. *)
Definition collected_at (s : Storage) (before : list Call) (now : Z) (id : string) : Prop :=
  ∃ t, file_evolves (case_file (db s) id) (case_file (db (run_calls before s)) id) ∧
    expired (db (run_calls before s)) now id t ∧
    case_file (db (run_calls (before ++ [CMarkGc now]) s)) id = empty_file ∧
    is_Some (task_tombstones (db (run_calls (before ++ [CMarkGc now]) s)) !! id).

(** One call: the ledger grows, or garbage is collected. *)
Lemma invoke_keeps call s id :
  db_ok (db s) → command_dedup (db s) ⊆ command_dedup (db (invoke call s).2) ∧
  (file_evolves (case_file (db s) id) (case_file (db (invoke call s).2) id) ∨
   ∃ now, call = CMarkGc now ∧ collected_at s [] now id).
Proof.
  intros Hok. destruct (keeps_history call) eqn:Hkeeps.
  { pose proof (proj2 (safe_invoke _ Hkeeps s Hok)) as Hledger. split; [apply (lg_commands _ _ Hledger)|].
    left. by apply ledger_file. }
  destruct call; try discriminate. unfold collected_at, run_calls. simpl. unfold ignore, mbind, M_bind.
  destruct (mark_retention_gc now s) as [[e|cs] s1] eqn:Hrun; simpl.
  { rewrite (mark_gc_atomic _ _ _ _ Hrun). split; [done|by left]. }
  pose proof (mark_retention_gc_ok _ _ _ _ Hrun Hok) as [_ Hfiles Hcmd _ _ _]. rewrite Hcmd. split; [done|].
  destruct (Hfiles id) as [[-> _]|(t & Hexp & Hfile & Htomb)]; [by left|right].
  exists now. split; [done|]. rewrite Hrun. simpl. exists t. by rewrite Htomb.
Qed.

Lemma run_keeps calls s id :
  db_ok (db s) → command_dedup (db s) ⊆ command_dedup (db (run_calls calls s)) ∧
  (file_evolves (case_file (db s) id) (case_file (db (run_calls calls s)) id) ∨
   ∃ before now after, calls = before ++ CMarkGc now :: after ∧ collected_at s before now id).
Proof.
  revert s. induction calls as [|call calls IH]; intros s Hok; [by split; [|left]|].
  destruct (invoke_keeps call s id Hok) as [Hcmd Hfirst].
  destruct (IH (invoke call s).2 (invoke_ok call s Hok)) as [Hcmd' Hrest]. split; [by etrans|].
  destruct Hfirst as [Hfile|(now & -> & Hnow)]; [|right; by exists [], now, calls].
  destruct Hrest as [Hfile'|(before & now & after & -> & t & Hfile' & Hexp & Hgone)]; [left; by etrans|right].
  exists (call :: before), now, after. split; [done|]. exists t. split; [by etrans|done].
Qed.

(** ** Atomicity *)

Lemma reads_transaction {A} (m : M A) : reads m → reads (transaction m).
Proof.
  intros Hm s. unfold transaction. specialize (Hm s). destruct (m s) as [[e|a] s1]; simpl in *; subst; [|done].
  by destruct s.
Qed.

Lemma atomic_ignore {A} (m : M A) : atomic m → atomic (ignore m).
Proof.
  intros Hm s e s'. unfold ignore, mbind, M_bind. destruct (m s) as [[e1|a] s1] eqn:Heq; [|done].
  intros [= -> ->]. by eapply Hm.
Qed.

Lemma submit_atomic c m k r t p prio ad now : atomic (submit_with_request c m k r t p prio ad now).
Proof.
  unfold submit_with_request, submit_inner. apply atomic_bind; [auto with reads|]. intros _.
  apply atomic_bind; [repeat reads_step|]. intros stored.
  apply atomic_bind.
  - apply reads_transaction. apply reads_bind; [auto with reads|]. intros [row|]; [|auto with reads].
    apply reads_bind; [auto with reads|]. intros _. apply reads_bind; [auto with reads|auto with reads].
  - intros [sub|]; [apply reads_atomic; auto with reads|]. repeat atomic_step.
Qed.

Lemma invoke_atomic call : one_transaction call = true → atomic (invoke call).
Proof.
  destruct call; simpl; intros Hone; try done;
    first [ apply mutate_atomic | apply ensure_default_engine_atomic | apply atomic_ignore; apply mutate_atomic
          | apply atomic_ignore | idtac ].
  - apply submit_atomic.
  - unfold begin_attempt_with_spec. repeat atomic_step.
  - apply claim_atomic.
  - unfold reclaim_preflight_dispatch_slot. repeat atomic_step.
  - apply phase_atomic.
  - unfold record_adapter_event. repeat atomic_step.
  - unfold record_resumable_session. repeat atomic_step.
  - unfold request_cancel. repeat atomic_step.
  - unfold schedule_safe_retry. repeat atomic_step.
  - unfold transition. repeat atomic_step.
  - apply finalize_atomic.
  - unfold open_interaction. repeat atomic_step.
  - apply respond_atomic.
  - apply ensure_engine_atomic.
  - apply propose_command_atomic.
  - apply rollback_command_atomic.
  - apply ensure_config_atomic.
  - unfold register_worktree. repeat atomic_step.
  - unfold acquire_lease. repeat atomic_step.
  - unfold release_lease. repeat atomic_step. intros s e s'. unfold mbind, M_bind, execute.
    by destruct (set_retention _ _); [|intros [= _ <-]].
  - apply mark_gc_atomic.
  - unfold finish_gc_deletion. repeat atomic_step.
Qed.
End calls.
