(* ===== verification/Guarantees.v ===== *)
(** * What the storage guarantees: dispatch

    A claim takes exactly one slot within the limits, a refusal is justified, and a
    repeated claim answers what the first one did. *)

From S2P Require Import Prelude Domain Externals SampleExternals Protocol Scheduler Improvement.
From S2P Require Import Schema StoreMonad Tables TaskStore Lifecycle InteractionStore Review.
From S2P Require Import EngineStore EngineOperations SampleSerde Ledger Carry TaskProofs Finalize.
From S2P Require Import ReviewProofs EngineProofs Samples Slots.

Section dispatch.
Context `{E : Externals} `{Store : ImprovementStore}.

(** The tables of the improvement component are untouched. *)
Definition same_improvement (d d' : Db) : Prop :=
  improvement d' = improvement d.

#[local] Instance same_improvement_preorder : PreOrder same_improvement.
Proof. split; [done|]. unfold same_improvement. intros d1 d2 d3. congruence. Qed.

Ltac frame_statement :=
  apply moves_moves_ok, moves_execute; [apply _|]; intros ?d ?d' ?H;
  unfold insert_attempt, update_task, insert_event, insert_operation in *;
  repeat case_match; simplify_eq; done.

Lemma reserve_improvement op dg id g spec now :
  moves_ok same_improvement (reserve_slot op dg id g spec now).
Proof.
  unfold reserve_slot, append_event, store_operation, bump_mutation_epoch.
  repeat first [ apply moves_ok_bind; [apply _| |intros ?]
               | apply moves_moves_ok; moves_leaf | frame_statement ].
Qed.

Lemma reserve_world op dg id g spec now : keeps_world (reserve_slot op dg id g spec now).
Proof.
  unfold reserve_slot, append_event, store_operation, bump_mutation_epoch.
  repeat first [ apply keeps_world_bind; [|intros ?] | apply keeps_world_execute | apply keeps_world_new_v4
               | apply keeps_world_reads; solve [auto with reads] ].
Qed.

Lemma verify_assignment_frame `{!ImprovementStoreOk Store} id spec s s' :
  same_improvement (db s) (db s') →
  verify_attempt_assignment id spec s = (inr tt, s) → verify_attempt_assignment id spec s' = (inr tt, s').
Proof.
  intros Hc H. unfold verify_attempt_assignment in *.
  apply bind_reads_ok in H as (a & Ha & H); [|auto with reads]. apply query_ok in Ha as [-> _].
  erewrite run_query by done. rewrite Hc. destruct (canary_assignments (improvement (db s)) !! id) as [row|]; [|done].
  apply bind_reads_ok in H as ([] & Hr & H); [|auto with reads]. apply refuse_if_ok in Hr as [Hr _].
  rewrite run_refuse_if by done.
  apply bind_reads_ok in H as (loaded & Hl & H); [|auto with reads]. apply query_ok in Hl as [-> _].
  erewrite run_query by (apply load_frame; exact Hc).
  apply bind_reads_ok in H as (engine & Hen & H);
    [|destruct (load_improvement_engine (db s)); auto with reads].
  erewrite run_bind.
  2:{ destruct (load_improvement_engine (db s)) as [e|o]; [by apply fail_ok in Hen|].
      apply some_or_ok in Hen as [-> _]. done. }
  apply bind_reads_ok in H as (case & Hcase & H); [|auto with reads]. apply some_or_ok in Hcase as [Hcase _].
  erewrite run_some_or by exact Hcase. apply refuse_if_ok in H as [H _]. unfold refuse_if. by rewrite H.
Qed.

Lemma claim_arguments_frame op spec l now s s' :
  claim_arguments_ok op spec l now s = (inr tt, s) → claim_arguments_ok op spec l now s' = (inr tt, s').
Proof.
  unfold claim_arguments_ok. intros H.
  apply bind_reads_ok in H as ([] & Hr & H); [|auto with reads]. apply refuse_if_ok in Hr as [Hr _].
  rewrite run_refuse_if by done.
  apply bind_reads_ok in H as (x & Hx & H); [|auto with reads]. unfold ok_or in Hx |- *.
  destruct (validate_limits l); [by apply fail_ok in Hx|]. erewrite run_bind by done.
  apply bind_reads_ok in H as (y & Hy & H); [|auto with reads]. unfold ok_or in Hy.
  destruct (parse_adapter_instance_id _); [by apply fail_ok in Hy|]. done.
Qed.

Lemma mutation_frame b s s' :
  emergency s' = emergency s → fs s' = fs s →
  ensure_mutation_allowed b s = (inr tt, s) → ensure_mutation_allowed b s' = (inr tt, s').
Proof.
  unfold ensure_mutation_allowed, mbind, M_bind, get_storage, wal_bytes. intros -> ->.
  unfold refuse_if, fail, mret, M_ret.
  destruct (negb (bool_decide (emergency s = EmNormal)) && negb b); [done|].
  by destruct (negb b && (128 * 1024 * 1024 <=? default 0 (wal_len (fs s)))).
Qed.

(** C3: a claim that answers [Dispatched] for a fresh operation takes exactly one
    slot and stays within the limits: the claimed task was queued (or its retry timer
    had run out), the new attempt is the only attempt that starts to occupy a slot,
    and afterwards neither the total nor the adapter's occupancy exceeds its limit. *)
Theorem claim_takes_one_slot op id g spec l now s a s' :
  db_ok (db s) → internal_operations (db s) !! op = None →
  claim_dispatch_slot op id g spec l now s = (inr (Dispatched a), s') →
  (∃ t, tasks (db s) !! id = Some t ∧ t_generation t = g ∧ claim_ready t now = true) ∧
  at_task_id a = id ∧ at_generation a = g ∧
  attempts (db s) !! at_attempt_id a = None ∧
  attempts (db s') !! at_attempt_id a = Some (new_attempt_row id g (at_ordinal a) spec now) ∧
  slots (db s') = slots (db s) + 1 ∧
  (∀ adapter, slots_of adapter (db s') = slots_of adapter (db s) +
     (if String.eqb (adapter_instance_id spec) adapter then 1 else 0)) ∧
  slots (db s') ≤ l_global l ∧ slots_of (adapter_instance_id spec) (db s') ≤ l_per_adapter l.
Proof.
  intros Hok Hfresh H. apply claim_ok in H. inversion H as [o a0 Ho| |t occ out _ Ht Hg Hready Had Hocc Hgl Had' Hres];
    [congruence|]. subst out.
  apply reserve_occupying with (t := t) in Hres as (aid & ordinal & [= ->] & Hn & Ha & Hp); [|done..].
  apply slots_cons in Hp as [Hs Hsa]. apply read_occupancy_ok in Hocc as (_ & Hglobal & Hper).
  simpl in *. split; [eauto|]. do 2 (split; [done|]). do 2 (split; [done|]). split; [done|].
  split; [done|]. rewrite Hs, Hsa, String.eqb_refl, <-Hglobal, <-Hper. lia.
Qed.

(** A refusal changes nothing and is justified: [RetryTimerPending] only while the
    task's retry timer runs, [GlobalLimit] only when all slots are taken, and
    [AdapterLimit] only when slots are free but none of the adapter's; the occupancy it
    reports is the occupancy of the database. *)
Theorem blocked_claim_is_justified op id g spec l now s b s' :
  claim_dispatch_slot op id g spec l now s = (inr (Blocked b), s') →
  s' = s ∧
  match bl_reason b with
  | RetryTimerPending => ∃ t at_, tasks (db s) !! id = Some t ∧ t_state t = RetryWait ∧
      t_retry_at t = Some at_ ∧ now < at_
  | GlobalLimit => l_global l ≤ slots (db s) ∧ bl_global_occupied b = slots (db s)
  | AdapterLimit => slots (db s) < l_global l ∧
      l_per_adapter l ≤ slots_of (adapter_instance_id spec) (db s) ∧
      bl_adapter_occupied b = slots_of (adapter_instance_id spec) (db s)
  | AdapterUnassigned => False
  end.
Proof.
  intros H. apply claim_ok in H. inversion H as [|b0 _ Hs Hb|t occ out _ Ht Hg Hready Had _ _ _ Hres]; subst.
  - split; [done|]. unfold justified in Hb. destruct (bl_reason b); try done.
    + destruct Hb as (occ & Hocc & ? & ?). apply read_occupancy_ok in Hocc as (_ & <- & _). done.
    + destruct Hb as (occ & Hocc & ? & ? & ?). apply read_occupancy_ok in Hocc as (_ & <- & <-). done.
  - eapply reserve_ok in Hres as (? & ? & ? & [=] & _); done.
Qed.

(** A claim can be repeated: after an answered claim the same call answers the same
    attempt and changes nothing, however often the caller retries it. *)
Theorem claim_is_idempotent `{!ImprovementStoreOk Store} op id g spec l now s a s' :
  claim_dispatch_slot op id g spec l now s = (inr (Dispatched a), s') →
  claim_dispatch_slot op id g spec l now s' = (inr (Dispatched a), s').
Proof.
  intros Hrun. pose proof Hrun as H. apply claim_ok in Hrun as Hr.
  inversion Hr as [o a0 Ho Hdg Ha Hs| |t occ out Hn Ht Hg Hready Had _ _ _ Hres]; [by subst|]. subst out.
  unfold claim_dispatch_slot in H |- *. cbv zeta in H |- *.
  apply bind_reads_ok in H as ([] & Hargs & H); [|auto with reads].
  apply bind_reads_ok in H as ([] & Hmut & H); [|auto with reads]. rewrite transaction_ok in H.
  apply bind_reads_ok in H as ([] & Hass & _); [|auto with reads].
  destruct (reserve_world op (claim_digest id g spec) id g spec now s) as (_ & Hem & Hfs).
  pose proof (reserve_improvement _ _ _ _ _ _ _ _ _ Hres) as Himp. rewrite Hres in Hem, Hfs. simpl in *.
  eapply reserve_ok in Hres as (aid & ordinal & t' & [= ->] & _ & Hatt & _ & _ & _ & _ & (o & Ho & Hdg & Hloc));
    [|done..].
  erewrite run_bind by by eapply claim_arguments_frame.
  erewrite run_bind by by eapply mutation_frame.
  rewrite transaction_ok. erewrite run_bind by by eapply verify_assignment_frame.
  erewrite run_bind.
  2:{ unfold internal_operation_replay. erewrite run_query by exact Ho. cbv beta iota. rewrite Hdg, String.eqb_refl. done. }
  rewrite Hloc. unfold replayed_attempt, load_attempt, verify_existing_attempt_config.
  assert (attempts (db s') !! aid = Some (new_attempt_row id g ordinal spec now)) as Hrow
    by by rewrite Hatt, lookup_insert_eq.
  erewrite run_bind.
  2:{ erewrite run_query_row by exact Hrow. done. }
  erewrite run_bind.
  2:{ erewrite run_query_row by exact Hrow. unfold refuse_if. simpl. by rewrite !String.eqb_refl, Z.eqb_refl. }
  done.
Qed.
End dispatch.

(** ** Witnesses *)

Lemma claim_takes_one_slot_witness :
  claim_dispatch_slot "claim-1" "t1" 0 sample_spec sample_limits 2000 sample_queued =
    (inr (Dispatched (mkAttempt sample_attempt "t1" 0 1)), sample_preparing) ∧
  slots (db sample_preparing) ≤ 2.
Proof.
  split; [exact sample_claim_runs|].
  destruct (claim_takes_one_slot _ _ _ _ _ _ _ _ _ sample_queued_ok ltac:(vm_compute; reflexivity) sample_claim_runs)
    as (_ & _ & _ & _ & _ & _ & _ & Hs & _).
  exact Hs.
Defined.

Lemma blocked_claim_is_justified_witness :
  sample_blocked_claim sample_two_tasks =
    (inr (Blocked (mkBlocked AdapterLimit 2 1 1 1 sample_adapter)), after sample_blocked_claim sample_two_tasks) ∧
  1 ≤ slots_of (adapter_instance_id sample_spec) (db sample_two_tasks).
Proof.
  split; [exact sample_blocked_runs|].
  destruct (blocked_claim_is_justified _ _ _ _ _ _ _ _ _ sample_blocked_runs) as [_ Hb].
  exact (proj1 (proj2 Hb)).
Defined.

Lemma claim_is_idempotent_witness :
  claim_dispatch_slot "claim-1" "t1" 0 sample_spec sample_limits 2000 sample_queued =
    (inr (Dispatched (mkAttempt sample_attempt "t1" 0 1)), sample_preparing) ∧
  claim_dispatch_slot "claim-1" "t1" 0 sample_spec sample_limits 2000 sample_preparing =
    (inr (Dispatched (mkAttempt sample_attempt "t1" 0 1)), sample_preparing).
Proof.
  split; [exact sample_claim_runs|]. exact (claim_is_idempotent _ _ _ _ _ _ _ _ _ sample_claim_runs).
Defined.
