(* ===== verification/Outcomes.v ===== *)
(** * What the storage guarantees: outcomes

    A task reaches one result and keeps it, a committed cancellation wins, a retry is
    only scheduled while no process can have existed. *)

From S2P Require Import Prelude Domain Externals SampleExternals Protocol Scheduler Improvement.
From S2P Require Import Schema StoreMonad Tables TaskStore Lifecycle InteractionStore Review.
From S2P Require Import EngineStore EngineOperations SampleSerde Ledger Carry TaskProofs Finalize.
From S2P Require Import ReviewProofs EngineProofs Samples Slots.

Section outcomes.
Context `{E : Externals} `{Store : ImprovementStore}.

Lemma emergency_safe s : ensure_mutation_allowed true s = (inr tt, s).
Proof.
  unfold ensure_mutation_allowed, mbind, M_bind, get_storage. by rewrite andb_false_r.
Qed.

Lemma terminal_allows_nothing state next :
  TaskState.is_terminal state = true → TaskState.allows state next = false.
Proof. by destruct state. Qed.

(** C4: finalization commits the whole terminal tuple at once.  A first call takes a
    task of the given generation along an allowed transition (and to [CANCELLED] if
    its cancellation was requested); it leaves the task terminal, one result, one
    outbox row and, as the last event of the log, the terminal event, all naming the
    same result; the generation's attempts are closed and none of its interactions is
    pending. *)
Theorem finalize_commits_terminal_tuple c k dg id g ts rd now s del s' :
  command_dedup (db s) !! (c, "finalize", k) = None →
  finalize c k dg id g ts rd now s = (inr del, s') →
  ∃ terminal t t' before event_id,
    TaskState.from_str ts = inr terminal ∧ TaskState.is_terminal terminal = true ∧
    tasks (db s) !! id = Some t ∧ t_generation t = g ∧ TaskState.allows (t_state t) terminal = true ∧
    (is_Some (t_cancel_requested_at t) → terminal = Cancelled) ∧
    tasks (db s') !! id = Some t' ∧ t_state t' = terminal ∧ t_generation t' = g ∧
    t_terminal_event_seq t' = Some (del_terminal_event_seq del) ∧
    t_last_event_seq t' = del_terminal_event_seq del ∧
    results (db s) !! id = None ∧
    results (db s') !! id = Some (mkResultRow (del_result_id del) (del_terminal_event_seq del) rd now) ∧
    result_outbox (db s') !! (c, id) = Some (mkOutboxRow (del_result_id del) (del_ack_token del)
      (del_terminal_event_seq del) now None None) ∧
    events (db s') = before ++ [mkEvent id (del_terminal_event_seq del) event_id g "terminal"
      (terminal_event_payload (TaskState.as_str terminal) (del_result_id del)) now] ∧
    (∀ aid a, attempts (db s') !! aid = Some a → a_task_id a = id → a_generation a = g →
       AttemptState.is_terminal (a_state a) = true) ∧
    (∀ iid i, pending_interactions (db s') !! iid = Some i → i_task_id i = id → i_generation i = g →
       i_state i ≠ IPending).
Proof.
  intros Hfresh H. apply finalize_ok in H as (terminal & Hts & Hterm & [row Hrow|Hfin]); [congruence|].
  destruct (fin_source _ _ _ _ _ _ _ _ _ _ _ Hfin) as (t & Ht & Hg & Hal & Hcan).
  destruct (fin_task _ _ _ _ _ _ _ _ _ _ _ Hfin) as (t' & Ht' & Hst & Hg' & _ & Hseq & _ & Hlast).
  destruct (fin_result _ _ _ _ _ _ _ _ _ _ _ Hfin) as [Hr Hr'].
  destruct (fin_outbox _ _ _ _ _ _ _ _ _ _ _ Hfin) as (_ & Ho & _).
  destruct (fin_event _ _ _ _ _ _ _ _ _ _ _ Hfin) as (before & eid & Hev).
  exists terminal, t, t', before, eid. split_and!; try done.
  - rewrite Ho. apply lookup_insert_eq.
  - intros aid a Ha Hid Hga.
    destruct (fin_attempts _ _ _ _ _ _ _ _ _ _ _ Hfin _ _ Ha Hid Hga) as [-> _]. by destruct terminal.
  - apply (fin_interactions _ _ _ _ _ _ _ _ _ _ _ Hfin).
Qed.

(** A result is final.  Once a task has been finalized no later finalization of the
    task, of whatever generation and outcome, commits another result: in every later
    state a call that succeeds only replays a recorded command and changes nothing. *)
Theorem finalized_task_is_final c k dg id g ts rd now s del s' :
  finalize c k dg id g ts rd now s = (inr del, s') →
  command_dedup (db s) !! (c, "finalize", k) = None →
  ∀ s2 c2 k2 dg2 g2 ts2 rd2 now2 del2 s3, ledger (db s') (db s2) →
    finalize c2 k2 dg2 id g2 ts2 rd2 now2 s2 = (inr del2, s3) →
    s3 = s2 ∧ is_Some (command_dedup (db s2) !! (c2, "finalize", k2)).
Proof.
  intros H Hfresh s2 c2 k2 dg2 g2 ts2 rd2 now2 del2 s3 Hl H2.
  apply finalize_ok in H as (terminal & _ & Hterm & [row Hrow|Hfin]); [congruence|].
  destruct (fin_task _ _ _ _ _ _ _ _ _ _ _ Hfin) as (t' & Ht' & Hst & _).
  apply finalize_ok in H2 as (terminal2 & _ & _ & [row Hrow _ -> _|Hfin2]); [eauto|]. exfalso.
  destruct (fin_source _ _ _ _ _ _ _ _ _ _ _ Hfin2) as (t2 & Ht2 & _ & Hal & _).
  destruct (lg_tasks _ _ Hl _ _ Ht') as (x & Hx & Hev). rewrite Ht2 in Hx. injection Hx as <-.
  destruct (te_terminal _ _ Hev) as (Hs & _); [by rewrite Hst|].
  rewrite Hs, Hst, terminal_allows_nothing in Hal; done.
Qed.

(** Finalization can be repeated: the same call answers the same delivery (same
    result, token and sequence number) and changes nothing. *)
Theorem finalize_is_idempotent c k dg id g ts rd now s del s' :
  finalize c k dg id g ts rd now s = (inr del, s') →
  finalize c k dg id g ts rd now s' = (inr del, s').
Proof.
  intros Hrun. apply finalize_ok in Hrun as Hr. destruct Hr as (terminal & Hts & Hterm & [row _ _ -> _|Hfin]);
    [done|].
  destruct (fin_outbox _ _ _ _ _ _ _ _ _ _ _ Hfin) as (Hno & Ho & Hfree).
  destruct (fin_task _ _ _ _ _ _ _ _ _ _ _ Hfin) as (t' & Ht' & Hst & _).
  destruct (fin_delivery _ _ _ _ _ _ _ _ _ _ _ Hfin) as (Hid & Hv & Hds).
  unfold finalize. erewrite run_bind by apply emergency_safe. erewrite run_ok_or by exact Hts.
  rewrite run_refuse_if by by rewrite Hterm. apply transaction_ok. erewrite run_bind.
  2:{ unfold command_replay. erewrite run_query by apply (fin_command _ _ _ _ _ _ _ _ _ _ _ Hfin).
      cbv beta iota. simpl. rewrite String.eqb_refl. done. }
  cbv beta iota. unfold load_delivery. apply query_row_ok. split; [|done].
  assert (select (λ (k0 : string * string) o, String.eqb k0.1 c && String.eqb (ob_result_id o) (del_result_id del))
            (result_outbox (db s')) = [((c, id), mkOutboxRow (del_result_id del) (del_ack_token del)
                 (del_terminal_event_seq del) now None None)]) as ->.
  { apply NoDup_singleton; [apply select_NoDup|..].
    - apply select_elem. rewrite Ho, lookup_insert_eq. simpl. by rewrite !String.eqb_refl.
    - intros [[c' id'] o] [Hin Hm]%select_elem. rewrite Ho in Hin. simpl in Hm. split_bools.
      apply lookup_insert_Some in Hin as [[[= <- <-] <-]|[_ Hin]]; [done|]. subst c'.
      by apply Hfree in Hin. }
  simpl. rewrite Ht'. simpl. rewrite Hst. destruct del. simpl in *. by subst.
Qed.

(** ** Cancellation *)

(** A first cancellation of a running task leaves its time stamp on the task. *)
Lemma request_cancel_ok c k dg id now s r s' t :
  db_ok (db s) → tasks (db s) !! id = Some t → TaskState.is_terminal (t_state t) = false →
  t_state t ≠ CancelRequested → command_dedup (db s) !! (c, "cancel", k) = None →
  request_cancel c k dg id now s = (inr r, s') →
  r = false ∧ ∃ t', tasks (db s') !! id = Some t' ∧ is_Some (t_cancel_requested_at t').
Proof.
  intros Hok Ht Hterm Hst Hfresh H. unfold request_cancel in H.
  apply bind_reads_ok in H as ([] & _ & H); [|auto with reads]. rewrite transaction_ok in H.
  apply bind_reads_ok in H as (o & Ho & H); [|auto with reads]. apply command_replay_ok in Ho as [_ Ho].
  destruct o as [locator|]; [destruct Ho as (row & ? & _); congruence|].
  apply bind_reads_ok in H as (t0 & Ht0 & H); [|auto with reads]. apply query_row_ok in Ht0 as [Ht0 _].
  rewrite Ht in Ht0. injection Ht0 as <-. cbv zeta in H.
  rewrite Hterm, bool_decide_false in H by done. simpl in H.
  rewrite bind_ok in H. destruct H as ([] & s1 & H1 & H).
  apply bind_reads_ok in H1 as ([] & _ & H1); [|auto with reads].
  apply bind_reads_ok in H1 as (pending & _ & H1); [|auto with reads].
  rewrite bind_ok in H1. destruct H1 as ([] & s2 & Hann & H1).
  assert (safe (db s) (db s2) ∧ appends_only (db s) (db s2)) as [Hsafe1 Hao].
  { assert (∀ x, moves_ok appends_only (append_event id (t_generation t) "interaction_decided"
      (interaction_decided_event_payload x "CANCELLED" None) now;; mret tt)) as Hx.
    { intros x. apply moves_ok_bind; [apply _|apply append_event_appends|intros ?; apply moves_moves_ok; moves_leaf]. }
    split.
    - revert Hann. match goal with |- ?m s = _ → _ => assert (moves_ok safe m) as Hm by carry end.
      intros Hann. by eapply Hm.
    - revert Hann. match goal with |- ?m s = _ → _ =>
        assert (moves_ok appends_only m) as Hm by (apply moves_ok_for_each; [apply _|exact Hx]) end.
      intros Hann. by eapply Hm. }
  destruct (Hsafe1 Hok) as [Hok2 _].
  destruct (ao_task _ _ Hao _ _ Ht) as (t2 & Ht2 & Hst2 & Hg2 & _).
  rewrite bind_ok in H1. destruct H1 as ([] & s3 & Hupd & H1).
  assert (safe (db s2) (db s3)) as Hsafe2.
  { eapply (safe_exec_task id (λ x, t_generation x =? t_generation t)
      (λ x, x <| t_state := CancelRequested |> <| t_cancel_requested_at := Some now |> <| t_updated_at := now |>));
      [task_update|exact Hupd]. }
  destruct (Hsafe2 Hok2) as [Hok3 _].
  assert (∃ t3, tasks (db s3) !! id = Some t3 ∧ is_Some (t_cancel_requested_at t3)) as (t3 & Ht3 & Hc3).
  { rewrite execute_ok in Hupd. destruct Hupd as (d & Hupd & ->). unfold update_task in Hupd.
    rewrite Ht2, Hg2, Z.eqb_refl in Hupd. destruct (_ || _) in Hupd; [done|]. injection Hupd as <-.
    simpl. rewrite lookup_insert_eq. eexists. split; [done|]. by eexists. }
  assert (ledger (db s3) (db s1)) as Hl1.
  { revert H1. match goal with |- ?m s3 = _ → _ => assert (moves_ok safe m) as Hm by carry end.
    intros H1. by apply (Hm _ _ _ H1). }
  assert (db_ok (db s1)) as Hok1.
  { revert H1. match goal with |- ?m s3 = _ → _ => assert (moves_ok safe m) as Hm by carry end.
    intros H1. by apply (Hm _ _ _ H1). }
  assert (r = false ∧ ledger (db s1) (db s')) as [-> Hl2].
  { split.
    - apply bind_ok in H as ([] & ? & _ & H). apply bind_ok in H as ([] & ? & _ & H). by apply ret_ok in H as [<- _].
    - revert H. match goal with |- ?m s1 = _ → _ => assert (moves_ok safe m) as Hm by carry end.
      intros H. by apply (Hm _ _ _ H). }
  split; [done|]. destruct (lg_tasks _ _ Hl1 _ _ Ht3) as (t4 & Ht4 & He4).
  destruct (lg_tasks _ _ Hl2 _ _ Ht4) as (t5 & Ht5 & He5).
  exists t5. split; [done|]. by apply (te_cancel _ _ He5), (te_cancel _ _ He4).
Qed.

(** C5: a committed cancellation wins.  Once [request_cancel] has answered for a task that
    was neither terminal nor already being cancelled, every later first finalization of
    that task ends [CANCELLED], in whatever later state and by whichever caller. *)
Theorem cancellation_wins c k dg id now s r s' t :
  db_ok (db s) → tasks (db s) !! id = Some t → TaskState.is_terminal (t_state t) = false →
  t_state t ≠ CancelRequested → command_dedup (db s) !! (c, "cancel", k) = None →
  request_cancel c k dg id now s = (inr r, s') →
  ∀ s2 c2 k2 dg2 g ts rd now2 del s3, ledger (db s') (db s2) →
    command_dedup (db s2) !! (c2, "finalize", k2) = None →
    finalize c2 k2 dg2 id g ts rd now2 s2 = (inr del, s3) →
    del_terminal_state del = "CANCELLED" ∧ ∃ t3, tasks (db s3) !! id = Some t3 ∧ t_state t3 = Cancelled.
Proof.
  intros Hok Ht Hterm Hst Hfresh H s2 c2 k2 dg2 g ts rd now2 del s3 Hl Hfresh2 H2.
  destruct (request_cancel_ok _ _ _ _ _ _ _ _ _ Hok Ht Hterm Hst Hfresh H) as (_ & t' & Ht' & Hc).
  apply finalize_ok in H2 as (terminal & _ & _ & [row Hrow|Hfin]); [congruence|].
  destruct (fin_source _ _ _ _ _ _ _ _ _ _ _ Hfin) as (t2 & Ht2 & _ & _ & Hcan).
  destruct (lg_tasks _ _ Hl _ _ Ht') as (x & Hx & Hev). rewrite Ht2 in Hx. injection Hx as <-.
  assert (terminal = Cancelled) as -> by by apply Hcan, (te_cancel _ _ Hev).
  destruct (fin_delivery _ _ _ _ _ _ _ _ _ _ _ Hfin) as (_ & _ & Hds).
  destruct (fin_task _ _ _ _ _ _ _ _ _ _ _ Hfin) as (t3 & Ht3 & Hst3 & _). eauto.
Qed.

(** ** Safe retry *)

(** C12: a retry is only scheduled while no process can have existed.  A first
    [schedule_safe_retry] finds the task preparing (or waiting to retry) in that
    generation with an attempt whose dispatch evidence has not passed
    [SPAWN_PREPARED]; it moves the task to [RETRY_WAIT] in the next generation with the
    given timer and answers that generation, and the old attempt is retired. *)
Theorem safe_retry_requires_no_process op id g at_ now s n s' :
  internal_operations (db s) !! op = None →
  schedule_safe_retry op id g at_ now s = (inr n, s') →
  n = g + 1 ∧ g < i64_max ∧
  ∃ t aid a t' a', tasks (db s) !! id = Some t ∧ t_generation t = g ∧
    (t_state t = Preparing ∨ t_state t = RetryWait) ∧
    attempts (db s) !! aid = Some a ∧ a_task_id a = id ∧ a_generation a = g ∧
    DispatchPhase.effect_is_proven_absent (a_dispatch_phase a) = true ∧
    tasks (db s') !! id = Some t' ∧ t_state t' = RetryWait ∧ t_generation t' = g + 1 ∧
    t_retry_at t' = Some at_ ∧
    attempts (db s') !! aid = Some a' ∧ a_state a' = ARetryWait ∧ a_dispatch_phase a' = a_dispatch_phase a.
Proof.
  intros Hfresh H. unfold schedule_safe_retry in H. cbv zeta in H.
  apply bind_reads_ok in H as ([] & _ & H); [|auto with reads]. rewrite transaction_ok in H.
  apply bind_reads_ok in H as (o & Ho & H); [|auto with reads]. apply operation_replay_ok in Ho as [_ Ho].
  destruct o as [locator|]; [destruct Ho as (row & ? & _); congruence|].
  apply bind_reads_ok in H as ([aid a] & Ha & H); [|auto with reads]. apply query_row_ok in Ha as [Ha _].
  apply live_attempt_ok in Ha as (Ha & Hid & Hg & t & Ht & Htg & Hst).
  apply bind_reads_ok in H as ([] & Hph & H); [|auto with reads]. apply refuse_if_ok in Hph as [Hph _].
  apply negb_false_iff, bool_decide_eq_true in Hph.
  apply bind_reads_ok in H as (ng & Hng & H); [|auto with reads]. apply some_or_ok in Hng as [Hng _].
  apply i64_checked_Some in Hng as [-> Hng].
  rewrite bind_ok in H. destruct H as ([] & s1 & H1 & H). rewrite execute_ok in H1.
  destruct H1 as (d1 & H1 & Hs1). unfold update_attempts in H1. destruct (forallb _ _); [|discriminate].
  injection H1 as Hd1.
  rewrite bind_ok in H. destruct H as ([] & s2 & H2 & H). rewrite execute_ok in H2.
  destruct H2 as (d2 & H2 & Hs2).
  assert (tasks (db s1) = tasks (db s)) as Ht1 by by unwind.
  unfold update_task in H2. rewrite Ht1, Ht, Htg, Z.eqb_refl in H2. destruct (_ || _) in H2; [discriminate|].
  injection H2 as Hd2.
  rewrite bind_ok in H. destruct H as (seq & s3 & H3 & H).
  apply append_event_ok in H3 as (t3 & Ht3 & _ & _ & _ & Hs3).
  assert (tasks (db s2) !! id = Some (t <| t_generation := g + 1 |> <| t_state := RetryWait |>
            <| t_retry_at := Some at_ |> <| t_updated_at := now |>)) as Ht2.
  { unwind. apply lookup_insert_eq. }
  rewrite Ht2 in Ht3. injection Ht3 as Ht3.
  rewrite bind_ok in H. destruct H as ([] & s4 & H4 & H). unfold store_operation in H4.
  rewrite execute_ok in H4. destruct H4 as (d4 & H4 & Hs4). unfold insert_operation in H4.
  destruct (_ && _) in H4; [|discriminate]. injection H4 as Hd4.
  rewrite bind_ok in H. destruct H as ([] & s5 & H5 & H). unfold bump_mutation_epoch in H5.
  rewrite execute_ok in H5. destruct H5 as (d5 & [= Hd5] & Hs5). apply ret_ok in H as [<- <-].
  split; [done|]. split; [unfold i64_max in *; lia|].
  exists t, aid, a. eexists _, (a <| a_state := ARetryWait |> <| a_ended_at := Some now |> <| a_updated_at := now |>).
  split_and!; try done.
  - set_solver.
  - revert Hph. destruct (a_dispatch_phase a); simpl; intros; set_solver.
  - unwind. apply lookup_insert_eq.
  - by rewrite <-Ht3.
  - by rewrite <-Ht3.
  - by rewrite <-Ht3.
  - unwind. rewrite map_lookup_imap, Ha. simpl. unfold attempt_is.
    by rewrite Hid, Hg, String.eqb_refl, Z.eqb_refl.
Qed.

(** ** Submission *)

(** What a first submission stores. *)
Lemma submit_ok c m k req id parent prio ad now s sub s' :
  submit_with_request c m k req id parent prio ad now s = (inr sub, s') → sub_replayed sub = false →
  sub = mkSubmission id false ∧ tasks (db s) !! id = None ∧
  (∃ t, tasks (db s') !! id = Some t ∧ t_state t = Queued ∧ t_generation t = 0 ∧ t_priority t = prio ∧
        t_request_digest t = sha256_hex req ∧ t_last_event_seq t = 1) ∧
  command_dedup (db s') !! (c, m, k) = Some (mkCommandRow (sha256_hex req) id now) ∧
  task_requests (db s') !! id = Some (mkRequestRow (sha256_hex req) req (str_len req) now) ∧
  ensure_capacity (str_len req + TASK_SUBMISSION_ROW_OVERHEAD_BYTES) s = (inr tt, s).
Proof.
  intros H Hfresh. unfold submit_with_request in H. cbv zeta in H.
  apply bind_reads_ok in H as ([] & _ & H); [|auto with reads]. unfold submit_inner in H.
  apply bind_reads_ok in H as (stored & _ & H); [|repeat reads_step].
  rewrite bind_ok in H. destruct H as (replay & s0 & H0 & H). rewrite transaction_ok in H0.
  apply bind_reads_ok in H0 as (row & Hrow & H0); [|auto with reads]. apply query_ok in Hrow as [-> _].
  destruct (command_dedup (db s) !! (c, m, k)) as [row|] eqn:Hrow.
  { apply bind_ok in H0 as ([] & sa & _ & H0). apply bind_ok in H0 as ([] & sb & _ & H0).
    apply ret_ok in H0 as [<- <-]. apply ret_ok in H as [<- _]. done. }
  apply ret_ok in H0 as [<- <-].
  apply bind_reads_ok in H as ([] & _ & H); [|auto with reads].
  apply bind_reads_ok in H as ([] & Hcap & H); [|auto with reads]. rewrite transaction_ok in H.
  apply bind_reads_ok in H as (ex & Hex & H); [|auto with reads]. apply query_ok in Hex as [-> _].
  apply bind_reads_ok in H as ([] & Hn & H); [|auto with reads]. apply refuse_if_ok in Hn as [Hn _].
  apply bool_decide_eq_false, eq_None_not_Some in Hn.
  apply bind_reads_ok in H as ([] & _ & H); [|destruct parent; repeat reads_step].
  rewrite bind_ok in H. destruct H as ([] & s1 & H1 & H). rewrite execute_ok in H1.
  destruct H1 as (d1 & H1 & Hs1). unfold insert_task in H1. destruct (_ && _) in H1; [|discriminate].
  injection H1 as Hd1.
  rewrite bind_ok in H. destruct H as ([] & s2 & H2 & H). rewrite execute_ok in H2.
  destruct H2 as (d2 & H2 & Hs2). unfold insert_request in H2. destruct (_ && _) in H2; [|discriminate].
  injection H2 as Hd2.
  rewrite bind_ok in H. destruct H as (seq & s3 & H3 & H).
  apply append_event_ok in H3 as (t3 & Ht3 & Hseq & _ & _ & Hs3).
  assert (tasks (db s2) !! id = Some (new_task (sha256_hex req) parent prio stored now)) as Ht2.
  { unwind. apply lookup_insert_eq. }
  rewrite Ht2 in Ht3. injection Ht3 as Ht3.
  rewrite bind_ok in H. destruct H as ([] & s4 & H4 & H). unfold store_command in H4.
  rewrite execute_ok in H4. destruct H4 as (d4 & H4 & Hs4). unfold insert_command in H4.
  destruct (negb _) in H4; [|discriminate]. injection H4 as Hd4.
  rewrite bind_ok in H. destruct H as ([] & s5 & H5 & H). unfold bump_mutation_epoch in H5.
  rewrite execute_ok in H5. destruct H5 as (d5 & [= Hd5] & Hs5). apply ret_ok in H as [<- <-].
  split; [done|]. split; [done|]. split_and!.
  - eexists. split; [unwind; apply lookup_insert_eq|]. rewrite <-Ht3. simpl. rewrite Hseq, <-Ht3. done.
  - unwind. apply lookup_insert_eq.
  - unwind. apply lookup_insert_eq.
  - done.
Qed.

(** C14: submission is idempotent.  After a first submission, in every later state, the
    same command with the same request bytes answers the same task and changes nothing
    (whatever task id the caller proposes this time), and the same command with a
    request of another digest is refused as a conflict. *)
Theorem submit_is_idempotent c m k req id parent prio ad now s sub s' :
  submit_with_request c m k req id parent prio ad now s = (inr sub, s') → sub_replayed sub = false →
  ∀ s2, ledger (db s') (db s2) →
    (∀ id2 parent2 prio2 now2,
       submit_with_request c m k req id2 parent2 prio2 ad now2 s2 =
       (inr (mkSubmission (sub_task_id sub) true), s2)) ∧
    (∀ req2 id2 parent2 prio2 now2,
       str_len req2 ≤ MAX_CANONICAL_TASK_REQUEST_BYTES → req2 ≠ "" → sha256_hex req2 ≠ sha256_hex req →
       submit_with_request c m k req2 id2 parent2 prio2 ad now2 s2 = (inl ErrIdempotencyConflict, s2)).
Proof.
  intros H Hfresh s2 Hl. pose proof (submit_ok _ _ _ _ _ _ _ _ _ _ _ _ H Hfresh)
    as (-> & _ & _ & Hcmd & Hreq & _). simpl.
  assert (command_dedup (db s2) !! (c, m, k) = Some (mkCommandRow (sha256_hex req) id now)) as Hcmd2
    by by eapply lookup_weaken, lg_commands.
  assert (task_requests (db s2) !! id = Some (mkRequestRow (sha256_hex req) req (str_len req) now)) as Hreq2
    by by eapply lookup_weaken, lg_requests.
  unfold submit_with_request in H. cbv zeta in H.
  apply bind_reads_ok in H as ([] & Hlen & H); [|auto with reads]. apply refuse_if_ok in Hlen as [Hlen _].
  unfold submit_inner in H. apply bind_reads_ok in H as (stored & Hst & _); [|repeat reads_step].
  assert (∀ r, (match ad with
     | None | Some "" => mret ""
     | Some value => match parse_adapter_instance_id value with
                     | inl _ => fail ErrInvalidRequest | inr _ => mret value end
     end : M string) r = (inr stored, r)) as Had.
  { intros r. destruct ad as [[|a ad]|]; try by apply ret_ok in Hst as [<- _].
    destruct (parse_adapter_instance_id _); [by apply fail_ok in Hst|by apply ret_ok in Hst as [<- _]]. }
  split.
  - intros id2 parent2 prio2 now2. unfold submit_with_request, submit_inner.
    rewrite run_refuse_if by done. cbv zeta. erewrite run_bind by apply Had.
    erewrite run_bind.
    2:{ apply transaction_ok. erewrite run_query by exact Hcmd2. cbv beta iota.
        rewrite run_refuse_if by (simpl; by rewrite String.eqb_refl). simpl.
        erewrite run_bind; [done|]. unfold verify_task_request. erewrite run_query by exact Hreq2.
        cbv beta iota. unfold refuse_if. simpl. by rewrite !String.eqb_refl, Z.eqb_refl. }
    done.
  - intros req2 id2 parent2 prio2 now2 Hlen2 Hne Hdg. unfold submit_with_request, submit_inner.
    rewrite run_refuse_if.
    2:{ apply orb_false_iff. split; [by apply String.eqb_neq|]. by apply Z.ltb_ge. }
    cbv zeta. erewrite run_bind by apply Had.
    unfold transaction, mbind, M_bind, query. rewrite Hcmd2. simpl.
    destruct (String.eqb_spec (sha256_hex req) (sha256_hex req2)) as [Heq|]; [congruence|].
    simpl. by destruct s2.
Qed.

(** Admission respects the quota.  With a quota policy in force a first submission only
    succeeds when the declared size of the request (its bytes and the row overhead)
    fits: the allocated bytes stay below the quota less the reserve, and the volume keeps
    the reserve free. *)
Theorem admission_respects_quota c m k req id parent prio ad now s sub s' p :
  submit_with_request c m k req id parent prio ad now s = (inr sub, s') → sub_replayed sub = false →
  quota s = Some p → 0 < reserve_bytes p → reserve_bytes p ≤ quota_bytes p → quota_bytes p ≤ u64_max →
  ∃ used free, allocated_bytes (fs s) = Some used ∧ free_bytes (fs s) = Some free ∧
    (0 ≤ used → used + (str_len req + 4096) + reserve_bytes p ≤ quota_bytes p) ∧
    (free ≤ u64_max → str_len req + 4096 + reserve_bytes p ≤ free).
Proof.
  intros H Hfresh Hq Hr Hrq Hu. apply submit_ok in H as (_ & _ & _ & _ & _ & Hcap); [|done].
  unfold ensure_capacity in Hcap. apply bind_reads_ok in Hcap as (st & Hst & Hcap); [|auto with reads].
  injection Hst as <-. rewrite Hq in Hcap.
  apply bind_reads_ok in Hcap as (used & Hused & Hcap); [|auto with reads]. apply some_or_ok in Hused as [Hused _].
  apply bind_reads_ok in Hcap as (free & Hfree & Hcap); [|auto with reads]. apply some_or_ok in Hfree as [Hfree _].
  apply refuse_if_ok in Hcap as [Hcap _]. apply orb_false_iff in Hcap as [Hc1 Hc2].
  apply Z.ltb_ge in Hc1, Hc2.
  unfold u64_saturating_sub, u64_saturating_add, u64_saturate, TASK_SUBMISSION_ROW_OVERHEAD_BYTES in *.
  assert (0 ≤ str_len req) by (unfold str_len; lia).
  exists used, free. split_and!; try done; intros ?; lia.
Qed.
End outcomes.

(** ** Witnesses *)

Lemma sample_finalizing_fresh : command_dedup (db sample_finalizing) !! ("consumer", "finalize", "f1") = None.
Proof. vm_compute. reflexivity. Qed.

Lemma finalize_commits_terminal_tuple_witness :
  sample_finalize 6000 sample_finalizing = (inr sample_delivery, sample_done) ∧
  ∃ t, tasks (db sample_done) !! "t1" = Some t ∧ TaskState.is_terminal (t_state t) = true.
Proof.
  split; [exact sample_finalize_runs|].
  destruct (finalize_commits_terminal_tuple _ _ _ _ _ _ _ _ _ _ _ sample_finalizing_fresh sample_finalize_runs)
    as (terminal & t & t' & before & eid & _ & Hterm & _ & _ & _ & _ & Ht' & Hst & _).
  exists t'. split; [exact Ht'|]. rewrite Hst. exact Hterm.
Defined.

Lemma finalized_task_is_final_witness :
  sample_finalize 6000 sample_finalizing = (inr sample_delivery, sample_done) ∧
  (sample_finalize 7000 sample_done).1 = inr sample_delivery ∧
  is_Some (command_dedup (db sample_done) !! ("consumer", "finalize", "f1")).
Proof.
  split; [exact sample_finalize_runs|]. split; [vm_compute; reflexivity|].
  assert (sample_finalize 7000 sample_done = (inr sample_delivery, after (sample_finalize 7000) sample_done)) as H2.
  { refine (run_after _ _ (inr _) _). vm_compute. reflexivity. }
  destruct (finalized_task_is_final _ _ _ _ _ _ _ _ _ _ _ sample_finalize_runs sample_finalizing_fresh
    sample_done _ _ _ _ _ _ _ _ _ (reflexivity _) H2) as [_ Hc].
  exact Hc.
Defined.

Lemma finalize_is_idempotent_witness :
  sample_finalize 6000 sample_finalizing = (inr sample_delivery, sample_done) ∧
  sample_finalize 6000 sample_done = (inr sample_delivery, sample_done).
Proof.
  split; [exact sample_finalize_runs|].
  exact (finalize_is_idempotent _ _ _ _ _ _ _ _ _ _ _ sample_finalize_runs).
Defined.

Notation sample_cancel := (request_cancel "consumer" "cancel-1" (hash_bytes "cancel") "t1" 1500).

Definition sample_cancelled : Storage := after sample_cancel sample_queued.

Definition sample_cancel_finalizing : Storage :=
  after (transition "finalizing-2" "t1" 0 ["CANCEL_REQUESTED"] "FINALIZING" 1600) sample_cancelled.

Notation sample_finalize_cancelled :=
  (finalize "consumer" "f2" (hash_bytes "finalize") "t1" 0 "CANCELLED" (hash_bytes "result") 1700).

Lemma sample_cancel_runs : sample_cancel sample_queued = (inr false, sample_cancelled).
Proof. unfold sample_cancelled. refine (run_after _ _ (inr _) _). vm_compute. reflexivity. Qed.

Definition sample_cancel_delivery : ResultDelivery :=
  match (sample_finalize_cancelled sample_cancel_finalizing).1 with
  | inr delivery => delivery
  | inl _ => mkDelivery "" "" 0 "" 0 ""
  end.

Lemma sample_finalize_cancelled_runs :
  sample_finalize_cancelled sample_cancel_finalizing =
  (inr sample_cancel_delivery, after sample_finalize_cancelled sample_cancel_finalizing).
Proof. refine (run_after _ _ (inr _) _). vm_compute. reflexivity. Qed.

Lemma sample_cancel_later : ledger (db sample_cancelled) (db sample_cancel_finalizing).
Proof.
  refine (proj2 (after_safe _ sample_cancelled (safe_transition _ _ _ _ _ _) _)).
  exact (proj1 (after_safe _ sample_queued (safe_request_cancel _ _ _ _ _) sample_queued_ok)).
Qed.

(** The queued task of the sample run. *)
Definition sample_task : Task :=
  default (new_task "" None 0 "" 0) (tasks (db sample_queued) !! "t1").

Lemma cancellation_wins_witness :
  sample_cancel sample_queued = (inr false, sample_cancelled) ∧
  del_terminal_state sample_cancel_delivery = "CANCELLED".
Proof.
  split; [exact sample_cancel_runs|].
  assert (tasks (db sample_queued) !! "t1" = Some sample_task) as Ht by (vm_compute; reflexivity).
  assert (TaskState.is_terminal (t_state sample_task) = false) as Hnt by (vm_compute; reflexivity).
  assert (t_state sample_task = Queued) as Hq by (vm_compute; reflexivity).
  assert (t_state sample_task ≠ CancelRequested) as Hst by (rewrite Hq; discriminate).
  assert (command_dedup (db sample_queued) !! ("consumer", "cancel", "cancel-1") = None) as Hf1
    by (vm_compute; reflexivity).
  assert (command_dedup (db sample_cancel_finalizing) !! ("consumer", "finalize", "f2") = None) as Hf2
    by (vm_compute; reflexivity).
  pose proof (cancellation_wins "consumer" "cancel-1" (hash_bytes "cancel") "t1" 1500 sample_queued false
    sample_cancelled sample_task sample_queued_ok Ht Hnt Hst Hf1 sample_cancel_runs) as Hwins.
  pose proof (Hwins sample_cancel_finalizing "consumer" "f2" (hash_bytes "finalize") 0 "CANCELLED"
    (hash_bytes "result") 1700 sample_cancel_delivery _ sample_cancel_later Hf2
    sample_finalize_cancelled_runs) as [Hdel _].
  exact Hdel.
Defined.

Notation sample_retry := (schedule_safe_retry "retry-1" "t1" 0 8000 3000).

Lemma safe_retry_requires_no_process_witness :
  sample_retry sample_preparing = (inr 1, after sample_retry sample_preparing) ∧
  ∃ t, tasks (db (after sample_retry sample_preparing)) !! "t1" = Some t ∧ t_state t = RetryWait.
Proof.
  assert (sample_retry sample_preparing = (inr 1, after sample_retry sample_preparing)) as H.
  { refine (run_after _ _ (inr _) _). vm_compute. reflexivity. }
  split; [exact H|].
  assert (internal_operations (db sample_preparing) !! "retry-1" = None) as Hf by (vm_compute; reflexivity).
  destruct (safe_retry_requires_no_process _ _ _ _ _ _ _ _ Hf H)
    as (_ & _ & t & aid & a & t' & a' & _ & _ & _ & _ & _ & _ & _ & Ht' & Hst & _).
  exists t'. split; [exact Ht'|exact Hst].
Defined.

Lemma submit_is_idempotent_witness :
  submit_with_request "consumer" "submit" "k1" "{}" "t1" None 5 (Some sample_adapter) 1000 sample_start =
    (inr (mkSubmission "t1" false), sample_queued) ∧
  submit_with_request "consumer" "submit" "k1" "{}" "other" None 5 (Some sample_adapter) 9000 sample_preparing =
    (inr (mkSubmission "t1" true), sample_preparing).
Proof.
  split; [exact sample_submit_runs|].
  exact (proj1 (submit_is_idempotent _ _ _ _ _ _ _ _ _ _ _ _ sample_submit_runs eq_refl sample_preparing sample_claim_later)
    "other" None 5 9000).
Defined.

Definition sample_quota_start : Storage :=
  mkStorage empty_db (Some (mkQuotaPolicy 10000000000 100000000 1)) EmNormal
    (mkFsView (Some 0) (Some 0) (Some 1000000000)) 0.

Definition sample_policy : QuotaPolicy := mkQuotaPolicy 10000000000 100000000 1.

Notation sample_quota_submit := (submit_with_request "consumer" "submit" "k1" "{}" "t1" None 5 None 1000).

Lemma sample_quota_runs : sample_quota_submit sample_quota_start =
  (inr (mkSubmission "t1" false), after sample_quota_submit sample_quota_start).
Proof. refine (run_after _ _ (inr _) _). vm_compute. reflexivity. Qed.

Lemma admission_respects_quota_witness :
  sample_quota_submit sample_quota_start =
    (inr (mkSubmission "t1" false), after sample_quota_submit sample_quota_start) ∧
  ∃ used free, allocated_bytes (fs sample_quota_start) = Some used ∧ free_bytes (fs sample_quota_start) = Some free ∧
    (0 ≤ used → used + (str_len "{}" + 4096) + 100000000 ≤ 10000000000).
Proof.
  split; [exact sample_quota_runs|].
  assert (0 < reserve_bytes sample_policy) as H1 by (vm_compute; reflexivity).
  assert (reserve_bytes sample_policy ≤ quota_bytes sample_policy) as H2 by (vm_compute; discriminate).
  assert (quota_bytes sample_policy ≤ u64_max) as H3 by (vm_compute; discriminate).
  destruct (admission_respects_quota _ _ _ _ _ _ _ _ _ _ _ _ sample_policy sample_quota_runs eq_refl eq_refl H1 H2 H3)
    as (used & free & Hu & Hf & Hb & _).
  exists used, free. split; [exact Hu|]. split; [exact Hf|exact Hb].
Defined.
