(* ===== verification/Responses.v ===== *)
(** * What a response to an interaction commits

    [respond_ok] is what the successful runs of [respond_interaction] do; from it
    follow that a decision is taken once and that its command can be replayed. *)

From S2P Require Import Prelude Domain Externals SampleExternals Protocol Scheduler Improvement.
From S2P Require Import Schema StoreMonad Tables TaskStore Lifecycle InteractionStore Review.
From S2P Require Import EngineStore EngineOperations SampleSerde Ledger Carry TaskProofs Finalize.
From S2P Require Import InteractionProofs ReviewProofs EngineProofs Samples.

Section responses.
Context `{E : Externals}.

(** The interaction was pending, unexpired and bound to exactly the expected values, and
    is answered by [response_bytes] now. *)
Record answered (c k bytes iid nonce : string) (g : Z) (od pd cd : string)
    (kind : InteractionResponseKind) (response_bytes : string) (now : Z)
    (command : ParsedInteractionResponseCommand) (s s' : Storage) : Prop := {
  an_fresh : command_dedup (db s) !! (c, "interaction_response", k) = None;
  an_row : ∃ i, pending_interactions (db s) !! iid = Some i ∧ i_state i = IPending ∧
    now < i_expires_at i ∧ i_task_id i = rc_task_id command ∧ i_generation i = g ∧ i_nonce i = nonce ∧
    i_operation_digest i = od ∧ i_policy_digest i = pd ∧ i_config_digest i = cd ∧
    pending_interactions (db s') !! iid =
      Some (i <| i_state := IAnswered |> <| i_updated_at := now |>);
  an_response : interaction_responses (db s) !! iid = None ∧
    interaction_responses (db s') !! iid =
      Some (mkResponseRow c (hash_bytes response_bytes) (Some (InteractionResponseKind.as_str kind))
              (Some response_bytes) (Some (str_len response_bytes)) (Some (hash_bytes response_bytes)) now);
  an_task t : tasks (db s) !! rc_task_id command = Some t → t_generation t = g →
    ∃ t', tasks (db s') !! rc_task_id command = Some t' ∧
      t_state t' = (if bool_decide (t_state t = WaitingApproval) then Running else t_state t) ∧
      t_generation t' = g;
  an_command : command_dedup (db s') !! (c, "interaction_response", k) =
    Some (mkCommandRow (hash_bytes bytes) iid now);
}.

Lemma command_matches_true command k iid nonce g od pd cd kind parsed bytes :
  command_matches command k iid nonce g od pd cd kind parsed bytes = true →
  rc_command_key command = k ∧ rc_task_id command ≠ "" ∧ rc_interaction_id command = iid ∧
  rc_generation command = g ∧ rc_operation_digest command = od ∧ rc_policy_digest command = pd ∧
  rc_config_digest command = cd ∧ rc_nonce command = nonce ∧ rc_response_kind command = kind ∧
  rc_response_bytes command = bytes ∧ parsed = kind.
Proof.
  unfold command_matches. intros H. split_bools. split_and!; done.
Qed.

Lemma answer_ok c k dg iid i kind bytes now s r s' :
  pending_interactions (db s) !! iid = Some i → i_state i = IPending →
  answer_interaction c k dg iid i kind bytes now s = (inr r, s') →
  r = false ∧ interaction_responses (db s) !! iid = None ∧
  pending_interactions (db s') !! iid = Some (i <| i_state := IAnswered |> <| i_updated_at := now |>) ∧
  interaction_responses (db s') !! iid =
    Some (mkResponseRow c (hash_bytes bytes) (Some (InteractionResponseKind.as_str kind))
            (Some bytes) (Some (str_len bytes)) (Some (hash_bytes bytes)) now) ∧
  (∀ t, tasks (db s) !! i_task_id i = Some t → t_generation t = i_generation i →
    ∃ t', tasks (db s') !! i_task_id i = Some t' ∧
      t_state t' = (if bool_decide (t_state t = WaitingApproval) then Running else t_state t) ∧
      t_generation t' = i_generation i) ∧
  command_dedup (db s') !! (c, "interaction_response", k) = Some (mkCommandRow dg iid now).
Proof.
  intros Hi Hpend H. unfold answer_interaction in H. cbv zeta in H.
  rewrite bind_ok in H. destruct H as ([] & s1 & H1 & H). rewrite execute_ok in H1.
  destruct H1 as (d1 & [= Hd1] & Hs1).
  apply bind_reads_ok in H as (len & Hlen & H); [|auto with reads]. apply some_or_ok in Hlen as [Hlen _].
  apply i64_checked_Some in Hlen as [-> _].
  rewrite bind_ok in H. destruct H as ([] & s2 & H2 & H). rewrite execute_ok in H2.
  destruct H2 as (d2 & H2 & Hs2). unfold insert_response in H2. destruct (_ && _) eqn:Hr in H2; [|discriminate].
  injection H2 as Hd2. split_bools.
  rename select (has_row (interaction_responses _) _ = false) into Hnr. apply has_row_false in Hnr.
  rewrite bind_ok in H. destruct H as ([] & s3 & H3 & H). rewrite execute_ok in H3.
  destruct H3 as (d3 & H3 & Hs3).
  rewrite bind_ok in H. destruct H as ([] & s4 & H4 & H). rewrite execute_ok in H4.
  destruct H4 as (d4 & H4 & Hs4). unfold update_attempts in H4. destruct (forallb _ _); [|discriminate].
  injection H4 as Hd4.
  rewrite bind_ok in H. destruct H as (seq & s5 & H5 & H).
  apply append_event_ok in H5 as (t5 & Ht5 & _ & _ & _ & Hs5).
  rewrite bind_ok in H. destruct H as ([] & s6 & H6 & H). unfold store_command in H6.
  rewrite execute_ok in H6. destruct H6 as (d6 & H6 & Hs6). unfold insert_command in H6.
  destruct (negb _) eqn:Hc in H6; [|discriminate]. injection H6 as Hd6.
  rewrite bind_ok in H. destruct H as ([] & s7 & H7 & H). unfold bump_mutation_epoch in H7.
  rewrite execute_ok in H7. destruct H7 as (d7 & [= Hd7] & Hs7). apply ret_ok in H as [<- <-].
  assert (pending_interactions d3 = pending_interactions (db s2) ∧
          interaction_responses d3 = interaction_responses (db s2)) as [Hp3 Hr3].
  { unfold update_task in H3. repeat case_match; by simplify_eq. }
  split; [done|]. split_and!.
  - revert Hnr. by unwind.
  - unwind. rewrite Hp3. unwind. rewrite map_lookup_imap, Hi. simpl.
    by rewrite String.eqb_refl, bool_decide_true.
  - unwind. rewrite Hr3. unwind. apply lookup_insert_eq.
  - intros t Ht Hg.
    assert (tasks (db s2) = tasks (db s)) as Ht2 by by unwind.
    assert (tasks d3 !! i_task_id i = Some (if bool_decide (t_state t = WaitingApproval)
              then t <| t_state := Running |> <| t_updated_at := now |> else t)) as Ht3.
    { unfold update_task in H3. rewrite Ht2, Ht, Hg, Z.eqb_refl in H3. cbv beta in H3.
      destruct (bool_decide (t_state t = WaitingApproval)); simpl in H3.
      - destruct (_ || _) in H3; [done|]. injection H3 as <-. rec_simpl. apply lookup_insert_eq.
      - injection H3 as <-. congruence. }
    assert (tasks (db s4) = tasks d3) as Ht4 by by unwind.
    rewrite Ht4, Ht3 in Ht5. injection Ht5 as Ht5. eexists. split.
    + unwind. apply lookup_insert_eq.
    + rewrite <-Ht5. case_bool_decide; simpl; done.
  - unwind. apply lookup_insert_eq.
Qed.

Lemma respond_ok c k bytes iid nonce g od pd cd kind rb now s r s' :
  respond_interaction c k bytes iid nonce g od pd cd kind rb now s = (inr r, s') →
  ∃ command, parse_interaction_response_command bytes = Some command ∧
    parse_canonical_interaction_response rb = Some kind ∧
    command_matches command k iid nonce g od pd cd kind kind rb = true ∧
    if r then
      s' = s ∧ ∃ row, command_dedup (db s) !! (c, "interaction_response", k) = Some row ∧
        cd_request_digest row = hash_bytes bytes ∧
        verify_interaction_response_replay_tx (cd_response_locator row) c command s = (inr tt, s)
    else answered c k bytes iid nonce g od pd cd kind rb now command s s'.
Proof.
  unfold respond_interaction. cbv zeta. intros H.
  apply bind_reads_ok in H as ([] & _ & H); [|auto with reads].
  apply bind_reads_ok in H as (command & Hcmd & H); [|auto with reads]. apply some_or_ok in Hcmd as [Hcmd _].
  apply bind_reads_ok in H as (parsed & Hparsed & H); [|auto with reads]. apply some_or_ok in Hparsed as [Hparsed _].
  apply bind_reads_ok in H as ([] & Hm & H); [|auto with reads]. apply refuse_if_ok in Hm as [Hm _].
  apply negb_false_iff in Hm. pose proof (command_matches_true _ _ _ _ _ _ _ _ _ _ _ Hm) as
    (_ & _ & _ & _ & _ & _ & _ & _ & _ & _ & ->).
  rewrite transaction_ok in H.
  apply bind_reads_ok in H as (o & Ho & H); [|auto with reads]. apply command_replay_ok in Ho as [_ Ho].
  exists command. split; [done|]. split; [done|]. split; [done|].
  destruct o as [locator|].
  { destruct Ho as (row & Hrow & Hdg & <-).
    apply bind_reads_ok in H as ([] & Hv & H); [|auto with reads]. apply ret_ok in H as [<- <-]. eauto. }
  apply bind_reads_ok in H as (row & Hrow & H); [|auto with reads]. apply query_ok in Hrow as [-> _].
  apply bind_reads_ok in H as (i & Hi & H); [|auto with reads]. apply some_or_ok in Hi as [Hi _].
  apply bind_reads_ok in H as ([] & _ & H); [|auto with reads].
  apply bind_reads_ok in H as ([] & Ha & H); [|auto with reads]. apply refuse_if_ok in Ha as [Ha _].
  apply negb_false_iff in Ha. unfold interaction_answerable in Ha. split_bools.
  rewrite !constant_time_eq_true in *.
  eapply answer_ok in H as (-> & Hnr & Hp & Hr & Ht & Hc); [|done|done].
  split; try done.
  - exists i. split_and!; done.
  - intros t Hts Hg. destruct (Ht t) as (t' & Ht' & ? & ?); [congruence|congruence|].
    exists t'. split_and!; congruence.
Qed.

Lemma evidence_builds iid c kind bytes s :
  parse_canonical_interaction_response bytes = Some kind →
  build_interaction_response_evidence iid c kind (str_len bytes) (hash_bytes bytes) (Some bytes) s =
  (inr (mkEvidence iid c kind (hash_bytes bytes) bytes), s).
Proof.
  intros Hparse. unfold build_interaction_response_evidence. erewrite run_some_or by done.
  rewrite run_refuse_if by by rewrite Z.eqb_refl, String.eqb_refl.
  erewrite run_some_or by exact Hparse. by rewrite run_refuse_if by by rewrite bool_decide_true.
Qed.

Lemma metadata_validates `{!ExternalsOk E} iid c kind bytes now s :
  c ≠ "" → 1 ≤ str_len bytes ≤ MAX_INTERACTION_RESPONSE_BYTES →
  validate_interaction_response_metadata iid IAnswered
    (Some (mkResponseRow c (hash_bytes bytes) (Some (InteractionResponseKind.as_str kind)) (Some bytes)
             (Some (str_len bytes)) (Some (hash_bytes bytes)) now)) s =
  (inr (c, kind, str_len bytes, hash_bytes bytes), s).
Proof.
  intros Hc Hlen. unfold validate_interaction_response_metadata. rewrite run_refuse_if by done.
  erewrite run_some_or by done. cbv beta iota.
  rewrite run_refuse_if by (unfold between; apply negb_false_iff, andb_true_iff; rewrite !Z.leb_le; lia).
  erewrite run_ok_or by by destruct kind. rewrite run_refuse_if; [done|]. cbn.
  unfold hash_bytes. rewrite String.eqb_refl, sha256_hex_is_lower. by destruct (String.eqb_spec c "").
Qed.

(** The evidence the answer left verifies against the command that produced it. *)
Lemma answered_verifies `{!ExternalsOk E} c k bytes iid nonce g od pd cd kind rb now command s s' :
  c ≠ "" → parse_canonical_interaction_response rb = Some kind →
  command_matches command k iid nonce g od pd cd kind kind rb = true →
  answered c k bytes iid nonce g od pd cd kind rb now command s s' →
  verify_interaction_response_replay_tx iid c command s' = (inr tt, s').
Proof.
  intros Hc Hparse Hm [_ (i & _ & _ & _ & Hit & Hig & Hin & Hio & Hip & Hic & Hi') [_ Hr'] _ _].
  apply command_matches_true in Hm as (_ & _ & Hci & Hcg & Hco & Hcp & Hcc & Hcn & Hck & Hcb & _).
  assert (1 ≤ str_len rb ≤ MAX_INTERACTION_RESPONSE_BYTES) as Hlen.
  { unfold parse_canonical_interaction_response, parse_canonical_json in Hparse.
    destruct (String.eqb_spec rb ""); [done|].
    destruct (Z.ltb_spec MAX_INTERACTION_RESPONSE_BYTES (str_len rb)); [done|].
    split; [|done]. destruct rb; [done|]. unfold str_len. simpl. lia. }
  assert (load_evidence (ErrQuarantined "interaction-response command points to a missing interaction")
            iid s' = (inr (mkEvidence iid c kind (hash_bytes rb) rb), s')) as Hload.
  { unfold load_evidence. erewrite run_query by done. unfold response_metadata.
    erewrite run_some_or by (rewrite Hi', Hr'; done). cbv beta iota.
    erewrite run_bind by by apply metadata_validates. cbv beta iota.
    erewrite run_query by (rewrite Hr'; done). by apply evidence_builds. }
  unfold verify_interaction_response_replay_tx. erewrite run_bind by exact Hload.
  erewrite run_query by exact Hi'. erewrite run_some_or by done. unfold refuse_if. cbn.
  rewrite Hci, Hck, Hcb, Hcn, Hco, Hcp, Hcc, Hcg, Hit, Hig, Hin, Hio, Hip, Hic.
  by rewrite !String.eqb_refl, Z.eqb_refl, !bool_decide_true.
Qed.

(** C6: an accepted response is bound to its interaction.  [respond_interaction] only takes
    a decision for a pending, unexpired interaction when the canonical command names
    exactly that interaction, its task, generation, nonce and the digests of the
    operation, policy and configuration it was opened with, and its response is the
    given one; it then stores the response bytes with their digest and length, marks the
    interaction answered and resumes a task that was waiting for approval. *)
Theorem respond_accepts_only_bound_answers c k bytes iid nonce g od pd cd kind rb now s s' :
  respond_interaction c k bytes iid nonce g od pd cd kind rb now s = (inr false, s') →
  ∃ command i, parse_interaction_response_command bytes = Some command ∧
    pending_interactions (db s) !! iid = Some i ∧ i_state i = IPending ∧ now < i_expires_at i ∧
    rc_command_key command = k ∧ rc_interaction_id command = iid ∧ rc_task_id command = i_task_id i ∧
    rc_generation command = i_generation i ∧ rc_nonce command = i_nonce i ∧
    rc_operation_digest command = i_operation_digest i ∧ rc_policy_digest command = i_policy_digest i ∧
    rc_config_digest command = i_config_digest i ∧ rc_response_kind command = kind ∧
    rc_response_bytes command = rb ∧
    pending_interactions (db s') !! iid = Some (i <| i_state := IAnswered |> <| i_updated_at := now |>) ∧
    interaction_responses (db s') !! iid =
      Some (mkResponseRow c (hash_bytes rb) (Some (InteractionResponseKind.as_str kind))
              (Some rb) (Some (str_len rb)) (Some (hash_bytes rb)) now) ∧
    (∀ t, tasks (db s) !! i_task_id i = Some t → t_generation t = g → t_state t = WaitingApproval →
       ∃ t', tasks (db s') !! i_task_id i = Some t' ∧ t_state t' = Running).
Proof.
  intros H. apply respond_ok in H as (command & Hcmd & _ & Hm & Han).
  apply command_matches_true in Hm as (Hk & _ & Hci & Hcg & Hco & Hcp & Hcc & Hcn & Hck & Hcb & _).
  destruct Han as [_ (i & Hi & Hpend & Hexp & Hit & Hig & Hin & Hio & Hip & Hic & Hi') [_ Hr'] Htask _].
  exists command, i. split_and!; try done; try congruence.
  intros t Ht Hg Hst. destruct (Htask t) as (t' & Ht' & Hst' & _); [congruence|done|].
  exists t'. rewrite bool_decide_true in Hst' by done. split; congruence.
Qed.

(** An interaction is decided once.  After an accepted response no later call accepts
    another one for the same interaction, whatever its command, and the interaction can no
    longer expire. *)
Theorem interaction_is_decided_once c k bytes iid nonce g od pd cd kind rb now s s' :
  respond_interaction c k bytes iid nonce g od pd cd kind rb now s = (inr false, s') →
  ∀ s2, ledger (db s') (db s2) →
    (∀ c2 k2 bytes2 nonce2 g2 od2 pd2 cd2 kind2 rb2 now2 s3,
       respond_interaction c2 k2 bytes2 iid nonce2 g2 od2 pd2 cd2 kind2 rb2 now2 s2 ≠ (inr false, s3)) ∧
    (∀ preflight g2 now2, expirable preflight iid g2 now2 (db s2) = None).
Proof.
  intros H s2 Hl. apply respond_ok in H as (command & _ & _ & _ & Han).
  destruct (an_row _ _ _ _ _ _ _ _ _ _ _ _ _ _ _ Han) as (i & _ & _ & _ & _ & _ & _ & _ & _ & _ & Hi').
  destruct (lg_interactions _ _ Hl _ _ Hi') as (i2 & Hi2 & Hev).
  assert (i_state i2 = IAnswered) as Hst by by apply (ie_decided _ _ Hev).
  split.
  - intros c2 k2 bytes2 nonce2 g2 od2 pd2 cd2 kind2 rb2 now2 s3 H2.
    apply respond_ok in H2 as (command2 & _ & _ & _ & Han2).
    destruct (an_row _ _ _ _ _ _ _ _ _ _ _ _ _ _ _ Han2) as (i3 & Hi3 & Hpend & _). congruence.
  - intros preflight g2 now2. destruct (expirable _ _ _ _ _) as [id|] eqn:Hex; [|done].
    apply expirable_ok in Hex as (i3 & t & Hi3 & _ & _ & Hpend & _). congruence.
Qed.

(** A response can be repeated: the same command with the same bytes verifies against the
    evidence the first one left (digest, length, kind, consumer and every bound field),
    answers that it was replayed and changes nothing, even after the expiry time. *)
Theorem response_is_replayed `{!ExternalsOk E} c k bytes iid nonce g od pd cd kind rb now s s' :
  c ≠ "" →
  respond_interaction c k bytes iid nonce g od pd cd kind rb now s = (inr false, s') →
  ∀ now2, respond_interaction c k bytes iid nonce g od pd cd kind rb now2 s' = (inr true, s').
Proof.
  intros Hc H now2. apply respond_ok in H as (command & Hcmd & Hparse & Hm & Han).
  unfold respond_interaction.
  erewrite run_bind.
  2:{ unfold ensure_mutation_allowed, mbind, M_bind, get_storage. by rewrite andb_false_r. }
  erewrite run_some_or by exact Hcmd. erewrite run_some_or by exact Hparse.
  rewrite run_refuse_if by by rewrite Hm. cbv zeta. apply transaction_ok. erewrite run_bind.
  2:{ unfold command_replay. erewrite run_query by exact (an_command _ _ _ _ _ _ _ _ _ _ _ _ _ _ _ Han).
      cbv beta iota. simpl. by rewrite String.eqb_refl. }
  cbv beta iota. erewrite run_bind by by eapply answered_verifies. done.
Qed.
End responses.

(** ** Witnesses: the sample run *)

Lemma respond_accepts_only_bound_answers_witness :
  sample_respond "r1" 4000 sample_waiting = (inr false, sample_answered) ∧
  ∃ i, pending_interactions (db sample_waiting) !! sample_interaction_id = Some i ∧ i_state i = IPending.
Proof.
  split; [exact sample_respond_runs|].
  destruct (respond_accepts_only_bound_answers _ _ _ _ _ _ _ _ _ _ _ _ _ _ sample_respond_runs)
    as (command & i & _ & Hi & Hst & _).
  exists i. split; [exact Hi|exact Hst].
Defined.

Lemma interaction_is_decided_once_witness :
  sample_respond "r1" 4000 sample_waiting = (inr false, sample_answered) ∧
  expirable false sample_interaction_id 0 10000 (db sample_answered) = None.
Proof.
  split; [exact sample_respond_runs|].
  destruct (interaction_is_decided_once _ _ _ _ _ _ _ _ _ _ _ _ _ _ sample_respond_runs sample_answered)
    as [_ Hex]; [reflexivity|]. exact (Hex false 0 10000).
Defined.

Lemma response_is_replayed_witness :
  sample_respond "r1" 4000 sample_waiting = (inr false, sample_answered) ∧
  sample_respond "r1" 99000 sample_answered = (inr true, sample_answered).
Proof.
  split; [exact sample_respond_runs|].
  assert ("consumer" ≠ "") as Hc by discriminate.
  exact (response_is_replayed _ _ _ _ _ _ _ _ _ _ _ _ _ _ Hc sample_respond_runs 99000).
Defined.
