(* ===== verification/Reviews.v ===== *)
(** * What the storage guarantees: reviews *)

From S2P Require Import Prelude Domain Externals SampleExternals Protocol Scheduler Improvement.
From S2P Require Import Schema StoreMonad Tables TaskStore Lifecycle InteractionStore Review.
From S2P Require Import EngineStore EngineOperations SampleSerde Ledger Carry TaskProofs Finalize.
From S2P Require Import InteractionProofs ReviewProofs EngineProofs Samples Slots.

Section reviews.
Context `{E : Externals} `{Observer : ReviewObserver}.

(** The outbox row of the delivery is acknowledged by a stored review with these contents. *)
Definition reviewed_as (d : Db) (c id dg : string) (v : ReviewVerdict) (diag : option string) : Prop :=
  ∃ o rid r, result_outbox d !! (c, id) = Some o ∧ is_Some (ob_acked_at o) ∧ ob_review_id o = Some rid ∧
    reviews d !! rid = Some r ∧ rv_review_digest r = dg ∧ rv_verdict r = ReviewVerdict.as_str v ∧
    rv_diagnosis_ref r = diag.

Lemma same_review_ok d c del row dg v diag :
  ack_row d c del = Some row → is_Some (ob_acked_at (ar_outbox row)) → same_review row dg v diag = true →
  reviewed_as d c (del_task_id del) dg v diag.
Proof.
  intros Hrow Hack Hsame. apply ack_row_ok in Hrow as (_ & Ho & _ & Hrev).
  unfold same_review in Hsame. split_bools.
  destruct (ar_review row) as [r|]; [|done]. symmetry in Hrev. apply bind_Some in Hrev as (rid & Hrid & Hr).
  simpl in *. exists (ar_outbox row), rid, r. split_and!; try done; congruence.
Qed.

Lemma reviewed_final c k dg del v diag now s s' r :
  reviewed c k dg del v diag now s s' r → reviewed_as (db s') c (del_task_id del) dg v diag.
Proof.
  intros [row _ _ _ -> Hv|row _ Hrow _ _ _ Hif _].
  - unfold verify_review_replay_tx in Hv.
    apply bind_reads_ok in Hv as (found & Hf & Hv); [|auto with reads]. apply query_ok in Hf as [-> _].
    apply bind_reads_ok in Hv as (arow & Ha & Hv); [|auto with reads]. apply some_or_ok in Ha as [Ha _].
    apply bind_reads_ok in Hv as ([] & Hm & Hv); [|auto with reads]. apply refuse_if_ok in Hm as [Hm _].
    apply refuse_if_ok in Hv as [Hv _]. apply negb_false_iff in Hv.
    apply orb_false_iff in Hm as [_ Hack]. apply bool_decide_eq_false in Hack.
    eapply same_review_ok; [exact Ha|by apply not_eq_None_Some|done].
  - destruct (bool_decide (is_Some (ob_acked_at (ar_outbox row)))) eqn:Hack.
    + destruct Hif as (Hsame & Hr & Ho). apply bool_decide_eq_true in Hack.
      destruct (same_review_ok _ _ _ _ _ _ _ Hrow Hack Hsame) as (o & rid & x & ? & ? & ? & ? & ?).
      exists o, rid, x. rewrite Hr, Ho. done.
    + destruct Hif as (rid & _ & Hr & Ho). eexists _, rid, _. rewrite Hr, Ho, !lookup_insert_eq.
      split_and!; done.
Qed.

(** What the successful runs of [review_and_ack] do. *)
Lemma review_ok c k bytes del v diag now s r s' :
  review_and_ack c k bytes del v diag now s = (inr r, s') →
  ∃ command s1, parse_review_ack_command bytes = Some command ∧
    review_matches command k del v diag = true ∧
    reviewed c k (hash_bytes bytes) del v diag now s s1 r ∧
    record_review_observation del v diag now s1 = (inr tt, s').
Proof.
  unfold review_and_ack. intros H.
  apply bind_reads_ok in H as ([] & _ & H); [|auto with reads].
  apply bind_reads_ok in H as (command & Hc & H); [|auto with reads]. apply some_or_ok in Hc as [Hc _].
  apply bind_reads_ok in H as ([] & Hm & H); [|auto with reads]. apply refuse_if_ok in Hm as [Hm _].
  apply negb_false_iff in Hm. cbv zeta in H.
  apply bind_ok in H as (r1 & s1 & H1 & H). apply bind_ok in H as ([] & s2 & H2 & H).
  apply ret_ok in H as [-> ->]. apply review_transaction_ok in H1. eauto 10.
Qed.

Lemma review_post `{!ReviewObserverOk Observer} s s' c k bytes del v diag now r :
  db_ok (db s) → review_and_ack c k bytes del v diag now s = (inr r, s') →
  reviewed_as (db s') c (del_task_id del) (hash_bytes bytes) v diag.
Proof.
  intros Hok H. apply review_ok in H as (command & s1 & _ & _ & Hrev & Hobs). apply reviewed_final in Hrev as Hfin.
  assert (db_ok (db s1)) as Hok1.
  { destruct Hrev as [? ? ? ? -> _|? ? ? ? ? ? ? Hs]; [done|by apply Hs]. }
  pose proof (observer_safe del v diag now s1) as Hs. rewrite Hobs in Hs. destruct (Hs Hok1) as [_ Hl].
  destruct Hfin as (o & rid & x & Ho & Hack & Hrid & Hx & Hrest).
  destruct (lg_outbox _ _ Hl _ _ Ho) as (o' & Ho' & Hev). destruct (be_acked _ _ Hev Hack) as [Ha Hr].
  exists o', rid, x. rewrite Ha, Hr. split_and!; try done; try tauto.
  by eapply lookup_weaken, lg_reviews.
Qed.

(** C7: a review needs the delivery's exact token and its verdict is final.  A call that
    succeeds names the task, result, version and acknowledgement token of the outbox row,
    and afterwards the row is acknowledged by a review with exactly its command's digest,
    verdict and diagnosis; every later successful review of the same task carries that
    same digest, verdict and diagnosis. *)
Theorem first_review_is_final `{!ReviewObserverOk Observer} c k bytes del v diag now s r s' :
  db_ok (db s) → review_and_ack c k bytes del v diag now s = (inr r, s') →
  (∃ o t, result_outbox (db s) !! (c, del_task_id del) = Some o ∧
     ob_ack_token o = del_ack_token del ∧ ob_result_id o = del_result_id del ∧ del_result_version del = 1 ∧
     tasks (db s) !! del_task_id del = Some t ∧ TaskState.as_str (t_state t) = del_terminal_state del) ∧
  reviewed_as (db s') c (del_task_id del) (hash_bytes bytes) v diag ∧
  ∀ s2 k2 bytes2 del2 v2 diag2 now2 r2 s3, ledger (db s') (db s2) → db_ok (db s2) →
    del_task_id del2 = del_task_id del →
    review_and_ack c k2 bytes2 del2 v2 diag2 now2 s2 = (inr r2, s3) →
    hash_bytes bytes2 = hash_bytes bytes ∧ v2 = v ∧ diag2 = diag.
Proof.
  intros Hok H. split; [|split].
  - apply review_ok in H as (command & s1 & _ & _ & Hrev & _).
    assert (∃ row, ack_row (db s) c del = Some row ∧ delivery_matches row del = true) as (row & Hrow & Hm).
    { destruct Hrev as [row _ _ _ _ Hv|row _ Hrow Hm _ _ _ _]; [|eauto].
      unfold verify_review_replay_tx in Hv.
      apply bind_reads_ok in Hv as (found & Hf & Hv); [|auto with reads]. apply query_ok in Hf as [-> _].
      apply bind_reads_ok in Hv as (arow & Ha & Hv); [|auto with reads]. apply some_or_ok in Ha as [Ha _].
      apply bind_reads_ok in Hv as ([] & Hm & Hv); [|auto with reads]. apply refuse_if_ok in Hm as [Hm _].
      apply orb_false_iff in Hm as [Hm _]. apply negb_false_iff in Hm. eauto. }
    apply ack_row_ok in Hrow as (Hver & Ho & (t & Ht & Hst) & _). unfold delivery_matches in Hm. split_bools.
    rewrite constant_time_eq_true in *. exists (ar_outbox row), t. rewrite Hst. done.
  - by eapply review_post.
  - intros s2 k2 bytes2 del2 v2 diag2 now2 r2 s3 Hl Hok2 Hid H2.
    pose proof (review_post _ _ _ _ _ _ _ _ _ _ Hok H) as (o & rid & x & Ho & Hack & Hrid & Hx & Hdg & Hv & Hdi).
    pose proof (review_post _ _ _ _ _ _ _ _ _ _ Hok2 H2) as (o2 & rid2 & x2 & Ho2 & _ & Hrid2 & Hx2 & Hdg2 & Hv2 & Hdi2).
    assert (safe (db s2) (db s3)) as Hs.
    { pose proof (safe_review c k2 bytes2 del2 v2 diag2 now2 s2) as Hs. by rewrite H2 in Hs. }
    destruct (Hs Hok2) as [_ Hl2]. assert (ledger (db s') (db s3)) as Hl3 by by etrans.
    rewrite Hid in Ho2. destruct (lg_outbox _ _ Hl3 _ _ Ho) as (o3 & Ho3 & Hev).
    destruct (be_acked _ _ Hev Hack) as [_ Hr]. rewrite Ho2 in Ho3. injection Ho3 as <-.
    assert (rid2 = rid) as -> by congruence.
    pose proof (lookup_weaken _ _ _ _ Hx (lg_reviews _ _ Hl3)) as Hx3. rewrite Hx2 in Hx3. injection Hx3 as <-.
    split_and!; [congruence| |congruence]. rewrite Hv in Hv2. by destruct v, v2.
Qed.
End reviews.

(** ** Witness *)

Notation sample_review key :=
  (review_and_ack "consumer" key (sample_review_command key) sample_delivery Accepted None 7000).

Definition sample_reviewed : Storage := after (sample_review "v1") sample_done.

Lemma sample_review_runs : sample_review "v1" sample_done = (inr false, sample_reviewed).
Proof. unfold sample_reviewed. refine (run_after _ _ (inr _) _). vm_compute. reflexivity. Qed.

Lemma sample_done_ok : db_ok (db sample_done).
Proof.
  refine (proj1 (after_safe _ sample_finalizing (safe_finalize _ _ _ _ _ _ _ _) _)).
  refine (proj1 (after_safe _ sample_preparing (safe_transition _ _ _ _ _ _) _)).
  exact (proj1 (after_safe _ sample_queued (safe_claim _ _ _ _ _ _) sample_queued_ok)).
Qed.

Lemma first_review_is_final_witness :
  sample_review "v1" sample_done = (inr false, sample_reviewed) ∧
  reviewed_as (db sample_reviewed) "consumer" (del_task_id sample_delivery)
    (hash_bytes (sample_review_command "v1")) Accepted None.
Proof.
  split; [exact sample_review_runs|].
  destruct (first_review_is_final _ _ _ _ _ _ _ _ _ _ sample_done_ok sample_review_runs) as (_ & Hr & _).
  exact Hr.
Defined.
