(* ===== verification/EngineGuarantees.v ===== *)
(** * What the storage guarantees: the improvement engine

    The durable engine behaves as the in-memory engine of [Improvement.v], its
    commands answer a repetition with the recorded response, and every accepted review
    reaches it. *)

From S2P Require Import Prelude Domain Externals SampleExternals Protocol Scheduler Improvement.
From S2P Require Import Schema StoreMonad Tables TaskStore Lifecycle InteractionStore Review.
From S2P Require Import EngineStore EngineOperations SampleSerde Ledger Carry TaskProofs Finalize.
From S2P Require Import ReviewProofs EngineProofs Samples Reviews.

Section engine.
Context `{E : Externals} `{!ExternalsOk E} `{!Serde ImprovementEngine} `{!SerdeOk ImprovementEngine}.

Lemma mutate_ok {T} action now (f : ImprovementEngine → T * ImprovementEngine) s r s' :
  mutate_improvement action now f s = (inr r, s') →
  ∃ engine, load_engine (db s) = inr (Some engine) ∧ r = (f engine).1 ∧
    load_engine (db s') = inr (Some (f engine).2).
Proof.
  unfold mutate_improvement, validate_improvement_time. intros H.
  apply bind_reads_ok in H as ([] & _ & H); [|auto with reads].
  apply bind_reads_ok in H as ([] & _ & H); [|apply reads_ensure_mutation].
  apply bind_reads_ok in H as (engine & Hl & H); [|apply reads_load_initialized].
  apply load_initialized_ok in Hl as [Hl _].
  apply bind_reads_ok in H as (before & Hb & H); [|apply reads_snapshot_json].
  apply snapshot_json_ok in Hb as [Hb _]. exists engine. destruct (f engine) as [result engine'].
  apply bind_reads_ok in H as (after & Ha & H); [|apply reads_snapshot_json].
  apply snapshot_json_ok in Ha as [Ha _]. apply bind_ok in H as ([] & s1 & H1 & H).
  apply ret_ok in H as [<- <-]. simpl. split_and!; [done|done|].
  destruct (String.eqb_spec before after) as [->|_].
  - apply ret_ok in H1 as [_ <-]. by rewrite Hl, (to_json_inj _ _ _ Hb Ha).
  - by apply persist_ok in H1 as [H1 _].
Qed.

(** C8: the durable engine refines the in-memory one.  Whatever method is applied through
    [mutate_improvement], a call that succeeds answers what the method answers on the engine
    loaded before, and the engine loaded afterwards is exactly the one the method returned:
    snapshot, digest, revision, audit row and every projected table agree with it.  A call
    that fails leaves the database as it was. *)
Theorem durable_engine_refines_memory {T} action now (f : ImprovementEngine → T * ImprovementEngine) s :
  match mutate_improvement action now f s with
  | (inr r, s') => ∃ engine, load_engine (db s) = inr (Some engine) ∧ r = (f engine).1 ∧
                     load_engine (db s') = inr (Some (f engine).2)
  | (inl _, s') => db s' = db s
  end.
Proof.
  destruct (mutate_improvement action now f s) as [[e|r] s'] eqn:H.
  - by apply mutate_atomic in H.
  - by apply mutate_ok in H.
Qed.

(** ** Replayable commands *)

Section commands.
Context {T : Type} `{!Serde T, !SerdeOk T}.

(** The response of the command is on record, with its digest. *)
Definition recorded (c m k dg loc : string) (r : T) (d : Db) : Prop :=
  ∃ row json, command_dedup d !! (c, m, k) = Some row ∧ cd_request_digest row = dg ∧
    cd_response_locator row = loc ∧ cd_response_json row = Some json ∧
    cd_response_digest row = Some (hash_bytes json) ∧ from_json json = Some r.

Lemma replay_recorded c m k dg loc r s s' :
  improvement_command_replay c m k dg loc s = (inr (Some r), s') → recorded c m k dg loc r (db s).
Proof.
  unfold improvement_command_replay. intros H.
  apply bind_reads_ok in H as (o & Hq & H); [|auto with reads]. apply query_ok in Hq as [-> _].
  destruct (command_dedup (db s) !! (c, m, k)) as [row|] eqn:Hrow; [|by apply ret_ok in H as [[=] _]].
  apply bind_reads_ok in H as ([] & Hq & H); [|auto with reads]. apply refuse_if_ok in Hq as [Hq _].
  apply bind_reads_ok in H as (json & Hj & H); [|auto with reads]. apply some_or_ok in Hj as [Hj _].
  apply bind_reads_ok in H as ([] & Hd & H); [|auto with reads]. apply refuse_if_ok in Hd as [Hd _].
  apply bind_reads_ok in H as (v & Hv & H); [|auto with reads]. apply some_or_ok in Hv as [Hv _].
  apply ret_ok in H as [[= ->] _]. apply negb_false_iff, bool_decide_eq_true in Hd.
  apply orb_false_iff in Hq as [Hq Hq']. apply negb_false_iff, String.eqb_eq in Hq, Hq'.
  exists row, json. done.
Qed.

Lemma recorded_replay c m k dg loc r s :
  recorded c m k dg loc r (db s) → improvement_command_replay c m k dg loc s = (inr (Some r), s).
Proof.
  intros (row & json & Hrow & Hdg & Hloc & Hj & Hjd & Hval). unfold improvement_command_replay.
  erewrite run_query by exact Hrow. cbv beta iota.
  rewrite run_refuse_if by (rewrite Hdg, Hloc, !String.eqb_refl; done).
  erewrite run_some_or by exact Hj. rewrite run_refuse_if by (by rewrite bool_decide_eq_true_2).
  by erewrite run_some_or by exact Hval.
Qed.

Lemma recorded_later c m k dg loc r d d' : ledger d d' → recorded c m k dg loc r d → recorded c m k dg loc r d'.
Proof.
  intros Hl (row & json & Hrow & H). exists row, json. split; [|done].
  exact (lookup_weaken _ _ _ _ Hrow (lg_commands _ _ Hl)).
Qed.

(** Whichever way a new command is persisted, its response is stored. *)
Lemma persist_either_stored engine (unchanged : bool) command action now s s' :
  (if unchanged then persist_improvement_command_only engine command now
   else persist_improvement_engine engine action now (Some command)) s = (inr tt, s') →
  stored (Some command) now (db s').
Proof.
  destruct unchanged; intros H; [|by apply persist_ok in H as [_ Hst]].
  unfold persist_improvement_command_only in H. rewrite transaction_ok in H.
  apply bind_ok in H as ([] & s1 & H1 & H). apply store_response_ok in H1 as [_ Hst].
  apply verified_ok in H as (_ & Hc & _). simpl in *. by rewrite Hc.
Qed.

Lemma command_recorded c m k bytes loc action now f s (r : T) s' :
  improvement_command c m k bytes loc action now f s = (inr r, s') →
  (String.eqb bytes "" || (MAX_CANONICAL_TASK_REQUEST_BYTES <? str_len bytes)) = false ∧
  recorded c m k (hash_bytes bytes) loc r (db s').
Proof.
  unfold improvement_command, validate_improvement_time. intros H.
  apply bind_reads_ok in H as ([] & _ & H); [|auto with reads].
  apply bind_reads_ok in H as ([] & Hb & H); [|auto with reads]. apply refuse_if_ok in Hb as [Hb _].
  split; [done|]. cbv zeta in H.
  apply bind_reads_ok in H as (o & Ho & H); [|apply reads_response_replay]. destruct o as [value|].
  { apply ret_ok in H as [-> ->]. by apply replay_recorded in Ho. }
  apply bind_reads_ok in H as ([] & _ & H); [|apply reads_ensure_mutation].
  apply bind_reads_ok in H as (engine & _ & H); [|apply reads_load_initialized].
  apply bind_reads_ok in H as (before & _ & H); [|apply reads_snapshot_json].
  destruct (f engine) as [outcome engine'].
  apply bind_reads_ok in H as (result & _ & H); [|destruct outcome; auto with reads].
  apply bind_reads_ok in H as (json & Hj & H); [|auto with reads]. apply some_or_ok in Hj as [Hj _].
  apply bind_reads_ok in H as (after & _ & H); [|apply reads_snapshot_json].
  apply bind_ok in H as ([] & s1 & H1 & H). apply ret_ok in H as [-> ->].
  apply persist_either_stored in H1. eexists _, json. split; [exact H1|].
  split_and!; try done. by apply from_to_json.
Qed.

(** C32: improvement commands are idempotent.  After a command succeeded, the same command on
    any later store, also one fenced by an emergency and whatever the engine became meanwhile,
    answers the recorded result and changes nothing. *)
Theorem improvement_command_is_idempotent c m k bytes loc action now now2 f f2 s (r : T) s' s2 :
  improvement_command c m k bytes loc action now f s = (inr r, s') → ledger (db s') (db s2) →
  between 0 now2 MAX_SAFE_TIME_US = true →
  improvement_command c m k bytes loc action now2 f2 s2 = (inr r, s2).
Proof.
  intros H Hl Hnow. apply command_recorded in H as [Hb Hr]. apply (recorded_later _ _ _ _ _ _ _ _ Hl) in Hr.
  unfold improvement_command, validate_improvement_time. rewrite run_refuse_if by (by rewrite Hnow).
  rewrite run_refuse_if by done. cbv zeta. by rewrite (run_bind _ _ _ _ _ (recorded_replay _ _ _ _ _ _ _ Hr)).
Qed.
End commands.

(** ** Reviews feed the engine *)

(** The tables the observation reads are untouched. *)
Definition same_work (d d' : Db) : Prop :=
  improvement d' = improvement d ∧ tasks d' = tasks d ∧ attempts d' = attempts d ∧ events d' = events d.

#[local] Instance same_work_preorder : PreOrder same_work.
Proof. split; [by intros d; split_and!|]. unfold same_work. intros d1 d2 d3. intuition congruence. Qed.

Ltac review_statement :=
  apply moves_moves_ok, moves_execute; [apply _|]; intros ?d ?d' ?H;
  unfold insert_review, update_outbox, update_blob_refs, update_worktrees, insert_command, insert_audit in *;
  repeat case_match; simplify_eq; done.

Lemma review_transaction_work c k dg del v diag now : moves same_work (review_transaction c k dg del v diag now).
Proof.
  unfold review_transaction, record_review, store_command, bump_mutation_epoch.
  apply moves_transaction; [apply _|].
  repeat first [ apply moves_ok_bind; [apply _| |intros ?] | apply moves_moves_ok; moves_leaf
               | apply moves_moves_ok; intros s; rewrite reads_verify_review; reflexivity
               | apply moves_moves_ok; intros s; rewrite reads_command_replay; reflexivity
               | review_statement
               | match goal with |- moves_ok _ (match ?x with _ => _ end) => destruct x end ].
Qed.

Lemma observe_review_ok del v diag now s s' engine t id a rest :
  observe_review del v diag now s = (inr tt, s') →
  load_engine (db s) = inr (Some engine) → enabled (policy engine) = true →
  tasks (db s) !! del_task_id del = Some t →
  attempts_at (db s) (del_task_id del) (t_generation t) = (id, a) :: rest →
  a_adapter_instance_id a ≠ "" → a_config_digest a ≠ "" →
  ∃ decision, mutate_improvement "OBSERVATION_RECORDED" now (observe_and_open
    (review_observation (db s) (del_task_id del) t a v diag
       (count_safety_violations (db s) (del_task_id del)) now)) s = (inr decision, s').
Proof.
  intros H Hl Hen Ht Ha Had Hdg. unfold observe_review in H.
  apply bind_reads_ok in H as (o & Ho & H); [|apply reads_load_optional].
  apply load_optional_ok in Ho as [Ho _]. rewrite Hl in Ho. injection Ho as <-. rewrite Hen in H. simpl in H.
  apply bind_reads_ok in H as (row & Hrow & H); [|auto with reads]. apply query_ok in Hrow as [-> _].
  rewrite Ht in H. simpl in H. rewrite Ha in H. simpl in H.
  apply String.eqb_neq in Had, Hdg. rewrite Had, Hdg in H. simpl in H.
  apply bind_reads_ok in H as (n & Hn & H); [|auto with reads]. apply query_ok in Hn as [-> _].
  apply bind_reads_ok in H as (violations & Hv & H); [|auto with reads]. apply some_or_ok in Hv as [Hv _].
  apply u32_checked_Some in Hv as [-> _].
  apply bind_reads_ok in H as (input & Hin & H); [|auto with reads]. apply query_ok in Hin as [-> _].
  apply bind_ok in H as (s0 & s1 & H1 & H). apply ret_ok in H as [_ <-]. eauto.
Qed.

(** C33: every accepted review reaches the improvement engine.  When the engine is enabled and
    the reviewed task's current attempt names its adapter and configuration, a successful
    review leaves the durable engine as the in-memory one after observing exactly that
    attempt's outcome, with a case opened when the observation is eligible. *)
Theorem review_reaches_the_engine c k bytes del v diag now s r s' engine t id a rest :
  review_and_ack c k bytes del v diag now s = (inr r, s') →
  load_engine (db s) = inr (Some engine) → enabled (policy engine) = true →
  tasks (db s) !! del_task_id del = Some t →
  attempts_at (db s) (del_task_id del) (t_generation t) = (id, a) :: rest →
  a_adapter_instance_id a ≠ "" → a_config_digest a ≠ "" →
  load_engine (db s') = inr (Some (observe_and_open
    (review_observation (db s) (del_task_id del) t a v diag
       (count_safety_violations (db s) (del_task_id del)) now) engine).2).
Proof.
  intros H Hl Hen Ht Ha Had Hdg. unfold review_and_ack in H.
  apply bind_reads_ok in H as ([] & _ & H); [|auto with reads].
  apply bind_reads_ok in H as (command & _ & H); [|auto with reads].
  apply bind_reads_ok in H as ([] & _ & H); [|auto with reads]. cbv zeta in H.
  apply bind_ok in H as (r1 & s1 & H1 & H). apply bind_ok in H as ([] & s2 & H2 & H). apply ret_ok in H as [_ <-].
  pose proof (review_transaction_work c k (hash_bytes bytes) del v diag now s) as Hw. rewrite H1 in Hw.
  destruct Hw as (Hwi & Hwt & Hwa & Hwe). simpl in *.
  assert (load_engine (db s1) = inr (Some engine)) as Hl1.
  { rewrite <- Hl. exact (load_frame (Store := durable_engine) _ _ Hwi). }
  unfold record_review_observation, durable_observer in H2.
  apply (observe_review_ok _ _ _ _ _ _ engine t id a rest) in H2 as (decision & Hm); try done;
    [|by rewrite Hwt|by unfold attempts_at in *; rewrite Hwa].
  apply mutate_ok in Hm as (engine' & Hl' & _ & Hm). rewrite Hl1 in Hl'. injection Hl' as <-. rewrite Hm.
  unfold review_observation, usage_token_cost, count_safety_violations, events_of. by rewrite Hwe.
Qed.
End engine.

(** ** Witnesses *)

(** The engine is initialized and enabled on the store whose task is finished. *)
Definition sample_engine_done : Storage :=
  after (set_improvement_enabled true 6600) (after (ensure_improvement_engine default_policy 6500) sample_done).

Definition sample_engine : ImprovementEngine := set_enabled true (new_engine default_policy).

Lemma sample_engine_loads : load_engine (db sample_engine_done) = inr (Some sample_engine).
Proof. vm_compute. reflexivity. Qed.

Definition sample_observation : ObservationInput :=
  mkObservation "t9" "codex" (mkCohort "codex" "1.0" 1 (hash_bytes "config")) 6700 true None (Some 5) (Some 7) 0.

Notation sample_observe := (mutate_improvement "OBSERVATION_RECORDED" 6700
                              (λ engine, observe engine sample_observation)).

Lemma durable_engine_refines_memory_witness :
  (sample_observe sample_engine_done).1 = inr (ORecorded 1 0) ∧
  ∃ engine, load_engine (db sample_engine_done) = inr (Some engine) ∧
    ORecorded 1 0 = (observe engine sample_observation).1 ∧
    load_engine (db (after sample_observe sample_engine_done)) =
      inr (Some (observe engine sample_observation).2).
Proof.
  assert ((sample_observe sample_engine_done).1 = inr (ORecorded 1 0)) as H by (vm_compute; reflexivity).
  split; [exact H|].
  pose proof (durable_engine_refines_memory "OBSERVATION_RECORDED" 6700
    (λ engine, observe engine sample_observation) sample_engine_done) as Hr.
  rewrite (run_after _ _ _ H) in Hr. exact Hr.
Defined.

Notation sample_rollback_command :=
  (improvement_command "consumer" "improvement_rollback" "b1" "{}" "case" "ROLLBACK_REQUESTED" 6700
     (λ engine, (inr EMissingMetrics, engine))).

Lemma improvement_command_is_idempotent_witness :
  (sample_rollback_command sample_engine_done).1 = inr EMissingMetrics ∧
  improvement_command "consumer" "improvement_rollback" "b1" "{}" "case" "ROLLBACK_REQUESTED" 6800
    (λ engine, (inl ErrInvalidRequest, engine)) (after sample_rollback_command sample_engine_done) =
  (inr EMissingMetrics, after sample_rollback_command sample_engine_done).
Proof.
  assert ((sample_rollback_command sample_engine_done).1 = inr EMissingMetrics) as H by (vm_compute; reflexivity).
  split; [exact H|].
  exact (improvement_command_is_idempotent _ _ _ _ _ _ _ 6800 _ (λ engine, (inl ErrInvalidRequest, engine))
           _ _ _ _ (run_after _ _ _ H) (reflexivity _) eq_refl).
Defined.

Notation sample_engine_review :=
  (review_and_ack "consumer" "v1" (sample_review_command "v1") sample_delivery Accepted None 7000).

Definition sample_task : Task := default (new_task "" None 0 "" 0) (tasks (db sample_engine_done) !! "t1").

Definition sample_attempt_row : AttemptRow :=
  default (new_attempt_row "" 0 0 sample_spec 0) (attempts (db sample_engine_done) !! sample_attempt).

Lemma review_reaches_the_engine_witness :
  (sample_engine_review sample_engine_done).1 = inr false ∧
  load_engine (db (after sample_engine_review sample_engine_done)) =
    inr (Some (observe_and_open (review_observation (db sample_engine_done) "t1" sample_task sample_attempt_row
      Accepted None 0 7000) sample_engine).2).
Proof.
  assert ((sample_engine_review sample_engine_done).1 = inr false) as H by (vm_compute; reflexivity).
  split; [exact H|].
  refine (review_reaches_the_engine _ _ _ _ _ _ _ _ _ _ sample_engine sample_task sample_attempt
    sample_attempt_row [] (run_after _ _ _ H) sample_engine_loads eq_refl _ _ _ _);
    vm_compute; first [reflexivity|discriminate].
Defined.
