(* ===== verification/Reopening.v ===== *)
(** * What the storage guarantees: reopening *)

From S2P Require Import Prelude Domain Externals SampleExternals Protocol Scheduler Improvement.
From S2P Require Import Schema StoreMonad Tables TaskStore Lifecycle InteractionStore Recovery.
From S2P Require Import Review EngineStore EngineOperations SampleSerde Ledger Carry TaskProofs.
From S2P Require Import Finalize InteractionProofs RecoveryProofs ReviewProofs EngineProofs Samples.
From S2P Require Import Slots Integrity Retention RetentionProofs Compaction Reachable Reviews.

(** The attempt has not passed the point where a process could exist. *)
Definition before_process (a : option AttemptRow) : bool :=
  is_some_and (λ a, DispatchPhase.effect_is_proven_absent (a_dispatch_phase a)) a.

(** The decision in terms of the two facts it needs of the attempt. *)
Lemma recovery_decision_cases `{E : Externals} t a kind :
  let state := t_state t in
  let deny := bool_decide (kind = Some "deny") in
  let granted := bool_decide (kind ∈ [Some "approve"; Some "text"]) in
  let open := bool_decide (kind = None) || granted in
  let cancel := bool_decide (is_Some (t_cancel_requested_at t)) in
  (before_process a = true → is_some_and resume_proven a = false) →
  recovery_decision t a kind =
    match state with
    | CancelRequested => Some FinalizeCancellation
    | Finalizing => Some (if cancel then FinalizeCancellation else RNeedsAttention)
    | _ =>
        if is_some_and resume_proven a then Some ResumeSession
        else if before_process a then
          if deny then Some FinalizeCancellation
          else match state with
               | WaitingApproval => if open then None else Some RetrySafe
               | Running => if granted then None else Some RetrySafe
               | _ => Some RetrySafe
               end
        else Some RNeedsAttention
    end.
Proof.
  intros state deny granted open cancel Hexcl. unfold recovery_decision.
  assert (is_some_and (λ a, bool_decide (a_dispatch_phase a ∈ [PreDispatch; SpawnPrepared])) a = before_process a)
    as ->.
  { destruct a as [a|]; [|done]. cbn. by destruct (a_dispatch_phase a). }
  cbv zeta. fold deny granted cancel state. change (bool_decide (kind = None) || granted) with open.
  generalize (is_some_and (λ a, String.eqb (a_effect_profile a) "CURRENT_DIRECTORY") a). intros curdir.
  revert Hexcl. generalize (before_process a), (is_some_and resume_proven a). intros pre proven Hexcl.
  destruct state; cbn; try reflexivity; destruct cancel, proven, pre, curdir, deny; cbn; try reflexivity;
    destruct open, granted; reflexivity.
Qed.

(** C13: the recovery decision, exactly.  A crashed task is retried only when its attempt is
    still before the process start and neither denied nor waiting for (or already granted)
    an approval; its session is resumed only with the complete durable proof: the provider
    was observed, receipt and session are recorded and the stored proof is the digest of
    the attempt's adapter, version, configuration and capability; it is cancelled exactly
    when a cancellation was requested or a preflight approval was denied.  A task in
    FINALIZING or CANCEL_REQUESTED is never retried or resumed. *)
Theorem recovery_decision_exact `{E : Externals} t a kind :
  (recovery_decision t a kind = Some RetrySafe ↔
     t_state t ∉ [CancelRequested; Finalizing] ∧
     (∃ a', a = Some a' ∧ DispatchPhase.effect_is_proven_absent (a_dispatch_phase a') = true) ∧
     kind ≠ Some "deny" ∧
     ¬ (t_state t = WaitingApproval ∧ kind ∈ [None; Some "approve"; Some "text"]) ∧
     ¬ (t_state t = Running ∧ kind ∈ [Some "approve"; Some "text"])) ∧
  (recovery_decision t a kind = Some ResumeSession ↔
     t_state t ∉ [CancelRequested; Finalizing] ∧
     ∃ a' session capability, a = Some a' ∧ a_dispatch_phase a' = ProviderObserved ∧
       is_Some (a_process_receipt a') ∧ a_provider_session a' = Some session ∧ session ≠ "" ∧
       a_resumable_capability_digest a' = Some capability ∧ capability ≠ "" ∧
       a_resume_proof_digest a' = Some (resume_proof a' capability)) ∧
  (recovery_decision t a kind = Some FinalizeCancellation ↔
     t_state t = CancelRequested ∨
     (t_state t = Finalizing ∧ is_Some (t_cancel_requested_at t)) ∨
     (t_state t ∉ [CancelRequested; Finalizing] ∧ kind = Some "deny" ∧
      ∃ a', a = Some a' ∧ DispatchPhase.effect_is_proven_absent (a_dispatch_phase a') = true)).
Proof.
  assert ((∃ a' session capability, a = Some a' ∧ a_dispatch_phase a' = ProviderObserved ∧
       is_Some (a_process_receipt a') ∧ a_provider_session a' = Some session ∧ session ≠ "" ∧
       a_resumable_capability_digest a' = Some capability ∧ capability ≠ "" ∧
       a_resume_proof_digest a' = Some (resume_proof a' capability)) ↔
     is_some_and resume_proven a = true) as ->.
  { destruct a as [a|]; [|cbn; naive_solver]. cbn. unfold resume_proven.
    rewrite !andb_true_iff, !bool_decide_eq_true. unfold is_some_and.
    destruct (a_provider_session a) as [ses|] eqn:Hses, (a_resumable_capability_digest a) as [cap|] eqn:Hcap;
      simpl; rewrite ?negb_true_iff, ?String.eqb_neq; naive_solver. }
  assert ((∃ a', a = Some a' ∧ DispatchPhase.effect_is_proven_absent (a_dispatch_phase a') = true) ↔
     before_process a = true) as ->.
  { destruct a as [a|]; cbn; naive_solver. }
  assert (kind ∈ [None; Some "approve"; Some "text"] ↔ kind = None ∨ kind ∈ [Some "approve"; Some "text"]) as ->
    by set_solver.
  assert (before_process a = true → is_some_and resume_proven a = false) as Hexcl.
  { destruct a as [a|]; [|done]. cbn. unfold resume_proven. by destruct (a_dispatch_phase a). }
  rewrite recovery_decision_cases by done. cbv zeta.
  assert (∀ st, st ∉ [CancelRequested; Finalizing] ↔ st ≠ CancelRequested ∧ st ≠ Finalizing) as -> by set_solver.
  assert (Some "deny" ∉ [Some "approve"; Some "text"]) as Hdeny by set_solver.
  assert (None ∉ [Some "approve"; Some "text"]) as Hnone by set_solver.
  revert Hdeny Hnone. generalize [Some "approve"; Some "text"]. intros granted Hdeny Hnone.
  revert Hexcl. generalize (before_process a), (is_some_and resume_proven a). intros pre proven Hexcl.
  destruct (t_state t); destruct proven, pre; try (specialize (Hexcl eq_refl); discriminate); cbn; repeat case_bool_decide; cbn; subst;
    (split_and!; (split; [intros ?; try discriminate|]); intuition (discriminate || congruence)).
Qed.

(** ** Every reachable store *)

Section reachable.
Context `{E : Externals} `{!Serde ImprovementEngine} `{!Serde CandidateCommandResult}
  `{!Serde RollbackCommandResult}.

(** C1: whatever sequence of calls the daemon makes on a fresh store, and whatever each of
    them answers (errors and environment changes included), the database is sound: every row
    satisfies its constraints, each task's event log is gapless and its row is at the end of
    it, a task has a result and an outbox row exactly when it is terminal and then they agree
    with the terminal event, every attempt belongs to a task and there is at most one per
    generation. *)
Theorem reachable_stores_are_sound calls s : db s = empty_db → db_ok (db (run_calls calls s)).
Proof.
  intros Hs. assert (db_ok (db s)) as Hok by (rewrite Hs; apply empty_db_ok).
  by apply run_calls_ok.
Qed.

(** C9: history is never rewritten.  Whatever came before, along every run of calls, garbage
    collection included, recorded commands are only ever added; and for each task, either its
    whole file has only grown - the task, its attempts, interactions, recorded operations and
    outbox rows stay, their identity and their decided parts unchanged (terminal states,
    dispatch evidence, cancellations, decisions, acknowledgements), the generation and the
    dispatch phases only rise, the event log only grows at its end, and responses, result,
    reviews and request stay as they were - or some call of the run is the collection of garbage
    at which the task, whose file had only grown until then, was expired (terminal,
    acknowledged, ninety days old, held by no lease, without a worktree) and its file was
    removed as a whole and replaced by a tombstone.  A run without collection keeps the whole
    database along the ledger. *)
Theorem history_is_append_only earlier later s id :
  db s = empty_db →
  let s1 := run_calls earlier s in
  let s2 := run_calls later s1 in
  command_dedup (db s1) ⊆ command_dedup (db s2) ∧
  (forallb keeps_history later = true → ledger (db s1) (db s2)) ∧
  (file_evolves (case_file (db s1) id) (case_file (db s2) id) ∨
   ∃ before now after, later = before ++ CMarkGc now :: after ∧ collected_at s1 before now id).
Proof.
  intros Hs s1 s2. assert (db_ok (db s1)) as Hok by (apply run_calls_ok; rewrite Hs; apply empty_db_ok).
  destruct (run_keeps later s1 id Hok) as [Hcmd Hfile]. split; [done|]. split; [|done].
  intros Hlater. exact (proj2 (safe_run_calls later s1 Hlater Hok)).
Qed.

(** C18: a call that is one transaction is atomic: when it fails, with whatever error, the
    database is exactly what it was. *)
Theorem failed_call_changes_nothing call s e s' :
  one_transaction call = true → invoke call s = (inl e, s') → db s' = db s.
Proof. intros Hone. by apply invoke_atomic. Qed.

(** Reopening never quarantines a store over its results: the integrity check succeeds on
    every store the calls can reach. *)
Theorem reachable_stores_pass_integrity_check `{!ExternalsOk E} calls s :
  db s = empty_db →
  integrity_check "ok" (run_calls calls s) = (inr tt, run_calls calls s).
Proof.
  intros Hs. apply integrity_check_ok. split; [done|]. intros id t Ht Hterm. apply db_ok_sound; [|done..].
  assert (db_ok (db s)) as Hok by (rewrite Hs; apply empty_db_ok).
  by apply run_calls_ok.
Qed.
End reachable.

(** C21: the integrity check decides the soundness of the terminal tuples of any store: it
    succeeds exactly when every terminal task has one result, one outbox row and one event at
    its terminal sequence number, that event is a terminal event whose payload is an object
    with exactly the task's state and the result's identity, and result and outbox agree. *)
Theorem integrity_check_exact `{E : Externals} s :
  (∃ s', integrity_check "ok" s = (inr tt, s')) ↔
  ∀ id t, tasks (db s) !! id = Some t → TaskState.is_terminal (t_state t) = true → tuple_sound (db s) id t.
Proof.
  split.
  - intros [s' H]. by apply integrity_check_ok in H as [_ H].
  - intros H. exists s. by apply integrity_check_ok.
Qed.

(** ** Witnesses *)

Definition sample_calls : list Call :=
  [CSubmit "consumer" "submit" "k1" "{}" "t1" None 5 (Some sample_adapter) 1000;
   CClaim "claim-1" "t1" 0 sample_spec sample_limits 2000;
   CTransition "finalizing-1" "t1" 0 ["PREPARING"] "FINALIZING" 5000;
   CFinalize "consumer" "f1" (hash_bytes "finalize") "t1" 0 "SUCCEEDED" (hash_bytes "result") 6000].

Lemma reachable_stores_are_sound_witness :
  length (events (db (run_calls sample_calls sample_start))) = 4%nat ∧
  db_ok (db (run_calls sample_calls sample_start)).
Proof.
  split; [vm_compute; reflexivity|]. exact (reachable_stores_are_sound sample_calls sample_start eq_refl).
Defined.

(** The task runs to its end, its result is reviewed, and after ninety-one days it is collected. *)
Definition sample_later : list Call :=
  drop 2 sample_calls ++
  [CReview "consumer" "v1" (sample_review_command "v1") sample_delivery Accepted None 7000;
   CMarkGc (91 * DAY_US)].

Lemma history_is_append_only_witness :
  let s1 := run_calls (take 2 sample_calls) sample_start in
  let s2 := run_calls sample_later s1 in
  length (f_events (case_file (db s1) "t1")) = 2%nat ∧ case_file (db s2) "t1" = empty_file ∧
  (file_evolves (case_file (db s1) "t1") (case_file (db s2) "t1") ∨
   ∃ before now after, sample_later = before ++ CMarkGc now :: after ∧ collected_at s1 before now "t1").
Proof.
  split; [vm_compute; reflexivity|]. split; [vm_compute; reflexivity|].
  exact (proj2 (proj2 (history_is_append_only (take 2 sample_calls) sample_later sample_start "t1" eq_refl))).
Defined.

(** Finalizing a task that is still queued is refused. *)
Notation sample_refused_call :=
  (CFinalize "consumer" "f1" (hash_bytes "finalize") "t1" 0 "SUCCEEDED" (hash_bytes "result") 6000).

Lemma failed_call_changes_nothing_witness :
  (invoke sample_refused_call sample_queued).1 = inl ErrStaleGeneration ∧
  db (after (invoke sample_refused_call) sample_queued) = db sample_queued.
Proof.
  assert ((invoke sample_refused_call sample_queued).1 = inl ErrStaleGeneration) as H by (vm_compute; reflexivity).
  split; [exact H|].
  exact (failed_call_changes_nothing sample_refused_call sample_queued ErrStaleGeneration _ eq_refl
           (run_after (invoke sample_refused_call) sample_queued (inl ErrStaleGeneration) H)).
Defined.

Lemma reachable_stores_pass_integrity_check_witness :
  length (terminal_tasks (db (run_calls sample_calls sample_start))) = 1%nat ∧
  integrity_check "ok" (run_calls sample_calls sample_start) = (inr tt, run_calls sample_calls sample_start).
Proof.
  split; [vm_compute; reflexivity|].
  exact (reachable_stores_pass_integrity_check sample_calls sample_start eq_refl).
Defined.
