(* ===== verification/Writer.v ===== *)
(** * The writer actor ([writer.rs])

    One thread owns the storage and runs the operations that any number of client threads send
    it through a bounded mailbox; a lifecycle lock linearizes admission with shutdown.  The
    actor is a state machine: an event is one atomic step of one of the threads.  Fields under
    "history" only record what happened. *)

From S2P Require Import Prelude Domain Externals SampleExternals Scheduler Improvement Schema StoreMonad.
From S2P Require Import TaskStore EngineStore EngineOperations SampleSerde Ledger Samples Retention Reachable.

Definition MAILBOX_CAPACITY : nat := 128.

Inductive WriterPhase := PRunning | PShuttingDown | PStopped.
#[export] Instance WriterPhase_eq_dec : EqDecision WriterPhase.
Proof. solve_decision. Defined.

(** What the operating system says about an I/O error. *)
Record OsDetail := mkOsDetail { storage_full : bool; raw_os_error : option Z }.

Definition is_storage_pressure (detail : OsDetail) (error : StorageError) : bool :=
  match error with
  | ErrSqlDiskFull => true
  | ErrIo => storage_full detail || is_some_and (λ code, (code =? 28) || (code =? 112)) (raw_os_error detail)
  | _ => false
  end.

(** [released]: whether [release_reserve] succeeds. *)
Definition latch_detected_storage_pressure (released : bool) (s : Storage) : Storage :=
  (latch_emergency released (meta_updated_at (storage_meta (db s))) s).2.

Definition stopped : StorageError := ErrQuarantined "storage writer stopped".

Section actor.
Context {Reply : Type}.

Inductive Command := Execute (ticket : nat) (operation : M Reply) | Shutdown.

(** An operation that ran: its ticket, and what the system answered if it failed. *)
Record Ran := mkRan { ran_ticket : nat; ran_operation : M Reply; ran_detail : OsDetail; ran_released : bool }.

Record Writer := mkWriter {
  phase : WriterPhase;
  mailbox : list Command;
  (** the storage, while [run] owns it *)
  actor : option Storage;
  (** the receiver is alive: the thread drops it last *)
  listening : bool;
  (** a caller of [shutdown] has changed the phase and not yet sent its command *)
  stopping : bool;
  (** what each call has been answered *)
  replies : gmap nat (StorageError + Reply);
  next_ticket : nat;
  (** history: the operations enqueued, the operations run, whether one unwound *)
  admitted : list (nat * M Reply);
  executed : list Ran;
  unwound : bool;
}.
#[export] Instance Writer_eta : Eta Writer := λ w,
  mkWriter (phase w) (mailbox w) (actor w) (listening w) (stopping w) (replies w) (next_ticket w) (admitted w)
    (executed w) (unwound w).

Definition start_writer (s : Storage) : Writer := mkWriter PRunning [] (Some s) true false ∅ 0 [] [] false.

(** The closure [call] sends: the operation, and the latch when storage is exhausted. *)
Definition run_operation (r : Ran) (s : Storage) : (StorageError + Reply) * Storage :=
  let '(result, s) := ran_operation r s in
  match result with
  | inl error =>
      if is_storage_pressure (ran_detail r) error
      then (inl ErrStorageEmergency, latch_detected_storage_pressure (ran_released r) s)
      else (inl error, s)
  | inr _ => (result, s)
  end.

Inductive Event :=
  | Invoke (operation : M Reply)
  | BeginShutdown
  | SendShutdown
  | Receive (detail : OsDetail) (released : bool)
  | Unwind
  | MarkStopped
  | DropReceiver.

(** [call], up to waiting for the reply: admission under the lifecycle lock *)
Definition enqueue (w : Writer) (operation : M Reply) : Writer :=
  let ticket := next_ticket w in
  let w := w <| next_ticket := S ticket |> in
  let refuse error := w <| replies := <[ticket := inl error]> (replies w) |> in
  if negb (bool_decide (phase w = PRunning)) then refuse stopped
  else
    if negb (listening w) then refuse stopped
    else if (MAILBOX_CAPACITY <=? length (mailbox w))%nat then refuse ErrWriterBackpressure
    else w <| mailbox := mailbox w ++ [Execute ticket operation] |>
           <| admitted := admitted w ++ [(ticket, operation)] |>.

Definition begin_shutdown (w : Writer) : Writer :=
  if bool_decide (phase w = PRunning) then w <| phase := PShuttingDown |> <| stopping := true |> else w.

(** The blocking [send] of [shutdown]: it waits for room and ignores a dead receiver. *)
Definition send_shutdown (w : Writer) : option Writer :=
  if stopping w then
    if listening w then
      if (length (mailbox w) <? MAILBOX_CAPACITY)%nat
      then Some (w <| mailbox := mailbox w ++ [Shutdown] |> <| stopping := false |>)
      else None
    else Some (w <| stopping := false |>)
  else None.

(** [run] returns or unwinds on the command it took: the storage is dropped; the receiver, which
    [run] borrows, stays with what waits in the mailbox. *)
Definition drop_storage (rest : list Command) (w : Writer) : Writer := w <| actor := None |> <| mailbox := rest |>.

(** One round of the loop of [run]. *)
Definition receive (detail : OsDetail) (released : bool) (w : Writer) : option Writer :=
  match actor w, mailbox w with
  | Some s, Execute ticket operation :: rest =>
      let r := mkRan ticket operation detail released in
      let '(reply, s) := run_operation r s in
      Some (w <| mailbox := rest |> <| actor := Some s |> <| replies := <[ticket := reply]> (replies w) |>
              <| executed := executed w ++ [r] |>)
  | Some _, Shutdown :: rest => Some (drop_storage rest w)
  | _, _ => None
  end.

Definition unwind (w : Writer) : option Writer :=
  match actor w, mailbox w with
  | Some _, Execute _ _ :: rest => Some (drop_storage rest w <| unwound := true |>)
  | _, _ => None
  end.

(** The step of the thread once [run] has ended. *)
Definition mark_stopped (w : Writer) : option Writer :=
  match actor w with
  | None => if bool_decide (phase w = PStopped) then None else Some (w <| phase := PStopped |>)
  | Some _ => None
  end.

(** The closure of the thread returns: the receiver goes with what it holds. *)
Definition drop_receiver (w : Writer) : option Writer :=
  if bool_decide (phase w = PStopped) && listening w
  then Some (w <| listening := false |> <| mailbox := [] |>) else None.

Definition step (w : Writer) (e : Event) : option Writer :=
  match e with
  | Invoke operation => Some (enqueue w operation)
  | BeginShutdown => Some (begin_shutdown w)
  | SendShutdown => send_shutdown w
  | Receive detail released => receive detail released w
  | Unwind => unwind w
  | MarkStopped => mark_stopped w
  | DropReceiver => drop_receiver w
  end.

Fixpoint run_events (w : Writer) (events : list Event) : option Writer :=
  match events with
  | [] => Some w
  | e :: events => w ← step w e; run_events w events
  end.

(** What a call with this ticket sees: its reply, or the end of the channel. *)
Definition answer (w : Writer) (ticket : nat) : option (StorageError + Reply) :=
  match replies w !! ticket with
  | Some reply => Some reply
  | None =>
      if (ticket <? next_ticket w)%nat
         && negb (existsb (λ c, match c with Execute t _ => (t =? ticket)%nat | Shutdown => false end) (mailbox w))
      then Some (inl stopped) else None
  end.

Definition is_healthy (w : Writer) : bool := bool_decide (phase w = PRunning).
End actor.
Arguments Command : clear implicits.
Arguments Ran : clear implicits.
Arguments Writer : clear implicits.
Arguments Event : clear implicits.

(** ** The sequential reading *)

Section sequential.
Context {Reply : Type}.
Implicit Types (w : Writer Reply) (e : Event Reply).

(** The operations one after the other: their replies and the storage they leave. *)
Fixpoint sequential (rs : list (Ran Reply)) (s : Storage) : list (nat * (StorageError + Reply)) * Storage :=
  match rs with
  | [] => ([], s)
  | r :: rs =>
      let '(reply, s) := run_operation r s in
      let '(replies, s) := sequential rs s in
      ((ran_ticket r, reply) :: replies, s)
  end.

Lemma sequential_snoc rs r s :
  sequential (rs ++ [r]) s =
    let '(replies, s) := sequential rs s in
    let '(reply, s) := run_operation r s in
    (replies ++ [(ran_ticket r, reply)], s).
Proof.
  revert s. induction rs as [|r' rs IH]; intros s; cbn; [by destruct (run_operation r s)|].
  destruct (run_operation r' s) as [reply s']. rewrite IH.
  destruct (sequential rs s') as [replies s'']. by destruct (run_operation r s'').
Qed.

Definition ticketed (r : Ran Reply) : nat * M Reply := (ran_ticket r, ran_operation r).

(** The operations that wait in a mailbox. *)
Definition waiting (mailbox : list (Command Reply)) : list (nat * M Reply) :=
  omap (λ c, match c with Execute t op => Some (t, op) | Shutdown => None end) mailbox.

Definition is_shutdown (c : Command Reply) : bool :=
  match c with Shutdown => true | Execute _ _ => false end.

Definition no_shutdown (mailbox : list (Command Reply)) : Prop := existsb is_shutdown mailbox = false.

(** How the shutdown command goes with the phase. *)
Definition phase_ok w : Prop :=
  match phase w with
  | PRunning => stopping w = false ∧ no_shutdown (mailbox w)
  | PShuttingDown =>
      if stopping w then no_shutdown (mailbox w)
      else is_Some (actor w) → ∃ ops, mailbox w = ops ++ [Shutdown] ∧ no_shutdown ops
  | PStopped => actor w = None
  end.

(** The invariant: [lost] are the operation that unwound and those dropped with the mailbox. *)
Record writer_inv (s0 : Storage) w (lost : list (nat * M Reply)) : Prop := {
  wi_order : admitted w = map ticketed (executed w) ++ lost ++ waiting (mailbox w);
  wi_lost : is_Some (actor w) ∨ unwound w = false → lost = [];
  wi_dead : actor w = None → unwound w = false → mailbox w = [] ∧ phase w ≠ PRunning ∧ stopping w = false;
  wi_deaf : listening w = false → mailbox w = [] ∧ phase w = PStopped;
  wi_storage : ∀ s, actor w = Some s → s = (sequential (executed w) s0).2;
  wi_replies : ∀ t r, (t, r) ∈ (sequential (executed w) s0).1 → replies w !! t = Some r;
  wi_silent : ∀ t, t ∈ map fst (lost ++ waiting (mailbox w)) → replies w !! t = None;
  wi_distinct : NoDup (map fst (admitted w));
  wi_tickets : ∀ t, t ∈ map fst (admitted w) ∨ is_Some (replies w !! t) → (t < next_ticket w)%nat;
  wi_room : (length (mailbox w) ≤ MAILBOX_CAPACITY)%nat;
  wi_phase : phase_ok w;
}.

Lemma start_inv s : writer_inv s (start_writer s) [].
Proof.
  split; cbn; try done; try lia.
  - by intros s' [= ->].
  - intros t r H. by apply elem_of_nil in H.
  - apply NoDup_nil_2.
  - intros t [H|[x H]]; [by apply elem_of_nil in H|done].
Qed.

Lemma waiting_app m m' : waiting (m ++ m') = waiting m ++ waiting m'.
Proof. apply omap_app. Qed.

Lemma no_shutdown_snoc m c : no_shutdown (m ++ [c]) ↔ no_shutdown m ∧ is_shutdown c = false.
Proof. unfold no_shutdown. rewrite existsb_app. cbn. rewrite orb_false_r. apply orb_false_iff. Qed.

Lemma replies_refuse s0 w lost error :
  writer_inv s0 w lost →
  writer_inv s0 (w <| next_ticket := S (next_ticket w) |>
                   <| replies := <[next_ticket w := inl error]> (replies w) |>) lost.
Proof.
  intros []. split; try done.
  - intros t r H. rec_simpl. rewrite lookup_insert_ne; [by apply wi_replies0|].
    intros <-. apply wi_replies0 in H. specialize (wi_tickets0 (next_ticket w) ltac:(right; by eexists)). lia.
  - intros t H. rec_simpl. rewrite lookup_insert_ne; [by apply wi_silent0|].
    intros <-. assert (next_ticket w < next_ticket w)%nat; [|lia]. apply wi_tickets0. left.
    rewrite wi_order0, map_app. rewrite elem_of_app. by right.
  - intros t H. rec_simpl. rec_simpl_in H. destruct (decide (t = next_ticket w)) as [->|Hne]; [lia|].
    rewrite lookup_insert_ne in H by done. apply wi_tickets0 in H. lia.
Qed.

Lemma enqueue_inv s0 w lost operation : writer_inv s0 w lost → writer_inv s0 (enqueue w operation) lost.
Proof.
  intros Hinv. unfold enqueue. destruct (negb (bool_decide _)) eqn:Hphase; [exact (replies_refuse _ w _ _ Hinv)|].
  destruct (negb (listening _)) eqn:Hlisten; [exact (replies_refuse _ w _ _ Hinv)|].
  destruct (MAILBOX_CAPACITY <=? _)%nat eqn:Hroom; [exact (replies_refuse _ w _ _ Hinv)|].
  apply Nat.leb_gt in Hroom. split_bools. rec_simpl_in Hroom. rec_simpl_in Hlisten.
  assert (phase w = PRunning) as Hrun by done. destruct Hinv.
  assert (∀ t, t ∈ map fst (admitted w) → t ≠ next_ticket w) as Hfresh.
  { intros t Ht ->. specialize (wi_tickets0 (next_ticket w) ltac:(by left)). lia. }
  assert (replies w !! next_ticket w = None) as Hnone.
  { destruct (replies w !! _) eqn:Hr; [|done]. specialize (wi_tickets0 (next_ticket w) ltac:(right; by eexists)). lia. }
  split; rec_simpl; try done.
  - rewrite wi_order0, waiting_app. by rewrite !app_assoc.
  - intros Ha Hu. by destruct (wi_dead0 Ha Hu) as (_ & ? & _).
  - congruence.
  - intros t. rewrite waiting_app, app_assoc, map_app, elem_of_app. cbn. rewrite list_elem_of_singleton.
    intros [Ht| ->]; [|done]. by apply wi_silent0.
  - rewrite map_app. apply NoDup_app. split; [done|]. cbn. split; [|constructor; [apply not_elem_of_nil|apply NoDup_nil_2]].
    intros t Ht. rewrite list_elem_of_singleton. by apply Hfresh.
  - intros t. rewrite map_app, elem_of_app. cbn. rewrite list_elem_of_singleton.
    intros [[Ht| ->]|Ht]; [|lia|]; specialize (wi_tickets0 t); [specialize (wi_tickets0 (or_introl Ht))|
      specialize (wi_tickets0 (or_intror Ht))]; lia.
  - rewrite length_app. cbn. lia.
  - unfold phase_ok in *. rec_simpl. rewrite Hrun in *. destruct wi_phase0. split; [done|].
    by apply no_shutdown_snoc.
Qed.

Lemma begin_shutdown_inv s0 w lost : writer_inv s0 w lost → writer_inv s0 (begin_shutdown w) lost.
Proof.
  intros Hinv. unfold begin_shutdown. case_bool_decide as Hrun; [|done]. destruct Hinv. split; try done; rec_simpl.
  - intros Ha Hu. by destruct (wi_dead0 Ha Hu) as (_ & ? & _).
  - intros Hl. destruct (wi_deaf0 Hl). congruence.
  - unfold phase_ok in *. rec_simpl. rewrite Hrun in wi_phase0. by destruct wi_phase0.
Qed.

Lemma stopping_phase s0 w lost :
  writer_inv s0 w lost → stopping w = true → phase w ≠ PStopped → phase w = PShuttingDown ∧ no_shutdown (mailbox w).
Proof.
  intros [] Hstop Hp. unfold phase_ok in wi_phase0. rewrite Hstop in wi_phase0.
  destruct (phase w); [by destruct wi_phase0|done|done].
Qed.

Lemma send_shutdown_inv s0 w lost w' :
  writer_inv s0 w lost → send_shutdown w = Some w' → writer_inv s0 w' lost.
Proof.
  intros Hinv. unfold send_shutdown. destruct (stopping w) eqn:Hstop; [|done].
  destruct (listening w) eqn:Hlisten.
  - destruct (_ <? _)%nat eqn:Hroom; [|done]. apply Nat.ltb_lt in Hroom. intros [= <-].
    pose proof (stopping_phase _ _ _ Hinv Hstop) as Hph. destruct Hinv. split; rec_simpl; try done.
    + by rewrite waiting_app, app_nil_r.
    + intros Ha Hu. destruct (wi_dead0 Ha Hu) as (_ & _ & ?). congruence.
    + congruence.
    + by rewrite waiting_app, app_nil_r.
    + rewrite length_app. cbn. lia.
    + unfold phase_ok in *. rec_simpl. destruct (phase w); [destruct wi_phase0; congruence| |done].
      intros _. exists (mailbox w). by destruct Hph.
  - intros [= <-]. destruct Hinv. destruct (wi_deaf0 Hlisten) as [Hm Hp]. split; rec_simpl; try done.
    + intros Ha Hu. by destruct (wi_dead0 Ha Hu) as (? & ? & _).
    + unfold phase_ok in *. rec_simpl. by rewrite Hp in *.
Qed.

(** The storage is dropped on a command that was taken: an operation on it is lost. *)
Lemma drop_inv s0 w c rest s :
  writer_inv s0 w [] → actor w = Some s → mailbox w = c :: rest →
  (is_shutdown c = true → rest = []) →
  writer_inv s0 (drop_storage rest w <| unwound := negb (is_shutdown c) || unwound w |>) (waiting [c]).
Proof.
  intros [] Hs Hm Hlast. unfold drop_storage.
  assert (waiting (c :: rest) = waiting [c] ++ waiting rest) as Hw by apply (waiting_app [c]).
  assert (phase w ≠ PStopped) as Hphase by (intros Hp; unfold phase_ok in wi_phase0; rewrite Hp in *; congruence).
  split; rec_simpl; try done.
  - rewrite wi_order0, Hm, Hw. done.
  - intros [[? ?]|Hu]; [done|]. destruct c; [done|done].
  - intros _ Hu. destruct c; [done|]. rewrite Hlast by done. split; [done|].
    unfold phase_ok in wi_phase0. rewrite Hm in wi_phase0. split.
    + intros Hp. rewrite Hp in wi_phase0. by destruct wi_phase0.
    + destruct (phase w); [by destruct wi_phase0| |done]. destruct (stopping w); [|done]. done.
  - intros Hl. by destruct (wi_deaf0 Hl).
  - rewrite <-Hw, <-Hm. done.
  - rewrite Hm in wi_room0. cbn in wi_room0. lia.
  - unfold phase_ok, no_shutdown in *. rec_simpl. rewrite Hm in wi_phase0. cbn [existsb] in wi_phase0.
    destruct (phase w); [destruct wi_phase0 as [? [_ ?]%orb_false_iff]; done| |done].
    destruct (stopping w); [by apply orb_false_iff in wi_phase0 as [_ ?]|]. by intros [].
Qed.

Lemma alive_not_stopped s0 w lost s : writer_inv s0 w lost → actor w = Some s → phase w ≠ PStopped.
Proof. intros [] Hs Hp. unfold phase_ok in wi_phase0. rewrite Hp in wi_phase0. congruence. Qed.

(** The shutdown command is the last one. *)
Lemma shutdown_is_last s0 w lost s rest :
  writer_inv s0 w lost → actor w = Some s → mailbox w = Shutdown :: rest → rest = [].
Proof.
  intros [] Hs Hm. unfold phase_ok in wi_phase0. rewrite Hm in wi_phase0.
  destruct (phase w); [by destruct wi_phase0| |congruence].
  destruct (stopping w); [done|]. destruct wi_phase0 as ([|c ops] & Hops & Hno); [by rewrite Hs|..].
  - by injection Hops.
  - injection Hops as <- _. done.
Qed.

Lemma receive_inv s0 w lost detail released w' :
  writer_inv s0 w lost → receive detail released w = Some w' →
  unwound w' = unwound w ∧ writer_inv s0 w' lost.
Proof.
  intros Hinv. unfold receive. destruct (actor w) as [s|] eqn:Hactor; [|done].
  pose proof (wi_lost _ _ _ Hinv) as Hlost. rewrite Hactor in Hlost. specialize (Hlost (or_introl (mk_is_Some _ _ eq_refl))). subst lost.
  destruct (mailbox w) as [|[ticket operation|] rest] eqn:Hmail; [done| |].
  - destruct (run_operation _ s) as [reply s'] eqn:Hrun. intros [= <-]. split; [done|]. destruct Hinv.
    rewrite Hmail in *. assert (s = (sequential (executed w) s0).2) as Hs by by apply wi_storage0.
    destruct (sequential (executed w) s0) as [past s''] eqn:Hseq. cbn in Hs. subst s''. cbn [fst snd] in *.
    set (r := mkRan ticket operation detail released) in *.
    assert (sequential (executed w ++ [r]) s0 = (past ++ [(ticket, reply)], s')) as Hnext.
    { by rewrite sequential_snoc, Hseq, Hrun. }
    assert (ticket ∉ map fst (waiting rest) ∧ ticket ∉ map ran_ticket (executed w)) as [Hnew Hold].
    { rewrite wi_order0, map_app in wi_distinct0. cbn in wi_distinct0.
      apply NoDup_app in wi_distinct0 as (_ & Hdis & Hrest). apply NoDup_cons in Hrest as [? _].
      split; [done|]. intros Hin. apply (Hdis ticket); [|by apply list_elem_of_here].
      by rewrite map_map. }
    assert (∀ t x, (t, x) ∈ past → t ≠ ticket) as Hpast.
    { intros t x Hin ->. apply wi_replies0 in Hin. rewrite wi_silent0 in Hin; [done|]. apply list_elem_of_here. }
    split; rec_simpl; try done.
    + rewrite wi_order0, map_app, <-app_assoc. done.
    + intros Hl. by destruct (wi_deaf0 Hl).
    + intros s'' [= <-]. by rewrite Hnext.
    + intros t x. rewrite Hnext. cbn. rewrite elem_of_app, list_elem_of_singleton. intros [Hin|[= -> ->]].
      * rewrite lookup_insert_ne by (symmetry; by eapply Hpast). by apply wi_replies0.
      * by rewrite lookup_insert_eq.
    + intros t Ht. rewrite lookup_insert_ne by (intros ->; done).
      apply wi_silent0. by apply list_elem_of_further.
    + intros t. destruct (decide (t = ticket)) as [->|Hne].
      * intros _. apply wi_tickets0. left. rewrite wi_order0, map_app, elem_of_app. right. by apply list_elem_of_here.
      * rewrite lookup_insert_ne by done. apply wi_tickets0.
    + cbn in wi_room0. lia.
    + unfold phase_ok, no_shutdown in *. rec_simpl. rewrite Hmail in wi_phase0.
      destruct (phase w); [by destruct wi_phase0| |congruence].
      destruct (stopping w); [done|]. intros _. destruct wi_phase0 as ([|c ops] & Hops & Hno); [by rewrite Hactor|done|].
      injection Hops as <- ->. by exists ops.
  - intros [= <-]. split; [done|].
    exact (drop_inv s0 w Shutdown rest s Hinv Hactor Hmail (λ _, shutdown_is_last _ _ _ _ _ Hinv Hactor Hmail)).
Qed.

Lemma step_inv s0 w lost e w' : writer_inv s0 w lost → step w e = Some w' → ∃ lost', writer_inv s0 w' lost'.
Proof.
  intros Hinv. destruct e as [op| | |detail released| | |]; cbn [step].
  - intros [= <-]. exists lost. by apply enqueue_inv.
  - intros [= <-]. exists lost. by apply begin_shutdown_inv.
  - intros H. exists lost. by eapply send_shutdown_inv.
  - intros H. exists lost. by destruct (receive_inv _ _ _ _ _ _ Hinv H).
  - unfold unwind. destruct (actor w) as [s|] eqn:Hs; [|done]. destruct (mailbox w) as [|[ticket op|] rest] eqn:Hm; try done.
    intros [= <-]. assert (lost = []) as -> by (apply (wi_lost _ _ _ Hinv); left; by rewrite Hs).
    exists [(ticket, op)]. exact (drop_inv s0 w _ rest s Hinv Hs Hm ltac:(done)).
  - unfold mark_stopped. destruct (actor w) eqn:Hs; [done|]. case_bool_decide; [done|]. intros [= <-].
    exists lost. destruct Hinv. split; try done; rec_simpl.
    + intros Ha Hu. by destruct (wi_dead0 Ha Hu) as (? & _ & ?).
    + intros Hl. by destruct (wi_deaf0 Hl).
  - unfold drop_receiver. destruct (_ && _) eqn:Hc; [|done]. intros [= <-]. split_bools.
    exists (lost ++ waiting (mailbox w)). destruct Hinv. split; rec_simpl; try done.
    + by rewrite app_nil_r.
    + intros Hor. rewrite wi_lost0 by done.
      assert (actor w = None) as Ha by (unfold phase_ok in wi_phase0; by case_match).
      destruct Hor as [[? ?]|Hu]; [congruence|]. by destruct (wi_dead0 Ha Hu) as [-> _].
    + intros Ha Hu. by destruct (wi_dead0 Ha Hu).
    + by rewrite app_nil_r.
    + cbn. lia.
    + unfold phase_ok in *. rec_simpl. by case_match.
Qed.

Lemma run_inv s0 w lost events w' :
  writer_inv s0 w lost → run_events w events = Some w' → ∃ lost', writer_inv s0 w' lost'.
Proof.
  revert w lost. induction events as [|e events IH]; intros w lost Hinv; [intros [= <-]; by exists lost|].
  cbn. destruct (step w e) as [w1|] eqn:Hstep; [|done]. cbn. intros Hrun.
  destruct (step_inv _ _ _ _ _ Hinv Hstep) as [lost1 Hinv1]. by eapply IH.
Qed.

Lemma answer_executed s0 w lost t r :
  writer_inv s0 w lost → (t, r) ∈ (sequential (executed w) s0).1 → answer w t = Some r.
Proof. intros [] Hin. unfold answer. by rewrite (wi_replies0 _ _ Hin). Qed.

Lemma sequential_tickets rs s : map fst (sequential rs s).1 = map ran_ticket rs.
Proof.
  revert s. induction rs as [|r rs IH]; intros s; [done|]. cbn. destruct (run_operation r s) as [reply s'].
  specialize (IH s'). destruct (sequential rs s'). cbn in *. by rewrite IH.
Qed.

(** ** Shutdown *)

(** The steps the threads take on their own, without a new call. *)
Definition internal e : Prop :=
  match e with Invoke _ | BeginShutdown => False | _ => True end.

Definition work_left w : nat :=
  length (mailbox w) + (if stopping w then 2 else 0) + (if listening w then 1 else 0)
  + (if bool_decide (phase w = PStopped) then 0 else 1).

Lemma internal_progress e w w' : internal e → step w e = Some w' → (work_left w' < work_left w)%nat.
Proof.
  destruct e as [op| | |detail released| | |]; intros Hint; try done; cbn [step]; unfold work_left.
  - unfold send_shutdown. destruct (stopping w) eqn:Hstop; [|done]. destruct (listening w) eqn:Hl.
    + destruct (_ <? _)%nat; [|done]. intros [= <-]. rec_simpl. rewrite Hl, length_app. cbn. lia.
    + intros [= <-]. rec_simpl. rewrite Hl. lia.
  - unfold receive. destruct (actor w) as [s|] eqn:Hs; [|done]. destruct (mailbox w) as [|[ticket op|] rest]; [done| |].
    + destruct (run_operation _ s) as [reply s']. intros [= <-]. rec_simpl. cbn. lia.
    + intros [= <-]. unfold drop_storage. rec_simpl. cbn. lia.
  - unfold unwind. destruct (actor w) as [s|] eqn:Hs; [|done]. destruct (mailbox w) as [|[]]; try done.
    intros [= <-]. unfold drop_storage. rec_simpl. cbn. lia.
  - unfold mark_stopped. destruct (actor w) eqn:Hs; [done|]. case_bool_decide; [done|]. intros [= <-].
    rec_simpl. rewrite bool_decide_eq_true_2 by done. lia.
  - unfold drop_receiver. destruct (_ && _) eqn:Hc; [|done]. intros [= <-]. split_bools. rec_simpl. cbn.
    rename select (listening w = true) into Hl. rewrite Hl. lia.
Qed.

Lemma internal_run_bounded events w w' :
  Forall internal events → run_events w events = Some w' → (length events + work_left w' ≤ work_left w)%nat.
Proof.
  intros Hint. revert w. induction Hint as [|e events He _ IH]; intros w; [intros [= <-]; simpl; lia|].
  cbn. destruct (step w e) as [w1|] eqn:Hstep; [|done]. cbn. intros H%IH.
  apply internal_progress in Hstep; [|done]. lia.
Qed.

Lemma internal_phase e w w' :
  internal e → step w e = Some w' → phase w ≠ PRunning → phase w' ≠ PRunning.
Proof.
  destruct e as [op| | |detail released| | |]; intros Hint; try done; cbn [step].
  - unfold send_shutdown. repeat case_match; try done; by intros [= <-].
  - unfold receive. destruct (actor w) as [s|]; [|done]. destruct (mailbox w) as [|[ticket op|] rest]; [done| |];
      [destruct (run_operation _ s)|]; by intros [= <-].
  - unfold unwind. destruct (actor w); [|done]. destruct (mailbox w) as [|[]]; try done. by intros [= <-].
  - unfold mark_stopped. destruct (actor w); [done|]. case_bool_decide; [done|]. by intros [= <-].
  - unfold drop_receiver. case_match; [|done]. by intros [= <-].
Qed.

(** A writer that shuts down is never stuck. *)
Lemma shutdown_progress s0 w lost :
  writer_inv s0 w lost → phase w = PShuttingDown → ∃ e w', internal e ∧ step w e = Some w'.
Proof.
  intros Hinv Hphase. pose proof (wi_phase _ _ _ Hinv) as Hok. unfold phase_ok in Hok. rewrite Hphase in Hok.
  destruct (actor w) as [s|] eqn:Hs.
  - assert (∀ c rest, mailbox w = c :: rest → ∃ e w', internal e ∧ step w e = Some w') as Hreceive.
    { intros c rest Hm. exists (Receive (mkOsDetail false None) false). cbn [step]. unfold receive. rewrite Hs, Hm.
      destruct c as [ticket op|]; [destruct (run_operation _ s)|]; by eexists. }
    destruct (stopping w) eqn:Hstop.
    + destruct (mailbox w) as [|c rest] eqn:Hm; [|by eapply Hreceive].
      exists SendShutdown. cbn [step]. unfold send_shutdown. rewrite Hstop, Hm. destruct (listening w); by eexists.
    + destruct Hok as (ops & Hmail & _); [by eexists|]. destruct ops; by eapply Hreceive.
  - exists MarkStopped. eexists. split; [done|]. cbn [step]. unfold mark_stopped.
    rewrite Hs, bool_decide_eq_false_2; [done|congruence].
Qed.

(** C22: shutting down drains the mailbox and ends.  Take any reachable state of the actor, with
    any number of calls under way, in which the shutdown has begun.  Whatever the threads do
    next without new calls, they do it in at most (waiting commands + 4) steps; they cannot
    stop before the writer is stopped; and once it is, unless an operation has unwound, every
    operation that was ever admitted has been run and its call has been answered with its
    result, in admission order, while a new call is answered that the writer is stopped. *)
Theorem shutdown_drains_and_ends s0 before w events w' :
  run_events (start_writer s0) before = Some w → phase w ≠ PRunning →
  Forall internal events → run_events w events = Some w' →
  (length events ≤ length (mailbox w) + 4)%nat ∧
  ((∀ e, internal e → step w' e = None) → phase w' = PStopped) ∧
  (phase w' = PStopped →
   (unwound w' = false →
    admitted w' = map ticketed (executed w') ∧
    ∀ t r, (t, r) ∈ (sequential (executed w') s0).1 → answer w' t = Some r) ∧
   ∀ operation, answer (enqueue w' operation) (next_ticket w') = Some (inl stopped)).
Proof.
  intros Hrun Hphase Hint Hrun'.
  destruct (run_inv _ _ _ _ _ (start_inv s0) Hrun) as [lost Hinv].
  destruct (run_inv _ _ _ _ _ Hinv Hrun') as [lost' Hinv'].
  split; [|split].
  - apply internal_run_bounded in Hrun'; [|done]. unfold work_left in Hrun'.
    destruct (stopping w), (listening w), (bool_decide (phase w = PStopped)); lia.
  - intros Hstuck. destruct (phase w') eqn:Hphase'; [exfalso| |done].
    + clear Hstuck Hinv Hinv' Hrun. revert w Hphase Hrun'.
      induction Hint as [|e events He _ IH]; intros w Hphase; [by intros [= ->]|].
      cbn. destruct (step w e) as [w1|] eqn:Hstep; [|done]. cbn. apply IH. by eapply internal_phase.
    + destruct (shutdown_progress _ _ _ Hinv' Hphase') as (e & w1 & He & Hstep). by rewrite Hstuck in Hstep.
  - intros Hstop. split.
    + intros Hunwound. split; [|intros t r; by eapply answer_executed].
      pose proof (wi_phase _ _ _ Hinv') as Hok. unfold phase_ok in Hok. rewrite Hstop in Hok.
      destruct (wi_dead _ _ _ Hinv' Hok Hunwound) as [Hm _].
      rewrite (wi_order _ _ _ Hinv'), Hm, (wi_lost _ _ _ Hinv') by by right. by rewrite !app_nil_r.
    + intros operation. unfold enqueue. rec_simpl. rewrite Hstop. cbn [negb]. rewrite bool_decide_eq_false_2 by done.
      cbn [negb]. unfold answer. rec_simpl. by rewrite lookup_insert_eq.
Qed.
End sequential.

(** ** The writer over the storage calls *)

Section admitted.
Context {Reply : Type} (P : M Reply → Prop).

Lemma step_admitted (w w' : Writer Reply) e :
  Forall (λ to, P to.2) (admitted w) → match e with Invoke op => P op | _ => True end →
  step w e = Some w' → Forall (λ to, P to.2) (admitted w').
Proof.
  intros Hw He. destruct e as [op| | |detail released| | |]; cbn [step].
  - intros [= <-]. unfold enqueue. do 2 (destruct (negb _); [done|]).
    destruct (_ <=? _)%nat; [done|]. rec_simpl. apply Forall_app. split; [done|]. by apply Forall_singleton.
  - intros [= <-]. unfold begin_shutdown. by case_bool_decide.
  - unfold send_shutdown. repeat case_match; try done; by intros [= <-].
  - unfold receive. destruct (actor w) as [s|]; [|done]. destruct (mailbox w) as [|[ticket op|] rest]; [done| |];
      [destruct (run_operation _ s)|]; by intros [= <-].
  - unfold unwind. destruct (actor w); [|done]. destruct (mailbox w) as [|[]]; try done. by intros [= <-].
  - unfold mark_stopped. destruct (actor w); [done|]. case_bool_decide; [done|]. by intros [= <-].
  - unfold drop_receiver. case_match; [|done]. by intros [= <-].
Qed.

Lemma Forall_ticketed (rs : list (Ran Reply)) :
  Forall (λ to, P to.2) (map ticketed rs) → Forall (λ r, P (ran_operation r)) rs.
Proof. induction rs as [|r rs IH]; [by constructor|]. intros [? ?]%Forall_cons. constructor; [done|by apply IH]. Qed.

Lemma run_admitted (w w' : Writer Reply) events :
  Forall (λ to, P to.2) (admitted w) → Forall (λ e, match e with Invoke op => P op | _ => True end) events →
  run_events w events = Some w' → Forall (λ to, P to.2) (admitted w').
Proof.
  intros Hw He. revert w Hw. induction He as [|e events He _ IH]; intros w Hw; [by intros [= <-]|].
  cbn. destruct (step w e) as [w1|] eqn:Hstep; [|done]. cbn. apply IH. by eapply step_admitted.
Qed.
End admitted.

Section calls.
Context `{E : Externals} `{!Serde ImprovementEngine} `{!Serde CandidateCommandResult}
  `{!Serde RollbackCommandResult}.

Definition is_call (operation : M unit) : Prop := ∃ call, operation = invoke call.

Lemma run_operation_calls r s :
  is_call (ran_operation r) → ∃ calls, (run_operation r s).2 = run_calls calls s.
Proof.
  intros [call Hcall]. unfold run_operation. rewrite Hcall. destruct (invoke call s) as [[error|[]] s'] eqn:Hrun.
  - destruct (is_storage_pressure _ _).
    + exists [call; CLatchEmergency (ran_released r) (meta_updated_at (storage_meta (db s')))].
      unfold run_calls. cbn. rewrite Hrun. cbn. unfold latch_detected_storage_pressure, ignore.
      unfold mbind, M_bind. cbn. by destruct (latch_emergency _ _ s') as [[]].
    + exists [call]. unfold run_calls. cbn. by rewrite Hrun.
  - exists [call]. unfold run_calls. cbn. by rewrite Hrun.
Qed.

Lemma sequential_calls rs s :
  Forall (λ r, is_call (ran_operation r)) rs → ∃ calls, (sequential rs s).2 = run_calls calls s.
Proof.
  intros Hrs. revert s. induction Hrs as [|r rs Hr _ IH]; intros s; [by exists []|]. cbn.
  destruct (run_operation_calls r s Hr) as [calls Hcalls]. destruct (run_operation r s) as [reply s']. cbn in Hcalls.
  destruct (IH s') as [calls' Hcalls']. destruct (sequential rs s') as [replies s'']. cbn in *.
  exists (calls ++ calls'). unfold run_calls in *. by rewrite fold_left_app, <-Hcalls.
Qed.

(** C2: any number of concurrent clients see one sequential store.  In every state the actor
    can reach, whatever the interleaving of calls, shutdowns and unwinding operations, the
    operations that ran are the first of those admitted, in admission order; each of their
    calls is answered what the operation answers in that sequential run, every other admitted
    call waits or learns that the writer stopped; the mailbox never exceeds its capacity; and
    the storage the actor owns is the one of the sequential run, which is a run of the storage
    calls (with an emergency latch after an operation that exhausted the disk) and therefore
    sound. *)
Theorem writer_is_sequential s0 events w :
  db s0 = empty_db →
  Forall (λ e, match e with Invoke op => is_call op | _ => True end) events →
  run_events (start_writer s0) events = Some w →
  (∃ rest, admitted w = map ticketed (executed w) ++ rest ∧
     ∀ t, t ∈ map fst rest → answer w t = None ∨ answer w t = Some (inl stopped)) ∧
  (∀ t r, (t, r) ∈ (sequential (executed w) s0).1 → answer w t = Some r) ∧
  map fst (sequential (executed w) s0).1 = map ran_ticket (executed w) ∧
  NoDup (map fst (admitted w)) ∧ (length (mailbox w) ≤ MAILBOX_CAPACITY)%nat ∧
  ∀ s, actor w = Some s →
    s = (sequential (executed w) s0).2 ∧ ∃ calls, s = run_calls calls s0 ∧ db_ok (db s).
Proof.
  intros Hempty Hcalls Hrun.
  destruct (run_inv _ _ _ _ _ (start_inv s0) Hrun) as [lost Hinv].
  assert (Forall (λ to, is_call to.2) (admitted w)) as Hadmitted
    by (eapply (run_admitted is_call); [|done..]; apply Forall_nil_2).
  split; [|split; [|split; [apply sequential_tickets|]]].
  - eexists. split; [apply (wi_order _ _ _ Hinv)|]. intros t Ht. unfold answer.
    rewrite (wi_silent _ _ _ Hinv) by done. destruct (_ && _); [by right|by left].
  - intros t r. by apply answer_executed with lost.
  - split; [apply (wi_distinct _ _ _ Hinv)|]. split; [apply (wi_room _ _ _ Hinv)|]. intros s Hs.
    pose proof (wi_storage _ _ _ Hinv s Hs) as ->. split; [done|].
    rewrite (wi_order _ _ _ Hinv) in Hadmitted. apply Forall_app in Hadmitted as [Hexecuted _].
    apply Forall_ticketed in Hexecuted. destruct (sequential_calls (executed w) s0 Hexecuted) as [calls ->].
    exists calls. split; [done|]. apply run_calls_ok. rewrite Hempty. apply empty_db_ok.
Qed.
End calls.

(** ** A run: two calls, a shutdown between them and a call that comes too late *)

Definition no_detail : OsDetail := mkOsDetail false None.

Definition sample_submission : Call :=
  CSubmit "consumer" "submit" "k1" "{}" "t1" None 5 (Some sample_adapter) 1000.
Definition sample_claiming : Call := CClaim "claim-1" "t1" 0 sample_spec sample_limits 2000.

Definition sample_before : list (Event unit) :=
  [Invoke (invoke sample_submission); Invoke (invoke sample_claiming); Receive no_detail true;
   BeginShutdown; Invoke (invoke sample_submission)].
Definition sample_after : list (Event unit) :=
  [SendShutdown; Receive no_detail true; Receive no_detail true; MarkStopped; DropReceiver].

Definition writer_after (w : Writer unit) (events : list (Event unit)) : Writer unit :=
  default w (run_events w events).

Definition sample_stopping : Writer unit := writer_after (start_writer sample_start) sample_before.
Definition sample_stopped : Writer unit := writer_after sample_stopping sample_after.

Lemma runs_to (w : Writer unit) events :
  (if run_events w events is Some _ then true else false) = true →
  run_events w events = Some (writer_after w events).
Proof. unfold writer_after. by destruct (run_events w events). Qed.

Lemma sample_before_runs : run_events (start_writer sample_start) sample_before = Some sample_stopping.
Proof. apply runs_to. vm_compute. reflexivity. Qed.

Lemma sample_after_runs : run_events sample_stopping sample_after = Some sample_stopped.
Proof. apply runs_to. vm_compute. reflexivity. Qed.

Lemma writer_is_sequential_witness :
  map ran_ticket (executed sample_stopping) = [0%nat] ∧ map fst (admitted sample_stopping) = [0%nat; 1%nat] ∧
  answer sample_stopping 2 = Some (inl stopped) ∧ NoDup (map fst (admitted sample_stopping)).
Proof.
  split; [vm_compute; reflexivity|]. split; [vm_compute; reflexivity|]. split; [vm_compute; reflexivity|].
  refine (proj1 (proj2 (proj2 (proj2 (writer_is_sequential sample_start sample_before sample_stopping
    _ _ sample_before_runs))))).
  - reflexivity.
  - unfold sample_before. repeat constructor; by eexists.
Defined.

Lemma shutdown_drains_and_ends_witness :
  phase sample_stopped = PStopped ∧ (length sample_after ≤ length (mailbox sample_stopping) + 4)%nat ∧
  admitted sample_stopped = map ticketed (executed sample_stopped).
Proof.
  assert (phase sample_stopped = PStopped) as Hstop by (vm_compute; reflexivity).
  assert (unwound sample_stopped = false) as Hclean by (vm_compute; reflexivity).
  assert (phase sample_stopping ≠ PRunning) as Hphase by (vm_compute; discriminate).
  assert (Forall internal sample_after) as Hint by (unfold sample_after; repeat constructor).
  destruct (shutdown_drains_and_ends sample_start sample_before sample_stopping sample_after sample_stopped
    sample_before_runs Hphase Hint sample_after_runs) as (Hlen & _ & Hend).
  split; [exact Hstop|]. split; [exact Hlen|]. exact (proj1 (proj1 (Hend Hstop) Hclean)).
Defined.
