(* ===== verification/Collecting.v ===== *)
(** * What collection and the emergency latch promise *)

From S2P Require Import Prelude Domain Externals SampleExternals Protocol Scheduler Improvement Schema.
From S2P Require Import StoreMonad Tables TaskStore Lifecycle InteractionStore Recovery Review.
From S2P Require Import EngineStore EngineOperations SampleSerde Ledger Carry TaskProofs EngineProofs.
From S2P Require Import Samples Slots Integrity Retention RetentionProofs Compaction Reachable Reviews.

Section collection.
Context `{E : Externals} `{!Serde ImprovementEngine} `{!Serde CandidateCommandResult}
  `{!Serde RollbackCommandResult}.

(** C10: collecting garbage forgets a task only when it may: every task's rows (the task, its
    events, attempts, interactions, responses, result, outbox, reviews, operations and
    request) are kept exactly, or the task is terminal, its result was acknowledged, it ended
    at least ninety days ago, no unexpired lease holds it and its worktrees are gone; then
    all its rows are removed together and a tombstone with its request digest, final state,
    event position and result digest stays, and the recorded commands stay replayable. *)
Theorem collection_forgets_only_expired_tasks now s cs s' id :
  db_ok (db s) → mark_retention_gc now s = (inr cs, s') →
  command_dedup (db s') = command_dedup (db s) ∧
  ((case_file (db s') id = case_file (db s) id ∧ task_tombstones (db s') !! id = task_tombstones (db s) !! id) ∨
   ∃ t, expired (db s) now id t ∧ case_file (db s') id = empty_file ∧
     task_tombstones (db s') !! id =
       Some (default (tombstone_of t (results (db s) !! id) now) (task_tombstones (db s) !! id))).
Proof.
  intros Hok H. destruct (mark_retention_gc_ok _ _ _ _ H Hok) as [_ Hfiles Hcmd _ _ _].
  split; [done|apply Hfiles].
Qed.

(** C20: a pass of collection is bounded: it marks at most one hundred resources, whose bytes
    fit sixty-four mebibytes unless they are those of a single blob; each marked resource was
    held by no unexpired lease and is fenced by the token the caller is handed. *)
Theorem collection_batch_is_bounded now s cs s' :
  db_ok (db s) → mark_retention_gc now s = (inr cs, s') →
  (length cs ≤ 100)%nat ∧
  (total_bytes cs ≤ 64 * 1024 * 1024 ∨ (length (List.filter is_blob cs) ≤ 1)%nat) ∧
  ∀ c, c ∈ cs → leased (db s) (gc_resource_kind c) (gc_resource_id c) now = false ∧
    marked (db s') (gc_resource_kind c) (gc_resource_id c) = Some (mark_of now c).
Proof.
  intros Hok H. destruct (mark_retention_gc_ok _ _ _ _ H Hok) as [_ _ _ Hmarks Hrows Hbytes].
  split; [done|]. split; [done|]. intros c Hc. destruct (Hmarks c Hc) as [Hun Hrow].
  split; [done|]. unfold marked. by rewrite Hrow.
Qed.

(** C11: nothing a reader holds is ever deleted.  On every store the calls can reach, a
    resource for which a deletion plan is handed out appears in no reader lease, expired or
    not; the plan names the resource asked for and carries the fence of its mark. *)
Theorem deletion_plan_has_no_reader inside kind id calls s plan s' :
  db s = empty_db → prepare_gc_deletion inside kind id (run_calls calls s) = (inr plan, s') →
  (∀ lease, (lease, (kind, id)) ∉ reader_lease_items (retention (db (run_calls calls s)))) ∧
  gc_resource_kind (plan_candidate plan) = kind ∧ gc_resource_id (plan_candidate plan) = id ∧
  ∃ row, marked (db (run_calls calls s)) kind id = Some row ∧
    gi_fence_token row = gc_fence_token (plan_candidate plan).
Proof.
  intros Hs H. assert (db_ok (db (run_calls calls s))) as Hok
    by (apply run_calls_ok; rewrite Hs; apply empty_db_ok).
  unfold prepare_gc_deletion in H. apply bind_reads_ok in H as (row & Hrow & H); [|auto with reads].
  apply query_row_ok in Hrow as [Hrow _]. apply bind_ok in H as (path & s1 & _ & H).
  apply bind_reads_ok in H as ([] & _ & H); [|auto with reads]. apply ret_ok in H as [<- _]. simpl.
  split_and!; [|done|done|by exists row]. intros lease. unfold marked in Hrow.
  destruct (gc_intents _ !! _) as [row'|] eqn:Hk; [|done]. simpl in Hrow. case_bool_decide as Hm; [|done].
  by eapply rt_fenced; [apply ok_retention|..].
Qed.

(** ** The emergency latch *)

(** The calls that take on new work, spend space or delete. *)
Definition needs_normal (call : Call) : bool :=
  match call with
  | CSubmit _ _ _ _ _ _ _ _ _ | CBeginAttempt _ _ _ _ _ _ _ | CClaim _ _ _ _ _ _ | CReclaim _ _ _ _ _ _
  | CRetry _ _ _ _ _ | CEnsureEngine _ _ | CEnsureDefaultEngine _ | CSetImprovement _ _ | CObserve _
  | COpenCase _ _ | CProposeCandidate _ _ | CAssignCanary _ _ | CEvaluate _ _
  | CProposeCommand _ _ _ _ _ | CRollbackCommand _ _ _ _ _ _ | CRegisterWorktree _ _ _ _ _ | CMarkGc _
  | CFinishGc _ _ _ _ => true
  | _ => false
  end.

(** The operation leaves the storage alone while the latch is set. *)
Definition fenced {A} (m : M A) : Prop := ∀ s, emergency s ≠ EmNormal → db (m s).2 = db s.

Lemma fenced_ensure {A} (f : unit → M A) : fenced (ensure_mutation_allowed false ≫= f).
Proof.
  intros s Hs. unfold ensure_mutation_allowed, mbind, M_bind, get_storage, refuse_if.
  by rewrite bool_decide_false by done.
Qed.

Lemma fenced_reads {A} (m : M A) : reads m → fenced m.
Proof. intros Hm s _. by rewrite Hm. Qed.

Lemma fenced_bind {A B} (m : M A) (f : A → M B) : reads m → (∀ a, fenced (f a)) → fenced (m ≫= f).
Proof.
  intros Hm Hf s Hs. unfold mbind, M_bind. specialize (Hm s). destruct (m s) as [[e|a] s1]; simpl in *; subst;
    [done|by apply Hf].
Qed.

Lemma fenced_ignore {A} (m : M A) : fenced m → fenced (ignore m).
Proof.
  intros Hm s Hs. specialize (Hm s Hs). unfold ignore, mbind, M_bind. by destruct (m s) as [[e|a] s1].
Qed.

Lemma submit_fenced c m k r t p prio ad now : fenced (submit_with_request c m k r t p prio ad now).
Proof.
  unfold submit_with_request, submit_inner. apply fenced_bind; [auto with reads|]. intros _.
  apply fenced_bind; [repeat reads_step|]. intros stored.
  apply fenced_bind.
  { apply reads_transaction. apply reads_bind; [auto with reads|]. intros [row|]; [|auto with reads].
    apply reads_bind; [auto with reads|]. intros _. apply reads_bind; auto with reads. }
  intros [sub|]; [apply fenced_reads; auto with reads|apply fenced_ensure].
Qed.

Lemma ensure_engine_fenced policy now : fenced (ensure_improvement_engine policy now).
Proof.
  unfold ensure_improvement_engine, validate_improvement_time. apply fenced_bind; [auto with reads|]. intros _.
  apply fenced_bind; [apply reads_load_optional|]. intros [engine|]; [|apply fenced_ensure].
  apply fenced_reads. repeat reads_step.
Qed.

Lemma ensure_default_fenced now : fenced (ensure_default_improvement_engine now).
Proof.
  unfold ensure_default_improvement_engine, validate_improvement_time. apply fenced_bind; [auto with reads|]. intros _.
  apply fenced_bind; [apply reads_load_optional|]. intros [engine|]; [|apply fenced_ensure]. apply fenced_reads, reads_ret.
Qed.

Lemma mutate_fenced {T} action now (f : ImprovementEngine → T * ImprovementEngine) :
  fenced (mutate_improvement action now f).
Proof.
  unfold mutate_improvement, validate_improvement_time. apply fenced_bind; [auto with reads|]. intros _. apply fenced_ensure.
Qed.

Lemma command_fenced {T} `{!Serde T} c m k cmd loc action now f :
  fenced (improvement_command (T:=T) c m k cmd loc action now f).
Proof.
  unfold improvement_command, validate_improvement_time. apply fenced_bind; [auto with reads|]. intros _.
  apply fenced_bind; [auto with reads|]. intros _.
  apply fenced_bind; [apply reads_response_replay|]. intros [v|]; [apply fenced_reads, reads_ret|apply fenced_ensure].
Qed.

(** C19: once the emergency latch is set, new work is fenced off: admission, dispatch, retries,
    the improvement engine, worktree registration and collection leave the database exactly
    as it is, whatever they answer, until the emergency is recovered. *)
Theorem emergency_fences_new_work call s :
  emergency s ≠ EmNormal → needs_normal call = true → db (invoke call s).2 = db s.
Proof.
  intros Hs Hcall. revert s Hs. change (fenced (invoke call)).
  destruct call; try discriminate Hcall; cbn [invoke];
    first [ apply fenced_ignore, mutate_fenced | apply fenced_ensure | apply fenced_ignore, fenced_ensure
          | apply mutate_fenced | apply ensure_default_fenced | apply fenced_ignore | idtac ].
  - apply submit_fenced.
  - apply fenced_bind; [auto with reads|]. intros _. apply fenced_ensure.
  - apply fenced_bind; [auto with reads|]. intros _. apply fenced_ensure.
  - apply ensure_engine_fenced.
  - apply fenced_bind; [apply reads_canonical_command|]. intros _. apply command_fenced.
  - apply fenced_bind; [apply reads_canonical_command|]. intros _. apply command_fenced.
Qed.
End collection.

(** ** Witnesses *)

(** A task with a worktree runs to its end and is acknowledged; its worktree is marked after
    eight days and deleted, and after ninety-one days the task itself is collected. *)
Definition sample_acked : list Call :=
  [CSubmit "consumer" "submit" "k1" "{}" "t1" None 5 (Some sample_adapter) 1000;
   CClaim "claim-1" "t1" 0 sample_spec sample_limits 2000;
   CRegisterWorktree "w1" "t1" (Some "/mesh/worktrees/w1") true 3000;
   CTransition "finalizing-1" "t1" 0 ["PREPARING"] "FINALIZING" 5000;
   CFinalize "consumer" "f1" (hash_bytes "finalize") "t1" 0 "SUCCEEDED" (hash_bytes "result") 6000;
   CReview "consumer" "v1" (sample_review_command "v1") sample_delivery Accepted None 7000].

Definition sample_marked : list Call := sample_acked ++ [CMarkGc (8 * DAY_US)].

Definition sample_token : string :=
  match marked (db (run_calls sample_marked sample_start)) "worktree" "w1" with
  | Some row => gi_fence_token row
  | None => ""
  end.

Definition sample_deleted : list Call :=
  sample_marked ++ [CFinishGc (mkGcCandidate "worktree" "w1" 0 sample_token) true None (9 * DAY_US)].

Notation sample_collecting := (mark_retention_gc (91 * DAY_US)).

Lemma sample_collecting_ok : db_ok (db (run_calls sample_deleted sample_start)).
Proof. apply run_calls_ok, sample_start_ok. Qed.

Lemma sample_collecting_runs :
  sample_collecting (run_calls sample_deleted sample_start) =
  (inr [], after sample_collecting (run_calls sample_deleted sample_start)).
Proof. refine (run_after _ _ (inr _) _). vm_compute. reflexivity. Qed.

Lemma collection_forgets_only_expired_tasks_witness :
  (f_task (case_file (db (after sample_collecting (run_calls sample_deleted sample_start))) "t1") = None) ∧
  (∃ t, expired (db (run_calls sample_deleted sample_start)) (91 * DAY_US) "t1" t).
Proof.
  assert (f_task (case_file (db (after sample_collecting (run_calls sample_deleted sample_start))) "t1") = None)
    as Hgone by (vm_compute; reflexivity).
  split; [exact Hgone|].
  destruct (collection_forgets_only_expired_tasks (91 * DAY_US) (run_calls sample_deleted sample_start) []
              (after sample_collecting (run_calls sample_deleted sample_start)) "t1"
              sample_collecting_ok sample_collecting_runs) as [_ [[Hkept _]|(t & Hex & _)]]; [|by exists t].
  exfalso. rewrite Hkept in Hgone. vm_compute in Hgone. discriminate Hgone.
Defined.

Notation sample_marking := (mark_retention_gc (8 * DAY_US)).

Lemma sample_acked_ok : db_ok (db (run_calls sample_acked sample_start)).
Proof. apply run_calls_ok, sample_start_ok. Qed.

Lemma sample_marking_runs :
  sample_marking (run_calls sample_acked sample_start) =
  (inr [mkGcCandidate "worktree" "w1" 0 sample_token], after sample_marking (run_calls sample_acked sample_start)).
Proof. refine (run_after _ _ (inr _) _). vm_compute. reflexivity. Qed.

Lemma collection_batch_is_bounded_witness :
  sample_marking (run_calls sample_acked sample_start) =
    (inr [mkGcCandidate "worktree" "w1" 0 sample_token], after sample_marking (run_calls sample_acked sample_start)) ∧
  leased (db (run_calls sample_acked sample_start)) "worktree" "w1" (8 * DAY_US) = false.
Proof.
  split; [exact sample_marking_runs|].
  destruct (collection_batch_is_bounded (8 * DAY_US) _ _ _ sample_acked_ok sample_marking_runs) as (_ & _ & Hmarks).
  apply (Hmarks (mkGcCandidate "worktree" "w1" 0 sample_token)). by left.
Defined.

Notation sample_plan := (prepare_gc_deletion (λ _, true) "worktree" "w1").

Lemma sample_plan_runs :
  sample_plan (run_calls sample_marked sample_start) =
  (inr (mkGcPlan (mkGcCandidate "worktree" "w1" 0 sample_token) (WorktreePath "/mesh/worktrees/w1")),
   after sample_plan (run_calls sample_marked sample_start)).
Proof. refine (run_after _ _ (inr _) _). vm_compute. reflexivity. Qed.

Lemma deletion_plan_has_no_reader_witness :
  sample_plan (run_calls sample_marked sample_start) =
    (inr (mkGcPlan (mkGcCandidate "worktree" "w1" 0 sample_token) (WorktreePath "/mesh/worktrees/w1")),
     after sample_plan (run_calls sample_marked sample_start)) ∧
  ("lease", ("worktree", "w1")) ∉ reader_lease_items (retention (db (run_calls sample_marked sample_start))).
Proof.
  split; [exact sample_plan_runs|].
  apply (deletion_plan_has_no_reader (λ _, true) "worktree" "w1" sample_marked sample_start _ _ eq_refl sample_plan_runs).
Defined.

(** With the latch set, a submission that would otherwise succeed changes nothing. *)
Notation sample_new_work := (CSubmit "consumer" "submit" "k9" "{}" "t9" None 5 (Some sample_adapter) 9000).

Lemma emergency_fences_new_work_witness :
  (invoke sample_new_work sample_queued).1 = inr tt ∧
  db (invoke sample_new_work (after (latch_emergency true 8000) sample_queued)).2 =
    db (after (latch_emergency true 8000) sample_queued).
Proof.
  split; [vm_compute; reflexivity|].
  apply (emergency_fences_new_work sample_new_work (after (latch_emergency true 8000) sample_queued));
    [vm_compute; discriminate|reflexivity].
Defined.
