(* ===== verification/Publishing.v ===== *)
(** * What the blob store promises *)

From S2P Require Import Prelude Domain Externals SampleExternals Protocol Scheduler Improvement Schema.
From S2P Require Import StoreMonad Tables TaskStore Lifecycle InteractionStore Recovery Review.
From S2P Require Import EngineStore EngineOperations SampleSerde Ledger Carry TaskProofs EngineProofs.
From S2P Require Import Samples Slots Retention RetentionProofs Blobs BlobProofs Staging Startup StartupProofs.
From S2P Require Import Reachable Reviews.

(** The calls on a store with its files: those of the storage, and those of the blob store with what
    the filesystem answered. *)
Inductive WorldCall :=
  | WStore (call : Call)
  | WPublish (io : BlobIo) (bytes : string) (now : Z)
  | WReference (kind owner field digest : string) (now : Z)
  | WRecover (io : BlobIo) (now : Z)
  | WDelete (plan : GcDeletionPlan)
  | WOpen (policy : option QuotaPolicy) (reserve : option Z) (existed created : bool)
      (migrations : StorageError + unit) (quick : string) (foreign : bool) (io : BlobIo) (now : Z).

Section worlds.
Context `{E : Externals} `{!Serde ImprovementEngine} `{!Serde CandidateCommandResult}
  `{!Serde RollbackCommandResult}.

Definition ignored {A} (m : B A) : B unit := m;; mret tt.

Definition perform (call : WorldCall) : B unit :=
  match call with
  | WStore call => on_store (invoke call)
  | WPublish io bytes now => ignored (publish_blob io bytes now)
  | WReference kind owner field digest now => reference_blob kind owner field digest now
  | WRecover io now => recover_staged_blobs io now
  | WDelete plan => delete_planned plan
  | WOpen policy reserve existed created migrations quick foreign io now =>
      open_with_filesystem policy reserve existed created migrations quick foreign io now
  end.

Definition run_world (calls : list WorldCall) (w : World) : World :=
  List.fold_left (λ w call, (perform call w).2) calls w.

Lemma sound_perform call : drives sound (perform call).
Proof.
  destruct call; simpl.
  - intros w [Hok Haddr]. split; [by apply invoke_ok|exact Haddr].
  - refine (drives_bind sound _ _ _ _); [apply sound_publish_blob|]. intros ?. apply drives_ret; apply _.
  - apply sound_reference_blob.
  - apply sound_recover.
  - unfold delete_planned. destruct (plan_path plan); [apply sound_remove|apply drives_ret; apply _].
  - apply sound_open.
Qed.

(** C17: the file at a blob's path always holds the content whose digest names it.  It holds
    after every sequence of calls on an empty store, reopening included, whatever the
    filesystem answers and wherever a publication or a recovery stops: no partial content is
    ever visible there.
    The database is sound throughout. *)
Theorem blob_files_are_content_addressed calls w digest bytes :
  db (store w) = empty_db → files w = ∅ → is_lower_sha256 digest = true →
  files (run_world calls w) !! blob_path digest = Some bytes →
  sha256_hex bytes = digest ∧ db_ok (db (store (run_world calls w))).
Proof.
  intros Hd Hf Hlow Hfile. assert (world_ok (run_world calls w)) as [Hok Haddr]; [|by split; [apply Haddr|]].
  clear Hfile. assert (world_ok w) as Hw.
  { split; [rewrite Hd; apply empty_db_ok|]. intros dg b _. by rewrite Hf, lookup_empty. }
  clear Hd Hf. revert w Hw. induction calls as [|call calls IH]; intros w Hw; [done|].
  apply IH. by apply sound_perform.
Qed.

(** What is published reads back: a successful publication answers the digest of the
    bytes, the blob is recorded, and reading that digest returns content of that digest and
    length (the bytes themselves, up to a collision of the hash). *)
Theorem published_blob_reads_back `{!ExternalsOk E} io bytes now w digest w' :
  publish_blob io bytes now w = (inr digest, w') →
  digest = sha256_hex bytes ∧ is_Some (blob_objects (retention (db (store w'))) !! digest) ∧
  ∃ content, read_blob digest w' = (inr content, w') ∧ sha256_hex content = sha256_hex bytes ∧
    str_len content = str_len bytes.
Proof.
  intros H. apply publish_blob_ok in H as (-> & Hrow & content & Hf & Hd & Hl).
  split; [done|]. split; [done|]. exists content. split; [by apply read_blob_run|done].
Qed.

(** C16: interrupted publications are settled by the next start.  Take any run from a world without
    staging rows: publications, each with whole writes and under a staging name not in use, that
    succeed or stop at any other of their filesystem calls; recoveries that stop anywhere; the
    loss or deletion of files; any calls that touch neither staging rows nor files.  Whatever it
    left, the recovery with a working filesystem succeeds and leaves no staging row; every blob
    file in place stays; for every row that was left, if its file was staged or in place, the
    content that was to be published is in place under its digest and is recorded; no file
    appears but these; and no staged file of another name is touched.  It is assumed that no two
    of the contents published in the run have the same digest, and that no write stops half way
    (such a write blocks the recovery). *)
Theorem interrupted_publications_converge `{!ExternalsOk E} contents w0 w later :
  collision_free contents → staging_of w0 = ∅ → rtc (publishing contents) w0 w →
  ∃ w2, recover_staged_blobs io_fine later w = (inr tt, w2) ∧ staging_of w2 = ∅ ∧
    (∀ digest bytes, files w !! blob_path digest = Some bytes → files w2 !! blob_path digest = Some bytes) ∧
    (∀ id row, staging_of w !! id = Some row →
       is_Some (files w !! blob_path (sg_expected_hash row)) ∨ is_Some (files w !! stage_path (sg_file_name row)) →
       ∃ bytes, contents bytes ∧ files w2 !! blob_path (sg_expected_hash row) = Some bytes ∧
         sha256_hex bytes = sg_expected_hash row ∧ str_len bytes = sg_byte_length row ∧
         is_Some (blobs_of w2 !! sg_expected_hash row)) ∧
    (∀ path bytes, files w2 !! path = Some bytes → files w !! path = Some bytes ∨
       ∃ id row, staging_of w !! id = Some row ∧ path = blob_path (sg_expected_hash row) ∧
         files w !! stage_path (sg_file_name row) = Some bytes) ∧
    (∀ name, (∀ id row, staging_of w !! id = Some row → sg_file_name row ≠ name) →
       files w2 !! stage_path name = files w !! stage_path name).
Proof.
  intros Hfree Hw0 Hrun. pose proof (publishing_ok contents w0 w Hfree Hw0 Hrun) as Hok.
  destruct (recover_all contents later w Hfree Hok) as (w2 & Hrec & Hst & [_ Hkept _ Hstaged Hnew Hsettled]).
  exists w2. do 3 (split; [done|]). split_and!.
  - intros id row Hrow Hpresent. destruct (Hsettled id row) as (bytes & Hf & (Hc & Hd & Hl) & Hb); [by apply staged_blobs_elem|done|].
    exists bytes. done.
  - intros path bytes [H|(id & row & Hin & -> & H)]%Hnew; [by left|right]. apply staged_blobs_elem in Hin. by exists id, row.
  - intros name Hname. apply Hstaged. intros id row Hin%staged_blobs_elem. by apply (Hname id).
Qed.

(** C15: a store is handed out only with its evidence complete.  After a successful opening
    every task still to be run has exactly the request its digest names; every interaction has its
    metadata, an answered one has a stored response whose bytes have the recorded length, kind and
    digest, and exactly one recorded command, the one that the durable rows put together again,
    with this response and with the digest it was accepted under; an interaction that is not
    answered has no response; every acknowledged result has the review whose reconstructed
    command is the one recorded command about it, a result that is not acknowledged has none;
    and every referenced blob is on disk with its recorded length and content. *)
Theorem opened_store_has_evidence policy reserve existed created migrations quick foreign io now w w' :
  open_with_filesystem policy reserve existed created migrations quick foreign io now w = (inr tt, w') →
  (∀ id t, tasks (db (store w')) !! id = Some t → TaskState.is_terminal (t_state t) = false →
     request_bound (db (store w')) id t) ∧
  (∀ id i a, (id, i, a) ∈ evidence_rows (db (store w')) → interaction_bound (db (store w')) id i a) ∧
  (∀ consumer id o, result_outbox (db (store w')) !! (consumer, id) = Some o →
     review_bound (db (store w')) consumer id o) ∧
  (∀ hash row, (hash, row) ∈ mandatory_blobs (db (store w')) → blob_present w' hash row).
Proof.
  intros H. apply b_bind_ok in H as (? & ? & _ & H). apply b_bind_ok in H as (? & w0 & _ & H).
  apply startup_ok in H as (w1 & Hreq & Hint & Hrev & Hblobs & Hfiles & [Ht Hq Ha Hi Hs Ho Hv Hc Hb Hret]).
  split_and!.
  - intros id t' Ht' Hnt. destruct (Ht _ _ Ht') as (t & Ht1 & Hd & Hterm). rewrite Hterm in Hnt.
    destruct (request_check_ok _ _ _ _ Hreq Ht1 Hnt) as (r & Hr). exists r. by rewrite Hq, Hd.
  - intros id i a Hin. unfold evidence_rows in Hin. rewrite Hi, Ha in Hin. fold (evidence_rows (db (store w1))) in Hin.
    unfold interaction_bound, response_evidence, bindings. rewrite Hs, Hc. by eapply interaction_check_ok.
  - intros consumer id o Hout. rewrite Ho in Hout. unfold review_bound, bindings. rewrite Hv, Hc. by eapply review_check_ok.
  - intros hash row Hin. unfold mandatory_blobs in Hin. rewrite Hret, Hb in Hin.
    unfold blob_present. rewrite Hfiles. by apply Hblobs.
Qed.
End worlds.

(** ** Witnesses *)

Definition sample_world : World := mkWorld sample_start ∅.

(** The world after an operation. *)
Definition leaves {A} (m : B A) (w : World) : World := (m w).2.

Lemma run_leaves {A} (m : B A) w r : (m w).1 = r → m w = (r, leaves m w).
Proof. unfold leaves. intros <-. by destruct (m w). Qed.

Notation sample_publish := (publish_blob io_fine "hello" 1000).

Lemma sample_publish_runs :
  sample_publish sample_world = (inr (sha256_hex "hello"), leaves sample_publish sample_world).
Proof. refine (run_leaves _ _ (inr _) _). vm_compute. reflexivity. Qed.

Lemma blob_files_are_content_addressed_witness :
  files (run_world [WPublish io_fine "hello" 1000] sample_world) !! blob_path (sha256_hex "hello") = Some "hello" ∧
  db_ok (db (store (run_world [WPublish io_fine "hello" 1000] sample_world))).
Proof.
  assert (files (run_world [WPublish io_fine "hello" 1000] sample_world) !! blob_path (sha256_hex "hello") =
          Some "hello") as Hf by (vm_compute; reflexivity).
  split; [exact Hf|].
  refine (proj2 (blob_files_are_content_addressed [WPublish io_fine "hello" 1000] sample_world
                   (sha256_hex "hello") "hello" eq_refl eq_refl _ Hf)).
  vm_compute. reflexivity.
Defined.

Lemma published_blob_reads_back_witness :
  sample_publish sample_world = (inr (sha256_hex "hello"), leaves sample_publish sample_world) ∧
  is_Some (blob_objects (retention (db (store (leaves sample_publish sample_world)))) !! sha256_hex "hello").
Proof.
  split; [exact sample_publish_runs|].
  exact (proj1 (proj2 (published_blob_reads_back io_fine "hello" 1000 _ _ _ sample_publish_runs))).
Defined.

(** The rename of two staged files fails, the first of them twice. *)
Notation cut_off bytes now := (publish_blob (mkBlobIo true true None false true true) bytes now).

Definition sample_left : World :=
  leaves (cut_off "world" 1200) (leaves (cut_off "hello" 1100) (leaves (cut_off "hello" 1000) sample_world)).

Definition sample_contents (bytes : string) : Prop := bytes ∈ ["hello"; "world"].

Lemma sample_contents_free : collision_free sample_contents.
Proof.
  intros x y Hx Hy H. apply list_elem_of_In in Hx as [<-|[<-|[]]]; apply list_elem_of_In in Hy as [<-|[<-|[]]];
    try reflexivity; vm_compute in H; discriminate.
Qed.

Lemma sample_left_runs : rtc (publishing sample_contents) sample_world sample_left.
Proof.
  assert (∀ w bytes now, sample_contents bytes → files w !! stage_path (uuid_v4 (entropy (store w)) +:+ ".part") = None →
    publishing sample_contents w (leaves (cut_off bytes now) w)) as Hstep by (intros; by apply publishing_blob).
  unfold sample_left. eapply rtc_l; [apply (Hstep _ "hello" 1000); [by left|vm_compute; reflexivity]|].
  eapply rtc_l; [apply (Hstep _ "hello" 1100); [by left|vm_compute; reflexivity]|].
  eapply rtc_l; [apply (Hstep _ "world" 1200); [by right; left|vm_compute; reflexivity]|apply rtc_refl].
Qed.

Lemma interrupted_publications_converge_witness :
  size (staging_of sample_left) = 3%nat ∧ files sample_left !! blob_path (sha256_hex "world") = None ∧
  ∃ w2, recover_staged_blobs io_fine 2000 sample_left = (inr tt, w2) ∧ staging_of w2 = ∅.
Proof.
  split; [vm_compute; reflexivity|]. split; [vm_compute; reflexivity|].
  destruct (interrupted_publications_converge sample_contents sample_world sample_left 2000
              sample_contents_free eq_refl sample_left_runs) as (w2 & Hrun & Hst & _).
  exists w2. split; [exact Hrun|exact Hst].
Defined.

(** A store with a published, referenced blob and an answered interaction is reopened, ... *)
Definition sample_closed : World :=
  run_world [WPublish io_fine "hello" 1000; WReference "result" "r1" "body" (sha256_hex "hello") 1500]
    (mkWorld sample_answered ∅).

(** ... and one with an acknowledged result. *)
Definition sample_acknowledged : World := mkWorld sample_reviewed ∅.

Notation sample_open := (open_with_filesystem None None true true (inr tt) "ok" false io_fine 9000).

Lemma sample_open_runs : sample_open sample_closed = (inr tt, leaves sample_open sample_closed).
Proof. refine (run_leaves _ _ (inr _) _). vm_compute. reflexivity. Qed.

Lemma sample_reopen_runs : sample_open sample_acknowledged = (inr tt, leaves sample_open sample_acknowledged).
Proof. refine (run_leaves _ _ (inr _) _). vm_compute. reflexivity. Qed.

Lemma opened_store_has_evidence_witness :
  let d := db (store (leaves sample_open sample_closed)) in
  let d' := db (store (leaves sample_open sample_acknowledged)) in
  (∃ t, tasks d !! "t1" = Some t ∧ request_bound d "t1" t) ∧
  (∃ id i a, (id, i, a) ∈ evidence_rows d ∧ i_state i = IAnswered ∧ interaction_bound d id i a) ∧
  (∃ o, result_outbox d' !! ("consumer", "t1") = Some o ∧ is_Some (ob_acked_at o) ∧ review_bound d' "consumer" "t1" o) ∧
  (∃ hash row, (hash, row) ∈ mandatory_blobs d ∧ blob_present (leaves sample_open sample_closed) hash row).
Proof.
  destruct (opened_store_has_evidence None None true true (inr tt) "ok" false io_fine 9000 _ _ sample_open_runs)
    as (Hrequests & Hinteractions & _ & Hblobs).
  destruct (opened_store_has_evidence None None true true (inr tt) "ok" false io_fine 9000 _ _ sample_reopen_runs)
    as (_ & _ & Hreviews & _). cbv zeta. split_and!.
  - assert (fmap t_state (tasks (db (store (leaves sample_open sample_closed))) !! "t1") = Some Running) as Hst
      by (vm_compute; reflexivity).
    apply fmap_Some in Hst as (t & Ht & Hst). exists t. split; [exact Ht|]. apply Hrequests; [exact Ht|]. rewrite <-Hst. reflexivity.
  - assert (map (λ x, i_state x.1.2) (evidence_rows (db (store (leaves sample_open sample_closed)))) = [IAnswered]) as Hst
      by (vm_compute; reflexivity).
    destruct (evidence_rows (db (store (leaves sample_open sample_closed)))) as [|[[id i] a] rows]; [discriminate Hst|].
    injection Hst as Hst _. exists id, i, a. split; [left|]. split; [exact Hst|]. apply Hinteractions. left.
  - assert (fmap ob_acked_at (result_outbox (db (store (leaves sample_open sample_acknowledged))) !! ("consumer", "t1")) =
            Some (Some 7000)) as Hacked by (vm_compute; reflexivity).
    apply fmap_Some in Hacked as (o & Ho & Hacked). exists o.
    split; [exact Ho|]. split; [rewrite <-Hacked; eexists; reflexivity|]. apply Hreviews. exact Ho.
  - assert (length (mandatory_blobs (db (store (leaves sample_open sample_closed)))) = 1%nat) as Hlen
      by (vm_compute; reflexivity).
    destruct (mandatory_blobs (db (store (leaves sample_open sample_closed)))) as [|[hash row] rows]; [discriminate Hlen|].
    exists hash, row. split; [left|]. apply Hblobs. left.
Defined.
