(* ===== verification/Drift.v ===== *)
(** * Where the code leaves its own contract

    Concrete runs.  In three of them a store that was closed cleanly between two commits is
    reopened: the projection replayed from the event log is not the state the operation
    committed, [replay_projections] repairs the row wrongly, and [reconcile_nonterminal] then
    acts on the repaired state.  The others are about the blob store: a torn staged file, a
    staged file that is never removed, a failed deletion and a reference taken after a mark. *)

From S2P Require Import Prelude Domain Externals SampleExternals Protocol Scheduler Improvement.
From S2P Require Import Schema StoreMonad Tables TaskStore Lifecycle InteractionStore Recovery.
From S2P Require Import Review EngineStore EngineOperations SampleSerde ReviewProofs EngineProofs.
From S2P Require Import Samples Retention Blobs BlobProofs Reachable Publishing.

Definition state_of (s : Storage) (id : string) : option TaskState := t_state <$> tasks (db s) !! id.

(** [retry_scheduled], the event of [schedule_safe_retry], projects to no state. *)
Lemma retry_scheduled_is_not_projected `{E : Externals} payload state :
  projected_state "retry_scheduled" payload state = inr state.
Proof. reflexivity. Qed.

(** A task waiting for its retry timer is turned back to [PREPARING] when the store is
    reopened, and the reconciliation, which finds no attempt of the new generation, ends it
    [NEEDS_ATTENTION] instead of retrying it. *)
Lemma reopening_loses_a_scheduled_retry :
  let scheduled := after (schedule_safe_retry "retry-1" "t1" 0 8000 3000) sample_preparing in
  let reopened := after (replay_projections 3500) scheduled in
  state_of scheduled "t1" = Some RetryWait ∧ state_of reopened "t1" = Some Preparing ∧
  (reconcile_nonterminal "consumer" 3600 reopened).1 = inr [("t1", RNeedsAttention)].
Proof. vm_compute. done. Qed.

(** A task whose attempt reached [SPAWN_PREPARED] is still [PREPARING]; reopening moves it to
    [RUNNING] and the safe retry the reconciliation chooses fails for want of a row. *)
Lemma reopening_blocks_a_prepared_spawn :
  let prepared := after (record_dispatch_phase "phase-1" "t1" 0 SpawnPrepared None 2500) sample_preparing in
  let reopened := after (replay_projections 3500) prepared in
  state_of prepared "t1" = Some Preparing ∧ state_of reopened "t1" = Some Running ∧
  (reconcile_nonterminal "consumer" 3600 prepared).1 = inr [("t1", RetrySafe)] ∧
  (reconcile_nonterminal "consumer" 3600 reopened).1 = inl ErrSqlNoRows.
Proof. vm_compute. done. Qed.

(** Between the two commits of [expire_interaction] the task is [FINALIZING] but its last
    event projects to [RUNNING]. *)
Lemma reopening_reverts_an_expiry :
  let expired := after (expire_begin preflight_expiry "expire-1" sample_interaction_id 0 9500) sample_waiting in
  let reopened := after (replay_projections 9600) expired in
  state_of expired "t1" = Some Finalizing ∧ state_of reopened "t1" = Some Running ∧
  (reconcile_nonterminal "consumer" 9700 expired).1 = inr [("t1", RNeedsAttention)] ∧
  (reconcile_nonterminal "consumer" 9700 reopened).1 = inl ErrSqlNoRows.
Proof. vm_compute. done. Qed.

(** A publication whose write stops half way (a full disk, a crash) leaves a staging row with
    a torn file, and every later recovery, which every start runs first, fails on it. *)
Notation torn_world := (leaves (publish_blob (mkBlobIo true true (Some 2%nat) true true true) "hello" 1000) sample_world).

Lemma torn_write_blocks_every_start io now :
  (recover_staged_blobs io now torn_world).1 = inl (ErrBlobCorruption (sha256_hex "hello")).
Proof. vm_compute. reflexivity. Qed.

(** A publication whose rename failed is repeated and succeeds: the recovery finds the blob in place,
    drops the staging row and leaves the staged file, which nothing removes any more. *)
Definition repeated_world : World := leaves (publish_blob io_fine "hello" 2000) (leaves (cut_off "hello" 1000) sample_world).

Lemma recovery_keeps_a_staged_file :
  let recovered := leaves (recover_staged_blobs io_fine 3000) repeated_world in
  size (staging_of repeated_world) = 1%nat ∧ size (files repeated_world) = 2%nat ∧
  (recover_staged_blobs io_fine 3000 repeated_world).1 = inr tt ∧
  size (staging_of recovered) = 0%nat ∧ size (files recovered) = 2%nat.
Proof. vm_compute. done. Qed.

(** A blob whose deletion failed once is selected by every later pass, whose mark then violates
    the key of the intents: nothing can be marked or compacted any more. *)
Definition failed_deletion : list WorldCall :=
  [WPublish io_fine "hello" 1000; WStore (CMarkGc (2 * DAY_US))].

Lemma failed_deletion_blocks_collection :
  let marked_world := run_world failed_deletion sample_world in
  match marked (db (store marked_world)) "blob" (sha256_hex "hello") with
  | Some row =>
      let failed := (finish_gc_deletion (mkGcCandidate "blob" (sha256_hex "hello") 5 (gi_fence_token row))
                       false None (2 * DAY_US) (store marked_world)) in
      failed.1 = inr tt ∧ (mark_retention_gc (3 * DAY_US) failed.2).1 = inl ErrSqlConstraint
  | None => False
  end.
Proof. vm_compute. done. Qed.

(** A reference taken between the mark and the deletion of its blob is not seen by the deletion:
    once the file is removed a start finds a mandatory blob missing, and finishing the deletion
    drops the reference silently. *)
Definition late_reference : list WorldCall :=
  [WPublish io_fine "hello" 1000; WStore (CMarkGc (2 * DAY_US));
   WReference "result" "r1" "body" (sha256_hex "hello") (2 * DAY_US)].

Lemma late_reference_is_lost :
  let referenced := run_world late_reference sample_world in
  match (prepare_gc_deletion (λ _, true) "blob" (sha256_hex "hello") (store referenced)).1 with
  | inr plan =>
      let removed := leaves (delete_planned plan) referenced in
      size (blob_refs (db (store referenced))) = 1%nat ∧
      (verify_mandatory_blob_refs removed).1 = inl ErrIo ∧
      size (blob_refs (db (store (run_world
        [WStore (CFinishGc (plan_candidate plan) true None (3 * DAY_US))] removed)))) = 0%nat
  | inl _ => False
  end.
Proof. vm_compute. done. Qed.
